(* ===== verification/_CoqProject ===== *)
-Q . S2P
Prelude.v
Auth.v
Wantlist.v
Hex.v
Proto.v
Message.v
Float64.v
Ledger.v
ScoreLedger.v
TaskMerger.v
BlockstoreManager.v
Engine.v
EngineFacts.v
EngineIndex.v
EngineRun.v
PeerWantManager.v
PeerWantFacts.v
PeerManager.v
BlockPresence.v
SessionInterest.v
SessionWants.v
SessionPeers.v
ConnectEvents.v
SessionWantSender.v
SessionWantSenderFacts.v
SessionWantSenderRun.v
SessionWantSenderBatch.v
SessionWantSenderLoop.v
Session.v
SessionFacts.v
SessionManager.v
SessionManagerFacts.v
Bitswap.v
BitswapFacts.v
MessageQueue.v
MessageQueueFacts.v
MessageQueueRun.v
MessageQueueWire.v
DontHaveTimeout.v
DontHaveTimeoutFacts.v
ProviderQuery.v
ProviderQueryFacts.v
Delivery.v
DeliveryFacts.v
Wire.v
WireFacts.v
Framing.v
Network.v
NetworkFacts.v
VirtualNet.v
VirtualNetFacts.v
BlockstorePool.v
BlockstorePoolFacts.v
Outbox.v
OutboxFacts.v
Startup.v
ScoreWorker.v
Providers.v
Mirror.v
Closing.v
TestSupport.v
Transfer.v
Instances.v
ServerTheorems.v
ClientTheorems.v
SessionTheorems.v
FetchTheorems.v
SearchTheorems.v
WireTheorems.v
TransferTheorems.v
