(* ===== verification/Prelude.v ===== *)
(** * A verification library for go-bitswap-auth

    go-bitswap-auth is a Bitswap node in which every request for a block carries
    a capability.  A [Want] is a pair of a content identifier and a capability;
    peers exchange messages with wantlists, blocks and block presences (HAVE,
    DONT_HAVE).  The program has a serving side, an asking side, and a node that
    connects them.

    ** Serving

    The decision engine keeps a ledger of wants per remote peer and a reverse
    index from wants to peers, turns wants into tasks of a request queue and
    tasks into messages; the blockstore it reads asks an access callback before
    it releases a block.
    - [Auth] (src/auth): wants, blocks, sets and [AuthedBlockstore].
    - [Wantlist] (src/wantlist), [Hex], [Proto] (src/message/pb), [Message]
      (src/message/message.go): wantlists, the in-memory message, its wire structs
      and the conversions in both directions.
    - [Wire], [WireFacts] (src/message/pb/message.pb.go, cid.go): the bytes of the
      wire structs; [Framing]: their frames on a stream (message.go).
    - [Float64], [Ledger], [ScoreLedger], [TaskMerger], [BlockstoreManager],
      [Engine] (src/internal/decision): IEEE doubles, ledgers, accounting and
      scores, the task merger, block reads with faults, and the engine.
    - [EngineFacts], [EngineIndex], [EngineRun]: access control and content of
      envelopes, agreement of ledgers and index, the engine as a state machine.
    - [BlockstorePool] with [BlockstorePoolFacts] (blockstoremanager.go): the
      workers that read the blockstore; [Outbox] with [OutboxFacts] (engine.go,
      src/workers.go): the task workers of engine and node and the channels between
      them; [ScoreWorker] (scoreledger.go): the goroutine that reports scores.

    ** Asking

    Sessions decide what to ask whom; the peer manager records what was asked of
    every peer and feeds one message queue per peer; the queue batches changes
    into messages and simulates DONT_HAVEs for peers that do not answer.
    - [PeerWantManager], [PeerWantFacts], [PeerManager]
      (src/internal/peermanager): the want tracker and the pool of peers, with the
      calls on queues and sessions as events.
    - [MessageQueue], [MessageQueueFacts], [MessageQueueRun], [MessageQueueWire],
      [DontHaveTimeout], [DontHaveTimeoutFacts] (src/internal/messagequeue);
      [Mirror]: a message queue and the engine of the peer it talks to.
    - [BlockPresence], [SessionInterest], [SessionPeers], [ConnectEvents]
      (src/internal/blockpresencemanager, sessioninterestmanager,
      sessionpeermanager, src/network/connecteventmanager.go): shared books.
    - [SessionWants] (cidqueue.go, sessionwants.go and the two trackers of
      src/internal/session), [SessionWantSender] with [SessionWantSenderFacts],
      [SessionWantSenderRun], [SessionWantSenderBatch], [SessionWantSenderLoop]
      (sessionwantsender.go), [Session] with [SessionFacts] (session.go),
      [SessionManager] with [SessionManagerFacts] (src/internal/sessionmanager).
    - [ProviderQuery] with [ProviderQueryFacts] (src/internal/providerquerymanager):
      the search for providers; [Delivery] with [DeliveryFacts]
      (src/internal/notifications, src/internal/getter): handing blocks to clients.
    - [Bitswap] with [BitswapFacts] (src/bitswap.go, workers.go, stat.go): the node.
    - [Network] with [NetworkFacts] (src/network/ipfs_impl.go): streams to and from
      other nodes; [Providers] (ipfs_impl.go, src/testnet/virtual.go): what the
      networks ask of their host and routing; [Transfer]: the way of a block from one
      node to another.
    - [Closing] (src/bitswap.go): requests of clients, and the end of a node.
    - [Startup] (src/bitswap.go, tracer.go, src/internal/defaults): options and the
      start of a node; [VirtualNet] with [VirtualNetFacts] (src/testnet/virtual.go):
      a network of nodes in one process; [TestSupport] (src/internal/testutil,
      src/blocksutil, src/testinstance, the generators and peernet.go of src/testnet):
      what tests are made of.

    ** How the code is represented

    One Record per Go struct, one Definition or Fixpoint per function or method,
    with the source's names; an operation takes the state last and returns the new
    one.  Calls that leave a component (on a queue, the connection manager, the
    peer manager, subscribers) are values of an event type, so a theorem can speak
    about what was said and replay it.  Objects that the code shares are shared:
    pending wants of the timeout manager, message queues and sessions live in a
    store and are referred to by index.  A channel is the list of its elements with
    its capacity (1 for work signals, 128 for session operations and sender
    changes, 256 and 2048 in the providing pipeline); an operation that would block
    returns [None], a goroutine that waits for room is an element of a list and a
    step of its own, and where several cases of a [select] are ready a boolean
    argument chooses.  Machine integers are [Z] with their wrap-around ([uint64],
    [int64], [int32]); scores are IEEE doubles computed with [SpecFloat].  Maps are
    [gmap]; the order in which Go ranges over a map is an unspecified function of
    the map (class [GoRuntime]), so no theorem depends on it.  Concurrency is an
    interleaving of critical sections: each [step] relation lists the operations
    that other goroutines may run in between, and the theorems quantify over all
    its runs.

    Code outside the repository is a class with the laws that are relied on:
    [CidLib] (go-cid), [BlockLib] (go-block-format), [Blockstore] with
    [BlockstoreLaws], [PeerTaskQueue] (go-peertaskqueue), [ScoreLedger] (the
    interface the engine uses, implemented by [Score]), [PubSubLib] with
    [PubSubLaws] (cskr/pubsub), [CidCast], [BufferPool] (go-buffer-pool),
    [MsgReader] with [MsgReaderLaws] (go-msgio), [Host] and [HostCalls] (libp2p),
    [RateLimiterLib] and [MockLib] (libp2p's mock network).  [Instances] and
    the example modules give small executable instances, on which the witnesses of
    the theorems are evaluated.

    ** Theorems

    - [ServerTheorems]: only permitted blocks leave the node; an envelope answers
      its tasks exactly; arriving blocks reach exactly the waiting peers; effect of
      received and sent messages; the index is complete in every reachable state;
      accounts and reported scores are exact; and a lost want when a block arrives
      between the two critical sections of [MessageReceived].
    - [ClientTheorems]: after any run of the peer manager, and once its queue is
      drained, the remote peer's wantlist is what the manager records for it, and so
      is the ledger that the engine of that peer keeps, whatever else the engine
      does, but for what it has answered; the
      manager's index and gauges are exact; draining ends; the run loop is never
      stuck; timeouts are exact and always scheduled; and two races of the queue.
    - [SessionTheorems]: wire round trip and well-formedness of messages; wants,
      presences, interest, peers and connection events of sessions.
    - [FetchTheorems]: the want sender asks a best peer and is never idle without
      reason, the effect of a batch, what is sent; answers reach the sessions that
      wait for them; ending a session cancels exactly the orphans; the node keeps
      only wanted blocks and announces keys in order; and three defects of the
      sessions.
    - [SearchTheorems]: the provider search handles every message and tells every
      caller all providers; clients receive what they asked for, once, and nothing
      gets stuck on the way; and a search that the report of an older one ends.
    - [WireTheorems]: marshalling fills exactly [Size] bytes and is read back, no
      input crashes or hangs the decoder, the messages of a stream arrive as they
      were sent, any stream is handled, and what sending with retries comes to.
    - [TransferTheorems]: the pool of blockstore workers computes the sequential
      result and every call returns; every batch of tasks is given back once; a node
      started with any options serves, and one that is closed settles; the virtual
      network delivers; a block served by one node arrives at another.
    - [Providers] and [TestSupport] end with their own theorems: providers are told
      in order and none is lost before the context ends; matching of lists is
      permutation for lists without repetitions; generated blocks are distinct; test
      instances are connected pairwise.

    ** Bounds and fuel

    [nextEnvelope] takes fuel for the batches that give an empty message; one unit
    is used per such batch, and [envelope_answers_tasks] shows that one unit is
    enough when some task has an answer.  The messages needed to drain a queue are
    bounded by the number of its pending items ([draining_empties_queue]).  Session
    numbers are shown distinct for fewer than [2 ^ 64] sessions.  The loops of the
    decoder take the length of their input as fuel, skipping a field twice that
    length, and a varint eleven turns; [any_bytes_unmarshalled] shows that this is
    always enough.  Slices are taken to be shorter than [2 ^ 62] bytes.

    ** Not modelled

    Logging, metrics (but for the gauges of the blockstore workers) and tracing;
    registration, accessors and text formats of the generated protobuf code;
    interface declarations and type aliases.  The process of goprocess is a flag that
    is set once.  [Mirror] is about a connection that stays up; the score worker
    samples all ledgers in one step, as it holds the lock.
    The provider query manager is modelled until its context is cancelled, and the
    clean-up at that moment.  A batch of the want sender reads one snapshot of the
    block presence manager.  Fused multiply-add, which Go may use on some
    architectures, is not considered in the scores. *)
From stdpp Require Export base tactics gmap fin_maps strings sorting numbers list.
From stdpp Require Import options.
Set Default Goal Selector "1".

(** ** Notations *)

Declare Scope go_scope.
Delimit Scope go_scope with go.
Open Scope go_scope.

(** A Go [byte] slice. *)
Abbreviation bytes := (list Byte.byte).

(** [len(xs)] of a slice or a map, as a Go [int]. *)
Definition len {A} (xs : list A) : Z := Z.of_nat (length xs).

(** A Go function that returns [(value, error)]. *)
Inductive result (E A : Type) : Type :=
| Ok (a : A)
| Err (e : E).
Arguments Ok {E A} a.
Arguments Err {E A} e.

Definition result_bind {E A B} (r : result E A) (k : A → result E B) : result E B :=
  match r with Ok a => k a | Err e => Err e end.

Notation "'let*' x := r 'in' k" := (result_bind r (λ x, k))
  (at level 10, x pattern, r at level 100, k at level 200,
   format "'[v' 'let*'  x  :=  r  'in' '/' k ']'") : go_scope.

(** [strings.Repeat]. *)
Definition strings_Repeat (a : Ascii.ascii) (n : nat) : string :=
  Nat.iter n (String a) EmptyString.

(** ** Machine integers *)

(** Two's-complement wrap-around at [w] bits, and reduction modulo [2^w]. *)
Definition wrap_s (w z : Z) : Z := ((z + 2 ^ (w - 1)) `mod` 2 ^ w - 2 ^ (w - 1))%Z.
Definition wrap_u (w z : Z) : Z := (z `mod` 2 ^ w)%Z.

Definition int32 (z : Z) : Z := wrap_s 32 z.
Definition int64 (z : Z) : Z := wrap_s 64 z.
Definition uint64 (z : Z) : Z := wrap_u 64 z.

Definition MaxInt32 : Z := 2 ^ 31 - 1.
Definition MinInt32 : Z := - 2 ^ 31.

Lemma wrap_s_range w z : (0 < w)%Z → (- 2 ^ (w - 1) ≤ wrap_s w z < 2 ^ (w - 1))%Z.
Proof.
  intros Hw. unfold wrap_s.
  pose proof (Z.mod_pos_bound (z + 2 ^ (w - 1)) (2 ^ w)) as H.
  assert (2 ^ w = 2 * 2 ^ (w - 1))%Z as E.
  { rewrite <- Z.pow_succ_r by lia. f_equal. lia. }
  assert (0 < 2 ^ (w - 1))%Z by (apply Z.pow_pos_nonneg; lia). lia.
Qed.

Lemma wrap_s_id w z :
  (0 < w)%Z → (- 2 ^ (w - 1) ≤ z < 2 ^ (w - 1))%Z → wrap_s w z = z.
Proof.
  intros Hw Hz. unfold wrap_s.
  assert (2 ^ w = 2 * 2 ^ (w - 1))%Z as E.
  { rewrite <- Z.pow_succ_r by lia. f_equal. lia. }
  rewrite Z.mod_small by lia. lia.
Qed.

Lemma int32_range z : (MinInt32 ≤ int32 z ≤ MaxInt32)%Z.
Proof. pose proof (wrap_s_range 32 z ltac:(lia)). unfold int32, MinInt32, MaxInt32. lia. Qed.

Lemma int32_id z : (MinInt32 ≤ z ≤ MaxInt32)%Z → int32 z = z.
Proof. intros. apply wrap_s_id; unfold MinInt32, MaxInt32 in *; lia. Qed.

Lemma int64_id z : (- 2 ^ 63 ≤ z < 2 ^ 63)%Z → int64 z = z.
Proof. intros. apply wrap_s_id; lia. Qed.

Lemma uint64_id z : (0 ≤ z < 2 ^ 64)%Z → uint64 z = z.
Proof. intros. apply Z.mod_small. lia. Qed.

Lemma uint64_range z : (0 ≤ uint64 z < 2 ^ 64)%Z.
Proof. apply Z.mod_pos_bound. lia. Qed.

(** ** Time *)

(** [time.Time] as nanoseconds since the zero time, [time.Duration] as the
    [int64] number of nanoseconds. *)
Abbreviation Time := Z.
Abbreviation Duration := Z.

Definition Time_zero : Time := 0%Z.
Definition Time_IsZero (t : Time) : bool := (t =? 0)%Z.
Definition Time_Before (t u : Time) : bool := (t <? u)%Z.
Definition Time_After (t u : Time) : bool := (u <? t)%Z.
(** [t.Sub(u)] saturates at the bounds of [Duration]. *)
Definition Time_Sub (t u : Time) : Duration := Z.min (Z.max (t - u) (- 2 ^ 63)) (2 ^ 63 - 1).
Definition Time_Add (t : Time) (d : Duration) : Time := (t + d)%Z.

(** ** The run-time behaviour that Go leaves unspecified *)

(** The iteration order of [range] over a map and the order [sort.Sort] gives to
    elements that compare equal are not fixed by the language.  Every operation
    that depends on one takes it from this class; theorems quantify over it. *)
Definition strict_weak_order {A} (less : A → A → bool) : Prop :=
  (∀ x, less x x = false) ∧
  (∀ x y z, less x y = true → less y z = true → less x z = true) ∧
  (∀ x y z, less x y = false → less y z = false → less x z = false).

Class GoRuntime := {
  range : ∀ {K : Type} `{Countable K} {V : Type}, gmap K V → list (K * V);
  range_perm : ∀ {K : Type} `{Countable K} {V : Type} (m : gmap K V),
    range m ≡ₚ map_to_list m;
  keys : ∀ {K : Type} `{Countable K}, gset K → list K;
  keys_perm : ∀ {K : Type} `{Countable K} (s : gset K), keys s ≡ₚ elements s;
  sort_Sort : ∀ {A : Type}, (A → A → bool) → list A → list A;
  sort_perm : ∀ {A : Type} (less : A → A → bool) l, sort_Sort less l ≡ₚ l;
  sort_sorted : ∀ {A : Type} (less : A → A → bool) l,
    strict_weak_order less →
    StronglySorted (λ x y, less y x = false) (sort_Sort less l);
}.

Section runtime.
Context `{GO : GoRuntime} `{Countable K}.

Lemma elem_of_range {V} (m : gmap K V) k v : (k, v) ∈ range m ↔ m !! k = Some v.
Proof. rewrite range_perm. apply elem_of_map_to_list. Qed.

Lemma NoDup_range_keys {V} (m : gmap K V) : NoDup (range m).*1.
Proof. rewrite range_perm. apply NoDup_fst_map_to_list. Qed.

Lemma length_range {V} (m : gmap K V) : length (range m) = size m.
Proof. rewrite range_perm. apply length_map_to_list. Qed.

Lemma elem_of_keys (s : gset K) k : k ∈ keys s ↔ k ∈ s.
Proof. rewrite keys_perm. apply elem_of_elements. Qed.

Lemma NoDup_keys (s : gset K) : NoDup (keys s).
Proof. rewrite keys_perm. apply NoDup_elements. Qed.

Lemma length_keys (s : gset K) : length (keys s) = size s.
Proof. by rewrite keys_perm. Qed.
End runtime.

(** A concrete run-time: maps are traversed in [map_to_list] order and sorting
    is a stable merge sort. *)
Section det.
Context {A : Type} (less : A → A → bool).
Definition not_after (x y : A) : Prop := less y x = false.
#[local] Instance not_after_dec : RelDecision not_after.
Proof. intros x y. unfold not_after. apply _. Defined.
Definition det_sort (l : list A) : list A := merge_sort not_after l.
Lemma det_sort_sorted l :
  strict_weak_order less → StronglySorted (λ x y, less y x = false) (det_sort l).
Proof.
  intros (Hirr & Htr & Hneg).
  assert (Transitive not_after).
  { intros x y z. unfold not_after. intros H1 H2. by eapply Hneg. }
  assert (Total not_after).
  { intros x y. unfold not_after. destruct (less y x) eqn:E; [right|by left].
    destruct (less x y) eqn:E'; [|done].
    pose proof (Htr _ _ _ E E'). congruence. }
  apply (StronglySorted_merge_sort not_after).
Qed.
End det.

Definition go_det : GoRuntime.
Proof.
  refine {| range := λ K _ _ V m, map_to_list m;
            keys := λ K _ _ s, elements s;
            sort_Sort := λ A less l, det_sort less l |}; intros; try done.
  - apply merge_sort_Permutation.
  - by apply det_sort_sorted.
Defined.

(** ** Loops *)

(** A [for _, x := range xs] loop that threads a state is [foldl]; this is its
    invariant rule, where the invariant sees the part of the slice already
    traversed. *)
Lemma foldl_inv {A S} (P : list A → S → Prop) (f : S → A → S) (l : list A) (s : S) :
  P [] s →
  (∀ pre x post s', l = pre ++ x :: post → P pre s' → P (pre ++ [x]) (f s' x)) →
  P l (foldl f s l).
Proof.
  intros H0 Hstep.
  assert (∀ suf pre s', l = pre ++ suf → P pre s' → P l (foldl f s' suf)) as Hgen.
  { induction suf as [|x suf IH]; intros pre s' -> HP; simpl.
    - by rewrite app_nil_r.
    - apply (IH (pre ++ [x])); [by rewrite <- app_assoc|]. by eapply Hstep. }
  by apply (Hgen l []).
Qed.

(** The common case: the invariant does not mention the traversed part. *)
Lemma foldl_inv_simple {A S} (P : S → Prop) (f : S → A → S) (l : list A) (s : S) :
  P s → (∀ s' x, x ∈ l → P s' → P (f s' x)) → P (foldl f s l).
Proof.
  intros H0 Hstep. apply (foldl_inv (λ _, P)); [done|].
  intros pre x post s' -> HP. apply Hstep; [|done].
  apply elem_of_app; right; apply elem_of_cons; by left.
Qed.

(** A loop whose body maps every state to a state in a fixed relation to its
    input, for a preorder. *)
Lemma foldl_preorder {A S} (R : relation S) `{!PreOrder R} (f : S → A → S) l s :
  (∀ s' x, x ∈ l → R s' (f s' x)) → R s (foldl f s l).
Proof.
  intros Hstep. apply (foldl_inv_simple (R s)); [done|].
  intros s' x Hx HR. etrans; [done|]. by apply Hstep.
Qed.

(** A loop that sets the keys it visits. *)
Lemma lookup_foldl_insert `{Countable K} {A V} (key : A → K) (val : A → V)
    (l : list A) (m : gmap K V) (k : K) :
  foldl (λ m x, <[key x := val x]> m) m l !! k =
    match last (filter (λ x, key x = k) l) with
    | Some x => Some (val x)
    | None => m !! k
    end.
Proof.
  revert m. induction l as [|x l IH] using rev_ind; intros m; [done|].
  rewrite foldl_app, filter_app. simpl. rewrite filter_cons, filter_nil.
  rewrite lookup_insert. case_decide as E.
  - by rewrite last_snoc.
  - by rewrite app_nil_r, IH.
Qed.

(** A loop that deletes the keys it visits. *)
Lemma lookup_foldl_delete `{Countable K} {A V} (key : A → K)
    (l : list A) (m : gmap K V) (k : K) :
  foldl (λ m x, delete (key x) m) m l !! k =
    if decide (k ∈ key <$> l) then None else m !! k.
Proof.
  revert m. induction l as [|x l IH]; intros m; [done|]. simpl foldl.
  rewrite IH, lookup_delete.
  repeat case_decide; try done; exfalso; set_solver.
Qed.

(** Rebuilding a map from its entries, in whatever order they come. *)
Lemma foldl_insert_pairs `{Countable K} {V} (l : list (K * V)) (m : gmap K V) :
  NoDup l.*1 → foldl (λ m p, <[p.1 := p.2]> m) m l = list_to_map l ∪ m.
Proof.
  revert m. induction l as [|[k v] l IH]; intros m; simpl.
  - by rewrite (left_id_L ∅ (∪)).
  - intros [Hk Hl]%NoDup_cons. rewrite IH by done.
    rewrite <- insert_union_r by by apply not_elem_of_list_to_map_1.
    by rewrite insert_union_l.
Qed.

Lemma foldl_insert_range `{GO : GoRuntime} `{Countable K} {V} (m : gmap K V) :
  foldl (λ m p, <[p.1 := p.2]> m) ∅ (range m) = m.
Proof.
  rewrite foldl_insert_pairs by apply NoDup_range_keys.
  rewrite (right_id_L ∅ (∪)).
  rewrite (list_to_map_proper _ (map_to_list m)) by auto using NoDup_range_keys, range_perm.
  apply list_to_map_to_list.
Qed.

Lemma elem_of_snoc {A} (l : list A) x y : x ∈ l ++ [y] ↔ x ∈ l ∨ x = y.
Proof. by rewrite elem_of_app, list_elem_of_singleton. Qed.

Lemma exists_snoc_pair {A B} (P : B → Prop) (l : list (A * B)) a b x :
  (∃ y, (x, y) ∈ l ++ [(a, b)] ∧ P y) ↔ (∃ y, (x, y) ∈ l ∧ P y) ∨ (x = a ∧ P b).
Proof.
  setoid_rewrite elem_of_snoc. split.
  - intros (y & [?|[= -> ->]] & ?); [left; eauto|by right].
  - intros [(y & ? & ?)|[-> ?]]; eauto.
Qed.

Lemma last_Some_elem_of {A} (l : list A) x : last l = Some x → x ∈ l.
Proof. intros (l' & ->)%last_Some. set_solver. Qed.

Lemma filter_nil_iff {A} (P : A → Prop) `{!∀ x, Decision (P x)} (l : list A) :
  filter P l = [] ↔ ∀ x, x ∈ l → ¬ P x.
Proof.
  induction l as [|x l IH]; [set_solver|].
  rewrite filter_cons. case_decide; set_solver.
Qed.

Lemma filter_ext_in {A} (P Q : A → Prop) `{!∀ x, Decision (P x), !∀ x, Decision (Q x)} (l : list A) :
  (∀ x, x ∈ l → P x ↔ Q x) → filter P l = filter Q l.
Proof.
  induction l as [|x l IH]; intros Heq; [done|]. rewrite !filter_cons.
  rewrite IH by (intros; apply Heq; by right).
  assert (P x ↔ Q x) by (apply Heq; left). repeat case_decide; tauto || done.
Qed.

(** The sum a loop accumulates; it does not depend on the order of the slice. *)
Definition Zsum_with {A} (f : A → Z) (l : list A) : Z := foldr (λ x n, f x + n)%Z 0%Z l.

Lemma Zsum_with_app {A} (f : A → Z) l k :
  Zsum_with f (l ++ k) = (Zsum_with f l + Zsum_with f k)%Z.
Proof. induction l as [|x l IH]; simpl; lia. Qed.

#[global] Instance Zsum_with_perm {A} (f : A → Z) :
  Proper ((≡ₚ) ==> (=)) (Zsum_with f).
Proof. induction 1; simpl; lia. Qed.

Lemma Zsum_with_nonneg {A} (f : A → Z) l : (∀ x, 0 ≤ f x)%Z → (0 ≤ Zsum_with f l)%Z.
Proof. intros Hf. induction l as [|x l IH]; simpl; [done|]. specialize (Hf x). lia. Qed.

Lemma Zsum_insert {A} (f : A → Z) (l : list A) i (x y : A) :
  l !! i = Some x → Zsum_with f (<[i := y]> l) = (Zsum_with f l - f x + f y)%Z.
Proof. revert i. induction l as [|z l IH]; intros [|i] E; simplify_eq/=; [lia|]. rewrite IH by done. lia. Qed.

Lemma Zsum_replicate_0 {A} (f : A → Z) n a : f a = 0%Z → Zsum_with f (replicate n a) = 0%Z.
Proof. intros E. induction n as [|n IH]; [done|]. change (f a + Zsum_with f (replicate n a) = 0)%Z. lia. Qed.

Definition b2z (b : bool) : Z := if b then 1 else 0.

Lemma len_nonneg {A} (l : list A) : (0 ≤ len l)%Z.
Proof. unfold len. lia. Qed.

Lemma len_eqb_nil {A} (l : list A) : (len l =? 0)%Z = true ↔ l = [].
Proof. unfold len. rewrite Z.eqb_eq. destruct l; rewrite ?length_cons; [done|]. split; [lia|done]. Qed.

Lemma len_pos {A} (l : list A) : (0 <? len l)%Z = true ↔ l ≠ [].
Proof. unfold len. rewrite Z.ltb_lt. destruct l; rewrite ?length_cons; [done|]. split; [done|lia]. Qed.

(** ** Automation *)

Create HintDb go.

(** Case analysis on every [match] and [decide] in sight, simplifying map
    lookups on the way. *)
Ltac go_step :=
  first
    [ progress simplify_eq
    | progress simplify_map_eq
    | case_decide
    | case_match ].
Ltac go_cases := repeat go_step; try done; eauto with go.

(** Decide every lookup in an updated map. *)
Ltac map_lookup :=
  repeat first
    [ rewrite lookup_insert in * | rewrite lookup_delete in *
    | rewrite lookup_empty in * | case_decide ];
  simplify_eq.
