(* ===== verification/Auth.v ===== *)
(** * Authenticated wants, blocks and blockstore (src/auth)

    A [Want] pairs a content identifier with the capability ("auth") that
    releases the block; [AuthedBlockstore] wraps a blockstore and answers [Get]
    only when the [allow] callback accepts the requester.  The types of go-cid,
    go-block-format and go-ipfs-blockstore that the package is built on are
    parameters ([CidLib], [Blockstore]). *)
From S2P Require Import Prelude.

(** ** Third-party types *)

(** What is used of [cid.Cid]: decidable equality (it is a comparable Go
    struct), the zero value [cid.Undef], [Defined], [KeyString] (the binary form
    as a byte string), [Type] (the multicodec) and two codec constants. *)
Class CidLib := {
  Cid : Type;
  Cid_EqDecision :: EqDecision Cid;
  Cid_Countable :: Countable Cid;
  Cid_Undef : Cid;
  Cid_Defined : Cid → bool;
  Cid_Defined_spec : ∀ c, Cid_Defined c = true ↔ c ≠ Cid_Undef;
  Cid_KeyString : Cid → bytes;
  Cid_Type : Cid → Z;
  cid_Raw : Z;
  cid_DagCBOR : Z;
}.

(** [peer.ID] is a Go string; the empty string stands for no peer. *)
Abbreviation PeerID := string.

(** What is used of [blocks.Block]: its two accessors. *)
Record Block `{CL : CidLib} := mkBlock {
  Block_Cid : Cid;
  Block_RawData : bytes;
}.

(** ** Errors

    Go compares errors by identity: [blockstore.ErrNotFound] and
    [auth.ErrUnauthorised] are two fixed values, any other error is opaque. *)
Inductive error :=
| ErrNotFound
| ErrUnauthorised
| ErrOther (msg : string).

#[global] Instance error_eq_dec : EqDecision error.
Proof. solve_decision. Defined.

(** ** Wants (types.go) *)

Record Want `{CL : CidLib} := mkWant {
  Want_Cid : Cid;
  Want_Auth : string;
}.

Section types.
Context {CL : CidLib}.

#[global] Instance Want_eq_dec : EqDecision Want.
Proof. solve_decision. Defined.

#[global] Instance Want_countable : Countable Want.
Proof.
  refine (inj_countable' (λ w, (Want_Cid w, Want_Auth w))
                         (λ p, mkWant CL p.1 p.2) _).
  by intros [].
Defined.

Definition NewWant (c : Cid) (a : string) : Want :=
  {| Want_Cid := c; Want_Auth := a |}.

(** [auth.Undef], the zero [Want]. *)
Definition Want_Undef : Want := {| Want_Cid := Cid_Undef; Want_Auth := "" |}.

Definition Want_Defined (w : Want) : bool := Cid_Defined (Want_Cid w).

Definition Want_Equals (w b : Want) : bool :=
  bool_decide (Want_Cid w = Want_Cid b) && String.eqb (Want_Auth w) (Want_Auth b).

(** [AuthBlock] has one implementation, [AuthBlockImpl]. *)
Record AuthBlock := mkAuthBlock {
  AuthBlock_want : Want;
  AuthBlock_block : Block;
}.

Definition NewBlock (block : Block) (a : string) : AuthBlock :=
  {| AuthBlock_block := block; AuthBlock_want := NewWant (Block_Cid block) a |}.

Definition AuthBlock_Cid (a : AuthBlock) : Cid := Block_Cid (AuthBlock_block a).
Definition AuthBlock_Want (a : AuthBlock) : Want := AuthBlock_want a.
Definition AuthBlock_Size (a : AuthBlock) : Z := len (Block_RawData (AuthBlock_block a)).
Definition AuthBlock_GetAuthedData (a : AuthBlock) : bytes := Block_RawData (AuthBlock_block a).

(** Every [AuthBlock] in circulation comes from [NewBlock]: its want names the
    block's own cid. *)
Definition AuthBlock_wf (a : AuthBlock) : Prop := Want_Cid (AuthBlock_want a) = AuthBlock_Cid a.

Lemma NewBlock_wf b a : AuthBlock_wf (NewBlock b a).
Proof. done. Qed.

Lemma Want_Equals_spec w b : Want_Equals w b = true ↔ w = b.
Proof.
  unfold Want_Equals. rewrite andb_true_iff, bool_decide_eq_true, String.eqb_eq.
  destruct w, b; naive_solver.
Qed.
End types.
#[export] Hint Resolve NewBlock_wf : go.

(** ** Sets of wants (set.go) *)

Module AuthSet.
Section set.
Context {CL : CidLib} {GO : GoRuntime}.

(** [Set] is a struct around [map[Want]struct{}]. *)
Definition NewSet : gset Want := ∅.
Definition Add (w : Want) (s : gset Want) : gset Want := {[w]} ∪ s.
Definition Has (s : gset Want) (w : Want) : bool := bool_decide (w ∈ s).
Definition Remove (w : Want) (s : gset Want) : gset Want := s ∖ {[w]}.
Definition Len (s : gset Want) : Z := Z.of_nat (size s).
Definition Keys (s : gset Want) : list Want := keys s.

Definition Visit (w : Want) (s : gset Want) : bool * gset Want :=
  if negb (Has s w) then (true, Add w s) else (false, s).

(** [ForEach] stops at the first error; the callback's effects are a state. *)
Fixpoint forEach {S E} (f : Want → S → S * option E) (ws : list Want) (st : S) : S * option E :=
  match ws with
  | [] => (st, None)
  | w :: ws' =>
      match f w st with
      | (st', Some e) => (st', Some e)
      | (st', None) => forEach f ws' st'
      end
  end.
Definition ForEach {S E} (f : Want → S → S * option E) (s : gset Want) (st : S) : S * option E :=
  forEach f (Keys s) st.

Lemma set_Has_spec s w : Has s w = true ↔ w ∈ s.
Proof. apply bool_decide_eq_true. Qed.
Lemma Has_false s w : Has s w = false ↔ w ∉ s.
Proof. apply bool_decide_eq_false. Qed.

(** A callback that never fails visits every element. *)
Lemma ForEach_total {S} (f : Want → S → S) s st :
  ForEach (λ w st, (f w st, @None error)) s st = (foldl (λ st w, f w st) st (Keys s), None).
Proof.
  unfold ForEach. generalize (Keys s) as ws. intros ws. revert st.
  induction ws as [|w ws IH]; intros st; [done|]. simpl. apply IH.
Qed.
End set.
End AuthSet.

(** ** The authenticating blockstore (blockstore.go) *)

(** What is used of [blockstore.Blockstore].  Reads do not change the store. *)
Class Blockstore `{CL : CidLib} (B : Type) := {
  bs_Has : B → Cid → result error bool;
  bs_Get : B → Cid → result error Block;
  bs_GetSize : B → Cid → result error Z;
  bs_Put : Block → B → B * option error;
  bs_PutMany : list Block → B → B * option error;
  bs_DeleteBlock : Cid → B → B * option error;
  bs_BloomAdd : Cid → B → B * option error;
  bs_AllKeysChan : B → result error (list Cid);
  bs_HashOnRead : bool → B → B;
}.

(** The documented laws of a blockstore that a client may rely on: [Get] returns
    the block with the given cid, a block that was put is found under its cid with
    its bytes, and other cids are not affected. *)
Class BlockstoreLaws `{CL : CidLib} (B : Type) `{BS : !Blockstore B} := {
  bs_Get_Cid : ∀ s c b, bs_Get s c = Ok b → Block_Cid b = c;
  bs_PutMany_Get : ∀ bl s s' b, bs_PutMany bl s = (s', None) → b ∈ bl →
    NoDup (Block_Cid <$> bl) →
    bs_Has s' (Block_Cid b) = Ok true ∧ bs_Get s' (Block_Cid b) = Ok b;
  bs_PutMany_frame : ∀ bl s s' r c, bs_PutMany bl s = (s', r) → c ∉ Block_Cid <$> bl →
    bs_Has s' c = bs_Has s c ∧ bs_Get s' c = bs_Get s c;
}.

Module AuthedBlockstore.
Section authed.
Context {CL : CidLib} {B : Type} {BS : Blockstore B}.

Record AuthedBlockstore := mk {
  source : B;
  allow : Cid → bytes → PeerID → string → bool;
}.

Definition NewAuthBlockstore (bstore : B) (allow : Cid → bytes → PeerID → string → bool)
  : AuthedBlockstore := {| source := bstore; allow := allow |}.

Definition with_source (bs : AuthedBlockstore) (r : B * option error)
  : AuthedBlockstore * option error :=
  ({| source := r.1; allow := allow bs |}, r.2).

Definition Get (bs : AuthedBlockstore) (c : Cid) (remote : PeerID) (auth : string)
  : result error Block :=
  match bs_Has (source bs) c with
  | Err err => Err err
  | Ok local =>
      if negb local then Err ErrNotFound
      else
        match bs_Get (source bs) c with
        | Err _ => Err ErrUnauthorised
        | Ok block =>
            if allow bs c (Block_RawData block) remote auth
            then Ok block
            else Err ErrUnauthorised
        end
  end.

Definition DeleteBlock (c : Cid) (bs : AuthedBlockstore) : AuthedBlockstore * option error :=
  with_source bs (bs_DeleteBlock c (source bs)).

Definition BloomAdd (c : Cid) (bs : AuthedBlockstore) : AuthedBlockstore * option error :=
  with_source bs (bs_BloomAdd c (source bs)).

Definition Has (bs : AuthedBlockstore) (c : Cid) : result error bool :=
  let codec := Cid_Type c in
  if negb (codec =? cid_Raw)%Z && negb (codec =? cid_DagCBOR)%Z
  then Ok false
  else bs_Has (source bs) c.

Definition GetSize (bs : AuthedBlockstore) (c : Cid) : result error Z :=
  bs_GetSize (source bs) c.

Definition Put (b : AuthBlock) (bs : AuthedBlockstore) : AuthedBlockstore * option error :=
  with_source bs (bs_Put (AuthBlock_block b) (source bs)).

Definition PutMany (authblocks : list AuthBlock) (bs : AuthedBlockstore)
  : AuthedBlockstore * option error :=
  let unwrapped := AuthBlock_block <$> authblocks in
  with_source bs (bs_PutMany unwrapped (source bs)).

Definition AllKeysChan (bs : AuthedBlockstore) : result error (list Cid) :=
  bs_AllKeysChan (source bs).

Definition HashOnRead (enabled : bool) (bs : AuthedBlockstore) : AuthedBlockstore :=
  {| source := bs_HashOnRead enabled (source bs); allow := allow bs |}.

(** [Get] releases a block exactly when the source holds it and [allow] accepts
    the requester and its capability. *)
Lemma Get_Ok_iff bs c remote auth b :
  Get bs c remote auth = Ok b ↔
  bs_Has (source bs) c = Ok true ∧ bs_Get (source bs) c = Ok b ∧
  allow bs c (Block_RawData b) remote auth = true.
Proof.
  unfold Get. split.
  - intros H. repeat case_match; simplify_eq/=; try done.
    by destruct a.
  - intros (-> & -> & ->). done.
Qed.

(** Operations on the store leave the access policy alone. *)
Lemma PutMany_allow bl bs : allow (PutMany bl bs).1 = allow bs.
Proof. done. Qed.
End authed.
Arguments AuthedBlockstore {CL} B.
End AuthedBlockstore.
