(* ===== verification/Wantlist.v ===== *)
(** * Wantlists (src/wantlist/wantlist.go)

    A wantlist maps each want to an entry with a priority and a want type; a
    want-block is never displaced by a want-have.  The protobuf enum [WantType]
    is open in proto3 (any [int32] may arrive from the wire), so it is an
    integer here, with the two named values of the schema. *)
From S2P Require Import Prelude Auth.

(** [pb.Message_Wantlist_WantType]. *)
Abbreviation WantType := Z.
Definition WantType_Block : WantType := 0%Z.
Definition WantType_Have : WantType := 1%Z.

(** [wantlist.Entry]. *)
Record Entry `{CL : CidLib} := mkEntry {
  Entry_Want : Want;
  Entry_Priority : Z;
  Entry_WantType : WantType;
}.

#[global] Instance Entry_eq_dec `{CL : CidLib} : EqDecision Entry.
Proof. solve_decision. Defined.

Abbreviation Wantlist := (gmap Want Entry).

Module WL.
Section wantlist.
Context {CL : CidLib} {GO : GoRuntime}.
Implicit Types (w other : Wantlist) (c : Want) (e : Entry).

Definition NewRefEntry (c : Want) (p : Z) : Entry :=
  {| Entry_Want := c; Entry_Priority := p; Entry_WantType := WantType_Block |}.

Definition New : Wantlist := ∅.

Definition Len (w : Wantlist) : Z := Z.of_nat (size w).

Definition Add (c : Want) (priority : Z) (wantType : WantType) (w : Wantlist)
  : bool * Wantlist :=
  let blocked :=
    match w !! c with
    | Some e => bool_decide (Entry_WantType e = WantType_Block)
                || bool_decide (wantType = WantType_Have)
    | None => false
    end in
  if blocked then (false, w)
  else
    (true, <[c := {| Entry_Want := c; Entry_Priority := priority;
                     Entry_WantType := wantType |}]> w).

Definition Remove (c : Want) (w : Wantlist) : bool * Wantlist :=
  match w !! c with
  | None => (false, w)
  | Some _ => (true, delete c w)
  end.

Definition RemoveType (c : Want) (wantType : WantType) (w : Wantlist) : bool * Wantlist :=
  match w !! c with
  | None => (false, w)
  | Some e =>
      if bool_decide (Entry_WantType e = WantType_Block)
         && bool_decide (wantType = WantType_Have)
      then (false, w)
      else (true, delete c w)
  end.

Definition Contains (w : Wantlist) (c : Want) : option Entry := w !! c.

Definition Entries (w : Wantlist) : list Entry := (range w).*2.

Definition Absorb (w other : Wantlist) : Wantlist :=
  foldl (λ w e, (Add (Entry_Want e) (Entry_Priority e) (Entry_WantType e) w).2)
        w (Entries other).

(** [entrySlice.Less]: higher priorities first. *)
Definition Less (x y : Entry) : bool := (Entry_Priority y <? Entry_Priority x)%Z.

Definition SortEntries (es : list Entry) : list Entry := sort_Sort Less es.

(** ** Well-formedness: an entry is stored under its own want *)

Definition wf (w : Wantlist) : Prop := map_Forall (λ c e, Entry_Want e = c) w.

Lemma wf_New : wf New.
Proof. apply map_Forall_empty. Qed.

Lemma wf_Add c p t w : wf w → wf (Add c p t w).2.
Proof.
  intros Hw. unfold Add. case_match; simpl; [done|].
  by apply map_Forall_insert_2.
Qed.

Lemma wf_wantlist_Remove c w : wf w → wf (Remove c w).2.
Proof. intros Hw. unfold Remove. case_match; simpl; [by apply map_Forall_delete|done]. Qed.

Lemma wf_RemoveType c t w : wf w → wf (RemoveType c t w).2.
Proof.
  intros Hw. unfold RemoveType. repeat case_match; simpl; try done.
  by apply map_Forall_delete.
Qed.

(** ** Lookups after each operation *)

(** What [Add] leaves under a want, given what was there before. *)
Definition add_result (old : option Entry) (e : Entry) : Entry :=
  match old with
  | Some e0 =>
      if bool_decide (Entry_WantType e0 = WantType_Block)
         || bool_decide (Entry_WantType e = WantType_Have)
      then e0 else e
  | None => e
  end.

Lemma lookup_Add c p t w k :
  (Add c p t w).2 !! k =
    if decide (c = k) then Some (add_result (w !! c) (mkEntry _ c p t)) else w !! k.
Proof.
  unfold Add, add_result. simpl.
  destruct (w !! c) as [e|] eqn:E; [destruct (_ || _)|]; simpl;
    rewrite ?lookup_insert; case_decide; simplify_eq; done.
Qed.

Lemma lookup_Remove c w k :
  (Remove c w).2 !! k = if decide (c = k) then None else w !! k.
Proof.
  unfold Remove. destruct (w !! c) eqn:E; simpl; rewrite ?lookup_delete; case_decide; by simplify_eq.
Qed.

Lemma Remove_true c w : (Remove c w).1 = true ↔ is_Some (w !! c).
Proof. unfold Remove. destruct (w !! c); simpl; by rewrite ?is_Some_alt. Qed.

Lemma lookup_RemoveType c t w k :
  (RemoveType c t w).2 !! k =
    if decide (c = k) then
      match w !! c with
      | Some e => if bool_decide (Entry_WantType e = WantType_Block)
                     && bool_decide (t = WantType_Have) then Some e else None
      | None => None
      end
    else w !! k.
Proof.
  unfold RemoveType. destruct (w !! c) as [e|] eqn:E; simpl; [destruct (_ && _)|]; simpl;
    rewrite ?lookup_delete; case_decide; by simplify_eq.
Qed.

Lemma RemoveType_true c t w :
  (RemoveType c t w).1 = true ↔
  ∃ e, w !! c = Some e ∧ ¬ (Entry_WantType e = WantType_Block ∧ t = WantType_Have).
Proof.
  unfold RemoveType. destruct (w !! c) as [e|]; simpl.
  - destruct (_ && _) eqn:E; simpl.
    + apply andb_true_iff in E as [?%bool_decide_eq_true ?%bool_decide_eq_true].
      split; [done|]. intros (e' & [= <-] & Hn). tauto.
    + apply andb_false_iff in E. rewrite !bool_decide_eq_false in E.
      split; [|done]. intros _. exists e. split; [done|]. tauto.
  - split; [done|]. by intros (? & ? & ?).
Qed.

Lemma RemoveType_false c t w : (RemoveType c t w).1 = false → (RemoveType c t w).2 = w.
Proof. unfold RemoveType. by repeat case_match. Qed.

(** A want-block entry survives every operation except a removal that is not
    restricted to want-haves. *)
Lemma Add_keeps_block c p t w k e :
  w !! k = Some e → Entry_WantType e = WantType_Block → (Add c p t w).2 !! k = Some e.
Proof.
  intros Hk Hb. rewrite lookup_Add. case_decide; [subst|done].
  unfold add_result. by rewrite Hk, bool_decide_eq_true_2.
Qed.

Lemma RemoveType_Have_keeps_block c w k e :
  w !! k = Some e → Entry_WantType e = WantType_Block →
  (RemoveType c WantType_Have w).2 !! k = Some e.
Proof.
  intros Hk Hb. rewrite lookup_RemoveType. case_decide; [subst|done].
  by rewrite Hk, !bool_decide_eq_true_2.
Qed.

Lemma elem_of_Entries w e : wf w → e ∈ Entries w ↔ w !! Entry_Want e = Some e.
Proof.
  intros Hw. unfold Entries. rewrite list_elem_of_fmap. split.
  - intros ([k e'] & -> & Hin%elem_of_range). simpl.
    by rewrite (Hw _ _ Hin).
  - intros He. exists (Entry_Want e, e). split; [done|]. by apply elem_of_range.
Qed.

Lemma Entries_wants w : wf w → Entry_Want <$> Entries w = (range w).*1.
Proof.
  intros Hw. unfold Entries. rewrite <- list_fmap_compose.
  apply list_fmap_ext. intros i [k e] Hi. simpl.
  apply list_elem_of_lookup_2, elem_of_range in Hi. by apply Hw.
Qed.

Lemma NoDup_Entries_wants w : wf w → NoDup (Entry_Want <$> Entries w).
Proof. intros Hw. rewrite Entries_wants by done. apply NoDup_range_keys. Qed.

Lemma length_Entries w : len (Entries w) = Len w.
Proof. unfold len, Entries, Len. by rewrite length_fmap, length_range. Qed.

(** ** [Absorb] *)

(** The merge of two wantlists, key by key: no order of traversal is involved. *)
Definition absorb_spec (old new : option Entry) : option Entry :=
  match new with
  | None => old
  | Some e => Some (add_result old e)
  end.

Lemma Absorb_lookup w other k :
  wf other → Absorb w other !! k = absorb_spec (w !! k) (other !! k).
Proof.
  intros Ho.
  set (P := λ (pre : list Entry) (w' : Wantlist), ∀ k,
    w' !! k = if decide (k ∈ Entry_Want <$> pre)
              then absorb_spec (w !! k) (other !! k) else w !! k).
  assert (P (Entries other) (Absorb w other)) as HP.
  { unfold Absorb. apply foldl_inv; [by intros k'|].
    intros pre e post w' Hes Hw' k'.
    assert (Entry_Want e ∉ Entry_Want <$> pre) as Hfresh.
    { pose proof (NoDup_Entries_wants other Ho) as Hnd.
      rewrite Hes, fmap_app, fmap_cons in Hnd.
      apply NoDup_app in Hnd as (_ & Hd & _). intros Hin. apply (Hd _ Hin). by left. }
    assert (other !! Entry_Want e = Some e) as Hoe.
    { apply elem_of_Entries; [done|]. rewrite Hes. set_solver. }
    rewrite lookup_Add, fmap_app.
    case_decide as E.
    - subst k'. rewrite decide_True by set_solver.
      rewrite Hw', decide_False by done. rewrite Hoe. simpl. by destruct e.
    - rewrite Hw'. destruct (decide (k' ∈ Entry_Want <$> pre)).
      + by rewrite decide_True by set_solver.
      + by rewrite decide_False by set_solver. }
  rewrite HP. case_decide as E; [done|].
  destruct (other !! k) as [e|] eqn:Hk; [|done].
  destruct E. apply list_elem_of_fmap. exists e.
  split; [by rewrite (Ho _ _ Hk)|]. apply elem_of_Entries; [done|]. by rewrite (Ho _ _ Hk).
Qed.

Lemma wf_Absorb w other : wf w → wf (Absorb w other).
Proof.
  intros Hw. unfold Absorb. apply foldl_inv_simple; [done|]. intros. by apply wf_Add.
Qed.

(** ** Sorting *)

Lemma Less_order : strict_weak_order Less.
Proof. unfold Less. split_and!; intros *; rewrite ?Z.ltb_ge, ?Z.ltb_lt; lia. Qed.

Lemma SortEntries_perm es : SortEntries es ≡ₚ es.
Proof. apply sort_perm. Qed.

Lemma SortEntries_sorted es :
  StronglySorted (λ x y, Entry_Priority y ≤ Entry_Priority x)%Z (SortEntries es).
Proof.
  eapply StronglySorted_ind with
    (P := StronglySorted (λ x y, Entry_Priority y ≤ Entry_Priority x)%Z);
    [| |apply (sort_sorted Less es Less_order)].
  - constructor.
  - intros a l _ IH Hall. constructor; [done|].
    eapply Forall_impl; [done|]. intros y Hy. unfold Less in Hy. lia.
Qed.
End wantlist.
#[export] Hint Resolve wf_New wf_Add wf_wantlist_Remove wf_RemoveType wf_Absorb : go.
End WL.
