(* ===== verification/Hex.v ===== *)
(** * Hexadecimal encoding (Go's encoding/hex)

    Capabilities travel as bytes on the wire and as hexadecimal strings in
    memory; message.go converts with [hex.EncodeToString] and
    [hex.DecodeString], ignoring the error of the latter. *)
From S2P Require Import Prelude.
From Stdlib Require Import Ascii String.
From stdpp Require Import options.
Set Default Goal Selector "1".

Module hex.

(** The digit table ["0123456789abcdef"]. *)
Definition digit (n : N) : ascii :=
  ascii_of_N (if (n <? 10)%N then 48 + n else 87 + n).

(** [fromHexChar]: both letter cases are accepted. *)
Definition fromHexChar (a : ascii) : option N :=
  let n := N_of_ascii a in
  if (48 <=? n)%N && (n <=? 57)%N then Some (n - 48)%N
  else if (97 <=? n)%N && (n <=? 102)%N then Some (n - 87)%N
  else if (65 <=? n)%N && (n <=? 70)%N then Some (n - 55)%N
  else None.

Fixpoint EncodeToString (bs : bytes) : string :=
  match bs with
  | [] => ""
  | b :: bs' =>
      String (digit (Byte.to_N b / 16)%N)
        (String (digit (Byte.to_N b `mod` 16)%N) (EncodeToString bs'))
  end.

(** [DecodeString] returns the bytes decoded before the first malformed pair,
    and whether there was an error (an odd length is one). *)
Fixpoint DecodeString (s : string) : bytes * bool :=
  match s with
  | EmptyString => ([], false)
  | String _ EmptyString => ([], true)
  | String a (String b s') =>
      match fromHexChar a, fromHexChar b with
      | Some x, Some y =>
          match Byte.of_N (16 * x + y) with
          | Some v => let r := DecodeString s' in (v :: r.1, r.2)
          | None => ([], true)
          end
      | _, _ => ([], true)
      end
  end.

(** The strings [EncodeToString] produces: lower-case digits, even length. *)
Definition is_lower_digit (a : ascii) : bool :=
  let n := N_of_ascii a in
  ((48 <=? n)%N && (n <=? 57)%N) || ((97 <=? n)%N && (n <=? 102)%N).

Fixpoint canonical (s : string) : bool :=
  match s with
  | EmptyString => true
  | String _ EmptyString => false
  | String a (String b s') => is_lower_digit a && is_lower_digit b && canonical s'
  end.

Lemma decode_byte (b : Byte.byte) :
  fromHexChar (digit (Byte.to_N b / 16)%N) = Some (Byte.to_N b / 16)%N ∧
  fromHexChar (digit (Byte.to_N b `mod` 16)%N) = Some (Byte.to_N b `mod` 16)%N ∧
  Byte.of_N (16 * (Byte.to_N b / 16) + Byte.to_N b `mod` 16) = Some b.
Proof. by destruct b. Qed.

Lemma Decode_Encode bs : DecodeString (EncodeToString bs) = (bs, false).
Proof.
  induction bs as [|b bs IH]; [done|]. simpl.
  destruct (decode_byte b) as (-> & -> & ->). by rewrite IH.
Qed.

Lemma encode_digit (a : ascii) :
  is_lower_digit a = true → ∃ x, fromHexChar a = Some x ∧ (x < 16)%N ∧ digit x = a.
Proof.
  destruct a as [[] [] [] [] [] [] [] []]; intros H; vm_compute in H; try discriminate H;
    (eexists; split; [vm_compute; reflexivity|split; [reflexivity|reflexivity]]).
Qed.

Lemma of_N_small n : (n < 256)%N → ∃ v, Byte.of_N n = Some v ∧ Byte.to_N v = n.
Proof.
  intros Hn. destruct (Byte.of_N n) as [v|] eqn:E.
  - exists v. split; [done|]. by apply Byte.to_of_N.
  - apply Byte.of_N_None_iff in E. lia.
Qed.

Lemma Encode_Decode s : canonical s = true → EncodeToString (DecodeString s).1 = s.
Proof.
  revert s. fix IH 1. intros [|a [|b s]]; [done..|]. simpl canonical.
  intros [[(x & Hx & Hx16 & Dx)%encode_digit (y & Hy & Hy16 & Dy)%encode_digit]%andb_true_iff
            Hs]%andb_true_iff.
  simpl DecodeString. rewrite Hx, Hy.
  destruct (of_N_small (16 * x + y)) as (v & -> & Hv); [lia|]. simpl. rewrite Hv.
  replace ((16 * x + y) / 16)%N with x by (apply (N.div_unique _ _ _ y); lia).
  replace ((16 * x + y) `mod` 16)%N with y by (apply (N.mod_unique _ _ x); lia).
  by rewrite Dx, Dy, IH.
Qed.

Lemma canonical_Encode bs : canonical (EncodeToString bs) = true.
Proof.
  induction bs as [|b bs IH]; [done|]. simpl. rewrite IH, andb_true_r. by destruct b.
Qed.
End hex.
