(* ===== verification/Proto.v ===== *)
(** * Protobuf structures of a Bitswap message (src/message/pb)

    The structs generated from message.proto and their [Size] methods; the
    customtype [Cid] wraps [cid.Cid] and marshals to its binary form. *)
From S2P Require Import Prelude Auth Wantlist.
Open Scope Z_scope.

(** [pb.Message_BlockPresenceType], an open proto3 enum. *)
Abbreviation PresenceType := Z.
Definition Presence_Have : PresenceType := 0.
Definition Presence_DontHave : PresenceType := 1.

Section structs.
Context {CL : CidLib}.

Record pb_Entry := mk_pb_Entry {
  pbe_Block : Cid;
  pbe_Priority : Z;
  pbe_Cancel : bool;
  pbe_WantType : WantType;
  pbe_SendDontHave : bool;
  pbe_Auth : bytes;
}.

Record pb_Wantlist := mk_pb_Wantlist {
  pbw_Entries : list pb_Entry;
  pbw_Full : bool;
}.

Record pb_Block := mk_pb_Block {
  pbb_Prefix : bytes;
  pbb_Data : bytes;
  pbb_Auth : bytes;
}.

Record pb_BlockPresence := mk_pb_BlockPresence {
  pbp_Cid : Cid;
  pbp_Type : PresenceType;
  pbp_Auth : bytes;
}.

Record pb_Message := mk_pb_Message {
  pbm_Wantlist : pb_Wantlist;
  pbm_Blocks : list bytes;
  pbm_Payload : list pb_Block;
  pbm_BlockPresences : list pb_BlockPresence;
  pbm_PendingBytes : Z;
}.

(** [(Len64(x|1) + 6) / 7]: the number of bytes of a varint. *)
Definition Len64 (x : Z) : Z := if x =? 0 then 0 else Z.log2 x + 1.
Definition sovMessage (x : Z) : Z := (Len64 (Z.lor x 1) + 6) / 7.

(** [1 + l + sovMessage(uint64(l))], a length-delimited field. *)
Definition field_size (l : Z) : Z := 1 + l + sovMessage (uint64 l).

(** A [bytes] field, absent when empty. *)
Definition bytes_size (b : bytes) : Z :=
  let l := len b in if 0 <? l then field_size l else 0.

Definition Cid_Size (c : Cid) : Z := len (Cid_KeyString c).

(** [Cid.Equal]: the receiver is compared with itself. *)
Definition Cid_Equal (c other : Cid) : bool := bool_decide (c = c).

Definition pb_Entry_Size (m : pb_Entry) : Z :=
  field_size (Cid_Size (pbe_Block m))
  + (if negb (pbe_Priority m =? 0) then 1 + sovMessage (uint64 (pbe_Priority m)) else 0)
  + (if pbe_Cancel m then 2 else 0)
  + (if negb (pbe_WantType m =? 0) then 1 + sovMessage (uint64 (pbe_WantType m)) else 0)
  + (if pbe_SendDontHave m then 2 else 0)
  + bytes_size (pbe_Auth m).

Definition pb_Wantlist_Size (m : pb_Wantlist) : Z :=
  Zsum_with (λ e, field_size (pb_Entry_Size e)) (pbw_Entries m)
  + (if pbw_Full m then 2 else 0).

Definition pb_Block_Size (m : pb_Block) : Z :=
  bytes_size (pbb_Prefix m) + bytes_size (pbb_Data m) + bytes_size (pbb_Auth m).

Definition pb_BlockPresence_Size (m : pb_BlockPresence) : Z :=
  field_size (Cid_Size (pbp_Cid m))
  + (if negb (pbp_Type m =? 0) then 1 + sovMessage (uint64 (pbp_Type m)) else 0)
  + bytes_size (pbp_Auth m).

Definition pb_Message_Size (m : pb_Message) : Z :=
  field_size (pb_Wantlist_Size (pbm_Wantlist m))
  + Zsum_with (λ b, field_size (len b)) (pbm_Blocks m)
  + Zsum_with (λ e, field_size (pb_Block_Size e)) (pbm_Payload m)
  + Zsum_with (λ e, field_size (pb_BlockPresence_Size e)) (pbm_BlockPresences m)
  + (if negb (pbm_PendingBytes m =? 0) then 1 + sovMessage (uint64 (pbm_PendingBytes m)) else 0).

Lemma sovMessage_pos x : 0 ≤ x → 1 ≤ sovMessage x.
Proof.
  intros Hx. unfold sovMessage, Len64.
  assert (Z.lor x 1 ≠ 0) as Hne.
  { intros E%Z.lor_eq_0_iff. lia. }
  rewrite (proj2 (Z.eqb_neq _ _) Hne).
  pose proof (Z.log2_nonneg (Z.lor x 1)).
  apply Z.div_le_lower_bound; lia.
Qed.

Lemma sovMessage_le_10 x : 0 ≤ x < 2 ^ 64 → sovMessage x ≤ 10.
Proof.
  intros Hx. unfold sovMessage, Len64. case_match; [by vm_compute|].
  assert (Z.log2 (Z.lor x 1) < 64).
  { rewrite Z.log2_lor by lia. apply Z.max_lub_lt.
    - destruct (decide (x = 0)) as [->|]; [by vm_compute|]. apply Z.log2_lt_pow2; lia.
    - by vm_compute. }
  apply Z.div_le_upper_bound; lia.
Qed.

Lemma field_size_pos l : 0 ≤ l → 2 ≤ field_size l.
Proof. intros. unfold field_size. pose proof (sovMessage_pos _ (proj1 (uint64_range l))). lia. Qed.

Lemma bytes_size_nonneg b : 0 ≤ bytes_size b.
Proof.
  unfold bytes_size. pose proof (len_nonneg b). case_match; [|done].
  pose proof (field_size_pos (len b)). lia.
Qed.

Lemma pb_Entry_Size_pos e : 2 ≤ pb_Entry_Size e.
Proof.
  unfold pb_Entry_Size, Cid_Size.
  pose proof (field_size_pos _ (len_nonneg (Cid_KeyString (pbe_Block e)))).
  pose proof (bytes_size_nonneg (pbe_Auth e)).
  pose proof (sovMessage_pos _ (proj1 (uint64_range (pbe_Priority e)))).
  pose proof (sovMessage_pos _ (proj1 (uint64_range (pbe_WantType e)))).
  repeat case_match; lia.
Qed.
End structs.
