(* ===== verification/Message.v ===== *)
(** * Bitswap messages (src/message/message.go)

    The in-memory message: a wantlist, blocks, block presences and a count of
    pending bytes, all keyed by [Want].  [newMessageFromProto] and [ToProtoV1]
    convert from and to the protobuf structs. *)
From S2P Require Import Prelude Auth Wantlist Hex Proto.
Open Scope Z_scope.

(** What is used of go-cid's prefixes and of go-block-format's constructors. *)
Class BlockLib `{CL : CidLib} := {
  Prefix : Type;
  Cid_Prefix : Cid → Prefix;
  Prefix_Bytes : Prefix → bytes;
  PrefixFromBytes : bytes → result error Prefix;
  Prefix_Sum : Prefix → bytes → result error Cid;
  blocks_NewBlock : bytes → Block;
  NewBlockWithCid : bytes → Cid → result error Block;
}.

(** Their documented behaviour: a prefix survives its binary form, and
    [NewBlockWithCid] accepts data whose hash is the given cid. *)
Class BlockLibLaws `{CL : CidLib} `{BL : !BlockLib} := {
  PrefixFromBytes_Bytes : ∀ p, PrefixFromBytes (Prefix_Bytes p) = Ok p;
  NewBlockWithCid_ok : ∀ d c, Prefix_Sum (Cid_Prefix c) d = Ok c →
    NewBlockWithCid d c = Ok (mkBlock _ c d);
}.

Definition errCidMissing : error := ErrOther "missing cid".

Module Message.
Section message.
Context {CL : CidLib} {GO : GoRuntime} {BL : BlockLib}.

(** ** Wantlist entries of a message *)

Record MEntry := mkMEntry {
  me_Entry : Entry;
  me_Cancel : bool;
  me_SendDontHave : bool;
}.

(** [BlockPresence]. *)
Record BlockPresence := mkBlockPresence {
  bp_Want : Want;
  bp_Type : PresenceType;
}.

#[global] Instance BlockPresence_eq_dec : EqDecision BlockPresence.
Proof. solve_decision. Defined.

Definition ToPB (e : MEntry) : pb_Entry :=
  let auth := (hex.DecodeString (Want_Auth (Entry_Want (me_Entry e)))).1 in
  {| pbe_Block := Want_Cid (Entry_Want (me_Entry e));
     pbe_Auth := auth;
     pbe_Priority := int32 (Entry_Priority (me_Entry e));
     pbe_Cancel := me_Cancel e;
     pbe_WantType := Entry_WantType (me_Entry e);
     pbe_SendDontHave := me_SendDontHave e |}.

Definition MEntry_Size (e : MEntry) : Z := pb_Entry_Size (ToPB e).

(** [maxEntrySize()]; the argument is [cid.NewCidV0(u.Hash([]byte("cid")))]. *)
Definition maxEntrySize (c : Cid) : Z :=
  let maxInt32 := 2 ^ 31 - 1 in
  let a := strings_Repeat (Ascii.ascii_of_nat 65) 120 in
  MEntry_Size
    {| me_Entry := {| Entry_Want := mkWant _ c a; Entry_Priority := maxInt32;
                      Entry_WantType := WantType_Have |};
       me_SendDontHave := true;
       me_Cancel := true |}.

(** ** The message *)

Record impl := mkImpl {
  full : bool;
  wantlist : gmap Want MEntry;
  blocks : gmap Want AuthBlock;
  rawData : gmap Want bytes;
  blockPresences : gmap Want PresenceType;
  pendingBytes : Z;
}.

Definition set_wantlist (wl : gmap Want MEntry) (m : impl) : impl :=
  mkImpl (full m) wl (blocks m) (rawData m) (blockPresences m) (pendingBytes m).
Definition set_blockPresences (bp : gmap Want PresenceType) (m : impl) : impl :=
  mkImpl (full m) (wantlist m) (blocks m) (rawData m) bp (pendingBytes m).

Definition newMsg (full : bool) : impl :=
  {| full := full; wantlist := ∅; blocks := ∅; rawData := ∅;
     blockPresences := ∅; pendingBytes := 0 |}.

(** [Clone] copies three of the four maps: [rawData] starts empty.  (The Go code
    shares the [*Entry] values between the two wantlists; entries are values
    here, so the clone is only meant to be read.) *)
Definition Clone (m : impl) : impl :=
  {| full := full m; wantlist := wantlist m; blocks := blocks m; rawData := ∅;
     blockPresences := blockPresences m; pendingBytes := pendingBytes m |}.

(** [Reset] empties three of the four maps: [rawData] keeps its content. *)
Definition Reset (f : bool) (m : impl) : impl :=
  {| full := f; wantlist := ∅; blocks := ∅; rawData := rawData m;
     blockPresences := ∅; pendingBytes := 0 |}.

Definition Full (m : impl) : bool := full m.

Definition Empty (m : impl) : bool :=
  (Z.of_nat (size (blocks m)) =? 0) && (Z.of_nat (size (wantlist m)) =? 0)
  && (Z.of_nat (size (blockPresences m)) =? 0).

Definition Wantlist_ (m : impl) : list MEntry := (range (wantlist m)).*2.
Definition Blocks (m : impl) : list AuthBlock := (range (blocks m)).*2.
Definition BlockPresences (m : impl) : list BlockPresence :=
  (λ p, mkBlockPresence p.1 p.2) <$> range (blockPresences m).

Definition getBlockPresenceByType (t : PresenceType) (m : impl) : list Want :=
  (filter (λ p, p.2 = t) (range (blockPresences m))).*1.
Definition Haves (m : impl) : list Want := getBlockPresenceByType Presence_Have m.
Definition DontHaves (m : impl) : list Want := getBlockPresenceByType Presence_DontHave m.

Definition SetPendingBytes (n : Z) (m : impl) : impl :=
  mkImpl (full m) (wantlist m) (blocks m) (rawData m) (blockPresences m) n.

Definition Remove (w : Want) (m : impl) : impl :=
  set_wantlist (delete w (wantlist m)) m.

(** [addEntry] returns the size of a new entry and 0 when it updates one. *)
Definition update_entry (priority : Z) (cancel : bool) (wantType : WantType)
    (sendDontHave : bool) (e : MEntry) : MEntry :=
  let ent := me_Entry e in
  let prio := if bool_decide (Entry_WantType ent = wantType)
              then priority else Entry_Priority ent in
  let wt := if bool_decide (wantType = WantType_Block)
               && bool_decide (Entry_WantType ent = WantType_Have)
            then wantType else Entry_WantType ent in
  {| me_Entry := {| Entry_Want := Entry_Want ent; Entry_Priority := prio;
                    Entry_WantType := wt |};
     me_Cancel := if cancel then cancel else me_Cancel e;
     me_SendDontHave := if sendDontHave then sendDontHave else me_SendDontHave e |}.

Definition new_entry (w : Want) (priority : Z) (cancel : bool) (wantType : WantType)
    (sendDontHave : bool) : MEntry :=
  {| me_Entry := {| Entry_Want := w; Entry_Priority := priority; Entry_WantType := wantType |};
     me_SendDontHave := sendDontHave;
     me_Cancel := cancel |}.

Definition addEntry (w : Want) (priority : Z) (cancel : bool) (wantType : WantType)
    (sendDontHave : bool) (m : impl) : Z * impl :=
  match wantlist m !! w with
  | Some e =>
      let e' := update_entry priority cancel wantType sendDontHave e in
      (0, set_wantlist (<[w := e']> (wantlist m)) m)
  | None =>
      let e := new_entry w priority cancel wantType sendDontHave in
      (MEntry_Size e, set_wantlist (<[w := e]> (wantlist m)) m)
  end.

Definition Cancel (w : Want) (m : impl) : Z * impl :=
  addEntry w 0 true WantType_Block false m.

Definition AddEntry (w : Want) (priority : Z) (wantType : WantType) (sendDontHave : bool)
    (m : impl) : Z * impl :=
  addEntry w priority false wantType sendDontHave m.

Definition AddBlock (b : Block) (a : string) (m : impl) : impl :=
  let w := mkWant _ (Block_Cid b) a in
  mkImpl (full m) (wantlist m)
         (<[w := NewBlock b a]> (blocks m))
         (<[w := Block_RawData b]> (rawData m))
         (delete w (blockPresences m)) (pendingBytes m).

Definition AddBlockPresence (c : Want) (t : PresenceType) (m : impl) : impl :=
  match blocks m !! c with
  | Some _ => m
  | None => set_blockPresences (<[c := t]> (blockPresences m)) m
  end.

Definition AddHave (c : Want) (m : impl) : impl := AddBlockPresence c Presence_Have m.
Definition AddDontHave (c : Want) (m : impl) : impl := AddBlockPresence c Presence_DontHave m.

Definition BlockPresenceSize (w : Want) : Z :=
  pb_BlockPresence_Size
    {| pbp_Cid := Want_Cid w;
       pbp_Auth := (hex.DecodeString (Want_Auth w)).1;
       pbp_Type := Presence_Have |}.

Definition Size (m : impl) : Z :=
  Zsum_with (λ p, AuthBlock_Size p.2) (range (blocks m))
  + Zsum_with (λ p, BlockPresenceSize p.1) (range (blockPresences m))
  + Zsum_with (λ p, MEntry_Size p.2) (range (wantlist m)).

(** ** Conversion to the wire structs *)

Definition ToProtoV0 (m : impl) : pb_Message :=
  {| pbm_Wantlist := {| pbw_Entries := ToPB <$> (range (wantlist m)).*2; pbw_Full := full m |};
     pbm_Blocks := (λ p, default [] (rawData m !! p.1)) <$> range (blocks m);
     pbm_Payload := [];
     pbm_BlockPresences := [];
     pbm_PendingBytes := 0 |}.

Definition block_to_pb (raw : gmap Want bytes) (p : Want * AuthBlock) : pb_Block :=
  {| pbb_Data := default [] (raw !! p.1);
     pbb_Prefix := Prefix_Bytes (Cid_Prefix (AuthBlock_Cid p.2));
     pbb_Auth := (hex.DecodeString (Want_Auth (AuthBlock_Want p.2))).1 |}.

Definition presence_to_pb (p : Want * PresenceType) : pb_BlockPresence :=
  {| pbp_Cid := Want_Cid p.1;
     pbp_Auth := (hex.DecodeString (Want_Auth p.1)).1;
     pbp_Type := p.2 |}.

Definition ToProtoV1 (m : impl) : pb_Message :=
  {| pbm_Wantlist := {| pbw_Entries := ToPB <$> (range (wantlist m)).*2; pbw_Full := full m |};
     pbm_Blocks := [];
     pbm_Payload := block_to_pb (rawData m) <$> range (blocks m);
     pbm_BlockPresences := presence_to_pb <$> range (blockPresences m);
     pbm_PendingBytes := pendingBytes m |}.

(** ** Conversion from the wire structs: the first error aborts *)

Fixpoint read_entries (es : list pb_Entry) (m : impl) : result error impl :=
  match es with
  | [] => Ok m
  | e :: es' =>
      if negb (Cid_Defined (pbe_Block e)) then Err errCidMissing
      else read_entries es'
             (addEntry (mkWant _ (pbe_Block e) (hex.EncodeToString (pbe_Auth e)))
                (pbe_Priority e) (pbe_Cancel e) (pbe_WantType e) (pbe_SendDontHave e) m).2
  end.

Definition read_payload_block (b : pb_Block) (m : impl) : result error impl :=
  let* pref := PrefixFromBytes (pbb_Prefix b) in
  let* c := Prefix_Sum pref (pbb_Data b) in
  let* blk := NewBlockWithCid (pbb_Data b) c in
  Ok (AddBlock blk (hex.EncodeToString (pbb_Auth b)) m).

Fixpoint read_payload (bs : list pb_Block) (m : impl) : result error impl :=
  match bs with
  | [] => Ok m
  | b :: bs' => let* m' := read_payload_block b m in read_payload bs' m'
  end.

Fixpoint read_presences (bis : list pb_BlockPresence) (m : impl) : result error impl :=
  match bis with
  | [] => Ok m
  | bi :: bis' =>
      if negb (Cid_Defined (pbp_Cid bi)) then Err errCidMissing
      else read_presences bis'
             (AddBlockPresence (mkWant _ (pbp_Cid bi) (hex.EncodeToString (pbp_Auth bi)))
                (pbp_Type bi) m)
  end.

Definition newMessageFromProto (pbm : pb_Message) : result error impl :=
  let m := newMsg (pbw_Full (pbm_Wantlist pbm)) in
  let* m := read_entries (pbw_Entries (pbm_Wantlist pbm)) m in
  let m := foldl (λ m d, AddBlock (blocks_NewBlock d) "" m) m (pbm_Blocks pbm) in
  let* m := read_payload (pbm_Payload pbm) m in
  let* m := read_presences (pbm_BlockPresences pbm) m in
  Ok (SetPendingBytes (pbm_PendingBytes pbm) m).

(** ** Well-formed messages *)

(** Entries and blocks sit under their own want, a want has a block or a
    presence but not both, and the raw bytes of every block are recorded. *)
Record wf (m : impl) : Prop := {
  wf_wantlist : ∀ w e, wantlist m !! w = Some e → Entry_Want (me_Entry e) = w;
  wf_blocks : ∀ w b, blocks m !! w = Some b →
    AuthBlock_Want b = w ∧ AuthBlock_wf b ∧
    rawData m !! w = Some (Block_RawData (AuthBlock_block b));
  wf_disjoint : ∀ w b, blocks m !! w = Some b → blockPresences m !! w = None;
}.

Lemma wf_newMsg f : wf (newMsg f).
Proof. by split. Qed.

Lemma wf_Reset f m : wf (Reset f m).
Proof. by split. Qed.

Lemma wf_SetPendingBytes n m : wf m → wf (SetPendingBytes n m).
Proof. intros []. by split. Qed.

Lemma wf_set_wantlist wl m :
  wf m → (∀ w e, wl !! w = Some e → Entry_Want (me_Entry e) = w) → wf (set_wantlist wl m).
Proof. intros []. by split. Qed.

Lemma wf_msg_Remove w m : wf m → wf (Remove w m).
Proof.
  intros Hm. apply wf_set_wantlist; [done|]. intros w' e He.
  rewrite lookup_delete in He. case_decide; [done|]. by apply (wf_wantlist m Hm).
Qed.

Lemma wf_addEntry w p c t s m : wf m → wf (addEntry w p c t s m).2.
Proof.
  intros Hm. pose proof (wf_wantlist m Hm) as Hwl. unfold addEntry.
  destruct (wantlist m !! w) as [e0|] eqn:E; simpl; (apply wf_set_wantlist; [done|]);
    intros w' e He; rewrite lookup_insert in He; case_decide; simplify_eq/=; eauto.
Qed.

Lemma wf_AddBlock b a m : wf m → wf (AddBlock b a m).
Proof.
  intros [Hw Hb Hd]. split; simpl; [done| |]; intros w b'.
  - rewrite !lookup_insert. case_decide; [|eauto]. intros [= <-]. by subst.
  - rewrite lookup_insert, lookup_delete. case_decide; eauto.
Qed.

Lemma wf_AddBlockPresence c t m : wf m → wf (AddBlockPresence c t m).
Proof.
  intros [Hw Hb Hd]. unfold AddBlockPresence. destruct (blocks m !! c) eqn:E; [done|].
  split; simpl; [done..|]. intros w b Hwb. rewrite lookup_insert_ne; [eauto|congruence].
Qed.

(** ** What [addEntry] does to an entry *)

Lemma addEntry_lookup w p c t s m k :
  wantlist (addEntry w p c t s m).2 !! k =
    if decide (w = k) then
      Some (match wantlist m !! w with
            | Some e => update_entry p c t s e
            | None => new_entry w p c t s
            end)
    else wantlist m !! k.
Proof.
  unfold addEntry. destruct (wantlist m !! w) eqn:E; simpl; by rewrite lookup_insert.
Qed.

Lemma addEntry_rest w p c t s m :
  let m' := (addEntry w p c t s m).2 in
  full m' = full m ∧ blocks m' = blocks m ∧ rawData m' = rawData m ∧
  blockPresences m' = blockPresences m ∧ pendingBytes m' = pendingBytes m.
Proof. unfold addEntry. by destruct (wantlist m !! w). Qed.

(** ** The wire round trip *)

(** Two messages with the same content; [rawData] is a cache of the blocks'
    bytes and is not compared. *)
Definition msg_eq (m m' : impl) : Prop :=
  full m = full m' ∧ wantlist m = wantlist m' ∧ blocks m = blocks m' ∧
  blockPresences m = blockPresences m' ∧ pendingBytes m = pendingBytes m'.

#[global] Instance msg_eq_equiv : Equivalence msg_eq.
Proof.
  unfold msg_eq. split.
  - by intros m.
  - intros m m'. naive_solver.
  - intros m1 m2 m3. naive_solver congruence.
Qed.

(** What the wire format can carry: defined cids, capabilities in the form
    [hex.EncodeToString] produces, priorities that are [int32], and blocks whose
    cid is the hash of their bytes. *)
Definition want_ok (w : Want) : Prop :=
  Cid_Defined (Want_Cid w) = true ∧ hex.canonical (Want_Auth w) = true.

Record wire_ok (m : impl) : Prop := {
  wire_wantlist : ∀ w e, wantlist m !! w = Some e →
    want_ok w ∧ MinInt32 ≤ Entry_Priority (me_Entry e) ≤ MaxInt32;
  wire_blocks : ∀ w b, blocks m !! w = Some b →
    hex.canonical (Want_Auth w) = true ∧
    Prefix_Sum (Cid_Prefix (AuthBlock_Cid b)) (Block_RawData (AuthBlock_block b))
      = Ok (AuthBlock_Cid b);
  wire_presences : ∀ w t, blockPresences m !! w = Some t → want_ok w;
}.

Lemma want_roundtrip w :
  hex.canonical (Want_Auth w) = true →
  mkWant _ (Want_Cid w) (hex.EncodeToString (hex.DecodeString (Want_Auth w)).1) = w.
Proof. intros H. destruct w. simpl in *. by rewrite hex.Encode_Decode. Qed.

Abbreviation insert_all := (foldl (λ mp p, <[p.1 := p.2]> mp)).

Lemma read_entries_pairs (l : list (Want * MEntry)) m :
  NoDup l.*1 →
  (∀ w e, (w, e) ∈ l → Entry_Want (me_Entry e) = w ∧ want_ok w ∧
     MinInt32 ≤ Entry_Priority (me_Entry e) ≤ MaxInt32 ∧ wantlist m !! w = None) →
  read_entries (ToPB <$> l.*2) m = Ok (set_wantlist (insert_all (wantlist m) l) m).
Proof.
  revert m. induction l as [|[w e] l IH]; intros m Hnd Hok; simpl.
  { by destruct m. }
  rewrite fmap_cons in Hnd. apply NoDup_cons in Hnd as [Hw Hnd].
  destruct (Hok w e) as (Hkey & [Hdef Hhex] & Hprio & Hnone); [by left|].
  subst w. rewrite Hdef, want_roundtrip by done. simpl.
  unfold addEntry. rewrite Hnone. simpl. rewrite IH; [|done|].
  - destruct m, e as [[] ? ?]. simpl. by rewrite int32_id.
  - intros w' e' Hin. destruct (Hok w' e') as (? & ? & ? & ?); [by right|].
    do 3 (split; [done|]). cbn. rewrite lookup_insert_ne; [done|].
    intros E. apply Hw. apply list_elem_of_fmap. exists (w', e'). by rewrite E.
Qed.

Lemma read_payload_pairs `{!BlockLibLaws} raw (l : list (Want * AuthBlock)) m :
  (∀ w b, (w, b) ∈ l → AuthBlock_Want b = w ∧ AuthBlock_wf b ∧
     raw !! w = Some (Block_RawData (AuthBlock_block b)) ∧ blockPresences m !! w = None ∧
     hex.canonical (Want_Auth w) = true ∧
     Prefix_Sum (Cid_Prefix (AuthBlock_Cid b)) (Block_RawData (AuthBlock_block b))
       = Ok (AuthBlock_Cid b)) →
  read_payload (block_to_pb raw <$> l) m =
    Ok (mkImpl (full m) (wantlist m) (insert_all (blocks m) l)
          (insert_all (rawData m) ((λ p, (p.1, Block_RawData (AuthBlock_block p.2))) <$> l))
          (blockPresences m) (pendingBytes m)).
Proof.
  revert m. induction l as [|[w b] l IH]; intros m Hok; simpl.
  { by destruct m. }
  destruct (Hok w b) as (Hkey & Hwf & Hraw & Hpres & Hhex & Hsum); [by left|].
  assert (mkWant _ (AuthBlock_Cid b) (Want_Auth w) = w) as Hw.
  { unfold AuthBlock_wf, AuthBlock_Want in *. subst w. rewrite <- Hwf. by destruct (AuthBlock_want b). }
  unfold read_payload_block, block_to_pb. simpl.
  rewrite PrefixFromBytes_Bytes. simpl. rewrite Hraw. simpl. rewrite Hsum. simpl.
  rewrite NewBlockWithCid_ok by done. simpl.
  rewrite Hkey, hex.Encode_Decode by done.
  unfold AddBlock. simpl. rewrite Hw. rewrite delete_id by done. rewrite IH.
  - simpl. replace (NewBlock (mkBlock CL (AuthBlock_Cid b) (Block_RawData (AuthBlock_block b)))
      (Want_Auth w)) with b; [done|].
    unfold NewBlock, NewWant. simpl. rewrite Hw. unfold AuthBlock_Want, AuthBlock_Cid in *.
    destruct b as [? []]. simpl in *. by subst.
  - intros w' b' Hin. simpl. apply (Hok w' b'). by right.
Qed.

Lemma read_presences_pairs (l : list (Want * PresenceType)) m :
  (∀ w t, (w, t) ∈ l → want_ok w ∧ blocks m !! w = None) →
  read_presences (presence_to_pb <$> l) m =
    Ok (set_blockPresences (insert_all (blockPresences m) l) m).
Proof.
  revert m. induction l as [|[w t] l IH]; intros m Hok; simpl.
  { by destruct m. }
  destruct (Hok w t) as ([Hdef Hhex] & Hnone); [by left|].
  rewrite Hdef, want_roundtrip by done. simpl.
  unfold AddBlockPresence. rewrite Hnone. rewrite IH; [by destruct m|].
  intros w' t' Hin. simpl. apply (Hok w' t'). by right.
Qed.

Lemma roundtrip_V1 `{!BlockLibLaws} m :
  wf m → wire_ok m →
  ∃ m', newMessageFromProto (ToProtoV1 m) = Ok m' ∧ msg_eq m' m.
Proof.
  intros [Hw Hb Hd] [Ww Wb Wp]. unfold newMessageFromProto. simpl.
  rewrite read_entries_pairs; simpl.
  2: apply NoDup_range_keys.
  2: { intros w e Hin%elem_of_range. destruct (Ww _ _ Hin).
       do 3 (split; [by eauto|]). apply lookup_empty. }
  rewrite read_payload_pairs; simpl.
  2: { intros w b Hin%elem_of_range. destruct (Hb _ _ Hin) as (? & ? & ?).
       destruct (Wb _ _ Hin). do 3 (split; [done|]). split; [apply lookup_empty|]. by split. }
  rewrite read_presences_pairs; simpl.
  2: { intros w t Hin%elem_of_range. split; [by eapply Wp|].
       rewrite foldl_insert_range. destruct (blocks m !! w) eqn:E; [|done].
       apply Hd in E. congruence. }
  eexists. split; [done|]. unfold msg_eq. simpl. by rewrite !foldl_insert_range.
Qed.
(** ** Messages read from the wire *)

Lemma wf_read_entries es m m' : wf m → read_entries es m = Ok m' → wf m'.
Proof.
  revert m. induction es as [|e es IH]; intros m Hm; simpl; [by intros [= <-]|].
  destruct (Cid_Defined _); simpl; [|done]. apply IH. by apply wf_addEntry.
Qed.

Lemma wf_read_payload bs m m' : wf m → read_payload bs m = Ok m' → wf m'.
Proof.
  revert m. induction bs as [|b bs IH]; intros m Hm; simpl; [by intros [= <-]|].
  unfold read_payload_block.
  destruct (PrefixFromBytes _); simpl; [|done]. destruct (Prefix_Sum _ _); simpl; [|done].
  destruct (NewBlockWithCid _ _); simpl; [|done]. apply IH. by apply wf_AddBlock.
Qed.

Lemma wf_read_presences bis m m' : wf m → read_presences bis m = Ok m' → wf m'.
Proof.
  revert m. induction bis as [|bi bis IH]; intros m Hm; simpl; [by intros [= <-]|].
  destruct (Cid_Defined _); simpl; [|done]. apply IH. by apply wf_AddBlockPresence.
Qed.

Lemma wf_newMessageFromProto pbm m : newMessageFromProto pbm = Ok m → wf m.
Proof.
  unfold newMessageFromProto.
  destruct (read_entries _ _) as [m1|] eqn:E1; simpl; [|done].
  apply wf_read_entries in E1; [|apply wf_newMsg].
  set (m2 := foldl _ m1 _). assert (wf m2) as H2.
  { apply foldl_inv_simple; [done|]. intros. by apply wf_AddBlock. }
  destruct (read_payload _ _) as [m3|] eqn:E3; simpl; [|done].
  apply wf_read_payload in E3; [|done].
  destruct (read_presences _ _) as [m4|] eqn:E4; simpl; [|done].
  apply wf_read_presences in E4; [|done]. intros [= <-]. by apply wf_SetPendingBytes.
Qed.

(** An entry or presence without a cid makes the whole message fail. *)
Lemma newMessageFromProto_undef pbm m :
  newMessageFromProto pbm = Ok m →
  (∀ e, e ∈ pbw_Entries (pbm_Wantlist pbm) → Cid_Defined (pbe_Block e) = true) ∧
  (∀ bi, bi ∈ pbm_BlockPresences pbm → Cid_Defined (pbp_Cid bi) = true).
Proof.
  assert (∀ es m m', read_entries es m = Ok m' → ∀ e, e ∈ es → Cid_Defined (pbe_Block e) = true) as He.
  { induction es as [|e es IH]; intros m0 m1; simpl; [by intros _ ? ?%not_elem_of_nil|].
    destruct (Cid_Defined (pbe_Block e)) eqn:E; simpl; [|done].
    intros H e' [->|Hin]%elem_of_cons; [done|]. by eapply IH. }
  assert (∀ bis m m', read_presences bis m = Ok m' →
    ∀ bi, bi ∈ bis → Cid_Defined (pbp_Cid bi) = true) as Hp.
  { induction bis as [|bi bis IH]; intros m0 m1; simpl; [by intros _ ? ?%not_elem_of_nil|].
    destruct (Cid_Defined (pbp_Cid bi)) eqn:E; simpl; [|done].
    intros H e' [->|Hin]%elem_of_cons; [done|]. by eapply IH. }
  unfold newMessageFromProto.
  destruct (read_entries _ _) as [m1|] eqn:E1; simpl; [|done].
  destruct (read_payload _ _) as [m3|] eqn:E3; simpl; [|done].
  destruct (read_presences _ _) as [m4|] eqn:E4; simpl; [|done]. eauto.
Qed.
End message.
#[export] Hint Resolve wf_newMsg wf_Reset wf_SetPendingBytes wf_msg_Remove wf_addEntry
  wf_AddBlock wf_AddBlockPresence : go.
End Message.
