(* ===== verification/Float64.v ===== *)
(** * Go's [float64]: IEEE 754 binary64, as computable operations on
      [spec_float] (round to nearest, ties to even). *)
From S2P Require Import Prelude.
From Stdlib Require Import SpecFloat.
From stdpp Require Import options.
Set Default Goal Selector "1".

Module F64.
Definition prec : Z := 53.
Definition emax : Z := 1024.

Definition add (x y : spec_float) : spec_float := SFadd prec emax x y.
Definition sub (x y : spec_float) : spec_float := SFsub prec emax x y.
Definition mul (x y : spec_float) : spec_float := SFmul prec emax x y.
Definition div (x y : spec_float) : spec_float := SFdiv prec emax x y.

(** [float64(n)] of an integer. *)
Definition of_Z (n : Z) : spec_float := binary_normalize prec emax n 0 false.

(** The constants [n/d] of the source, rounded once. *)
Definition const (n d : Z) : spec_float := div (of_Z n) (of_Z d).

(** [x > y]. *)
Definition gtb (x y : spec_float) : bool := SFltb y x.

(** [int(x)] truncates towards zero; out of range it gives the value amd64
    gives. *)
Definition to_int (x : spec_float) : Z :=
  match x with
  | S754_zero _ => 0
  | S754_finite s m e =>
      let v := match e with
               | Zneg k => Z.pos m `div` 2 ^ Z.pos k
               | _ => Z.pos m * 2 ^ e
               end in
      let v := if s then - v else v in
      if (- 2 ^ 63 <=? v) && (v <? 2 ^ 63) then v else - 2 ^ 63
  | _ => - 2 ^ 63
  end%Z.

Example to_int_trunc : to_int (const 29 10) = 2%Z ∧ to_int (const (-29) 10) = (-2)%Z.
Proof. by vm_compute. Qed.
End F64.
