(* ===== verification/Ledger.v ===== *)
(** * Per-peer ledgers of the decision engine
      (src/internal/decision/ledger.go, peer_ledger.go)

    [ledger] keeps the wantlist of one partner; [peerLedger] is the reverse
    index from a want to the peers that wait for it. *)
From S2P Require Import Prelude Auth Wantlist.

Module Ledger.
Section ledger.
Context {CL : CidLib} {GO : GoRuntime}.

Record ledger := mkLedger {
  Partner : PeerID;
  wantList : Wantlist;
}.

Definition newLedger (p : PeerID) : ledger := {| wantList := WL.New; Partner := p |}.

Definition set_wantList (w : Wantlist) (l : ledger) : ledger :=
  {| Partner := Partner l; wantList := w |}.

Definition Wants (k : Want) (priority : Z) (wantType : WantType) (l : ledger) : ledger :=
  set_wantList (WL.Add k priority wantType (wantList l)).2 l.

Definition CancelWant (k : Want) (l : ledger) : bool * ledger :=
  let r := WL.Remove k (wantList l) in (r.1, set_wantList r.2 l).

Definition WantListContains (k : Want) (l : ledger) : option Entry :=
  WL.Contains (wantList l) k.

Definition Entries (l : ledger) : list Entry := WL.Entries (wantList l).
End ledger.
End Ledger.

Module PeerLedger.
Section peerledger.
Context {CL : CidLib} {GO : GoRuntime}.

(** [map[auth.Want]map[peer.ID]struct{}]. *)
Definition newPeerLedger : gmap Want (gset PeerID) := ∅.

Definition Wants (p : PeerID) (k : Want) (l : gmap Want (gset PeerID)) : gmap Want (gset PeerID) :=
  let m := match l !! k with Some m => m | None => ∅ end in
  <[k := {[p]} ∪ m]> l.

Definition CancelWant (p : PeerID) (k : Want) (l : gmap Want (gset PeerID))
  : gmap Want (gset PeerID) :=
  match l !! k with
  | None => l
  | Some m =>
      let m' := m ∖ {[p]} in
      if (size m' =? 0)%nat then delete k l else <[k := m']> l
  end.

Definition Peers (k : Want) (l : gmap Want (gset PeerID)) : list PeerID :=
  match l !! k with
  | None => []
  | Some m => keys m
  end.

(** The relation the index represents. *)
Definition waits (l : gmap Want (gset PeerID)) (p : PeerID) (k : Want) : Prop :=
  ∃ m, l !! k = Some m ∧ p ∈ m.

(** The index holds no empty set. *)
Definition wf (l : gmap Want (gset PeerID)) : Prop := ∀ k m, l !! k = Some m → m ≠ ∅.

Lemma elem_of_Peers p k l : p ∈ Peers k l ↔ waits l p k.
Proof.
  unfold Peers, waits. destruct (l !! k) as [m|].
  - rewrite elem_of_keys. split; [eauto|]. by intros (? & [= <-] & ?).
  - split; [by intros ?%not_elem_of_nil|]. by intros (? & ? & ?).
Qed.

Lemma waits_Wants p k l q j : waits (Wants p k l) q j ↔ waits l q j ∨ (q = p ∧ j = k).
Proof.
  unfold waits, Wants. setoid_rewrite lookup_insert. case_decide as E; [subst j|].
  - split.
    + intros (m & [= <-] & [->%elem_of_singleton|Hq]%elem_of_union); [by right|].
      destruct (l !! k); [left; eauto|set_solver].
    + intros [(m & -> & Hq)|[-> _]]; (eexists; split; [done|]); set_solver.
  - naive_solver.
Qed.

Lemma waits_CancelWant p k l q j :
  waits (CancelWant p k l) q j ↔ waits l q j ∧ ¬ (q = p ∧ j = k).
Proof.
  unfold waits, CancelWant. destruct (l !! k) as [m|] eqn:Hk.
  - destruct (size (m ∖ {[p]}) =? 0)%nat eqn:Hs.
    + apply Nat.eqb_eq, size_empty_inv in Hs.
      setoid_rewrite lookup_delete. case_decide as E; [subst j|].
      * split; [by intros (? & ? & ?)|]. intros [(m' & E' & Hq) Hn]. simplify_eq. set_solver.
      * naive_solver.
    + setoid_rewrite lookup_insert. case_decide as E; [subst j|].
      * split.
        -- intros (m' & [= <-] & Hq). split; [exists m; set_solver|set_solver].
        -- intros [(m' & E' & Hq) Hn]. simplify_eq. eexists. split; [done|]. set_solver.
      * naive_solver.
  - split; [|tauto]. intros (m & Hm & Hq). split; [eauto|]. intros [-> ->]. congruence.
Qed.

Lemma wf_Wants p k l : wf l → wf (Wants p k l).
Proof.
  intros Hl j m. unfold Wants. rewrite lookup_insert. case_decide; [|apply Hl].
  intros [= <-]. set_solver.
Qed.

Lemma wf_CancelWant p k l : wf l → wf (CancelWant p k l).
Proof.
  intros Hl j m. unfold CancelWant. destruct (l !! k) as [m0|] eqn:Hk; [|apply Hl].
  destruct (size _ =? 0)%nat eqn:Hs.
  - rewrite lookup_delete. case_decide; [done|]. apply Hl.
  - rewrite lookup_insert. case_decide; [|apply Hl]. intros [= <-] Hne.
    rewrite Hne in Hs. by rewrite size_empty in Hs.
Qed.

(** A want is in the index exactly when some peer waits for it. *)
Lemma wf_lookup l k : wf l → is_Some (l !! k) ↔ ∃ p, waits l p k.
Proof.
  intros Hl. unfold waits. split.
  - intros [m Hm]. destruct (set_choose_L m (Hl _ _ Hm)) as [p Hp]. eauto.
  - intros (p & m & -> & ?). eauto.
Qed.
End peerledger.
End PeerLedger.
