(* ===== verification/ScoreLedger.v ===== *)
(** * Byte accounting and peer scores
      (src/internal/decision/scoreledger.go, ewma.go)

    [ScoreLedger] is the interface the engine uses; [DefaultScoreLedger] is its
    implementation, with the sampling loop that turns exchanges into tags. *)
From S2P Require Import Prelude Auth Float64.
From Stdlib Require Import SpecFloat.
From stdpp Require Import options.
Set Default Goal Selector "1".
Open Scope Z_scope.

(** [Receipt]; [Peer] holds the id that the code prints with [p.String()]. *)
Record Receipt := mkReceipt {
  Receipt_Peer : PeerID;
  Receipt_Value : spec_float;
  Receipt_Sent : Z;
  Receipt_Recv : Z;
  Receipt_Exchanged : Z;
}.

(** The [ScoreLedger] interface of engine.go. *)
Class ScoreLedger (SL : Type) := {
  sl_GetReceipt : SL → PeerID → Receipt;
  sl_AddToSentBytes : PeerID → Z → SL → SL;
  sl_AddToReceivedBytes : PeerID → Z → SL → SL;
  sl_PeerConnected : PeerID → SL → SL;
  sl_PeerDisconnected : PeerID → SL → SL;
}.

Module Score.
Section score.
Context {GO : GoRuntime}.

Definition shortTermAlpha : spec_float := F64.const 1 2.
Definition longTermAlpha : spec_float := F64.const 1 20.
Definition longTermRatio : Z := 10.
Definition longTermScore : spec_float := F64.of_Z 10.
Definition shortTermScore : spec_float := F64.of_Z 10.

Definition ewma (old new alpha : spec_float) : spec_float :=
  F64.add (F64.mul new alpha) (F64.mul (F64.sub (F64.of_Z 1) alpha) old).

Record scoreledger := mkScore {
  partner : PeerID;
  bytesSent : Z;
  bytesRecv : Z;
  lastExchange : Time;
  shortScore : spec_float;
  longScore : spec_float;
  score : Z;
  exchangeCount : Z;
}.

Definition AddToSentBytes (now : Time) (n : Z) (l : scoreledger) : scoreledger :=
  mkScore (partner l) (uint64 (bytesSent l + uint64 n)) (bytesRecv l) now
          (shortScore l) (longScore l) (score l) (uint64 (exchangeCount l + 1)).

Definition AddToReceivedBytes (now : Time) (n : Z) (l : scoreledger) : scoreledger :=
  mkScore (partner l) (bytesSent l) (uint64 (bytesRecv l + uint64 n)) now
          (shortScore l) (longScore l) (score l) (uint64 (exchangeCount l + 1)).

Definition Receipt_of (l : scoreledger) : Receipt :=
  {| Receipt_Peer := partner l;
     Receipt_Value := F64.div (F64.of_Z (bytesSent l)) (F64.of_Z (uint64 (bytesRecv l + 1)));
     Receipt_Sent := bytesSent l;
     Receipt_Recv := bytesRecv l;
     Receipt_Exchanged := exchangeCount l |}.

(** [DefaultScoreLedger]: the ledgers, the reading of its clock, and whether
    [closing] has been closed. *)
Record DefaultScoreLedger := mkDSL {
  ledgerMap : gmap PeerID scoreledger;
  clock_Now : Time;
  closing : bool;
}.

Definition set_ledgerMap (m : gmap PeerID scoreledger) (d : DefaultScoreLedger) :=
  mkDSL m (clock_Now d) (closing d).

Definition NewDefaultScoreLedger (now : Time) : DefaultScoreLedger :=
  {| ledgerMap := ∅; clock_Now := now; closing := false |}.

Definition newScoreLedger (p : PeerID) : scoreledger :=
  mkScore p 0 0 Time_zero (S754_zero false) (S754_zero false) 0 0.

Definition find (p : PeerID) (d : DefaultScoreLedger) : option scoreledger := ledgerMap d !! p.

Definition findOrCreate (p : PeerID) (d : DefaultScoreLedger) : scoreledger * DefaultScoreLedger :=
  match find p d with
  | Some l => (l, d)
  | None =>
      let l := newScoreLedger p in
      (l, set_ledgerMap (<[p := l]> (ledgerMap d)) d)
  end.

Definition GetReceipt (d : DefaultScoreLedger) (p : PeerID) : Receipt :=
  match find p d with
  | Some l => Receipt_of l
  | None => mkReceipt p (S754_zero false) 0 0 0
  end.

(** The ledger returned by [findOrCreate] is shared with the map, so the update
    is visible there. *)
Definition dsl_AddToSentBytes (p : PeerID) (n : Z) (d : DefaultScoreLedger) : DefaultScoreLedger :=
  let '(l, d) := findOrCreate p d in
  set_ledgerMap (<[p := AddToSentBytes (clock_Now d) n l]> (ledgerMap d)) d.

Definition dsl_AddToReceivedBytes (p : PeerID) (n : Z) (d : DefaultScoreLedger) : DefaultScoreLedger :=
  let '(l, d) := findOrCreate p d in
  set_ledgerMap (<[p := AddToReceivedBytes (clock_Now d) n l]> (ledgerMap d)) d.

Definition PeerConnected (p : PeerID) (d : DefaultScoreLedger) : DefaultScoreLedger :=
  match ledgerMap d !! p with
  | Some _ => d
  | None => set_ledgerMap (<[p := newScoreLedger p]> (ledgerMap d)) d
  end.

Definition PeerDisconnected (p : PeerID) (d : DefaultScoreLedger) : DefaultScoreLedger :=
  set_ledgerMap (delete p (ledgerMap d)) d.

Definition Stop (d : DefaultScoreLedger) : DefaultScoreLedger :=
  mkDSL (ledgerMap d) (clock_Now d) true.

#[global] Instance DefaultScoreLedger_ScoreLedger : ScoreLedger DefaultScoreLedger := {|
  sl_GetReceipt := GetReceipt;
  sl_AddToSentBytes := dsl_AddToSentBytes;
  sl_AddToReceivedBytes := dsl_AddToReceivedBytes;
  sl_PeerConnected := PeerConnected;
  sl_PeerDisconnected := PeerDisconnected;
|}.

(** ** The sampling loop *)

(** The local variables of [scoreWorker]. *)
Record sampler := mkSampler {
  sw_i : Z;
  lastShortUpdate : Time;
  lastLongUpdate : Time;
}.

Definition sampler_init : sampler := mkSampler 0 Time_zero Time_zero.

Definition lscore (l : scoreledger) : spec_float :=
  if bytesRecv l =? 0 then S754_zero false
  else F64.div (F64.of_Z (bytesRecv l)) (F64.of_Z (uint64 (bytesRecv l + bytesSent l))).

(** [int((short + long) * (lscore*.5 + .75))]. *)
Definition new_score (l : scoreledger) : Z :=
  F64.to_int (F64.mul (F64.add (shortScore l) (longScore l))
    (F64.add (F64.mul (lscore l) (F64.const 1 2)) (F64.const 3 4))).

(** The two averages after one sample. *)
Definition sample_scores (s : sampler) (l : scoreledger) : scoreledger :=
  let short :=
    if Time_After (lastExchange l) (lastShortUpdate s)
    then ewma (shortScore l) shortTermScore shortTermAlpha
    else ewma (shortScore l) (F64.of_Z 0) shortTermAlpha in
  let long :=
    if sw_i s =? 0 then
      if Time_After (lastExchange l) (lastLongUpdate s)
      then ewma (longScore l) longTermScore longTermAlpha
      else ewma (longScore l) (F64.of_Z 0) longTermAlpha
    else longScore l in
  mkScore (partner l) (bytesSent l) (bytesRecv l) (lastExchange l) short long
          (score l) (exchangeCount l).

Definition set_score (n : Z) (l : scoreledger) : scoreledger :=
  mkScore (partner l) (bytesSent l) (bytesRecv l) (lastExchange l) (shortScore l) (longScore l)
          n (exchangeCount l).

(** The body of the loop over [ledgerMap]: the ledger is updated in place and a
    changed score is queued. *)
Definition sample_ledger (s : sampler) (acc : gmap PeerID scoreledger * list (PeerID * Z))
    (x : PeerID * scoreledger) : gmap PeerID scoreledger * list (PeerID * Z) :=
  let '(p, l) := x in
  let l := sample_scores s l in
  let n := new_score l in
  if negb (score l =? n)
  then (<[p := set_score n l]> acc.1, acc.2 ++ [(partner l, n)])
  else (<[p := l]> acc.1, acc.2).

(** One tick of [scoreWorker] at time [now]: the new ledgers, the loop variables
    of the next round, and the calls of [scorePeer] in order. *)
Definition scoreWorker_tick (now : Time) (s : sampler) (d : DefaultScoreLedger)
  : DefaultScoreLedger * sampler * list (PeerID * Z) :=
  let updateLong := sw_i s =? 0 in
  let '(m, updates) := foldl (sample_ledger s) (ledgerMap d, []) (range (ledgerMap d)) in
  (set_ledgerMap m d,
   {| sw_i := (sw_i s + 1) `mod` longTermRatio;
      lastShortUpdate := now;
      lastLongUpdate := if updateLong then now else lastLongUpdate s |},
   updates).

(** ** Properties *)

(** A sampled ledger, in one step. *)
Definition sampled (s : sampler) (l : scoreledger) : scoreledger :=
  set_score (new_score (sample_scores s l)) (sample_scores s l).

(** Every ledger sits under its partner. *)
Definition wf (d : DefaultScoreLedger) : Prop :=
  ∀ p l, ledgerMap d !! p = Some l → partner l = p.

Lemma sample_ledger_fst s acc p l :
  (sample_ledger s acc (p, l)).1 = <[p := sampled s l]> acc.1.
Proof.
  unfold sample_ledger, sampled. destruct (negb _) eqn:E; simpl; [done|].
  apply negb_false_iff, Z.eqb_eq in E. f_equal. rewrite <- E. by destruct l.
Qed.

Lemma sample_fold_lookup s (l : list (PeerID * scoreledger)) m u p :
  NoDup l.*1 →
  (foldl (sample_ledger s) (m, u) l).1 !! p =
    match (list_to_map l : gmap PeerID scoreledger) !! p with
    | Some x => Some (sampled s x)
    | None => m !! p
    end.
Proof.
  revert m u. induction l as [|[q x] l IH]; intros m u; [done|].
  rewrite fmap_cons. intros [Hq Hnd]%NoDup_cons. cbn [foldl].
  rewrite (surjective_pairing (sample_ledger s (m, u) (q, x))), IH by done.
  simpl list_to_map. rewrite sample_ledger_fst. simpl. rewrite !lookup_insert.
  case_decide as E; [subst q|done].
  by rewrite (not_elem_of_list_to_map_1 _ _ Hq).
Qed.

Lemma tick_ledgers now s d : ledgerMap (scoreWorker_tick now s d).1.1 = sampled s <$> ledgerMap d.
Proof.
  unfold scoreWorker_tick. destruct (foldl _ _ _) as [m u] eqn:E. simpl.
  apply map_eq. intros p. change m with (m, u).1. rewrite <- E.
  rewrite sample_fold_lookup by apply NoDup_range_keys.
  rewrite (list_to_map_proper _ (map_to_list (ledgerMap d)))
    by auto using NoDup_range_keys, range_perm.
  rewrite list_to_map_to_list, lookup_fmap. by destruct (ledgerMap d !! p).
Qed.

Lemma sample_fold_updates s (l : list (PeerID * scoreledger)) m u :
  (foldl (sample_ledger s) (m, u) l).2 =
    u ++ omap (λ x, if score x.2 =? score (sampled s x.2) then None
                    else Some (partner x.2, score (sampled s x.2))) l.
Proof.
  revert m u. induction l as [|[q x] l IH]; intros m u; simpl; [by rewrite app_nil_r|].
  destruct (score x =? new_score (sample_scores s x)) eqn:E; simpl; rewrite IH; [done|].
  by rewrite <- app_assoc.
Qed.

Lemma tick_updates now s d p n :
  wf d →
  (p, n) ∈ (scoreWorker_tick now s d).2 ↔
  ∃ l, ledgerMap d !! p = Some l ∧ n = score (sampled s l) ∧ n ≠ score l.
Proof.
  intros Hwf. unfold scoreWorker_tick. destruct (foldl _ _ _) as [m u] eqn:E. simpl.
  change u with (m, u).2. rewrite <- E, sample_fold_updates. simpl.
  rewrite list_elem_of_omap. split.
  - intros ([q l] & Hin%elem_of_range & Heq). simpl in Heq. case_match eqn:Es; [done|].
    simplify_eq. exists l. rewrite (Hwf _ _ Hin). split_and!; [done..|].
    apply Z.eqb_neq in Es. congruence.
  - intros (l & Hl & -> & Hne). exists (p, l). split; [by apply elem_of_range|]. simpl.
    rewrite (proj2 (Z.eqb_neq _ _)) by congruence. by rewrite (Hwf _ _ Hl).
Qed.

Lemma wf_PeerConnected p d : wf d → wf (PeerConnected p d).
Proof.
  intros Hd q l. unfold PeerConnected. destruct (ledgerMap d !! p) eqn:E; [apply Hd|].
  simpl. rewrite lookup_insert. case_decide; [by intros [= <-]|apply Hd].
Qed.
End score.
End Score.
