(* ===== verification/TaskMerger.v ===== *)
(** * Merging tasks of the request queue (src/internal/decision/taskmerger.go) *)
From S2P Require Import Prelude Auth.
Open Scope Z_scope.

Section task.
Context {CL : CidLib}.

(** [taskData].  Its [Auth] field is never written and is omitted. *)
Record taskData := mkTaskData {
  td_IsWantBlock : bool;
  td_SendDontHave : bool;
  td_BlockSize : Z;
  td_HaveBlock : bool;
}.

(** [peertask.Task] of go-peertaskqueue, with the topic and data this
    repository stores in it. *)
Record Task := mkTask {
  Task_Topic : Want;
  Task_Priority : Z;
  Task_Work : Z;
  Task_Data : taskData;
}.

#[global] Instance taskData_eq_dec : EqDecision taskData.
Proof. solve_decision. Defined.
#[global] Instance Task_eq_dec : EqDecision Task.
Proof. solve_decision. Defined.

(** [HasNewInfo]: does a new task tell more than the queued ones? *)
Definition HasNewInfo (task : Task) (existing : list Task) : bool :=
  let '(haveSize, isWantBlock) :=
    foldl (λ acc et,
        let etd := Task_Data et in
        (if td_HaveBlock etd then true else acc.1,
         if td_IsWantBlock etd then true else acc.2))
      (false, false) existing in
  let newTaskData := Task_Data task in
  if negb isWantBlock && td_IsWantBlock newTaskData then true
  else if negb haveSize && td_HaveBlock newTaskData then true
  else false.

(** [Merge] updates the queued task in place. *)
Definition Merge (task existing : Task) : Task :=
  let newTask := Task_Data task in
  let d := Task_Data existing in
  let d :=
    if negb (td_HaveBlock d) && td_HaveBlock newTask
    then mkTaskData (td_IsWantBlock d) (td_SendDontHave d) (td_BlockSize newTask) (td_HaveBlock newTask)
    else d in
  let '(d, work) :=
    if negb (td_IsWantBlock d) && td_IsWantBlock newTask
    then
      let d := mkTaskData true (td_SendDontHave d) (td_BlockSize d) (td_HaveBlock d) in
      if negb (td_HaveBlock d) || td_HaveBlock newTask
      then (mkTaskData (td_IsWantBlock d) (td_SendDontHave d) (td_BlockSize d) (td_HaveBlock newTask),
            Task_Work task)
      else (d, Task_Work existing)
    else (d, Task_Work existing) in
  let work := if td_IsWantBlock d && td_HaveBlock d then td_BlockSize d else work in
  mkTask (Task_Topic existing) (Task_Priority existing) work d.

(** A task that sends a block accounts for the block's size. *)
Definition task_wf (t : Task) : Prop :=
  td_IsWantBlock (Task_Data t) = true → td_HaveBlock (Task_Data t) = true →
  Task_Work t = td_BlockSize (Task_Data t).

Lemma HasNewInfo_fold existing a b :
  foldl (λ acc et, (if td_HaveBlock (Task_Data et) then true else acc.1,
                    if td_IsWantBlock (Task_Data et) then true else acc.2)) (a, b) existing
  = (a || existsb (λ t, td_HaveBlock (Task_Data t)) existing,
     b || existsb (λ t, td_IsWantBlock (Task_Data t)) existing).
Proof.
  revert a b. induction existing as [|t l IH]; intros a b; simpl.
  - by rewrite !orb_false_r.
  - rewrite IH. by destruct (td_HaveBlock (Task_Data t)), (td_IsWantBlock (Task_Data t)), a, b.
Qed.

Lemma HasNewInfo_spec task existing :
  HasNewInfo task existing =
    (td_IsWantBlock (Task_Data task) && negb (existsb (λ t, td_IsWantBlock (Task_Data t)) existing))
    || (td_HaveBlock (Task_Data task) && negb (existsb (λ t, td_HaveBlock (Task_Data t)) existing)).
Proof.
  unfold HasNewInfo. rewrite HasNewInfo_fold. simpl.
  by destruct (existsb _ existing), (existsb _ existing), (td_IsWantBlock _), (td_HaveBlock _).
Qed.

(** The information of two tasks for the same want, joined. *)
Lemma Merge_flags task existing :
  td_HaveBlock (Task_Data (Merge task existing)) =
    td_HaveBlock (Task_Data existing) || td_HaveBlock (Task_Data task) ∧
  td_IsWantBlock (Task_Data (Merge task existing)) =
    td_IsWantBlock (Task_Data existing) || td_IsWantBlock (Task_Data task) ∧
  td_BlockSize (Task_Data (Merge task existing)) =
    (if td_HaveBlock (Task_Data existing) then td_BlockSize (Task_Data existing)
     else if td_HaveBlock (Task_Data task) then td_BlockSize (Task_Data task)
     else td_BlockSize (Task_Data existing)) ∧
  td_SendDontHave (Task_Data (Merge task existing)) = td_SendDontHave (Task_Data existing) ∧
  Task_Topic (Merge task existing) = Task_Topic existing ∧
  task_wf (Merge task existing).
Proof.
  destruct task as [? ? ? [wb sd bs hb]], existing as [? ? ? [wb' sd' bs' hb']].
  by destruct wb, hb, wb', hb'.
Qed.
End task.

(** What is used of go-peertaskqueue: tasks are pushed and removed per peer,
    popped in batches together with the amount of work still queued for the
    peer, and reported as done. *)
Class PeerTaskQueue `{CL : CidLib} (Q : Type) := {
  PushTasks : PeerID → list Task → Q → Q;
  PopTasks : Z → Q → (PeerID * list Task * Z) * Q;
  Queue_Remove : Want → PeerID → Q → Q;
  TasksDone : PeerID → list Task → Q → Q;
  ThawRound : Q → Q;
}.
