(* ===== verification/BlockstoreManager.v ===== *)
(** * Reading the blockstore for the engine
      (src/internal/decision/blockstoremanager.go)

    One job per key is handed to a pool of workers.  Handing over fails when the
    context is cancelled or the pool shuts down; the jobs already accepted
    still run to completion before the call returns. *)
From S2P Require Import Prelude Auth.

Module BSM.
Section bsm.
Context {CL : CidLib} {B : Type} {BS : Blockstore B}.

(** What the environment does to a sequence of [addJob] calls: it accepts them
    all, or refuses the [n]-th one with an error. *)
Definition fault := option (nat * error).

(** [jobPerKey]: the keys whose jobs ran, and the error. *)
Definition jobPerKey {S} (f : fault) (ws : list Want) (jobFn : Want → S → S) (st : S)
  : S * option error :=
  let run := λ ks, foldl (λ st w, jobFn w st) st ks in
  match f with
  | Some (n, e) => if (n <? length ws)%nat then (run (take n ws), Some e) else (run ws, None)
  | None => (run ws, None)
  end.

Definition getBlockSizes (f : fault) (bs : AuthedBlockstore.AuthedBlockstore B)
    (ws : list Want) (remote : PeerID) : gmap Want Z * option error :=
  if (length ws =? 0)%nat then (∅, None)
  else
    jobPerKey f ws (λ w res,
      match AuthedBlockstore.GetSize bs (Want_Cid w) with
      | Err _ => res
      | Ok size => <[w := size]> res
      end) ∅.

Definition getBlocks (f : fault) (bs : AuthedBlockstore.AuthedBlockstore B)
    (ws : list Want) (remote : PeerID) : gmap Want Block * option error :=
  if (length ws =? 0)%nat then (∅, None)
  else
    jobPerKey f ws (λ w res,
      match AuthedBlockstore.Get bs (Want_Cid w) remote (Want_Auth w) with
      | Err _ => res
      | Ok blk => <[w := blk]> res
      end) ∅.

(** The keys whose job ran. *)
Definition accepted (f : fault) (ws : list Want) : list Want :=
  match f with Some (n, _) => take n ws | None => ws end.

Lemma jobPerKey_run {S} f ws (jobFn : Want → S → S) st :
  (jobPerKey f ws jobFn st).1 = foldl (λ st w, jobFn w st) st (accepted f ws).
Proof.
  destruct f as [[n e]|]; simpl; [|done]. case_match eqn:E; simpl; [done|].
  apply Nat.ltb_ge in E. by rewrite take_ge.
Qed.

(** A loop that records a partial function of the key. *)
Lemma lookup_foldl_query {V} (g : Want → result error V) (ws : list Want) (w : Want) :
  foldl (λ (res : gmap Want V) w, match g w with Err _ => res | Ok v => <[w := v]> res end) ∅ ws !! w =
    if decide (w ∈ ws) then match g w with Ok v => Some v | Err _ => None end
    else None.
Proof.
  induction ws as [|x ws IH] using rev_ind; [done|].
  rewrite foldl_app. simpl. erewrite (decide_ext (w ∈ ws ++ [x]) (w ∈ ws ∨ w = x)) by apply elem_of_snoc.
  destruct (g x) as [v|e] eqn:Ex; rewrite ?lookup_insert, IH;
    repeat case_decide; simplify_eq; try done; try (exfalso; tauto).
  all: destruct_or!; simplify_eq; by rewrite ?Ex.
Qed.

Lemma getBlocks_lookup f bs ws remote w :
  (getBlocks f bs ws remote).1 !! w =
    if decide (w ∈ accepted f ws)
    then match AuthedBlockstore.Get bs (Want_Cid w) remote (Want_Auth w) with
         | Ok b => Some b | Err _ => None end
    else None.
Proof.
  unfold getBlocks. destruct ws as [|x ws]; simpl.
  { destruct f as [[n e]|]; simpl; rewrite ?take_nil; done. }
  rewrite jobPerKey_run.
  apply (lookup_foldl_query (λ w, AuthedBlockstore.Get bs (Want_Cid w) remote (Want_Auth w))).
Qed.

Lemma getBlockSizes_lookup f bs ws remote w :
  (getBlockSizes f bs ws remote).1 !! w =
    if decide (w ∈ accepted f ws)
    then match AuthedBlockstore.GetSize bs (Want_Cid w) with
         | Ok n => Some n | Err _ => None end
    else None.
Proof.
  unfold getBlockSizes. destruct ws as [|x ws]; simpl.
  { destruct f as [[n e]|]; simpl; rewrite ?take_nil; done. }
  rewrite jobPerKey_run.
  apply (lookup_foldl_query (λ w, AuthedBlockstore.GetSize bs (Want_Cid w))).
Qed.

(** Without an error every job ran. *)
Lemma jobPerKey_no_error {S} f ws (jobFn : Want → S → S) st r :
  jobPerKey f ws jobFn st = (r, None) → accepted f ws = ws.
Proof.
  destruct f as [[n e]|]; simpl; [|done]. case_match eqn:E; [done|].
  apply Nat.ltb_ge in E. by rewrite take_ge.
Qed.

Lemma getBlocks_no_error f bs ws remote r :
  getBlocks f bs ws remote = (r, None) → accepted f ws = ws.
Proof.
  unfold getBlocks. destruct ws as [|x ws]; [by destruct f as [[[] ?]|]|].
  simpl. apply jobPerKey_no_error.
Qed.

Lemma getBlockSizes_no_error f bs ws remote r :
  getBlockSizes f bs ws remote = (r, None) → accepted f ws = ws.
Proof.
  unfold getBlockSizes. destruct ws as [|x ws]; [by destruct f as [[[] ?]|]|].
  simpl. apply jobPerKey_no_error.
Qed.
End bsm.
End BSM.
