(* ===== verification/Engine.v ===== *)
(** * The decision engine (src/internal/decision/engine.go)

    The engine answers the wants of remote peers.  [MessageReceived] records
    wants in the ledger of the peer and in the reverse index and pushes tasks on
    the request queue; [ReceiveFrom] pushes tasks for the peers that wait for
    blocks that arrive; [nextEnvelope] pops tasks and builds the message to
    send, reading the blocks through the authenticating blockstore.

    The request queue (go-peertaskqueue), the score ledger and the blockstore
    are interfaces.  Each operation is the state change of the whole Go method;
    the locks of the code make the parts [mr_index] and [mr_ledger] of
    [MessageReceived] atomic separately. *)
From S2P Require Import Prelude Auth Wantlist Hex Proto Message Ledger ScoreLedger TaskMerger.
From S2P Require Import BlockstoreManager.
Import Message.
Open Scope Z_scope.

Module Engine.
Import Ledger.

Definition targetMessageSize : Z := 16 * 1024.
Definition queuedTagWeight : Z := 10.
Definition maxBlockSizeReplaceHasWithBlock : Z := 1024.

Section engine.
Context {CL : CidLib} {GO : GoRuntime}.
Context {B : Type} {BS : Blockstore B}.
Context {Q : Type} {PTQ : PeerTaskQueue Q}.
Context {SL : Type} {SLI : ScoreLedger SL}.

(** [workSignal] is a channel of capacity one, [true] when it holds a token. *)
Record Engine := mkEngine {
  ledgerMap : gmap PeerID ledger;
  peerLedger : gmap Want (gset PeerID);
  scoreLedger : SL;
  peerRequestQueue : Q;
  workSignal : bool;
  bsm : AuthedBlockstore.AuthedBlockstore B;
  maxReplaceSize : Z;
  sendDontHaves : bool;
  metricUpdateCounter : Z;
  taskWorkerCount : Z;
  outboxClosed : bool;
}.

Definition set_ledgerMap (m : gmap PeerID ledger) (e : Engine) : Engine :=
  mkEngine m (peerLedger e) (scoreLedger e) (peerRequestQueue e) (workSignal e) (bsm e)
    (maxReplaceSize e) (sendDontHaves e) (metricUpdateCounter e) (taskWorkerCount e) (outboxClosed e).
Definition set_peerLedger (l : gmap Want (gset PeerID)) (e : Engine) : Engine :=
  mkEngine (ledgerMap e) l (scoreLedger e) (peerRequestQueue e) (workSignal e) (bsm e)
    (maxReplaceSize e) (sendDontHaves e) (metricUpdateCounter e) (taskWorkerCount e) (outboxClosed e).
Definition set_scoreLedger (s : SL) (e : Engine) : Engine :=
  mkEngine (ledgerMap e) (peerLedger e) s (peerRequestQueue e) (workSignal e) (bsm e)
    (maxReplaceSize e) (sendDontHaves e) (metricUpdateCounter e) (taskWorkerCount e) (outboxClosed e).
Definition set_queue (q : Q) (e : Engine) : Engine :=
  mkEngine (ledgerMap e) (peerLedger e) (scoreLedger e) q (workSignal e) (bsm e)
    (maxReplaceSize e) (sendDontHaves e) (metricUpdateCounter e) (taskWorkerCount e) (outboxClosed e).
Definition set_workSignal (b : bool) (e : Engine) : Engine :=
  mkEngine (ledgerMap e) (peerLedger e) (scoreLedger e) (peerRequestQueue e) b (bsm e)
    (maxReplaceSize e) (sendDontHaves e) (metricUpdateCounter e) (taskWorkerCount e) (outboxClosed e).
Definition set_metrics (n : Z) (e : Engine) : Engine :=
  mkEngine (ledgerMap e) (peerLedger e) (scoreLedger e) (peerRequestQueue e) (workSignal e) (bsm e)
    (maxReplaceSize e) (sendDontHaves e) n (taskWorkerCount e) (outboxClosed e).

Definition newEngine (bs : AuthedBlockstore.AuthedBlockstore B) (sl : SL) (q : Q)
    (engineTaskWorkerCount maxReplace : Z) : Engine :=
  {| ledgerMap := ∅; peerLedger := PeerLedger.newPeerLedger; scoreLedger := sl;
     peerRequestQueue := q; workSignal := false; bsm := bs; maxReplaceSize := maxReplace;
     sendDontHaves := true; metricUpdateCounter := 0; taskWorkerCount := engineTaskWorkerCount;
     outboxClosed := false |}.

Definition NewEngine (bs : AuthedBlockstore.AuthedBlockstore B) (sl : SL) (q : Q)
    (engineTaskWorkerCount : Z) : Engine :=
  newEngine bs sl q engineTaskWorkerCount maxBlockSizeReplaceHasWithBlock.

(** The gauges are not modelled; the counter is. *)
Definition updateMetrics (e : Engine) : Engine := set_metrics (metricUpdateCounter e + 1) e.

Definition SetSendDontHaves (send : bool) (e : Engine) : Engine :=
  mkEngine (ledgerMap e) (peerLedger e) (scoreLedger e) (peerRequestQueue e) (workSignal e) (bsm e)
    (maxReplaceSize e) send (metricUpdateCounter e) (taskWorkerCount e) (outboxClosed e).

(** A send on a full channel of capacity one is dropped. *)
Definition signalNewWork (e : Engine) : Engine := set_workSignal true e.

Definition sendAsBlock (e : Engine) (wantType : WantType) (blockSize : Z) : bool :=
  let isWantBlock := bool_decide (wantType = WantType_Block) in
  isWantBlock || (blockSize <=? maxReplaceSize e).

Definition findOrCreate (p : PeerID) (e : Engine) : ledger * Engine :=
  match ledgerMap e !! p with
  | Some l => (l, e)
  | None => let l := newLedger p in (l, set_ledgerMap (<[p := l]> (ledgerMap e)) e)
  end.

Definition WantlistForPeer (p : PeerID) (e : Engine) : list Entry * Engine :=
  let '(partner, e) := findOrCreate p e in
  (WL.SortEntries (Entries partner), e).

Definition LedgerForPeer (p : PeerID) (e : Engine) : Receipt := sl_GetReceipt (scoreLedger e) p.

Definition numBytesSentTo (p : PeerID) (e : Engine) : Z := Receipt_Sent (LedgerForPeer p e).
Definition numBytesReceivedFrom (p : PeerID) (e : Engine) : Z := Receipt_Recv (LedgerForPeer p e).

Definition Peers (e : Engine) : list PeerID := (λ x, Partner x.2) <$> range (ledgerMap e).

Definition taskWorkerExit (e : Engine) : Engine :=
  let n := taskWorkerCount e - 1 in
  mkEngine (ledgerMap e) (peerLedger e) (scoreLedger e) (peerRequestQueue e) (workSignal e) (bsm e)
    (maxReplaceSize e) (sendDontHaves e) (metricUpdateCounter e) n
    (if n =? 0 then true else outboxClosed e).

(** ** Building the next message *)

Record Envelope := mkEnvelope {
  env_Peer : PeerID;
  env_Message : impl;
  env_Tasks : list Task;
}.

(** The [Sent] callback of an envelope. *)
Definition env_Sent (env : Envelope) (e : Engine) : Engine :=
  signalNewWork (set_queue (TasksDone (env_Peer env) (env_Tasks env) (peerRequestQueue e)) e).

(** Split out want-blocks, want-haves and DONT_HAVEs. *)
Definition split_task (acc : impl * list Want * gmap Want taskData) (t : Task)
  : impl * list Want * gmap Want taskData :=
  let '(msg, blockWants, blockTasks) := acc in
  let w := Task_Topic t in
  let td := Task_Data t in
  if td_HaveBlock td then
    if td_IsWantBlock td
    then (msg, blockWants ++ [w], <[w := td]> blockTasks)
    else (AddHave w msg, blockWants, blockTasks)
  else (AddDontHave w msg, blockWants, blockTasks).

(** Add the fetched block, or a DONT_HAVE if it is gone (or not released). *)
Definition add_fetched (blks : gmap Want Block) (msg : impl) (x : Want * taskData) : impl :=
  let '(c, t) := x in
  match blks !! c with
  | None => if td_SendDontHave t then AddDontHave c msg else msg
  | Some blk => AddBlock blk (Want_Auth c) msg
  end.

(** The message for one batch of tasks. *)
Definition buildMessage (f : BSM.fault) (p : PeerID) (nextTasks : list Task) (pending : Z)
    (e : Engine) : result error impl :=
  let msg := SetPendingBytes (int32 pending) (newMsg false) in
  let '(msg, blockWants, blockTasks) := foldl split_task (msg, [], ∅) nextTasks in
  match BSM.getBlocks f (bsm e) blockWants p with
  | (_, Some err) => Err err
  | (blks, None) => Ok (foldl (add_fetched blks) msg (range blockTasks))
  end.

(** What wakes the worker while the queue has nothing for it. *)
Inductive wake := WakeSignal | WakeTick | WakeDone.

Definition ctxErr : error := ErrOther "context canceled".

Definition pop (e : Engine) : (PeerID * list Task * Z) * Engine :=
  let '(batch, q) := PopTasks targetMessageSize (peerRequestQueue e) in
  (batch, updateMetrics (set_queue q e)).

(** The inner [for len(nextTasks) == 0] loop; [None] when the schedule ends
    while the worker still waits. *)
Fixpoint waitForTasks (ws : list wake) (batch : PeerID * list Task * Z) (e : Engine)
  : Engine * list wake * option (result error (PeerID * list Task * Z)) :=
  match batch.1.2 with
  | _ :: _ => (e, ws, Some (Ok batch))
  | [] =>
      match ws with
      | [] => (e, [], None)
      | WakeDone :: ws' => (e, ws', Some (Err ctxErr))
      | WakeSignal :: ws' =>
          if workSignal e then
            let '(batch', e') := pop (set_workSignal false e) in waitForTasks ws' batch' e'
          else waitForTasks ws' batch e
      | WakeTick :: ws' =>
          let '(batch', e') := pop (set_queue (ThawRound (peerRequestQueue e)) e) in
          waitForTasks ws' batch' e'
      end
  end.

(** [nextEnvelope] under a schedule of wake-ups and blockstore faults; the fuel
    bounds the number of batches that turn out empty. *)
Fixpoint nextEnvelope (fuel : nat) (faults : list BSM.fault) (ws : list wake) (e : Engine)
  : Engine * option (result error Envelope) :=
  match fuel with
  | O => (e, None)
  | S fuel =>
      let '(batch, e) := pop e in
      match waitForTasks ws batch e with
      | (e, _, None) => (e, None)
      | (e, _, Some (Err err)) => (e, Some (Err err))
      | (e, ws, Some (Ok (p, nextTasks, pending))) =>
          match buildMessage (default None (head faults)) p nextTasks pending e with
          | Err err => (e, Some (Err err))
          | Ok msg =>
              if Empty msg then
                nextEnvelope fuel (tail faults) ws
                  (set_queue (TasksDone p nextTasks (peerRequestQueue e)) e)
              else (e, Some (Ok (mkEnvelope p msg nextTasks)))
          end
      end
  end.

(** ** Handling a message from a peer *)

Definition splitWantsCancels (es : list MEntry) : list MEntry * list MEntry :=
  foldl (λ acc et, if me_Cancel et then (acc.1, acc.2 ++ [et]) else (acc.1 ++ [et], acc.2))
        ([], []) es.

Definition et_Want (et : MEntry) : Want := Entry_Want (me_Entry et).

(** The first critical section, under [e.lock]. *)
Definition mr_index (p : PeerID) (wants cancels : list MEntry) (e : Engine) : Engine :=
  let l := foldl (λ l et, PeerLedger.Wants p (et_Want et) l) (peerLedger e) wants in
  let l := foldl (λ l et, PeerLedger.CancelWant p (et_Want et) l) l cancels in
  set_peerLedger l e.

Definition mr_cancel (p : PeerID) (acc : ledger * Q) (et : MEntry) : ledger * Q :=
  let '(l, q) := acc in
  let '(removed, l') := CancelWant (et_Want et) l in
  (l', if removed then Queue_Remove (et_Want et) p q else q).

(** The task for one want, if any. *)
Definition want_task (e : Engine) (blockSizes : gmap Want Z) (et : MEntry) : option Task :=
  let c := et_Want et in
  match blockSizes !! c with
  | None =>
      if sendDontHaves e && me_SendDontHave et then
        Some (mkTask c (Entry_Priority (me_Entry et)) (BlockPresenceSize c)
          {| td_BlockSize := 0; td_HaveBlock := false;
             td_IsWantBlock := bool_decide (Entry_WantType (me_Entry et) = WantType_Block);
             td_SendDontHave := me_SendDontHave et |})
      else None
  | Some blockSize =>
      let isWantBlock := sendAsBlock e (Entry_WantType (me_Entry et)) blockSize in
      let entrySize := if isWantBlock then blockSize else BlockPresenceSize c in
      Some (mkTask c (Entry_Priority (me_Entry et)) entrySize
        {| td_BlockSize := blockSize; td_HaveBlock := true; td_IsWantBlock := isWantBlock;
           td_SendDontHave := me_SendDontHave et |})
  end.

Definition mr_want (e : Engine) (blockSizes : gmap Want Z) (acc : ledger * list Task) (et : MEntry)
  : ledger * list Task :=
  let '(l, activeEntries) := acc in
  let l := Wants (et_Want et) (Entry_Priority (me_Entry et)) (Entry_WantType (me_Entry et)) l in
  match want_task e blockSizes et with
  | Some t => (l, activeEntries ++ [t])
  | None => (l, activeEntries)
  end.

(** The second critical section, under the lock of the peer's ledger.
    [newWorkExists] is set exactly when a task is appended. *)
Definition mr_ledger (p : PeerID) (full : bool) (wants cancels : list MEntry)
    (blockSizes : gmap Want Z) (e : Engine) : Engine :=
  let '(l, e) := findOrCreate p e in
  let l := if full then set_wantList WL.New l else l in
  let '(l, q) := foldl (mr_cancel p) (l, peerRequestQueue e) cancels in
  let '(l, activeEntries) := foldl (mr_want e blockSizes) (l, []) wants in
  let e := set_queue q (set_ledgerMap (<[p := l]> (ledgerMap e)) e) in
  if (0 <? len activeEntries) then
    signalNewWork (updateMetrics (set_queue (PushTasks p activeEntries (peerRequestQueue e)) e))
  else e.

Definition MessageReceived (f : BSM.fault) (p : PeerID) (m : impl) (e : Engine) : Engine :=
  let entries := Wantlist_ m in
  let '(wants, cancels) := splitWantsCancels entries in
  let wantKs := et_Want <$> wants in
  match BSM.getBlockSizes f (bsm e) wantKs p with
  | (_, Some _) => e
  | (blockSizes, None) =>
      mr_ledger p (Full m) wants cancels blockSizes (mr_index p wants cancels e)
  end.

(** ** Blocks that arrive *)

Definition block_sizes (blks : list AuthBlock) : gmap Want Z :=
  foldl (λ m blk, <[AuthBlock_Want blk := AuthBlock_Size blk]> m) ∅ blks.

(** The task for a peer whose wantlist holds [entry]. *)
Definition receive_task (e : Engine) (w : Want) (entry : Entry) (blockSize : Z) : Task :=
  let isWantBlock := sendAsBlock e (Entry_WantType entry) blockSize in
  let entrySize := if isWantBlock then blockSize else BlockPresenceSize w in
  mkTask (Entry_Want entry) (Entry_Priority entry) entrySize
    {| td_BlockSize := blockSize; td_HaveBlock := true; td_IsWantBlock := isWantBlock;
       td_SendDontHave := false |}.

(** The loop body for one peer: [work], the wants that turned out stale, and the
    engine with its queue and metrics. *)
Definition receive_peer (sizes : gmap Want Z) (w : Want)
    (acc : Engine * gmap PeerID (list Want) * bool) (p : PeerID)
  : Engine * gmap PeerID (list Want) * bool :=
  let '(e, missingWants, work) := acc in
  let missing := <[p := default [] (missingWants !! p) ++ [w]]> missingWants in
  match ledgerMap e !! p with
  | None => (e, missing, work)
  | Some l =>
      match WantListContains w l with
      | None => (e, missing, work)
      | Some entry =>
          let t := receive_task e w entry (default 0 (sizes !! w)) in
          (updateMetrics (set_queue (PushTasks p [t] (peerRequestQueue e)) e), missingWants, true)
      end
  end.

Definition receive_block (sizes : gmap Want Z) (acc : Engine * gmap PeerID (list Want) * bool)
    (b : AuthBlock) : Engine * gmap PeerID (list Want) * bool :=
  let w := AuthBlock_Want b in
  foldl (receive_peer sizes w) acc (PeerLedger.Peers w (peerLedger acc.1.1)).

(** Drop stale index entries, re-checking each. *)
Definition drop_missing (e : Engine) (x : PeerID * list Want) : Engine :=
  let '(p, ws) := x in
  match ledgerMap e !! p with
  | Some l =>
      foldl (λ e w, match WantListContains w l with
                    | Some _ => e
                    | None => set_peerLedger (PeerLedger.CancelWant p w (peerLedger e)) e
                    end) e ws
  | None => foldl (λ e w, set_peerLedger (PeerLedger.CancelWant p w (peerLedger e)) e) e ws
  end.

(** [from] is empty for blocks added locally. *)
Definition ReceiveFrom (from : PeerID) (blks : list AuthBlock) (e : Engine) : Engine :=
  if (len blks =? 0) then e
  else
    let e :=
      if bool_decide (from ≠ "") then
        let '(l, e) := findOrCreate from e in
        foldl (λ e blk, set_scoreLedger
                 (sl_AddToReceivedBytes (Partner l) (AuthBlock_Size blk) (scoreLedger e)) e) e blks
      else e in
    let sizes := block_sizes blks in
    let '(e, missingWants, work) := foldl (receive_block sizes) (e, ∅, false) blks in
    let e := foldl drop_missing e (range missingWants) in
    if work then signalNewWork e else e.

(** ** Messages sent, connections *)

Definition MessageSent (p : PeerID) (m : impl) (e : Engine) : Engine :=
  let '(l, e) := findOrCreate p e in
  let '(l, sl) :=
    foldl (λ acc block,
        (set_wantList (WL.RemoveType (AuthBlock_Want block) WantType_Block (wantList acc.1)).2 acc.1,
         sl_AddToSentBytes (Partner acc.1) (AuthBlock_Size block) acc.2))
      (l, scoreLedger e) (Blocks m) in
  let l :=
    foldl (λ l bp,
        if bool_decide (bp_Type bp = Presence_Have)
        then set_wantList (WL.RemoveType (bp_Want bp) WantType_Have (wantList l)).2 l
        else l)
      l (BlockPresences m) in
  set_scoreLedger sl (set_ledgerMap (<[p := l]> (ledgerMap e)) e).

Definition PeerConnected (p : PeerID) (e : Engine) : Engine :=
  let e := match ledgerMap e !! p with
           | Some _ => e
           | None => set_ledgerMap (<[p := newLedger p]> (ledgerMap e)) e
           end in
  set_scoreLedger (sl_PeerConnected p (scoreLedger e)) e.

Definition PeerDisconnected (p : PeerID) (e : Engine) : Engine :=
  let e := match ledgerMap e !! p with
           | Some l =>
               foldl (λ e entry, set_peerLedger
                        (PeerLedger.CancelWant p (Entry_Want entry) (peerLedger e)) e)
                     e (Entries l)
           | None => e
           end in
  let e := set_ledgerMap (delete p (ledgerMap e)) e in
  set_scoreLedger (sl_PeerDisconnected p (scoreLedger e)) e.
End engine.
Arguments Engine {CL} B Q SL.
End Engine.
