(* ===== verification/EngineFacts.v ===== *)
(** * Properties of the decision engine

    Access control and content of the messages the engine builds, the
    consistency of its two indices over every history of operations, and the
    tasks it queues. *)
From S2P Require Import Prelude Auth Wantlist Hex Proto Message Ledger ScoreLedger TaskMerger.
From S2P Require Import BlockstoreManager Engine.
Import Message Ledger Engine.
Open Scope Z_scope.

Section facts.
Context {CL : CidLib} {GO : GoRuntime}.
Context {B : Type} {BS : Blockstore B}.
Context {Q : Type} {PTQ : PeerTaskQueue Q}.
Context {SL : Type} {SLI : ScoreLedger SL}.
Implicit Types (e : Engine B Q SL) (w : Want).

(** ** Frame properties of the worker loop *)

Lemma pop_bsm e : bsm (pop e).2 = bsm e.
Proof. unfold pop. by destruct (PopTasks _ _). Qed.

Lemma waitForTasks_bsm ws batch e : bsm (waitForTasks ws batch e).1.1 = bsm e.
Proof.
  revert batch e. induction ws as [|k ws IH]; intros batch e; simpl.
  { by destruct (batch.1.2). }
  destruct (batch.1.2); [|done]. destruct k; [|..]; try done.
  - destruct (workSignal e); [|apply IH].
    destruct (pop _) as [b' e'] eqn:E. rewrite IH.
    change e' with (b', e').2. by rewrite <- E, pop_bsm.
  - destruct (pop _) as [b' e'] eqn:E. rewrite IH.
    change e' with (b', e').2. by rewrite <- E, pop_bsm.
Qed.

(** ** The blocks of a built message *)

Lemma AddBlockPresence_blocks c t (m : impl) : blocks (AddBlockPresence c t m) = blocks m.
Proof. unfold AddBlockPresence. by destruct (blocks m !! c). Qed.

(** After splitting the tasks: no block yet, and every want-block task is
    recorded with its data. *)
Definition split_inv (acc : impl * list Want * gmap Want taskData) : Prop :=
  blocks acc.1.1 = ∅ ∧
  ∀ w, is_Some (acc.2 !! w) → w ∈ acc.1.2.

Lemma split_task_inv acc t : split_inv acc → split_inv (split_task acc t).
Proof.
  destruct acc as [[msg ws] ts]. intros [Hb Hw]. unfold split_task, split_inv in *. simpl in *.
  unfold AddHave, AddDontHave.
  repeat case_match; simpl; rewrite ?AddBlockPresence_blocks; split; try done.
  intros w. rewrite lookup_insert, elem_of_snoc. case_decide; naive_solver.
Qed.

Lemma split_tasks_inv msg tasks :
  blocks msg = ∅ → split_inv (foldl split_task (msg, [], ∅) tasks).
Proof.
  intros Hb. apply foldl_inv_simple; [|eauto using split_task_inv].
  split; [done|]. simpl. intros w. rewrite lookup_empty. by intros [].
Qed.

Lemma add_fetched_blocks blks msg xs :
  blocks msg = ∅ →
  ∀ w b, blocks (foldl (add_fetched blks) msg xs) !! w = Some b →
    ∃ c blk, c ∈ xs.*1 ∧ blks !! c = Some blk ∧
      w = mkWant _ (Block_Cid blk) (Want_Auth c) ∧ b = NewBlock blk (Want_Auth c).
Proof.
  intros Hb.
  apply (foldl_inv_simple (λ m, ∀ w b, blocks m !! w = Some b →
    ∃ c blk, c ∈ xs.*1 ∧ blks !! c = Some blk ∧
      w = mkWant _ (Block_Cid blk) (Want_Auth c) ∧ b = NewBlock blk (Want_Auth c))).
  - rewrite Hb. intros w b. by rewrite lookup_empty.
  - intros m [c t] Hx IH w b. simpl.
    destruct (blks !! c) as [blk|] eqn:E.
    + simpl. rewrite lookup_insert. case_decide; [|apply IH].
      intros [= <-]. exists c, blk. split_and!; try done.
      apply list_elem_of_fmap. by exists (c, t).
    + case_match; [unfold AddDontHave; rewrite AddBlockPresence_blocks|]; apply IH.
Qed.

(** Access control: a block is put in the message only after the blockstore
    released it to the recipient. *)
Lemma buildMessage_released `{!BlockstoreLaws B} f p tasks pending e msg w b :
  buildMessage f p tasks pending e = Ok msg →
  blocks msg !! w = Some b →
  AuthedBlockstore.Get (bsm e) (Want_Cid w) p (Want_Auth w) = Ok (AuthBlock_block b) ∧
  AuthBlock_Want b = w.
Proof.
  unfold buildMessage.
  destruct (foldl split_task _ tasks) as [[msg0 ws] ts] eqn:Hsplit.
  destruct (BSM.getBlocks f (bsm e) ws p) as [blks [err|]] eqn:Hget; [done|].
  intros [= <-] Hw.
  assert (split_inv (msg0, ws, ts)) as [Hb0 _].
  { rewrite <- Hsplit. by apply split_tasks_inv. }
  destruct (add_fetched_blocks blks msg0 (range ts) Hb0 w b Hw)
    as (c & blk & _ & Hc & -> & ->).
  change blks with (blks, @None error).1 in Hc.
  rewrite <- Hget, BSM.getBlocks_lookup in Hc. case_decide; [|done].
  case_match eqn:Hg; [|done]. simplify_eq.
  assert (Block_Cid blk = Want_Cid c) as Hcid.
  { apply AuthedBlockstore.Get_Ok_iff in Hg as (_ & Hg & _). by eapply bs_Get_Cid. }
  simpl. rewrite Hcid. by destruct c.
Qed.

Lemma nextEnvelope_released `{!BlockstoreLaws B} fuel faults ws e env w b :
  (nextEnvelope fuel faults ws e).2 = Some (Ok env) →
  blocks (env_Message env) !! w = Some b →
  AuthedBlockstore.Get (bsm e) (Want_Cid w) (env_Peer env) (Want_Auth w) = Ok (AuthBlock_block b).
Proof.
  revert faults ws e. induction fuel as [|fuel IH]; intros faults ws e; simpl; [done|].
  destruct (pop e) as [batch e1] eqn:Hpop.
  destruct (waitForTasks ws batch e1) as [[e2 ws'] r] eqn:Hwait.
  assert (bsm e2 = bsm e) as Hbsm.
  { pose proof (waitForTasks_bsm ws batch e1) as H1. rewrite Hwait in H1.
    pose proof (pop_bsm e) as H2. rewrite Hpop in H2. simpl in *. congruence. }
  destruct r as [[[[p tasks] pending]|err]|]; [|done..].
  destruct (buildMessage _ p tasks pending e2) as [msg|] eqn:Hbuild; [|done].
  destruct (Empty msg); simpl.
  - intros H1 H2. rewrite <- Hbsm. by apply (IH (tail faults) ws' _ H1).
  - intros [= <-] Hw. simpl in *. rewrite <- Hbsm. by eapply buildMessage_released.
Qed.

(** ** The content of a built message *)

(** What a message says about a want. *)
Inductive reply :=
| RBlock (b : AuthBlock)
| RPresence (t : PresenceType)
| RNothing.

Definition msg_reply (msg : impl) (w : Want) : reply :=
  match blocks msg !! w with
  | Some b => RBlock b
  | None => match blockPresences msg !! w with Some t => RPresence t | None => RNothing end
  end.

(** What the engine owes the peer for a task: the block if the blockstore
    releases it, a DONT_HAVE if it was asked for, HAVE for a want-have. *)
Definition task_reply (e : Engine B Q SL) (p : PeerID) (t : Task) : reply :=
  let w := Task_Topic t in
  let td := Task_Data t in
  if td_HaveBlock td then
    if td_IsWantBlock td then
      match AuthedBlockstore.Get (bsm e) (Want_Cid w) p (Want_Auth w) with
      | Ok blk => RBlock (NewBlock blk (Want_Auth w))
      | Err _ => if td_SendDontHave td then RPresence Presence_DontHave else RNothing
      end
    else RPresence Presence_Have
  else RPresence Presence_DontHave.

Definition is_block_task (t : Task) : bool :=
  td_HaveBlock (Task_Data t) && td_IsWantBlock (Task_Data t).

Definition first_presence (t : Task) : option PresenceType :=
  if td_HaveBlock (Task_Data t)
  then if td_IsWantBlock (Task_Data t) then None else Some Presence_Have
  else Some Presence_DontHave.

Record split_spec (pre : list Task) (acc : impl * list Want * gmap Want taskData) : Prop := {
  ss_blocks : blocks acc.1.1 = ∅;
  ss_wantlist : wantlist acc.1.1 = ∅;
  ss_done : ∀ t, t ∈ pre →
    blockPresences acc.1.1 !! Task_Topic t = first_presence t ∧
    acc.2 !! Task_Topic t = if is_block_task t then Some (Task_Data t) else None;
  ss_rest : ∀ w, w ∉ Task_Topic <$> pre →
    blockPresences acc.1.1 !! w = None ∧ acc.2 !! w = None;
  ss_wants : ∀ w, is_Some (acc.2 !! w) → w ∈ acc.1.2;
}.

Lemma split_task_spec pre t acc :
  Task_Topic t ∉ Task_Topic <$> pre → split_spec pre acc → split_spec (pre ++ [t]) (split_task acc t).
Proof.
  destruct acc as [[msg ws] ts]. intros Hfresh [Hb Hwl Hdone Hrest Hwants]. simpl in *.
  destruct (Hrest _ Hfresh) as [Hp Ht].
  assert (∀ t', t' ∈ pre → Task_Topic t ≠ Task_Topic t') as Hne.
  { intros t' Ht' E. apply Hfresh. rewrite E. by apply list_elem_of_fmap_2. }
  unfold split_task, AddHave, AddDontHave, AddBlockPresence. rewrite Hb, lookup_empty.
  destruct (td_HaveBlock (Task_Data t)) eqn:E1; [destruct (td_IsWantBlock (Task_Data t)) eqn:E2|];
    split; simpl; try done.
  all: try (intros t'; rewrite elem_of_snoc; intros [Hin| ->]; unfold is_block_task, first_presence;
    [destruct (Hdone _ Hin) as [H1 H2]; by rewrite ?lookup_insert_ne by auto
    |rewrite ?lookup_insert_eq, ?E1, ?E2; simpl; done]).
  all: try (intros w; rewrite fmap_app, not_elem_of_app; intros [Hw1 Hw2];
    destruct (Hrest _ Hw1); rewrite ?lookup_insert_ne by (intros <-; apply Hw2; by left); done).
  intros w. rewrite lookup_insert, elem_of_snoc. case_decide; naive_solver.
Qed.

Lemma split_tasks_spec msg tasks :
  blocks msg = ∅ → wantlist msg = ∅ → blockPresences msg = ∅ → NoDup (Task_Topic <$> tasks) →
  split_spec tasks (foldl split_task (msg, [], ∅) tasks).
Proof.
  intros Hb Hwl Hp Hnd. apply (foldl_inv split_spec).
  - split; simpl; try done; [by intros t ?%not_elem_of_nil|..].
    + intros w _. by rewrite Hp.
    + intros w. rewrite lookup_empty. by intros [].
  - intros pre t post acc -> Hacc. apply split_task_spec; [|done].
    rewrite fmap_app, fmap_cons in Hnd. apply NoDup_app in Hnd as (_ & Hd & _).
    intros Hin. apply (Hd _ Hin). by left.
Qed.

(** The second loop, over the want-block tasks. *)
Lemma add_fetched_spec blks msg0 (ts : gmap Want taskData) w :
  (∀ c blk, blks !! c = Some blk → Block_Cid blk = Want_Cid c) →
  blocks msg0 = ∅ → (∀ c, is_Some (ts !! c) → blockPresences msg0 !! c = None) →
  let msg := foldl (add_fetched blks) msg0 (range ts) in
  wantlist msg = wantlist msg0 ∧ pendingBytes msg = pendingBytes msg0 ∧
  blocks msg !! w = (ts !! w ≫= λ _, (λ blk, NewBlock blk (Want_Auth w)) <$> blks !! w) ∧
  blockPresences msg !! w =
    match ts !! w with
    | None => blockPresences msg0 !! w
    | Some td => match blks !! w with
                 | Some _ => None
                 | None => if td_SendDontHave td then Some Presence_DontHave else None
                 end
    end.
Proof.
  intros Hcid Hb Hp.
  set (P := λ (pre : list (Want * taskData)) (m : impl),
    wantlist m = wantlist msg0 ∧ pendingBytes m = pendingBytes msg0 ∧
    ∀ c, (c ∉ pre.*1 → blocks m !! c = None ∧ blockPresences m !! c = blockPresences msg0 !! c) ∧
         (c ∈ pre.*1 → ∀ td, ts !! c = Some td →
            blocks m !! c = (λ blk, NewBlock blk (Want_Auth c)) <$> blks !! c ∧
            blockPresences m !! c =
              match blks !! c with
              | Some _ => None
              | None => if td_SendDontHave td then Some Presence_DontHave else None
              end)).
  assert (P (range ts) (foldl (add_fetched blks) msg0 (range ts))) as (H1 & H2 & H3).
  { apply foldl_inv.
    - split_and!; [done..|]. intros c. rewrite Hb, lookup_empty. split; [done|].
      by intros ?%not_elem_of_nil.
    - intros pre [c td] post m Hr (Hm1 & Hm2 & Hm3).
      assert (ts !! c = Some td) as Htd.
      { apply elem_of_range. rewrite Hr. apply elem_of_app. right. by left. }
      assert (c ∉ pre.*1) as Hc.
      { pose proof (NoDup_range_keys ts) as Hnd. rewrite Hr, fmap_app, fmap_cons in Hnd.
        apply NoDup_app in Hnd as (_ & Hd & _). intros Hin. apply (Hd _ Hin). by left. }
      destruct (proj1 (Hm3 c) Hc) as [Hbc Hpc]. rewrite (Hp c) in Hpc by eauto.
      unfold add_fetched, AddDontHave, AddBlockPresence.
      assert (∀ blk, blks !! c = Some blk → mkWant _ (Block_Cid blk) (Want_Auth c) = c) as Hk.
      { intros blk Hblk. rewrite (Hcid _ _ Hblk). by destruct c. }
      unfold P. rewrite fmap_app. simpl.
      destruct (blks !! c) as [blk|] eqn:Hblk; [|destruct (td_SendDontHave td) eqn:Hsd; [rewrite Hbc|]];
        simpl; (split; [done|]); (split; [done|]); intros c'; rewrite elem_of_snoc;
        destruct (decide (c' = c)) as [->|Hne].
      all: rewrite ?(Hk blk eq_refl), ?lookup_insert_eq, ?lookup_delete_eq,
        ?lookup_insert_ne, ?lookup_delete_ne by done.
      all: split; [intros Hn|intros Hin td' Htd'; simplify_eq].
      all: try (exfalso; apply Hn; by right).
      all: rewrite ?Hblk, ?Hsd; try done.
      all: try (apply (proj1 (Hm3 c')); tauto).
      all: destruct Hin as [Hin|]; [|done]; by apply (proj2 (Hm3 c')). }
  split; [done|]. split; [done|]. destruct (ts !! w) as [td|] eqn:Hw; simpl.
  - apply (proj2 (H3 w)); [|done]. apply list_elem_of_fmap. exists (w, td).
    split; [done|]. by apply elem_of_range.
  - apply (proj1 (H3 w)). intros ([w' td'] & -> & Hin%elem_of_range)%list_elem_of_fmap.
    simpl in *. congruence.
Qed.

Lemma buildMessage_content `{!BlockstoreLaws B} f p tasks pending e msg :
  buildMessage f p tasks pending e = Ok msg → NoDup (Task_Topic <$> tasks) →
  (∀ t, t ∈ tasks → msg_reply msg (Task_Topic t) = task_reply e p t) ∧
  (∀ w, w ∉ Task_Topic <$> tasks → msg_reply msg w = RNothing) ∧
  wantlist msg = ∅ ∧ pendingBytes msg = int32 pending.
Proof.
  unfold buildMessage. intros Hbuild Hnd.
  destruct (foldl split_task _ tasks) as [[msg0 ws] ts] eqn:Hsplit.
  destruct (BSM.getBlocks f (bsm e) ws p) as [blks [err|]] eqn:Hget; [done|].
  injection Hbuild as <-.
  pose proof (split_tasks_spec (SetPendingBytes (int32 pending) (newMsg false)) tasks
    eq_refl eq_refl eq_refl Hnd) as Hs. rewrite Hsplit in Hs.
  assert (pendingBytes msg0 = int32 pending) as Hpend.
  { change msg0 with (msg0, ws, ts).1.1. rewrite <- Hsplit.
    apply (foldl_inv_simple (λ acc, pendingBytes acc.1.1 = int32 pending)); [done|].
    intros [[m ?] ?] t _ Hm. unfold split_task, AddHave, AddDontHave, AddBlockPresence.
    repeat case_match; done. }
  destruct Hs as [Hb Hwl Hdone Hrest Hwants]. simpl in *.
  assert (∀ c, blks !! c = if decide (c ∈ ws)
     then match AuthedBlockstore.Get (bsm e) (Want_Cid c) p (Want_Auth c) with
          | Ok b => Some b | Err _ => None end else None) as Hblks.
  { intros c. change blks with (blks, @None error).1. rewrite <- Hget, BSM.getBlocks_lookup.
    by rewrite (BSM.getBlocks_no_error _ _ _ _ _ Hget). }
  assert (∀ c blk, blks !! c = Some blk → Block_Cid blk = Want_Cid c) as Hcid.
  { intros c blk. rewrite Hblks. repeat case_match; try done. intros [= <-].
    match goal with H : AuthedBlockstore.Get _ _ _ _ = Ok _ |- _ =>
      apply AuthedBlockstore.Get_Ok_iff in H as (_ & H & _); by eapply bs_Get_Cid end. }
  assert (∀ c, is_Some (ts !! c) → blockPresences msg0 !! c = None) as Hts.
  { intros c Hc. destruct (decide (c ∈ Task_Topic <$> tasks)) as [Hin|Hn];
      [|by apply Hrest]. apply list_elem_of_fmap in Hin as (t & -> & Hin).
    destruct (Hdone _ Hin) as [-> Ht]. rewrite Ht in Hc. unfold first_presence.
    unfold is_block_task in Hc.
    destruct (td_HaveBlock _), (td_IsWantBlock _); try done; by destruct Hc. }
  pose proof (λ w, add_fetched_spec blks msg0 ts w Hcid Hb Hts) as Hspec. simpl in Hspec.
  split_and!.
  - intros t Ht. destruct (Hspec (Task_Topic t)) as (_ & _ & H1 & H2).
    unfold msg_reply. rewrite H1, H2. destruct (Hdone _ Ht) as [Hp Htt]. rewrite Htt, Hp.
    unfold task_reply, is_block_task, first_presence in *.
    destruct (td_HaveBlock (Task_Data t)) eqn:E1; simpl in *; [|done].
    destruct (td_IsWantBlock (Task_Data t)) eqn:E2; simpl in *; [|done].
    rewrite Hblks, decide_True by (apply Hwants; rewrite Htt; eauto).
    destruct (AuthedBlockstore.Get _ _ _ _); simpl; [done|].
    by destruct (td_SendDontHave _).
  - intros w Hw. destruct (Hspec w) as (_ & _ & H1 & H2). destruct (Hrest _ Hw) as [Hp Ht].
    unfold msg_reply. by rewrite H1, H2, Ht, Hp.
  - by rewrite (proj1 (Hspec Want_Undef)).
  - by rewrite (proj1 (proj2 (Hspec Want_Undef))).
Qed.
End facts.
