(* ===== verification/EngineIndex.v ===== *)
(** * The engine's two indices agree

    The ledgers say which wants each peer has; [peerLedger] says which peers
    wait for a want.  [ReceiveFrom] consults the second, so a want that is in a
    ledger but not in the index would never be served.  [Inv] rules that out; it
    holds in every state reachable by complete operations. *)
From S2P Require Import Prelude Auth Wantlist Hex Proto Message Ledger ScoreLedger TaskMerger.
From S2P Require Import BlockstoreManager Engine.
Import Message Ledger Engine.
Open Scope Z_scope.

Section index.
Context {CL : CidLib} {GO : GoRuntime}.
Context {B : Type} {BS : Blockstore B}.
Context {Q : Type} {PTQ : PeerTaskQueue Q}.
Context {SL : Type} {SLI : ScoreLedger SL}.
Implicit Types (e : Engine B Q SL) (w : Want) (p : PeerID).

(** Does the ledger of [p] hold the want [w]? *)
Definition peer_wants e p w : Prop :=
  ∃ l, ledgerMap e !! p = Some l ∧ is_Some (wantList l !! w).

(** The invariant, up to a set [X] of excused pairs. *)
Record InvX (X : PeerID → Want → Prop) e : Prop := {
  inv_ledger : ∀ p l, ledgerMap e !! p = Some l → Partner l = p ∧ WL.wf (wantList l);
  inv_index : ∀ p w, peer_wants e p w → X p w ∨ PeerLedger.waits (peerLedger e) p w;
  inv_wf : PeerLedger.wf (peerLedger e);
}.

Definition no_excuse : PeerID → Want → Prop := λ _ _, False.
Definition Inv e : Prop := InvX no_excuse e.

Lemma Inv_newEngine bs sl q n k : Inv (newEngine bs sl q n k : Engine B Q SL).
Proof. by split; [|intros p w (l & Hl & _)|]. Qed.

Lemma Inv_waits e p w : Inv e → peer_wants e p w → PeerLedger.waits (peerLedger e) p w.
Proof. intros HI Hw. by destruct (inv_index _ _ HI _ _ Hw). Qed.

(** [Inv] looks at the two indices only. *)
Definition same_index e e' : Prop :=
  ledgerMap e' = ledgerMap e ∧ peerLedger e' = peerLedger e.

#[global] Instance same_index_preorder : PreOrder same_index.
Proof. unfold same_index. split; [by intros e|]. intros e1 e2 e3 [] []. split; congruence. Qed.

Lemma Inv_same X e e' : same_index e e' → InvX X e → InvX X e'.
Proof.
  intros [H1 H2] [I1 I2 I3]. split; unfold peer_wants in *; rewrite ?H1, ?H2; try done.
Qed.

(** ** Index updates *)

Lemma waits_foldl_Wants {A} (f : A → Want) p (xs : list A) L q j :
  PeerLedger.waits (foldl (λ l x, PeerLedger.Wants p (f x) l) L xs) q j ↔
  PeerLedger.waits L q j ∨ (q = p ∧ j ∈ f <$> xs).
Proof.
  revert L. induction xs as [|x xs IH]; intros L; simpl.
  - set_solver.
  - rewrite IH, PeerLedger.waits_Wants, elem_of_cons. naive_solver.
Qed.

Lemma waits_foldl_Cancel {A} (f : A → Want) p (xs : list A) L q j :
  PeerLedger.waits (foldl (λ l x, PeerLedger.CancelWant p (f x) l) L xs) q j ↔
  PeerLedger.waits L q j ∧ ¬ (q = p ∧ j ∈ f <$> xs).
Proof.
  revert L. induction xs as [|x xs IH]; intros L; simpl.
  - set_solver.
  - rewrite IH, PeerLedger.waits_CancelWant, elem_of_cons. naive_solver.
Qed.

Lemma wf_foldl_Wants {A} (f : A → Want) p (xs : list A) L :
  PeerLedger.wf L → PeerLedger.wf (foldl (λ l x, PeerLedger.Wants p (f x) l) L xs).
Proof. intros HL. apply foldl_inv_simple; auto using PeerLedger.wf_Wants. Qed.

Lemma wf_foldl_Cancel {A} (f : A → Want) p (xs : list A) L :
  PeerLedger.wf L → PeerLedger.wf (foldl (λ l x, PeerLedger.CancelWant p (f x) l) L xs).
Proof. intros HL. apply foldl_inv_simple; auto using PeerLedger.wf_CancelWant. Qed.

(** Cancelling an index entry is sound when the ledger does not hold the want. *)
Lemma Inv_cancel e p w :
  Inv e → ¬ peer_wants e p w →
  Inv (set_peerLedger (PeerLedger.CancelWant p w (peerLedger e)) e).
Proof.
  intros HI Hn. pose proof HI as [I1 I2 I3].
  split; simpl; [done| |by apply PeerLedger.wf_CancelWant].
  intros q j Hq. right. apply PeerLedger.waits_CancelWant. split; [by apply Inv_waits|].
  intros [-> ->]. done.
Qed.

Lemma Inv_cancels {A} (f : A → Want) e p (xs : list A) :
  Inv e → (∀ x, x ∈ xs → ¬ peer_wants e p (f x)) →
  let e' := foldl (λ e x, set_peerLedger (PeerLedger.CancelWant p (f x) (peerLedger e)) e) e xs in
  Inv e' ∧ ledgerMap e' = ledgerMap e.
Proof.
  intros HI Hx.
  apply (foldl_inv_simple (λ e', Inv e' ∧ ledgerMap e' = ledgerMap e)); [done|].
  intros e' x Hin [HI' He']. split; [|done]. apply Inv_cancel; [done|].
  intros (l & Hl & Hw). apply (Hx _ Hin). exists l. by rewrite <- He'.
Qed.

(** ** Ledger updates *)

Lemma Inv_set_ledger (X Y : PeerID → Want → Prop) e p l :
  InvX X e → Partner l = p → WL.wf (wantList l) →
  (∀ q w, q ≠ p → X q w → Y q w) →
  (∀ w, is_Some (wantList l !! w) → Y p w ∨ PeerLedger.waits (peerLedger e) p w) →
  InvX Y (set_ledgerMap (<[p := l]> (ledgerMap e)) e).
Proof.
  intros [I1 I2 I3] Hp Hwf HXY Hw. split; simpl; [| |done].
  - intros q l'. rewrite lookup_insert. case_decide; [|apply I1]. intros [= <-]. by subst.
  - intros q w (l' & Hl' & Hl'w). simpl in Hl'. rewrite lookup_insert in Hl'.
    case_decide; simplify_eq; [by apply Hw|].
    destruct (I2 q w) as [|]; [by exists l'|left; by apply HXY|by right].
Qed.

Lemma findOrCreate_spec X e p l e' :
  InvX X e → findOrCreate p e = (l, e') →
  InvX X e' ∧ ledgerMap e' !! p = Some l ∧ Partner l = p ∧ WL.wf (wantList l) ∧
  peerLedger e' = peerLedger e ∧ (∀ q w, peer_wants e' q w ↔ peer_wants e q w).
Proof.
  intros HI. unfold findOrCreate. destruct (ledgerMap e !! p) as [l0|] eqn:E; intros [= <- <-].
  - destruct (inv_ledger _ _ HI _ _ E). by split_and!.
  - split_and!; simpl.
    + apply (Inv_set_ledger X); simpl; [done..|apply WL.wf_New|done|]. intros w.
      unfold WL.New. rewrite lookup_empty. by intros [].
    + apply lookup_insert_eq.
    + done.
    + apply WL.wf_New.
    + done.
    + intros q w. unfold peer_wants. simpl. setoid_rewrite lookup_insert.
      case_decide; [|done]. subst q. rewrite E. split; [|by intros (? & ? & ?)].
      intros (l' & [= <-] & Hl'). unfold newLedger, WL.New in Hl'. simpl in Hl'.
      rewrite lookup_empty in Hl'. by destruct Hl'.
Qed.

(** ** [MessageReceived] *)

Lemma splitWantsCancels_spec (es : list MEntry) :
  splitWantsCancels es = (filter (λ et, me_Cancel et = false) es, filter (λ et, me_Cancel et = true) es).
Proof.
  unfold splitWantsCancels.
  assert (∀ a b, foldl (λ acc et, if me_Cancel et then (acc.1, acc.2 ++ [et])
                                   else (acc.1 ++ [et], acc.2)) (a, b) es
    = (a ++ filter (λ et, me_Cancel et = false) es, b ++ filter (λ et, me_Cancel et = true) es)) as H;
    [|apply H].
  induction es as [|et es IH]; intros a b; simpl; [by rewrite !app_nil_r|].
  rewrite !filter_cons. destruct (me_Cancel et); rewrite IH; simpl; by rewrite <- ?app_assoc.
Qed.

Lemma elem_of_Wantlist_ (m : impl) et :
  wf m → et ∈ Wantlist_ m → wantlist m !! et_Want et = Some et.
Proof.
  intros Hm ([w et'] & -> & Hin%elem_of_range)%list_elem_of_fmap. simpl.
  unfold et_Want. by rewrite (wf_wantlist m Hm _ _ Hin).
Qed.

(** A want is either wanted or cancelled by a message. *)
Lemma wants_cancels_disjoint (m : impl) w :
  wf m → w ∈ et_Want <$> (splitWantsCancels (Wantlist_ m)).1 →
  w ∉ et_Want <$> (splitWantsCancels (Wantlist_ m)).2.
Proof.
  intros Hm. rewrite splitWantsCancels_spec. simpl.
  intros (x & -> & [Hxc Hx]%list_elem_of_filter)%list_elem_of_fmap
         (y & Hxy & [Hyc Hy]%list_elem_of_filter)%list_elem_of_fmap.
  apply elem_of_Wantlist_ in Hx; [|done]. apply elem_of_Wantlist_ in Hy; [|done].
  rewrite <- Hxy in Hy. simplify_eq. congruence.
Qed.

(** The ledger after the cancels. *)
Lemma mr_cancels_ledger p cancels l (q : Q) :
  WL.wf (wantList l) →
  let l' := (foldl (mr_cancel p) (l, q) cancels).1 in
  Partner l' = Partner l ∧ WL.wf (wantList l') ∧
  ∀ w, wantList l' !! w = if decide (w ∈ et_Want <$> cancels) then None else wantList l !! w.
Proof.
  revert l q. induction cancels as [|et cancels IH]; intros l q Hwf; [done|].
  cbn [foldl]. unfold mr_cancel at 2. unfold CancelWant.
  edestruct (IH (set_wantList (WL.Remove (et_Want et) (wantList l)).2 l)) as (H1 & H2 & H3);
    [by apply WL.wf_wantlist_Remove|].
  simpl in *. split_and!; [apply H1|apply H2|]. intros w. rewrite H3.
  simpl. rewrite WL.lookup_Remove.
  repeat case_decide; try done; exfalso; set_solver.
Qed.

(** The ledger after the wants, and the tasks. *)
Lemma mr_wants_ledger e sizes wants l acc :
  WL.wf (wantList l) →
  let r := foldl (mr_want e sizes) (l, acc) wants in
  Partner r.1 = Partner l ∧ WL.wf (wantList r.1) ∧
  (∀ w, is_Some (wantList r.1 !! w) ↔ is_Some (wantList l !! w) ∨ w ∈ et_Want <$> wants) ∧
  r.2 = acc ++ omap (want_task e sizes) wants.
Proof.
  revert l acc. induction wants as [|et wants IH]; intros l acc Hwf.
  { simpl. rewrite app_nil_r. split_and!; try done. set_solver. }
  cbn [foldl]. cbv zeta.
  set (l1 := Wants (et_Want et) (Entry_Priority (me_Entry et)) (Entry_WantType (me_Entry et)) l).
  assert (∀ w, is_Some (wantList l1 !! w) ↔ is_Some (wantList l !! w) ∨ w = et_Want et) as Hl1.
  { intros w. unfold l1, Wants. simpl. rewrite WL.lookup_Add. case_decide; [subst|]; naive_solver. }
  assert (WL.wf (wantList l1)) as Hwf1 by by apply WL.wf_Add.
  assert (mr_want e sizes (l, acc) et = (l1, match want_task e sizes et with
            Some t => acc ++ [t] | None => acc end)) as ->.
  { unfold mr_want. by destruct (want_task e sizes et). }
  edestruct (IH l1) as (H1 & H2 & H3 & H4); [exact Hwf1|].
  split_and!; [exact H1|exact H2| |].
  - intros w. rewrite H3, Hl1, fmap_cons, elem_of_cons. tauto.
  - rewrite H4. simpl. destruct (want_task e sizes et); simpl; by rewrite <- ?app_assoc.
Qed.

(** What the first critical section leaves: the wants are indexed, the cancelled
    wants are excused until the second one. *)
Lemma mr_index_InvX p wants cancels e :
  Inv e → InvX (λ q w, q = p ∧ w ∈ et_Want <$> cancels) (mr_index p wants cancels e).
Proof.
  intros HI. pose proof HI as [I1 I2 I3]. split; simpl; [done| |].
  - intros q w Hq. destruct (decide (q = p ∧ w ∈ et_Want <$> cancels)); [by left|right].
    rewrite waits_foldl_Cancel, waits_foldl_Wants. split; [|done]. left. by apply Inv_waits.
  - apply wf_foldl_Cancel, wf_foldl_Wants, I3.
Qed.

Lemma mr_ledger_Inv p full wants cancels sizes e :
  InvX (λ q w, q = p ∧ w ∈ et_Want <$> cancels) e →
  (∀ w, w ∈ et_Want <$> wants → PeerLedger.waits (peerLedger e) p w) →
  Inv (mr_ledger p full wants cancels sizes e).
Proof.
  intros HI Hw. unfold mr_ledger.
  destruct (findOrCreate p e) as [l e1] eqn:Hf.
  eapply findOrCreate_spec in Hf as (HI1 & Hl & Hp & Hwf & Hpl & Hpw); [|done].
  set (l0 := if full then set_wantList WL.New l else l).
  assert (WL.wf (wantList l0)) as Hwf0 by (unfold l0; destruct full; auto using WL.wf_New).
  destruct (foldl (mr_cancel p) (l0, _) cancels) as [l1 q1] eqn:Hc.
  pose proof (mr_cancels_ledger p cancels l0 (peerRequestQueue e1) Hwf0) as (P1 & W1 & L1).
  rewrite Hc in P1, W1, L1. simpl in P1, W1, L1.
  destruct (foldl (mr_want e1 sizes) (l1, []) wants) as [l2 ts] eqn:Hm.
  pose proof (mr_wants_ledger e1 sizes wants l1 [] W1) as (P2 & W2 & L2 & _).
  rewrite Hm in P2, W2, L2. simpl in P2, W2, L2.
  assert (Inv (set_ledgerMap (<[p := l2]> (ledgerMap e1)) e1)) as HI2.
  { eapply Inv_set_ledger; [done| |done|by intros ? ? ? []|].
    - rewrite P2, P1. unfold l0. by destruct full.
    - intros w [Hs|Hs]%L2; right; [|rewrite Hpl; by apply Hw].
      rewrite L1 in Hs. case_decide as Hd; [by destruct Hs|].
      assert (is_Some (wantList l !! w)) as Hlw.
      { unfold l0 in Hs. destruct full; [|done]. simpl in Hs. unfold WL.New in Hs.
        rewrite lookup_empty in Hs. by destruct Hs. }
      destruct (inv_index _ _ HI1 p w) as [[_ ?]|?]; [by exists l|done..]. }
  destruct (0 <? len ts); (eapply Inv_same; [|exact HI2]); by split.
Qed.

Lemma Inv_MessageReceived f p (m : impl) e : wf m → Inv e → Inv (MessageReceived f p m e).
Proof.
  intros Hm HI. unfold MessageReceived.
  pose proof (λ w, wants_cancels_disjoint m w Hm) as Hdisj.
  destruct (splitWantsCancels (Wantlist_ m)) as [wants cancels] eqn:Hs. simpl in Hdisj.
  destruct (BSM.getBlockSizes _ _ _ _) as [sizes [err|]]; [done|].
  apply mr_ledger_Inv; [by apply mr_index_InvX|].
  intros w Hw. simpl. rewrite waits_foldl_Cancel, waits_foldl_Wants.
  split; [by right|]. intros [_ ?]. by eapply Hdisj.
Qed.

(** ** [ReceiveFrom] *)

(** The parts of the engine the receive loop reads and does not write. *)
Definition frame e e' : Prop :=
  ledgerMap e' = ledgerMap e ∧ peerLedger e' = peerLedger e ∧
  maxReplaceSize e' = maxReplaceSize e.

(** The task pushed for a peer the index names, if its ledger agrees. *)
Definition push_of e (sizes : gmap Want Z) (w : Want) (p : PeerID) : option Task :=
  match ledgerMap e !! p with
  | None => None
  | Some l => (λ entry, receive_task e w entry (default 0 (sizes !! w))) <$> wantList l !! w
  end.

Definition push_one (q : Q) (x : PeerID * Task) : Q := PushTasks x.1 [x.2] q.

(** The pairs the two nested loops visit, and the pushes they make. *)
Definition receive_pairs e (blks : list AuthBlock) : list (Want * PeerID) :=
  blks ≫= λ b, (λ p, (AuthBlock_Want b, p)) <$> PeerLedger.Peers (AuthBlock_Want b) (peerLedger e).

Definition receive_pushes e (sizes : gmap Want Z) (xs : list (Want * PeerID))
  : list (PeerID * Task) :=
  omap (λ x, (λ t, (x.2, t)) <$> push_of e sizes x.1 x.2) xs.

Definition receive_inv e0 sizes (pre : list (Want * PeerID))
    (acc : Engine B Q SL * gmap PeerID (list Want) * bool) : Prop :=
  frame e0 acc.1.1 ∧
  peerRequestQueue acc.1.1 = foldl push_one (peerRequestQueue e0) (receive_pushes e0 sizes pre) ∧
  (acc.2 = true ↔ receive_pushes e0 sizes pre ≠ []) ∧
  ∀ p ws w, acc.1.2 !! p = Some ws → w ∈ ws → ¬ peer_wants e0 p w.

Lemma receive_peer_inv e0 sizes pre w p acc :
  receive_inv e0 sizes pre acc → receive_inv e0 sizes (pre ++ [(w, p)]) (receive_peer sizes w acc p).
Proof.
  destruct acc as [[e missing] work]. intros ((F1 & F2 & F3) & Hq & Hwork & Hmiss). simpl in *.
  unfold receive_inv, receive_pushes in *. rewrite omap_app. simpl. unfold push_of at 2 4.
  unfold receive_peer. rewrite F1.
  assert (¬ peer_wants e0 p w →
    ∀ q ws x, <[p := default [] (missing !! p) ++ [w]]> missing !! q = Some ws → x ∈ ws →
      ¬ peer_wants e0 q x) as Hm.
  { intros Hn q ws x. rewrite lookup_insert. case_decide; [|by apply Hmiss].
    subst q. intros [= <-] [Hin| ->]%elem_of_snoc; [|done].
    destruct (missing !! p) eqn:E; simpl in Hin; [by eapply Hmiss|set_solver]. }
  destruct (ledgerMap e0 !! p) as [l|] eqn:El; simpl.
  2: { rewrite app_nil_r. split_and!; try done. apply Hm. intros (l & ? & _). congruence. }
  unfold WantListContains, WL.Contains.
  destruct (wantList l !! w) as [entry|] eqn:Ew; simpl.
  - split_and!; try done.
    + rewrite foldl_app. simpl. rewrite <- Hq. unfold push_one, receive_task, sendAsBlock.
      simpl. by rewrite F3.
    + split; [|done]. intros _ ?%app_eq_nil. naive_solver.
  - rewrite app_nil_r. split_and!; try done. apply Hm.
    intros (l' & Hl' & [? ?]). simplify_eq.
Qed.

Lemma receive_blocks_inv e0 sizes blks :
  receive_inv e0 sizes (receive_pairs e0 blks) (foldl (receive_block sizes) (e0, ∅, false) blks).
Proof.
  apply (foldl_inv (λ pre acc, receive_inv e0 sizes (receive_pairs e0 pre) acc)).
  - by split_and!.
  - intros pre b post acc -> Hacc. unfold receive_pairs. rewrite bind_app. simpl.
    rewrite app_nil_r. unfold receive_block.
    pose proof Hacc as ((_ & -> & _) & _).
    apply (foldl_inv (λ done acc, receive_inv e0 sizes
      (receive_pairs e0 pre ++ ((λ p, (AuthBlock_Want b, p)) <$> done)) acc)).
    + by rewrite app_nil_r.
    + intros done p rest acc' _ Hacc'. rewrite fmap_app, app_assoc. simpl.
      by apply receive_peer_inv.
Qed.

Lemma drop_missing_Inv e e0 x :
  Inv e → ledgerMap e = ledgerMap e0 →
  (∀ w, w ∈ x.2 → ¬ peer_wants e0 x.1 w) →
  Inv (drop_missing e x) ∧ ledgerMap (drop_missing e x) = ledgerMap e0 ∧
  peerRequestQueue (drop_missing e x) = peerRequestQueue e.
Proof.
  destruct x as [p ws]. intros HI Hl Hws. unfold drop_missing.
  assert (∀ e', ledgerMap e' = ledgerMap e0 → ∀ w, w ∈ ws → ¬ peer_wants e' p w) as Hn.
  { intros e' He' w Hw (l & Hlk & Hs). apply (Hws w Hw). exists l. by rewrite <- He'. }
  destruct (ledgerMap e !! p) as [l|];
    apply (foldl_inv_simple (λ e', Inv e' ∧ ledgerMap e' = ledgerMap e0 ∧
             peerRequestQueue e' = peerRequestQueue e)); try done;
    intros e' w Hw (HI' & Hl' & Hq'); [case_match; [done|]|];
    (split; [apply Inv_cancel; auto|done]).
Qed.

Lemma received_bytes_frame (f : AuthBlock → SL → SL) blks e :
  let e' := foldl (λ e blk, set_scoreLedger (f blk (scoreLedger e)) e) e blks in
  frame e e' ∧ peerRequestQueue e' = peerRequestQueue e.
Proof.
  apply (foldl_inv_simple (λ e', frame e e' ∧ peerRequestQueue e' = peerRequestQueue e));
    [done|]. intros e' b _ [(? & ? & ?) ?]. by split.
Qed.

(** The state in which the receive loop starts. *)
Lemma receive_start from blks e :
  Inv e →
  ∃ e1, Inv e1 ∧ (∀ q w, peer_wants e1 q w ↔ peer_wants e q w) ∧
    peerLedger e1 = peerLedger e ∧ maxReplaceSize e1 = maxReplaceSize e ∧
    peerRequestQueue e1 = peerRequestQueue e ∧
    (∀ p l, ledgerMap e !! p = Some l → ledgerMap e1 !! p = Some l) ∧
    (if bool_decide (from ≠ "") then
        let '(l, e) := findOrCreate from e in
        foldl (λ e blk, set_scoreLedger
                 (sl_AddToReceivedBytes (Partner l) (AuthBlock_Size blk) (scoreLedger e)) e) e blks
      else e) = e1.
Proof.
  intros HI. destruct (bool_decide (from ≠ "")); [|by eexists].
  destruct (findOrCreate from e) as [l e1] eqn:Hf.
  assert (maxReplaceSize e1 = maxReplaceSize e ∧ peerRequestQueue e1 = peerRequestQueue e ∧
    (∀ p l, ledgerMap e !! p = Some l → ledgerMap e1 !! p = Some l)) as (Hm & Hq & Hl).
  { unfold findOrCreate in Hf. destruct (ledgerMap e !! from) eqn:E; simplify_eq; [done|].
    split_and!; try done. intros p l Hp. simpl. rewrite lookup_insert_ne; congruence. }
  eapply findOrCreate_spec in Hf as (HI1 & _ & _ & _ & Hp & Hw); [|done].
  pose proof (received_bytes_frame
    (λ blk, sl_AddToReceivedBytes (Partner l) (AuthBlock_Size blk)) blks e1) as [(F1 & F2 & F3) F4].
  eexists. split_and!; [..|reflexivity].
  - eapply Inv_same; [|exact HI1]. by split.
  - intros q w. rewrite <- Hw. unfold peer_wants. by rewrite F1.
  - by rewrite F2.
  - by rewrite F3.
  - by rewrite F4.
  - intros q l' ?. rewrite F1. by apply Hl.
Qed.

Lemma ReceiveFrom_spec from blks e :
  Inv e →
  ∃ e1, Inv e1 ∧ (∀ q w, peer_wants e1 q w ↔ peer_wants e q w) ∧
    peerLedger e1 = peerLedger e ∧ maxReplaceSize e1 = maxReplaceSize e ∧
    (∀ p l, ledgerMap e !! p = Some l → ledgerMap e1 !! p = Some l) ∧
    Inv (ReceiveFrom from blks e) ∧
    peerRequestQueue (ReceiveFrom from blks e) =
      foldl push_one (peerRequestQueue e)
        (receive_pushes e1 (block_sizes blks) (receive_pairs e1 blks)).
Proof.
  intros HI. unfold ReceiveFrom. destruct (len blks =? 0) eqn:Hlen.
  { exists e. split_and!; try done. destruct blks; [done|]. unfold len in Hlen.
    apply Z.eqb_eq in Hlen. simpl in Hlen. lia. }
  destruct (receive_start from blks e HI) as (e1 & HI1 & Hpw & Hpl & Hmax & Hq & Hl & ->).
  exists e1. split; [done|]. split; [done|]. split; [done|]. split; [done|]. split; [done|].
  pose proof (receive_blocks_inv e1 (block_sizes blks) blks) as Hinv.
  destruct (foldl (receive_block _) _ blks) as [[e2 missing] work].
  destruct Hinv as ((F1 & F2 & F3) & Hq2 & _ & Hmiss). simpl in *.
  assert (Inv (foldl drop_missing e2 (range missing)) ∧
    ledgerMap (foldl drop_missing e2 (range missing)) = ledgerMap e1 ∧
    peerRequestQueue (foldl drop_missing e2 (range missing)) = peerRequestQueue e2)
    as (HI3 & _ & Hq3).
  { apply (foldl_inv_simple (λ e', Inv e' ∧ ledgerMap e' = ledgerMap e1 ∧
      peerRequestQueue e' = peerRequestQueue e2)).
    - split_and!; [|done..]. eapply Inv_same; [|exact HI1]. by split.
    - intros e' [p ws] Hin%elem_of_range (HI' & Hl' & <-).
      apply drop_missing_Inv; [done..|]. simpl. intros w Hw. by eapply Hmiss. }
  rewrite <- Hq, <- Hq2, <- Hq3.
  destruct work; [|done]. split; [|done]. eapply Inv_same; [|exact HI3]. by split.
Qed.

(** ** The other operations *)

Lemma Inv_MessageSent p (m : impl) e : Inv e → Inv (MessageSent p m e).
Proof.
  intros HI. unfold MessageSent.
  destruct (findOrCreate p e) as [l e1] eqn:Hf.
  eapply findOrCreate_spec in Hf as (HI1 & Hl & Hp & Hwf & Hpl & Hpw); [|done].
  set (shrinks := λ l', Partner l' = p ∧ WL.wf (wantList l') ∧
    ∀ w, is_Some (wantList l' !! w) → is_Some (wantList l !! w)).
  assert (∀ l' c t, shrinks l' → shrinks (set_wantList (WL.RemoveType c t (wantList l')).2 l')) as Hstep.
  { intros l' c t (S1 & S2 & S3). split_and!; [done|by apply WL.wf_RemoveType|].
    intros w. simpl. rewrite WL.lookup_RemoveType. case_decide; [subst|apply S3].
    repeat case_match; try (by intros []). intros _. apply S3. eauto. }
  destruct (foldl _ (l, scoreLedger e1) (Blocks m)) as [l1 sl] eqn:Hb.
  assert (shrinks l1) as H1.
  { change l1 with (l1, sl).1. rewrite <- Hb.
    apply (foldl_inv_simple (λ acc, shrinks acc.1)); [by split_and!|].
    intros [l' s'] b _ Hs. simpl. by apply Hstep. }
  eapply (Inv_same _ (set_ledgerMap (<[p := foldl _ l1 (BlockPresences m)]> (ledgerMap e1)) e1));
    [by split|].
  assert (shrinks (foldl (λ l bp, if bool_decide (bp_Type bp = Presence_Have)
     then set_wantList (WL.RemoveType (bp_Want bp) WantType_Have (wantList l)).2 l else l)
     l1 (BlockPresences m))) as (S1 & S2 & S3).
  { apply (foldl_inv_simple shrinks); [done|]. intros l' bp _ Hs. case_match; auto. }
  eapply Inv_set_ledger; [exact HI1|done|done|done|].
  intros w Hw. right. apply Inv_waits; [done|]. exists l. auto.
Qed.

Lemma Inv_PeerConnected p e : Inv e → Inv (PeerConnected p e).
Proof.
  intros HI. unfold PeerConnected. destruct (findOrCreate p e) as [l e1] eqn:Hf.
  pose proof Hf as Hf'. eapply findOrCreate_spec in Hf' as (HI1 & _); [|done].
  unfold findOrCreate in Hf.
  destruct (ledgerMap e !! p); simplify_eq; (eapply Inv_same; [|exact HI1]); by split.
Qed.

Lemma Inv_PeerDisconnected p e : Inv e → Inv (PeerDisconnected p e).
Proof.
  intros HI. unfold PeerDisconnected.
  set (e1 := match ledgerMap e !! p with
    | Some l => foldl (λ e entry, set_peerLedger
        (PeerLedger.CancelWant p (Entry_Want entry) (peerLedger e)) e) e (Entries l)
    | None => e end).
  assert (ledgerMap e1 = ledgerMap e ∧ PeerLedger.wf (peerLedger e1) ∧
    ∀ q w, q ≠ p → PeerLedger.waits (peerLedger e) q w → PeerLedger.waits (peerLedger e1) q w)
    as (Hl & Hwf & Hw).
  { unfold e1. destruct (ledgerMap e !! p) as [l|]; [|split_and!; [done|apply HI|done]].
    apply (foldl_inv_simple (λ e', ledgerMap e' = ledgerMap e ∧ PeerLedger.wf (peerLedger e') ∧
      ∀ q w, q ≠ p → PeerLedger.waits (peerLedger e) q w → PeerLedger.waits (peerLedger e') q w)).
    - split_and!; [done|apply HI|done].
    - intros e' x _ (H1 & H2 & H3). split_and!; [done|by apply PeerLedger.wf_CancelWant|].
      intros q w Hq Hwq. simpl. apply PeerLedger.waits_CancelWant. split; [auto|]. by intros []. }
  clearbody e1. split; simpl.
  - intros q l. rewrite Hl, lookup_delete. case_decide; [done|]. apply HI.
  - intros q w (l & Hlk & Hs). simpl in Hlk. rewrite Hl, lookup_delete in Hlk.
    case_decide; [done|]. right. apply Hw; [done|]. apply Inv_waits; [done|]. by exists l.
  - done.
Qed.

Lemma pop_same e : same_index e (pop e).2.
Proof. unfold pop. by destruct (PopTasks _ _). Qed.

Lemma waitForTasks_same ws batch e : same_index e (waitForTasks ws batch e).1.1.
Proof.
  revert batch e. induction ws as [|k ws IH]; intros batch e; simpl.
  { by destruct (batch.1.2). }
  destruct (batch.1.2); [|done]. destruct k; [| |done].
  - destruct (workSignal e); [|apply IH]. destruct (pop _) as [b' e'] eqn:E.
    etrans; [|apply IH]. pose proof (pop_same (set_workSignal false e)) as H.
    rewrite E in H. exact H.
  - destruct (pop _) as [b' e'] eqn:E. etrans; [|apply IH].
    pose proof (pop_same (set_queue (ThawRound (peerRequestQueue e)) e)) as H.
    rewrite E in H. exact H.
Qed.

Lemma nextEnvelope_same fuel faults ws e : same_index e (nextEnvelope fuel faults ws e).1.
Proof.
  revert faults ws e. induction fuel as [|fuel IH]; intros faults ws e; simpl; [done|].
  pose proof (pop_same e) as Hp. destruct (pop e) as [batch e1]. simpl in Hp.
  pose proof (waitForTasks_same ws batch e1) as Hw.
  destruct (waitForTasks ws batch e1) as [[e2 ws'] r]. simpl in Hw.
  assert (same_index e e2) as H2 by (by etrans).
  destruct r as [[[[p tasks] pending]|err]|]; [|done..].
  destruct (buildMessage _ p tasks pending e2) as [msg|]; [|done].
  destruct (Empty msg); [|done]. etrans; [exact H2|]. etrans; [|apply IH]. by split.
Qed.
End index.
#[export] Hint Resolve Inv_newEngine Inv_MessageReceived Inv_MessageSent Inv_PeerConnected
  Inv_PeerDisconnected : go.
