(* ===== verification/EngineRun.v ===== *)
(** * Runs of the decision engine (src/internal/decision/engine.go)

    The engine as a state machine, what a message and an arriving block do to it,
    and what an envelope answers. *)
From S2P Require Import Prelude Auth Wantlist Hex Proto Message Ledger ScoreLedger TaskMerger.
From S2P Require Import BlockstoreManager Engine EngineFacts EngineIndex.
Import Message Ledger Engine EngineFacts EngineIndex.
Open Scope Z_scope.

Module EngineRun.
Section run.
Context {CL : CidLib} {GO : GoRuntime}.
Context {B : Type} {BS : Blockstore B}.
Context {Q : Type} {PTQ : PeerTaskQueue Q}.
Context {SL : Type} {SLI : ScoreLedger SL}.
Implicit Types (e : Engine B Q SL) (p : PeerID) (w : Want).

(** ** The state machine

    Every operation that changes the engine; messages from the network are well
    formed because [newMessageFromProto] builds them with the message's own
    operations. *)
Inductive step : relation (Engine B Q SL) :=
| st_MessageReceived f p m e : wf m → step e (MessageReceived f p m e)
| st_ReceiveFrom from blks e : step e (ReceiveFrom from blks e)
| st_MessageSent p m e : step e (MessageSent p m e)
| st_PeerConnected p e : step e (PeerConnected p e)
| st_PeerDisconnected p e : step e (PeerDisconnected p e)
| st_nextEnvelope fuel faults ws e : step e (nextEnvelope fuel faults ws e).1
| st_Sent env e : step e (env_Sent env e)
| st_WantlistForPeer p e : step e (WantlistForPeer p e).2
| st_SetSendDontHaves b e : step e (SetSendDontHaves b e)
| st_taskWorkerExit e : step e (taskWorkerExit e).

Lemma Inv_step e e' : step e e' → Inv e → Inv e'.
Proof.
  destruct 1; intros HI.
  - by apply Inv_MessageReceived.
  - destruct (ReceiveFrom_spec from blks e HI) as (? & _ & _ & _ & _ & _ & ? & _). done.
  - by apply Inv_MessageSent.
  - by apply Inv_PeerConnected.
  - by apply Inv_PeerDisconnected.
  - eapply Inv_same; [apply nextEnvelope_same|done].
  - eapply Inv_same; [|done]. done.
  - unfold WantlistForPeer. destruct (findOrCreate p e) as [l e1] eqn:Hf.
    by eapply findOrCreate_spec in Hf as (? & _).
  - eapply Inv_same; [|done]. done.
  - eapply Inv_same; [|done]. done.
Qed.

Lemma Inv_reachable e e' : rtc step e e' → Inv e → Inv e'.
Proof. induction 1 as [|e1 e2 e3 Hs _ IH]; [done|]. intros HI. apply IH. by eapply Inv_step. Qed.

(** ** Blocks that arrive *)

(** The entry of a peer's wantlist. *)
Definition wanted_entry e p w : option Entry :=
  match ledgerMap e !! p with Some l => wantList l !! w | None => None end.

Lemma wanted_entry_wants e p w : is_Some (wanted_entry e p w) ↔ peer_wants e p w.
Proof.
  unfold wanted_entry, peer_wants. destruct (ledgerMap e !! p) as [l|].
  - split; [eauto|]. by intros (? & [= <-] & ?).
  - split; [by intros [? ?]|]. by intros (? & ? & _).
Qed.

(** The ledger that [findOrCreate] returns, and what it leaves alone. *)
Definition ledger_of e p : ledger := match ledgerMap e !! p with Some l => l | None => newLedger p end.

Lemma ledger_of_entry e p w : wantList (ledger_of e p) !! w = wanted_entry e p w.
Proof. unfold ledger_of, wanted_entry. destruct (ledgerMap e !! p); [done|]. apply lookup_empty. Qed.

Lemma ledger_of_wf e p : Inv e → WL.wf (wantList (ledger_of e p)).
Proof. intros HI. unfold ledger_of. destruct (ledgerMap e !! p) eqn:E; [by eapply inv_ledger|apply WL.wf_New]. Qed.

Lemma findOrCreate_ledger p e :
  ∃ e1, findOrCreate p e = (ledger_of e p, e1) ∧ peerRequestQueue e1 = peerRequestQueue e ∧
    workSignal e1 = workSignal e ∧ maxReplaceSize e1 = maxReplaceSize e ∧ sendDontHaves e1 = sendDontHaves e ∧
    (∀ q, q ≠ p → ledgerMap e1 !! q = ledgerMap e !! q).
Proof.
  unfold findOrCreate, ledger_of. destruct (ledgerMap e !! p) eqn:E; [by eexists|].
  eexists. split_and!; try done. intros q Hq. cbn. by rewrite lookup_insert_ne.
Qed.

(** The ledger before the cancels and wants of a message. *)
Lemma first_ledger (full : bool) e p w :
  is_Some (wantList (if full then set_wantList WL.New (ledger_of e p) else ledger_of e p) !! w) ↔
  full = false ∧ peer_wants e p w.
Proof.
  rewrite <- wanted_entry_wants, <- ledger_of_entry. destruct full; cbn; [|naive_solver].
  unfold WL.New. rewrite lookup_empty. split; [by intros [? ?]|naive_solver].
Qed.

(** What the handlers of the engine leave alone. *)
Definition fixed (e : Engine B Q SL) := (bsm e, maxReplaceSize e, taskWorkerCount e, outboxClosed e).

Lemma ReceiveFrom_fixed from blks e : fixed (ReceiveFrom from blks e) = fixed e.
Proof.
  unfold ReceiveFrom. destruct (_ =? 0); [done|].
  set (e0 := if bool_decide _ then _ else e).
  assert (fixed e0 = fixed e) as E0.
  { unfold e0. case_bool_decide; [|done]. destruct (findOrCreate from e) as [l e1] eqn:Hf.
    apply (foldl_inv_simple (λ x, fixed x = fixed e)); [|done].
    unfold findOrCreate in Hf. by case_match; simplify_eq. }
  destruct (foldl (receive_block _) _ _) as [[e1 missing] work] eqn:Er.
  assert (fixed e1 = fixed e) as E1.
  { change e1 with (e1, missing, work).1.1. rewrite <- Er.
    apply (foldl_inv_simple (λ acc, fixed acc.1.1 = fixed e)); [done|]. intros acc b _ Ha.
    apply (foldl_inv_simple (λ acc, fixed acc.1.1 = fixed e)); [done|]. intros [[x m] wk] p _ Hx.
    unfold receive_peer. destruct (ledgerMap x !! p) as [l|]; [|done]. by destruct (WantListContains _ l). }
  assert (fixed (foldl drop_missing e1 (range missing)) = fixed e) as E2.
  { apply (foldl_inv_simple (λ x, fixed x = fixed e)); [done|]. intros x [p ws] _ Hx. unfold drop_missing.
    destruct (ledgerMap x !! p) as [l|]; apply (foldl_inv_simple (λ x, fixed x = fixed e)); [done| |done|done].
    intros y w _ Hy. by destruct (WantListContains w l). }
  by destruct work.
Qed.

Lemma ReceiveFrom_bsm from blks e : bsm (ReceiveFrom from blks e) = bsm e.
Proof. pose proof (ReceiveFrom_fixed from blks e) as E. by injection E. Qed.

Lemma findOrCreate_fixed p e : fixed (findOrCreate p e).2 = fixed e.
Proof. unfold findOrCreate. by case_match. Qed.

Lemma MessageReceived_fixed f p m e : fixed (MessageReceived f p m e) = fixed e.
Proof.
  unfold MessageReceived. destruct (splitWantsCancels _) as [wants cancels].
  destruct (BSM.getBlockSizes _ _ _ _) as [sizes [err|]]; [done|]. unfold mr_ledger.
  pose proof (findOrCreate_fixed p (mr_index p wants cancels e)) as E. destruct (findOrCreate _ _) as [l e1]. cbn [snd] in E.
  destruct (foldl (mr_cancel p) _ _) as [l2 q]. destruct (foldl (mr_want _ _) _ _) as [l3 ts].
  by destruct (0 <? len ts).
Qed.

Lemma MessageSent_fixed p m e : fixed (MessageSent p m e) = fixed e.
Proof.
  unfold MessageSent. pose proof (findOrCreate_fixed p e) as E. destruct (findOrCreate p e) as [l e1]. cbn [snd] in E.
  by destruct (foldl _ (l, _) _) as [l2 sl].
Qed.

Lemma PeerConnected_fixed p e : fixed (PeerConnected p e) = fixed e.
Proof. unfold PeerConnected. by destruct (ledgerMap e !! p). Qed.

Lemma PeerDisconnected_fixed p e : fixed (PeerDisconnected p e) = fixed e.
Proof.
  unfold PeerDisconnected. set (e1 := match _ with Some _ => _ | None => _ end).
  assert (fixed e1 = fixed e) as E; [|done]. unfold e1. destruct (ledgerMap e !! p); [|done].
  by apply (foldl_inv_simple (λ x, fixed x = fixed e)).
Qed.

Lemma WantlistForPeer_fixed p e : fixed (WantlistForPeer p e).2 = fixed e.
Proof. unfold WantlistForPeer. pose proof (findOrCreate_fixed p e) as E. by destruct (findOrCreate p e). Qed.

Lemma block_sizes_lookup (blks : list AuthBlock) b :
  NoDup (AuthBlock_Want <$> blks) → b ∈ blks →
  block_sizes blks !! AuthBlock_Want b = Some (AuthBlock_Size b).
Proof.
  intros Hn Hb. unfold block_sizes. rewrite (lookup_foldl_insert AuthBlock_Want AuthBlock_Size).
  destruct (last _) as [b'|] eqn:E.
  - apply last_Some_elem_of, list_elem_of_filter in E as [E Hb']. f_equal. f_equal.
    apply list_elem_of_lookup in Hb as [i Hi], Hb' as [j Hj].
    assert (i = j) as ->; [|congruence].
    eapply (NoDup_lookup _ i j (AuthBlock_Want b)); [done|..]; rewrite list_lookup_fmap.
    + by rewrite Hi.
    + rewrite Hj. cbn. by rewrite E.
  - apply last_None, filter_nil_iff with (x := b) in E; done.
Qed.

(** The pushes are exactly one task per waiting peer and block. *)
Lemma ReceiveFrom_pushes from blks e :
  Inv e → NoDup (AuthBlock_Want <$> blks) →
  ∃ pushes,
    peerRequestQueue (ReceiveFrom from blks e) = foldl push_one (peerRequestQueue e) pushes ∧
    ∀ p t, (p, t) ∈ pushes ↔
      ∃ b entry, b ∈ blks ∧ wanted_entry e p (AuthBlock_Want b) = Some entry ∧
        t = receive_task e (AuthBlock_Want b) entry (AuthBlock_Size b).
Proof.
  intros HI Hn.
  destruct (ReceiveFrom_spec from blks e HI) as (e1 & HI1 & Hpw & Hpl & Hmax & Hled & _ & Hq).
  exists (receive_pushes e1 (block_sizes blks) (receive_pairs e1 blks)). split; [done|].
  assert (∀ p w entry, wanted_entry e1 p w = Some entry ↔ wanted_entry e p w = Some entry) as Hwe.
  { intros p w entry. split.
    - intros H. assert (peer_wants e p w) as (l & El & _)
        by (apply Hpw, wanted_entry_wants; rewrite H; eauto).
      unfold wanted_entry in *. rewrite (Hled _ _ El) in H. by rewrite El.
    - unfold wanted_entry. destruct (ledgerMap e !! p) as [l|] eqn:El; [|done].
      by rewrite (Hled _ _ El). }
  assert (∀ w entry n, receive_task e1 w entry n = receive_task e w entry n) as Hrt.
  { intros. unfold receive_task, sendAsBlock. by rewrite Hmax. }
  intros p t. unfold receive_pushes. rewrite list_elem_of_omap. split.
  - intros ([w p'] & Hin & Ht). cbn in Ht. unfold receive_pairs in Hin.
    apply list_elem_of_bind in Hin as (b & Hin & Hb).
    apply list_elem_of_fmap in Hin as (p2 & [= -> ->] & _).
    unfold push_of in Ht. destruct (ledgerMap e1 !! p2) as [l|] eqn:El; [|done].
    destruct (wantList l !! AuthBlock_Want b) as [entry|] eqn:Ew; cbn in Ht; simplify_eq.
    exists b, entry. split_and!; [done| |].
    + apply Hwe. unfold wanted_entry. by rewrite El.
    + by rewrite Hrt, block_sizes_lookup.
  - intros (b & entry & Hb & Hw%Hwe & ->). exists (AuthBlock_Want b, p). split.
    + apply list_elem_of_bind. exists b. split; [|done]. apply list_elem_of_fmap_2.
      apply PeerLedger.elem_of_Peers. apply Inv_waits; [done|]. apply wanted_entry_wants. rewrite Hw. eauto.
    + cbn. unfold push_of, wanted_entry in *. destruct (ledgerMap e1 !! p) as [l|]; [|done].
      rewrite Hw. cbn. by rewrite Hrt, block_sizes_lookup.
Qed.

(** ** Messages that arrive *)

Lemma mr_cancels_queue p cancels l (q : Q) :
  WL.wf (wantList l) → NoDup (et_Want <$> cancels) →
  (foldl (mr_cancel p) (l, q) cancels).2 =
    foldl (λ q et, Queue_Remove (et_Want et) p q) q
      (filter (λ et, is_Some (wantList l !! et_Want et)) cancels).
Proof.
  revert l q. induction cancels as [|et cancels IH]; intros l q Hwf Hn; [done|].
  rewrite fmap_cons in Hn. apply NoDup_cons in Hn as [Hne Hn].
  cbn [foldl]. unfold mr_cancel at 2. unfold CancelWant.
  pose proof (WL.Remove_true (et_Want et) (wantList l)) as Hrt.
  rewrite IH; [|by apply WL.wf_wantlist_Remove|done]. rewrite filter_cons.
  rewrite (filter_ext_in _ (λ et, is_Some (wantList l !! et_Want et)) cancels).
  - destruct (WL.Remove (et_Want et) (wantList l)).1; case_decide; naive_solver.
  - intros x Hx. cbn. rewrite WL.lookup_Remove. case_decide as E; [|done].
    destruct Hne. rewrite E. by apply list_elem_of_fmap_2.
Qed.

Lemma NoDup_Wantlist_filter (m : impl) (b : bool) :
  wf m → NoDup (et_Want <$> filter (λ et, me_Cancel et = b) (Wantlist_ m)).
Proof.
  intros Hm. eapply sublist_NoDup; [|apply fmap_sublist, sublist_filter].
  replace (et_Want <$> Wantlist_ m) with (range (wantlist m)).*1; [apply NoDup_range_keys|].
  unfold Wantlist_. rewrite <- list_fmap_compose. apply list_fmap_ext. intros i [w et] Hi. cbn.
  apply list_elem_of_lookup_2, elem_of_range in Hi. symmetry. by apply (wf_wantlist m Hm).
Qed.

(** What a message asks for. *)
Definition msg_wants (m : impl) : list MEntry := filter (λ et, me_Cancel et = false) (Wantlist_ m).
Definition msg_cancels (m : impl) : list MEntry := filter (λ et, me_Cancel et = true) (Wantlist_ m).

(** The cancelled wants that the ledger still holds; a full wantlist replaces the
    ledger first. *)
Definition live_cancels (m : impl) e p : list MEntry :=
  if Full m then [] else filter (λ et, is_Some (wanted_entry e p (et_Want et))) (msg_cancels m).

Lemma MessageReceived_effect f p (m : impl) e sizes :
  wf m → Inv e →
  BSM.getBlockSizes f (bsm e) (et_Want <$> msg_wants m) p = (sizes, None) →
  let e' := MessageReceived f p m e in
  let tasks := omap (want_task e sizes) (msg_wants m) in
  let q1 := foldl (λ q et, Queue_Remove (et_Want et) p q) (peerRequestQueue e) (live_cancels m e p) in
  (∀ w, peer_wants e' p w ↔
     w ∈ et_Want <$> msg_wants m ∨
     (Full m = false ∧ peer_wants e p w ∧ w ∉ et_Want <$> msg_cancels m)) ∧
  (∀ q w, q ≠ p → peer_wants e' q w ↔ peer_wants e q w) ∧
  peerRequestQueue e' = (if 0 <? len tasks then PushTasks p tasks q1 else q1) ∧
  workSignal e' = (workSignal e || (0 <? len tasks)).
Proof.
  intros Hm HI Hs. cbn zeta. unfold MessageReceived. rewrite splitWantsCancels_spec.
  fold (msg_wants m) (msg_cancels m). rewrite Hs.
  set (e0 := mr_index p (msg_wants m) (msg_cancels m) e). unfold mr_ledger.
  destruct (findOrCreate_ledger p e0) as (e1 & -> & Q1 & Q2 & Q3 & Q4 & Q5).
  change (ledger_of e0 p) with (ledger_of e p).
  set (l0 := if Full m then set_wantList WL.New (ledger_of e p) else ledger_of e p).
  assert (WL.wf (wantList l0)) as Hwl0 by (unfold l0; destruct (Full m); [apply WL.wf_New|by apply ledger_of_wf]).
  assert (∀ w, is_Some (wantList l0 !! w) ↔ Full m = false ∧ peer_wants e p w) as Hl0 by (intros w; apply first_ledger).
  pose proof (mr_cancels_ledger p (msg_cancels m) l0 (peerRequestQueue e1) Hwl0) as (P1 & W1 & L1).
  pose proof (mr_cancels_queue p (msg_cancels m) l0 (peerRequestQueue e1) Hwl0
    (NoDup_Wantlist_filter m true Hm)) as Hq.
  rewrite Q1 in *. destruct (foldl (mr_cancel p) _ _) as [l1 q1]. cbn [fst snd] in *.
  pose proof (mr_wants_ledger e1 sizes (msg_wants m) l1 [] W1) as (P2 & W2 & L2 & T2).
  destruct (foldl (mr_want e1 sizes) _ _) as [l2 tasks]. cbn [fst snd] in *.
  assert (tasks = omap (want_task e sizes) (msg_wants m)) as ->.
  { rewrite T2. cbn. apply list_omap_ext, Forall_Forall2_diag, Forall_true. intros et.
    unfold want_task, sendAsBlock. by rewrite Q3, Q4. }
  assert (q1 = foldl (λ q et, Queue_Remove (et_Want et) p q) (peerRequestQueue e)
    (live_cancels m e p)) as ->.
  { rewrite Hq. f_equal. unfold live_cancels. destruct (Full m) eqn:Ef.
    - apply filter_nil_iff. intros et _. rewrite Hl0. by intros [? _].
    - apply filter_ext_in. intros et _. rewrite Hl0, wanted_entry_wants. tauto. }
  match goal with |- context [if 0 <? len ?t then ?a else ?b] => set (tk := t); set (ea := a); set (eb := b) end.
  assert (∀ q, ledgerMap (if 0 <? len tk then ea else eb) !! q =
    if decide (p = q) then Some l2 else ledgerMap e !! q) as Hlm.
  { intros q. transitivity (<[p := l2]> (ledgerMap e1) !! q); [by destruct (0 <? len tk)|].
    rewrite lookup_insert. case_decide; [done|]. by apply Q5. }
  split_and!.
  - intros w. unfold peer_wants at 1. rewrite Hlm, decide_True by done. split.
    + intros (? & [= <-] & Hw). apply L2 in Hw as [Hw|Hw]; [right|by left].
      rewrite L1 in Hw. case_decide; [by destruct Hw|]. apply Hl0 in Hw. tauto.
    + intros Hw. eexists. split; [done|]. apply L2. destruct Hw as [Hw|(H1 & H2 & H3)]; [by right|left].
      rewrite L1, decide_False by done. by apply Hl0.
  - intros q w Hne. unfold peer_wants. rewrite Hlm, decide_False by done. done.
  - by destruct (0 <? len tk).
  - destruct (0 <? len tk); cbn; [by rewrite orb_true_r|by rewrite orb_false_r].
Qed.

(** ** Envelopes *)

(** Without a fault the blockstore workers report no error. *)
Lemma buildMessage_total p tasks pending e : ∃ msg, buildMessage None p tasks pending e = Ok msg.
Proof.
  unfold buildMessage. destruct (foldl split_task _ tasks) as [[m ws] ts].
  destruct (BSM.getBlocks None (bsm e) ws p) as [blks r] eqn:E.
  assert (r = None) as ->; [|by eexists].
  unfold BSM.getBlocks, BSM.jobPerKey in E. by destruct (length ws =? 0)%nat; simplify_eq.
Qed.

Lemma Empty_reply (msg : impl) w : msg_reply msg w ≠ RNothing → Empty msg = false.
Proof.
  unfold msg_reply, Empty. intros H. apply not_true_is_false. rewrite !andb_true_iff, !Z.eqb_eq.
  intros [[H1 _] H3].
  rewrite (map_size_empty_inv (blocks msg)), (map_size_empty_inv (blockPresences msg)) in H by lia.
  by rewrite !lookup_empty in H.
Qed.

Lemma nextEnvelope_replies `{!BlockstoreLaws B} fuel faults ws e p tasks pending :
  (pop e).1 = (p, tasks, pending) → NoDup (Task_Topic <$> tasks) →
  (∃ t, t ∈ tasks ∧ task_reply e p t ≠ RNothing) →
  ∃ env e', nextEnvelope (S fuel) (None :: faults) ws e = (e', Some (Ok env)) ∧
    env_Peer env = p ∧ env_Tasks env = tasks ∧
    (∀ t, t ∈ tasks → msg_reply (env_Message env) (Task_Topic t) = task_reply e p t) ∧
    (∀ w, w ∉ Task_Topic <$> tasks → msg_reply (env_Message env) w = RNothing) ∧
    wantlist (env_Message env) = ∅ ∧ pendingBytes (env_Message env) = int32 pending.
Proof.
  intros Hpop Hn (t0 & Ht0 & Hr0). cbn [nextEnvelope].
  pose proof (pop_bsm e) as Hb. destruct (pop e) as [batch e1]. cbn in Hpop, Hb. subst batch.
  assert (waitForTasks ws (p, tasks, pending) e1 = (e1, ws, Some (Ok (p, tasks, pending)))) as ->.
  { destruct tasks; [by apply elem_of_nil in Ht0|]. by destruct ws. }
  change (default None (head (None :: faults))) with (@None (nat * error)).
  destruct (buildMessage_total p tasks pending e1) as [msg Hm]. rewrite Hm.
  destruct (buildMessage_content _ _ _ _ _ _ Hm Hn) as (Hc & Hrest & Hwl & Hpend).
  assert (∀ t, task_reply e1 p t = task_reply e p t) as Htr
    by (intros t; unfold task_reply; by rewrite Hb).
  rewrite (Empty_reply msg (Task_Topic t0)) by (rewrite Hc, Htr by done; done).
  do 2 eexists. split; [done|]. cbn. split_and!; try done. intros t Ht. by rewrite Hc, Htr.
Qed.
(** ** Messages that were sent *)

(** What is left of a wantlist entry once [m] was sent to the peer: a block
    settles any want for it, a HAVE settles a want-have only. *)
Definition settled (m : impl) (w : Want) (entry : option Entry) : option Entry :=
  entry ≫= λ en,
    if decide (is_Some (blocks m !! w)) then None
    else if decide (blockPresences m !! w = Some Presence_Have) then
      if decide (Entry_WantType en = WantType_Block) then Some en else None
    else Some en.

Lemma foldl_RemoveType_Block {A} (key : A → Want) (xs : list A) l (w : Want) :
  wantList (foldl (λ l x, set_wantList (WL.RemoveType (key x) WantType_Block (wantList l)).2 l) l xs) !! w
  = if decide (w ∈ key <$> xs) then None else wantList l !! w.
Proof.
  revert l. induction xs as [|x xs IH]; intros l; [done|]. cbn [foldl]. rewrite IH. simpl.
  rewrite WL.lookup_RemoveType.
  destruct (decide (w ∈ key <$> xs)); [by rewrite decide_True by set_solver|].
  repeat case_decide; subst; try done; try set_solver.
  repeat case_match; try done.
  match goal with H : _ && _ = true |- _ => by apply andb_true_iff in H as [_ ?%bool_decide_eq_true] end.
Qed.

Lemma foldl_RemoveType_Have (xs : list BlockPresence) l (w : Want) :
  wantList (foldl (λ l bp, if bool_decide (bp_Type bp = Presence_Have)
      then set_wantList (WL.RemoveType (bp_Want bp) WantType_Have (wantList l)).2 l else l) l xs) !! w
  = if decide (mkBlockPresence w Presence_Have ∈ xs)
    then (wantList l !! w) ≫= λ en, if decide (Entry_WantType en = WantType_Block) then Some en else None
    else wantList l !! w.
Proof.
  revert l. induction xs as [|[w' t] xs IH]; intros l; [done|]. cbn [foldl]. rewrite IH. clear IH. cbn [bp_Type bp_Want].
  set (E := λ en : Entry, if decide (Entry_WantType en = WantType_Block) then Some en else None).
  assert (∀ o, (o ≫= E) ≫= E = o ≫= E) as HE.
  { intros [en|]; cbn; [|done]. unfold E. repeat (case_decide; cbn); done. }
  assert (∀ v (k : Want), (WL.RemoveType k WantType_Have v).2 !! k = v !! k ≫= E) as HR.
  { intros v k. rewrite WL.lookup_RemoveType, decide_True by done. destruct (v !! k) as [en|]; cbn; [|done].
    unfold E. rewrite (bool_decide_eq_true_2 (WantType_Have = WantType_Have)), andb_true_r by done.
    case_bool_decide; [by rewrite decide_True|by rewrite decide_False]. }
  destruct (decide (t = Presence_Have)) as [->|Ht].
  - rewrite bool_decide_eq_true_2 by done. cbn [wantList set_wantList].
    destruct (decide (w' = w)) as [->|Hne].
    + rewrite HR, HE. rewrite (decide_True (P := _ ∈ _ :: _)) by (by left). by case_decide.
    + rewrite WL.lookup_RemoveType, (decide_False (P := w' = w)) by done.
      erewrite (decide_ext (_ ∈ _ :: _)); [done|]. rewrite elem_of_cons. naive_solver.
  - rewrite bool_decide_eq_false_2 by done.
    erewrite (decide_ext (_ ∈ _ :: _)); [done|]. rewrite elem_of_cons. naive_solver.
Qed.

Lemma MessageSent_effect p (m : impl) e q w :
  wf m →
  wanted_entry (MessageSent p m e) q w =
    if decide (q = p) then settled m w (wanted_entry e p w) else wanted_entry e q w.
Proof.
  intros Hm. unfold MessageSent.
  destruct (findOrCreate_ledger p e) as (e1 & -> & _ & _ & _ & _ & H1). set (l := ledger_of e p).
  assert (∀ w, wantList l !! w = wanted_entry e p w) as Hle by apply ledger_of_entry.
  match goal with |- context [foldl ?f (l, ?sl) (Blocks m)] =>
    assert ((foldl f (l, sl) (Blocks m)).1 = foldl (λ l b,
      set_wantList (WL.RemoveType (AuthBlock_Want b) WantType_Block (wantList l)).2 l) l (Blocks m)) as Hfst;
      [clear; generalize (Blocks m) as xs; intros xs; generalize sl; generalize l;
       induction xs as [|b xs IH]; intros l' sl'; cbn; [done|apply IH]
      |destruct (foldl f (l, sl) (Blocks m)) as [l1 sl1]] end.
  cbn [fst] in Hfst. subst l1. unfold wanted_entry at 1. cbn [ledgerMap set_scoreLedger set_ledgerMap].
  rewrite lookup_insert. destruct (decide (q = p)) as [->|Hne].
  - rewrite decide_True by done. rewrite foldl_RemoveType_Have, foldl_RemoveType_Block, Hle.
    unfold settled. erewrite (decide_ext (w ∈ _) (is_Some (blocks m !! w))).
    + erewrite (decide_ext (_ ∈ BlockPresences m) (blockPresences m !! w = Some Presence_Have)).
      * destruct (wanted_entry e p w); cbn; repeat (case_decide; cbn); done.
      * unfold BlockPresences. rewrite list_elem_of_fmap. setoid_rewrite <- elem_of_range. split.
        -- by intros ([? ?] & [= -> ->] & ?).
        -- intros ?. by exists (w, Presence_Have).
    + unfold Blocks. rewrite <- list_fmap_compose, list_elem_of_fmap. split.
      * intros ([w' b] & -> & Hin%elem_of_range). cbn. destruct (wf_blocks m Hm _ _ Hin) as [-> _]. eauto.
      * intros [b Hb]. exists (w, b). cbn. destruct (wf_blocks m Hm _ _ Hb) as [-> _].
        split; [done|]. by apply elem_of_range.
  - rewrite decide_False by done. unfold wanted_entry. by rewrite H1.
Qed.
End run.
End EngineRun.
