(* ===== verification/PeerWantManager.v ===== *)
(** * Tracking the wants sent to peers (src/internal/peermanager/peerwantmanager.go)

    [peerWantManager] knows, for every connected peer, which want-blocks and
    want-haves were sent to it, keeps a reverse index from wants to peers and
    two gauges, and filters what still has to be sent.  The calls it makes on the
    peers' message queues are returned in order; a queue is named by a reference
    ([qref]), since the [PeerManager] holds references to the same objects. *)
From S2P Require Import Prelude Auth Ledger.
Open Scope Z_scope.

Abbreviation qref := nat.

(** A call on a [PeerQueue]. *)
Inductive qcall `{CL : CidLib} :=
| QBroadcast (q : qref) (ws : list Want)
| QWants (q : qref) (wantBlocks wantHaves : list Want)
| QCancels (q : qref) (ws : list Want).

Module PWM.
Section pwm.
Context {CL : CidLib} {GO : GoRuntime}.

Record peerWant := mkPeerWant {
  wantBlocks : gset Want;
  wantHaves : gset Want;
  peerQueue : qref;
}.

Record peerWantManager := mkPWM {
  peerWants : gmap PeerID peerWant;
  wantPeers : gmap Want (gset PeerID);
  broadcastWants : gset Want;
  wantGauge : Z;
  wantBlockGauge : Z;
}.

Definition set_peerWants (m : gmap PeerID peerWant) (s : peerWantManager) : peerWantManager :=
  mkPWM m (wantPeers s) (broadcastWants s) (wantGauge s) (wantBlockGauge s).
Definition set_wantPeers (m : gmap Want (gset PeerID)) (s : peerWantManager) : peerWantManager :=
  mkPWM (peerWants s) m (broadcastWants s) (wantGauge s) (wantBlockGauge s).
Definition set_broadcast (b : gset Want) (s : peerWantManager) : peerWantManager :=
  mkPWM (peerWants s) (wantPeers s) b (wantGauge s) (wantBlockGauge s).
Definition gauge_add (n : Z) (s : peerWantManager) : peerWantManager :=
  mkPWM (peerWants s) (wantPeers s) (broadcastWants s) (wantGauge s + n) (wantBlockGauge s).
Definition block_gauge_add (n : Z) (s : peerWantManager) : peerWantManager :=
  mkPWM (peerWants s) (wantPeers s) (broadcastWants s) (wantGauge s) (wantBlockGauge s + n).

Definition newPeerWantManager : peerWantManager :=
  {| broadcastWants := AuthSet.NewSet; peerWants := ∅; wantPeers := ∅;
     wantGauge := 0; wantBlockGauge := 0 |}.

(** ** Counting *)

Record wantPeerCnts := mkCnts {
  cnt_wantBlock : Z;
  cnt_wantHave : Z;
  cnt_isBroadcast : bool;
}.

Definition wanted (c : wantPeerCnts) : bool :=
  (0 <? cnt_wantBlock c) || (0 <? cnt_wantHave c) || cnt_isBroadcast c.

Definition wantPeerCounts (w : Want) (s : peerWantManager) : wantPeerCnts :=
  let '(blockCount, haveCount) :=
    foldl (λ acc p,
        match peerWants s !! p with
        | None => acc
        | Some pws =>
            if AuthSet.Has (wantBlocks pws) w then (acc.1 + 1, acc.2)
            else if AuthSet.Has (wantHaves pws) w then (acc.1, acc.2 + 1)
            else acc
        end)
      (0, 0) (keys (default ∅ (wantPeers s !! w))) in
  mkCnts blockCount haveCount (AuthSet.Has (broadcastWants s) w).

Definition reverseIndexAdd (w : Want) (p : PeerID) (s : peerWantManager) : bool * peerWantManager :=
  match wantPeers s !! w with
  | Some peers => (false, set_wantPeers (<[w := {[p]} ∪ peers]> (wantPeers s)) s)
  | None => (true, set_wantPeers (<[w := {[p]} ∪ ∅]> (wantPeers s)) s)
  end.

Definition reverseIndexRemove (w : Want) (p : PeerID) (s : peerWantManager) : peerWantManager :=
  match wantPeers s !! w with
  | Some peers =>
      let peers' := peers ∖ {[p]} in
      if (size peers' =? 0)%nat
      then set_wantPeers (delete w (wantPeers s)) s
      else set_wantPeers (<[w := peers']> (wantPeers s)) s
  | None => s
  end.

(** ** Peers *)

Definition addPeer (q : qref) (p : PeerID) (s : peerWantManager) : peerWantManager * list qcall :=
  match peerWants s !! p with
  | Some _ => (s, [])
  | None =>
      let s := set_peerWants (<[p := {| wantBlocks := AuthSet.NewSet; wantHaves := AuthSet.NewSet;
                                        peerQueue := q |}]> (peerWants s)) s in
      (s, if 0 <? AuthSet.Len (broadcastWants s)
          then [QBroadcast q (AuthSet.Keys (broadcastWants s))] else [])
  end.

Definition remove_block (p : PeerID) (w : Want) (s : peerWantManager) : peerWantManager :=
  let s := reverseIndexRemove w p s in
  let cnts := wantPeerCounts w s in
  let s := if cnt_wantBlock cnts =? 0 then block_gauge_add (-1) s else s in
  if negb (wanted cnts) then gauge_add (-1) s else s.

Definition remove_have (p : PeerID) (w : Want) (s : peerWantManager) : peerWantManager :=
  let s := reverseIndexRemove w p s in
  let cnts := wantPeerCounts w s in
  if negb (wanted cnts) then gauge_add (-1) s else s.

Definition removePeer (p : PeerID) (s : peerWantManager) : peerWantManager :=
  match peerWants s !! p with
  | None => s
  | Some pws =>
      let s := (AuthSet.ForEach (λ w s, (remove_block p w s, @None error)) (wantBlocks pws) s).1 in
      let s := (AuthSet.ForEach (λ w s, (remove_have p w s, @None error)) (wantHaves pws) s).1 in
      set_peerWants (delete p (peerWants s)) s
  end.

(** ** Sending *)

Definition add_broadcast (acc : peerWantManager * list Want) (w : Want)
  : peerWantManager * list Want :=
  let '(s, unsent) := acc in
  if AuthSet.Has (broadcastWants s) w then (s, unsent)
  else
    let s := set_broadcast (AuthSet.Add w (broadcastWants s)) s in
    let s := match wantPeers s !! w with None => gauge_add 1 s | Some _ => s end in
    (s, unsent ++ [w]).

(** The wants a broadcast still has to bring to a peer. *)
Definition peer_unsent (unsent : list Want) (pws : peerWant) : list Want :=
  filter (λ w, negb (AuthSet.Has (wantBlocks pws) w) && negb (AuthSet.Has (wantHaves pws) w)) unsent.

Definition broadcastWantHaves (whs : list Want) (s : peerWantManager)
  : peerWantManager * list qcall :=
  let '(s, unsent) := foldl add_broadcast (s, []) whs in
  if (len unsent =? 0) then (s, [])
  else
    (s, omap (λ x, let ws := peer_unsent unsent x.2 in
                   if 0 <? len ws then Some (QBroadcast (peerQueue x.2) ws) else None)
             (range (peerWants s))).

(** The two loops of [sendWants]; [pws] is the peer's record in [peerWants]. *)
Definition send_block (p : PeerID) (acc : peerWantManager * list Want) (c : Want)
  : peerWantManager * list Want :=
  let '(s, flt) := acc in
  match peerWants s !! p with
  | None => acc
  | Some pws =>
      if AuthSet.Has (wantBlocks pws) c then acc
      else
        let cnts := wantPeerCounts c s in
        let s := if cnt_wantBlock cnts =? 0 then block_gauge_add 1 s else s in
        let s := if negb (wanted cnts) then gauge_add 1 s else s in
        let s := set_peerWants (<[p := mkPeerWant (AuthSet.Add c (wantBlocks pws))
                                         (AuthSet.Remove c (wantHaves pws)) (peerQueue pws)]>
                                  (peerWants s)) s in
        ((reverseIndexAdd c p s).2, flt ++ [c])
  end.

Definition send_have (p : PeerID) (acc : peerWantManager * list Want) (c : Want)
  : peerWantManager * list Want :=
  let '(s, flt) := acc in
  match peerWants s !! p with
  | None => acc
  | Some pws =>
      if AuthSet.Has (broadcastWants s) c then acc
      else if negb (AuthSet.Has (wantBlocks pws) c) && negb (AuthSet.Has (wantHaves pws) c) then
        let cnts := wantPeerCounts c s in
        let s := if negb (wanted cnts) then gauge_add 1 s else s in
        let s := set_peerWants (<[p := mkPeerWant (wantBlocks pws)
                                         (AuthSet.Add c (wantHaves pws)) (peerQueue pws)]>
                                  (peerWants s)) s in
        ((reverseIndexAdd c p s).2, flt ++ [c])
      else acc
  end.

Definition sendWants (p : PeerID) (blks haves : list Want) (s : peerWantManager)
  : peerWantManager * list qcall :=
  match peerWants s !! p with
  | None => (s, [])
  | Some pws =>
      let '(s, fltWantBlks) := foldl (send_block p) (s, []) blks in
      let '(s, fltWantHvs) := foldl (send_have p) (s, []) haves in
      (s, [QWants (peerQueue pws) fltWantBlks fltWantHvs])
  end.

(** ** Cancelling *)

(** The closure [send]: the peer's record without the cancelled wants, and the
    cancels for its queue. *)
Definition cancel_key (bcast : gset Want) (acc : peerWant * list Want) (c : Want)
  : peerWant * list Want :=
  let '(pws, toCancel) := acc in
  if negb (AuthSet.Has (wantBlocks pws) c) && negb (AuthSet.Has (wantHaves pws) c) then acc
  else
    (mkPeerWant (AuthSet.Remove c (wantBlocks pws)) (AuthSet.Remove c (wantHaves pws)) (peerQueue pws),
     if negb (AuthSet.Has bcast c) then toCancel ++ [c] else toCancel).

Definition cancel_send (cancelKs broadcastCancels : list Want)
    (acc : peerWantManager * list qcall) (p : PeerID) : peerWantManager * list qcall :=
  let '(s, calls) := acc in
  match peerWants s !! p with
  | None => acc
  | Some pws =>
      let '(pws', toCancel) := foldl (cancel_key (broadcastWants s)) (pws, broadcastCancels) cancelKs in
      (set_peerWants (<[p := pws']> (peerWants s)) s,
       if 0 <? len toCancel then calls ++ [QCancels (peerQueue pws) toCancel] else calls)
  end.

Definition sendCancels (cancelKs : list Want) (s : peerWantManager)
  : peerWantManager * list qcall :=
  if (len cancelKs =? 0) then (s, [])
  else
    let peerCounts : gmap Want wantPeerCnts :=
      foldl (λ m c, <[c := wantPeerCounts c s]> m) ∅ cancelKs in
    let broadcastCancels := filter (λ w, AuthSet.Has (broadcastWants s) w) cancelKs in
    let '(s, calls) :=
      if 0 <? len broadcastCancels
      then foldl (cancel_send cancelKs broadcastCancels) (s, []) (range (peerWants s)).*1
      else
        let cancelPeers : gset PeerID :=
          foldl (λ ps c, default ∅ (wantPeers s !! c) ∪ ps) ∅ cancelKs in
        foldl (cancel_send cancelKs broadcastCancels) (s, []) (keys cancelPeers) in
    let s := foldl (λ s c,
        let cnts := default (mkCnts 0 0 false) (peerCounts !! c) in
        let s := if 0 <? cnt_wantBlock cnts then block_gauge_add (-1) s else s in
        if wanted cnts then gauge_add (-1) s else s) s cancelKs in
    let s := foldl (λ s c, set_broadcast (AuthSet.Remove c (broadcastWants s)) s) s broadcastCancels in
    let s := foldl (λ s c, set_wantPeers (delete c (wantPeers s)) s) s cancelKs in
    (s, calls).

(** ** Queries *)

Definition getWantBlocks (s : peerWantManager) : list Want :=
  let res := foldl (λ res x,
      (AuthSet.ForEach (λ w res, (AuthSet.Add w res, @None error)) (wantBlocks x.2) res).1)
    AuthSet.NewSet (range (peerWants s)) in
  AuthSet.Keys res.

Definition getWantHaves (s : peerWantManager) : list Want :=
  let res := foldl (λ res x,
      (AuthSet.ForEach (λ w res, (AuthSet.Add w res, @None error)) (wantHaves x.2) res).1)
    AuthSet.NewSet (range (peerWants s)) in
  let res := (AuthSet.ForEach (λ w res, (AuthSet.Add w res, @None error)) (broadcastWants s) res).1 in
  AuthSet.Keys res.

Definition getWants (s : peerWantManager) : list Want :=
  foldl (λ res x, if AuthSet.Has (broadcastWants s) x.1 then res else res ++ [x.1])
        (AuthSet.Keys (broadcastWants s)) (range (wantPeers s)).
End pwm.
End PWM.
