(* ===== verification/PeerWantFacts.v ===== *)
(** * Correctness of the want tracker (src/internal/peermanager/peerwantmanager.go)

    The reverse index, the two gauges and the per-peer sets agree in every state
    the operations reach, and the calls made on a peer's message queue add up to
    exactly the wants the manager records for that peer. *)
From S2P Require Import Prelude Auth Ledger PeerWantManager.
Open Scope Z_scope.

(** ** Counting the elements of a predicate *)

Section counts.
Context `{Countable A}.

Definition counts (P : A → Prop) (g : Z) : Prop :=
  ∃ S : gset A, (∀ x, x ∈ S ↔ P x) ∧ g = Z.of_nat (size S).

Lemma counts_ext P P' g : counts P g → (∀ x, P' x ↔ P x) → counts P' g.
Proof. intros (S & HS & ->) HP. exists S. split; [|done]. intros x. by rewrite HP. Qed.

Lemma counts_add P P' g w :
  counts P g → ¬ P w → (∀ x, P' x ↔ P x ∨ x = w) → counts P' (g + 1).
Proof.
  intros (S & HS & ->) Hw HP. exists ({[w]} ∪ S). split.
  - intros x. rewrite HP, <- HS. set_solver.
  - rewrite size_union by (rewrite <- HS in Hw; set_solver). rewrite size_singleton. lia.
Qed.

Lemma counts_del P P' g w :
  counts P g → P w → (∀ x, P' x ↔ P x ∧ x ≠ w) → counts P' (g + -1).
Proof.
  intros (S & HS & ->) Hw HP. exists (S ∖ {[w]}). split.
  - intros x. rewrite HP, <- HS. set_solver.
  - assert (w ∈ S) as Hin by by apply HS.
    pose proof (size_union_alt {[w]} S) as E.
    replace ({[w]} ∪ S) with S in E by set_solver.
    rewrite size_singleton in E. lia.
Qed.

(** A gauge that is lowered exactly when the last holder of [w] goes, and one
    that is raised exactly when the first one comes. *)
Lemma counts_drop P P' g w (b : bool) :
  counts P g → P w → (∀ x, x ≠ w → P' x ↔ P x) → (b = true ↔ P' w) →
  counts P' (if b then g else g + -1).
Proof.
  intros Hc Hw HP Hb. destruct b.
  - apply (counts_ext P); [done|]. intros x. destruct (decide (x = w)) as [->|]; naive_solver.
  - apply (counts_del P _ _ w); [done..|]. intros x.
    destruct (decide (x = w)) as [->|]; naive_solver.
Qed.

Lemma counts_raise P P' g w (b : bool) :
  counts P g → P' w → (∀ x, x ≠ w → P' x ↔ P x) → (b = true ↔ P w) →
  counts P' (if b then g else g + 1).
Proof.
  intros Hc Hw HP Hb. destruct b.
  - apply (counts_ext P); [done|]. intros x. destruct (decide (x = w)) as [->|]; naive_solver.
  - apply (counts_add P _ _ w); [done|naive_solver|]. intros x.
    destruct (decide (x = w)) as [->|]; naive_solver.
Qed.

Lemma counts_nonneg P g : counts P g → 0 ≤ g.
Proof. intros (S & _ & ->). lia. Qed.

Lemma counts_empty : counts (λ _, False) 0.
Proof. exists ∅. split; [set_solver|]. by rewrite size_empty. Qed.
End counts.

Module PWMFacts.
Import PWM.
Section facts.
Context {CL : CidLib} {GO : GoRuntime}.
Implicit Types (s : peerWantManager) (w : Want) (p : PeerID).

(** ** The relations the state represents *)

Definition sentBlock s p w : Prop :=
  ∃ pws, peerWants s !! p = Some pws ∧ w ∈ wantBlocks pws.
Definition sent s p w : Prop :=
  ∃ pws, peerWants s !! p = Some pws ∧ (w ∈ wantBlocks pws ∨ w ∈ wantHaves pws).
Abbreviation indexed s p w := (PeerLedger.waits (wantPeers s) p w).

(** Some peer listed in the index has a pending want-block. *)
Definition blockPending s w : Prop := ∃ p, indexed s p w ∧ sentBlock s p w.
(** The want is broadcast, or some peer in the index has it pending. *)
Definition pending s w : Prop := w ∈ broadcastWants s ∨ ∃ p, indexed s p w.

(** ** The counting loop *)

Definition blockOf s w p : bool :=
  match peerWants s !! p with Some pws => AuthSet.Has (wantBlocks pws) w | None => false end.
Definition haveOf s w p : bool :=
  match peerWants s !! p with
  | Some pws => negb (AuthSet.Has (wantBlocks pws) w) && AuthSet.Has (wantHaves pws) w
  | None => false
  end.

Lemma wantPeerCounts_eq w s :
  wantPeerCounts w s =
    mkCnts (len (filter (λ p, blockOf s w p) (keys (default ∅ (wantPeers s !! w)))))
           (len (filter (λ p, haveOf s w p) (keys (default ∅ (wantPeers s !! w)))))
           (AuthSet.Has (broadcastWants s) w).
Proof.
  unfold wantPeerCounts. generalize (keys (default ∅ (wantPeers s !! w))) as ps. intros ps.
  match goal with |- context [foldl ?f (0, 0) ps] => set (body := f) end.
  assert (∀ a b, foldl body (a, b) ps =
    (a + len (filter (λ p, blockOf s w p) ps), b + len (filter (λ p, haveOf s w p) ps))) as E.
  { unfold len. induction ps as [|p ps IH]; intros a b; [cbn; f_equal; lia|].
    cbn [foldl]. rewrite !filter_cons.
    assert (body (a, b) p = (a + (if blockOf s w p then 1 else 0), b + (if haveOf s w p then 1 else 0))) as ->.
    { unfold body, blockOf, haveOf. destruct (peerWants s !! p) as [pws|]; cbn;
        [destruct (AuthSet.Has (wantBlocks pws) w), (AuthSet.Has (wantHaves pws) w)|]; cbn; f_equal; lia. }
    rewrite IH. destruct (decide (blockOf s w p)) as [Hb|Hb], (decide (haveOf s w p)) as [Hh|Hh];
      destruct (blockOf s w p), (haveOf s w p); try done; rewrite ?length_cons; f_equal; lia. }
  by rewrite E.
Qed.

Lemma len_filter_pos {A} (f : A → bool) (l : list A) :
  (0 <? len (filter (λ x, f x) l)) = true ↔ ∃ x, x ∈ l ∧ f x.
Proof.
  unfold len. rewrite Z.ltb_lt. split.
  - destruct (filter _ l) as [|x k] eqn:E; [cbn; lia|]. intros _. exists x.
    assert (x ∈ filter (λ x, f x) l) as Hx by (rewrite E; left).
    apply list_elem_of_filter in Hx. tauto.
  - intros (x & Hl & Hx). assert (x ∈ filter (λ x, f x) l) as Hin by by apply list_elem_of_filter.
    destruct (filter _ l); [by apply elem_of_nil in Hin|]. cbn. lia.
Qed.

Lemma elem_of_index w s p : p ∈ keys (default ∅ (wantPeers s !! w)) ↔ indexed s p w.
Proof.
  rewrite elem_of_keys. unfold PeerLedger.waits.
  destruct (wantPeers s !! w); cbn; set_solver.
Qed.

Lemma cnt_wantBlock_pos w s : (0 <? cnt_wantBlock (wantPeerCounts w s)) = true ↔ blockPending s w.
Proof.
  rewrite wantPeerCounts_eq. cbn. rewrite (len_filter_pos (blockOf s w)).
  unfold blockPending, sentBlock. setoid_rewrite elem_of_index.
  f_equiv. intros p. f_equiv. unfold blockOf.
  destruct (peerWants s !! p) as [pws|]; [|naive_solver].
  rewrite Is_true_true, AuthSet.set_Has_spec. naive_solver.
Qed.

Lemma cnt_wantBlock_zero w s :
  (cnt_wantBlock (wantPeerCounts w s) =? 0) = true ↔ ¬ blockPending s w.
Proof.
  rewrite <- cnt_wantBlock_pos, wantPeerCounts_eq. cbn.
  match goal with |- context [len ?l] => pose proof (len_nonneg l) end.
  rewrite Z.eqb_eq, Z.ltb_lt. lia.
Qed.

(** Provided the index lists only peers that were sent the want. *)
Lemma indexed_wanted_spec w s :
  (∀ p, indexed s p w → sent s p w) → wanted (wantPeerCounts w s) = true ↔ pending s w.
Proof.
  intros Hi. rewrite wantPeerCounts_eq. unfold wanted. cbn.
  rewrite !orb_true_iff, AuthSet.set_Has_spec.
  rewrite (len_filter_pos (blockOf s w)), (len_filter_pos (haveOf s w)).
  setoid_rewrite elem_of_index. unfold pending. split.
  - naive_solver.
  - intros [?|(p & Hp)]; [by right|]. left.
    destruct (Hi p Hp) as (pws & E & Hw). unfold blockOf, haveOf.
    destruct (AuthSet.Has (wantBlocks pws) w) eqn:EB.
    + left. exists p. by rewrite E, EB.
    + right. exists p. rewrite E, EB. split; [done|]. cbn.
      apply Is_true_true, AuthSet.set_Has_spec. apply AuthSet.Has_false in EB. tauto.
Qed.

(** ** The invariant *)

Record Inv s : Prop := mkInv {
  inv_wf : PeerLedger.wf (wantPeers s);
  inv_index : ∀ p w, indexed s p w ↔ sent s p w;
  inv_disj : ∀ p pws, peerWants s !! p = Some pws → wantBlocks pws ## wantHaves pws;
  inv_blockGauge : counts (blockPending s) (wantBlockGauge s);
  inv_gauge : counts (pending s) (wantGauge s);
}.

Lemma Inv_newPeerWantManager : Inv newPeerWantManager.
Proof.
  unfold newPeerWantManager, AuthSet.NewSet. split; cbn.
  - intros k m. by rewrite lookup_empty.
  - intros p w. unfold PeerLedger.waits, sent. cbn. setoid_rewrite lookup_empty. naive_solver.
  - intros p pws. by rewrite lookup_empty.
  - eapply counts_ext; [apply counts_empty|]. intros w. split; [|done].
    intros (p & _ & pws & E & _). cbn in E. by rewrite lookup_empty in E.
  - eapply counts_ext; [apply counts_empty|]. intros w. split; [|done].
    intros [Hw|(p & m & E & _)]; cbn in *; [set_solver|]. by rewrite lookup_empty in E.
Qed.

(** ** Peers coming and going *)

Lemma Inv_addPeer q p s : Inv s → Inv (addPeer q p s).1.
Proof.
  intros [Hwf Hix Hd Hb Hg]. unfold addPeer. destruct (peerWants s !! p) as [pws|] eqn:E; [by split|].
  set (s' := set_peerWants _ s). cbn.
  assert (∀ p' pws', peerWants s' !! p' = Some pws' →
    peerWants s !! p' = Some pws' ∨ (wantBlocks pws' = ∅ ∧ wantHaves pws' = ∅)) as Hnew.
  { intros p' pws'. cbn. rewrite lookup_insert. case_decide; [intros [= <-]; by right|by left]. }
  assert (∀ p' pws', peerWants s !! p' = Some pws' → peerWants s' !! p' = Some pws') as Hold.
  { intros p' pws' E'. cbn. rewrite lookup_insert_ne by congruence. done. }
  assert (∀ p' w, sent s' p' w ↔ sent s p' w) as Hs.
  { intros p' w. split; intros (pws' & E' & Hw); [|exists pws'; auto].
    destruct (Hnew _ _ E') as [?|[E1 E2]]; [by exists pws'|]. rewrite E1, E2 in Hw. set_solver. }
  split.
  - done.
  - intros p' w. rewrite Hs. apply Hix.
  - intros p' pws' E'. destruct (Hnew _ _ E') as [?|[-> ->]]; [by eapply Hd|set_solver].
  - eapply counts_ext; [done|]. intros w. unfold blockPending, sentBlock. f_equiv. intros p'.
    f_equiv; [done|]. split; intros (pws' & E' & Hw); [|exists pws'; auto].
    destruct (Hnew _ _ E') as [?|[E1 E2]]; [by exists pws'|]. rewrite E1 in Hw. set_solver.
  - done.
Qed.

Lemma reverseIndexRemove_eq w p s :
  reverseIndexRemove w p s = set_wantPeers (PeerLedger.CancelWant p w (wantPeers s)) s.
Proof.
  unfold reverseIndexRemove, PeerLedger.CancelWant.
  destruct (wantPeers s !! w); [by case_match|]. by destruct s.
Qed.

Lemma reverseIndexAdd_eq w p s :
  (reverseIndexAdd w p s).2 = set_wantPeers (PeerLedger.Wants p w (wantPeers s)) s.
Proof. unfold reverseIndexAdd, PeerLedger.Wants. by destruct (wantPeers s !! w). Qed.

(** The state inside [removePeer], once the wants [D] of [p] are out of the
    index. *)
Record Mid s0 p (D : list Want) s : Prop := mkMid {
  mid_peers : peerWants s = peerWants s0;
  mid_bcast : broadcastWants s = broadcastWants s0;
  mid_wf : PeerLedger.wf (wantPeers s);
  mid_index : ∀ p' w, indexed s p' w ↔ sent s0 p' w ∧ ¬ (p' = p ∧ w ∈ D);
  mid_blockGauge : counts (blockPending s) (wantBlockGauge s);
  mid_gauge : counts (pending s) (wantGauge s);
}.

Definition unindex p w s : peerWantManager :=
  set_wantPeers (PeerLedger.CancelWant p w (wantPeers s)) s.

Lemma remove_block_eq p w s :
  let cnts := wantPeerCounts w (unindex p w s) in
  remove_block p w s =
    mkPWM (peerWants s) (PeerLedger.CancelWant p w (wantPeers s)) (broadcastWants s)
      (if wanted cnts then wantGauge s else wantGauge s + -1)
      (if 0 <? cnt_wantBlock cnts then wantBlockGauge s else wantBlockGauge s + -1).
Proof.
  cbn. unfold remove_block. rewrite reverseIndexRemove_eq. fold (unindex p w s).
  pose proof (cnt_wantBlock_pos w (unindex p w s)) as H1.
  pose proof (cnt_wantBlock_zero w (unindex p w s)) as H2.
  destruct (0 <? _), (_ =? 0), (wanted _); try done; naive_solver.
Qed.

Lemma remove_have_eq p w s :
  remove_have p w s =
    mkPWM (peerWants s) (PeerLedger.CancelWant p w (wantPeers s)) (broadcastWants s)
      (if wanted (wantPeerCounts w (unindex p w s)) then wantGauge s else wantGauge s + -1)
      (wantBlockGauge s).
Proof.
  unfold remove_have. rewrite reverseIndexRemove_eq. fold (unindex p w s). by destruct (wanted _).
Qed.

Section unindex.
Context s0 p D s w (HM : Mid s0 p D s) (Hsent : sent s0 p w) (HD : w ∉ D).

Lemma unindex_index p' x :
  indexed (unindex p w s) p' x ↔ sent s0 p' x ∧ ¬ (p' = p ∧ x ∈ D ++ [w]).
Proof using HM.
  cbn. rewrite PeerLedger.waits_CancelWant, (mid_index _ _ _ _ HM), elem_of_snoc. tauto.
Qed.

Lemma unindex_ne p' x : x ≠ w → indexed (unindex p w s) p' x ↔ indexed s p' x.
Proof using. intros. cbn. rewrite PeerLedger.waits_CancelWant. naive_solver. Qed.

Lemma unindex_indexed : indexed s p w.
Proof using HM Hsent HD. apply (mid_index _ _ _ _ HM). naive_solver. Qed.

Lemma unindex_gauge :
  counts (pending (unindex p w s))
    (if wanted (wantPeerCounts w (unindex p w s)) then wantGauge s else wantGauge s + -1).
Proof using HM Hsent HD.
  apply (counts_drop (pending s) _ _ w).
  - apply HM.
  - right. exists p. apply unindex_indexed.
  - intros x Hx. unfold pending. setoid_rewrite unindex_ne; done.
  - apply indexed_wanted_spec. intros p' Hp'. apply unindex_index in Hp'. unfold sent. cbn.
    rewrite (mid_peers _ _ _ _ HM). apply Hp'.
Qed.
End unindex.

Lemma remove_block_Mid s0 p D s w :
  Mid s0 p D s → sentBlock s0 p w → w ∉ D → Mid s0 p (D ++ [w]) (remove_block p w s).
Proof.
  intros HM Hb HD. assert (sent s0 p w) as Hs by (destruct Hb as (pws & ? & ?); exists pws; auto).
  rewrite remove_block_eq. split; cbn.
  - apply HM.
  - apply HM.
  - apply PeerLedger.wf_CancelWant, HM.
  - intros p' x. by apply (unindex_index s0 p D s).
  - apply (counts_drop (blockPending s) (blockPending (unindex p w s)) _ w).
    + apply HM.
    + exists p. split; [by eapply unindex_indexed|]. unfold sentBlock.
      by rewrite (mid_peers _ _ _ _ HM).
    + intros x Hx. unfold blockPending. setoid_rewrite unindex_ne; done.
    + apply cnt_wantBlock_pos.
  - by eapply unindex_gauge.
Qed.

Lemma remove_have_Mid s0 p D s w :
  Mid s0 p D s → sent s0 p w → ¬ sentBlock s0 p w → w ∉ D → Mid s0 p (D ++ [w]) (remove_have p w s).
Proof.
  intros HM Hs Hb HD. rewrite remove_have_eq. split; cbn.
  - apply HM.
  - apply HM.
  - apply PeerLedger.wf_CancelWant, HM.
  - intros p' x. by apply (unindex_index s0 p D s).
  - apply (counts_ext (blockPending s)); [apply HM|]. intros x. unfold blockPending. f_equiv. intros p'.
    cbn. rewrite PeerLedger.waits_CancelWant. unfold sentBlock in *. cbn in *.
    rewrite (mid_peers _ _ _ _ HM). naive_solver.
  - by eapply unindex_gauge.
Qed.

Lemma removePeer_Mid p s pws :
  Inv s → peerWants s !! p = Some pws →
  ∃ s', Mid s p (AuthSet.Keys (wantBlocks pws) ++ AuthSet.Keys (wantHaves pws)) s' ∧
        removePeer p s = set_peerWants (delete p (peerWants s')) s'.
Proof.
  intros HI E. unfold removePeer. rewrite E. rewrite !AuthSet.ForEach_total. cbn.
  set (s1 := foldl _ s _).
  assert (Mid s p (AuthSet.Keys (wantBlocks pws)) s1) as H1.
  { unfold s1. apply (foldl_inv (λ D s', Mid s p D s')).
    - destruct HI as [? Hix ? ? ?]. split; try done. intros p' w. rewrite Hix. set_solver.
    - intros pre w post s' Ek HM. apply remove_block_Mid; [done| |].
      + exists pws. split; [done|]. apply elem_of_keys. fold (AuthSet.Keys (wantBlocks pws)).
        rewrite Ek. set_solver.
      + pose proof (NoDup_keys (wantBlocks pws)) as Hn. fold (AuthSet.Keys (wantBlocks pws)) in Hn.
        rewrite Ek in Hn. apply NoDup_app in Hn. set_solver. }
  eexists. split; [|done].
  apply (foldl_inv (λ D s', Mid s p (AuthSet.Keys (wantBlocks pws) ++ D) s')).
  - by rewrite app_nil_r.
  - intros pre w post s' Ek HM. rewrite app_assoc.
    assert (w ∈ wantHaves pws) as Hw.
    { apply elem_of_keys. fold (AuthSet.Keys (wantHaves pws)). rewrite Ek. set_solver. }
    pose proof (inv_disj _ HI _ _ E) as Hd.
    apply remove_have_Mid; [done|exists pws; auto| |].
    + intros (pws' & E' & Hb). simplify_eq. set_solver.
    + pose proof (NoDup_keys (wantHaves pws)) as Hn. fold (AuthSet.Keys (wantHaves pws)) in Hn.
      rewrite Ek in Hn. apply NoDup_app in Hn. rewrite elem_of_app.
      intros [Hk%elem_of_keys|Hk]; set_solver.
Qed.

Lemma Inv_removePeer p s : Inv s → Inv (removePeer p s).
Proof.
  intros HI. destruct (peerWants s !! p) as [pws|] eqn:E; [|unfold removePeer; by rewrite E].
  destruct (removePeer_Mid p s pws HI E) as (s' & HM & ->).
  set (s'' := set_peerWants _ s').
  assert (∀ p' w, indexed s' p' w ↔ sent s p' w ∧ p' ≠ p) as Hix.
  { intros p' w. rewrite (mid_index _ _ _ _ HM). rewrite elem_of_app.
    unfold AuthSet.Keys. rewrite !elem_of_keys. unfold sent. naive_solver. }
  assert (∀ p', peerWants s'' !! p' = if decide (p' = p) then None else peerWants s !! p') as Hp.
  { intros p'. cbn. rewrite (mid_peers _ _ _ _ HM), lookup_delete.
    repeat case_decide; congruence. }
  assert (∀ p' w, sent s'' p' w ↔ sent s p' w ∧ p' ≠ p) as Hs.
  { intros p' w. unfold sent. rewrite Hp. case_decide; naive_solver. }
  split.
  - apply HM.
  - intros p' w. rewrite Hs. apply Hix.
  - intros p' pws'. rewrite Hp. case_decide; [done|]. by apply HI.
  - eapply counts_ext; [apply HM|]. intros w. unfold blockPending. f_equiv. intros p'.
    change (indexed s'' p' w) with (indexed s' p' w). rewrite Hix. unfold sentBlock.
    rewrite Hp, (mid_peers _ _ _ _ HM). case_decide; naive_solver.
  - apply HM.
Qed.

(** ** Sending *)

Lemma sentBlock_sent s p w : sentBlock s p w → sent s p w.
Proof. intros (pws & ? & ?). exists pws. auto. Qed.

Lemma blockPending_alt s w :
  (∀ p w, indexed s p w ↔ sent s p w) → blockPending s w ↔ ∃ p, sentBlock s p w.
Proof.
  intros Hix. unfold blockPending. f_equiv. intros p. rewrite Hix. split; [tauto|].
  eauto using sentBlock_sent.
Qed.

(** Recording the want [w] for the peer [p], whose record becomes [pws']. *)
Definition recordWant p (pws' : peerWant) w (g bg : Z) s : peerWantManager :=
  mkPWM (<[p := pws']> (peerWants s)) (PeerLedger.Wants p w (wantPeers s)) (broadcastWants s) g bg.

Section recordWant.
Context s p (pws pws' : peerWant) w (HI : Inv s) (E : peerWants s !! p = Some pws).
Context (Hpws' : ∀ x, (x ∈ wantBlocks pws' ∨ x ∈ wantHaves pws') ↔
                      (x ∈ wantBlocks pws ∨ x ∈ wantHaves pws) ∨ x = w).
Context (g bg : Z).
Let s' := recordWant p pws' w g bg s.

Lemma recordWant_sent p' x : sent s' p' x ↔ sent s p' x ∨ (p' = p ∧ x = w).
Proof using E Hpws'.
  unfold sent, s'. cbn. setoid_rewrite lookup_insert. case_decide; naive_solver.
Qed.

Lemma recordWant_index p' x : indexed s' p' x ↔ sent s' p' x.
Proof using E Hpws' HI.
  rewrite recordWant_sent. unfold s'. cbn. rewrite PeerLedger.waits_Wants.
  by rewrite (inv_index _ HI).
Qed.

Lemma recordWant_pending x : pending s' x ↔ pending s x ∨ x = w.
Proof using E Hpws' HI.
  unfold pending, s'. cbn. setoid_rewrite PeerLedger.waits_Wants. naive_solver.
Qed.

Lemma recordWant_gauge :
  counts (pending s') (if wanted (wantPeerCounts w s) then wantGauge s else wantGauge s + 1).
Proof using E Hpws' HI.
  apply (counts_raise (pending s) _ _ w).
  - apply HI.
  - apply recordWant_pending. by right.
  - intros x Hx. rewrite recordWant_pending. tauto.
  - apply indexed_wanted_spec. intros p'. apply HI.
Qed.

Lemma recordWant_Inv :
  wantBlocks pws' ## wantHaves pws' → counts (pending s') g → counts (blockPending s') bg → Inv s'.
Proof using E Hpws' HI.
  intros Hdisj Hg Hb. split; [| |  |done|done].
  - apply PeerLedger.wf_Wants, HI.
  - apply recordWant_index.
  - intros p' pws2. unfold s'. cbn. rewrite lookup_insert.
    case_decide; [by intros [= <-]|]. apply HI.
Qed.
End recordWant.

Lemma send_block_new p s flt c pws :
  peerWants s !! p = Some pws → c ∉ wantBlocks pws →
  send_block p (s, flt) c =
    (recordWant p (mkPeerWant ({[c]} ∪ wantBlocks pws) (wantHaves pws ∖ {[c]}) (peerQueue pws)) c
       (if wanted (wantPeerCounts c s) then wantGauge s else wantGauge s + 1)
       (if 0 <? cnt_wantBlock (wantPeerCounts c s) then wantBlockGauge s else wantBlockGauge s + 1) s,
     flt ++ [c]).
Proof.
  intros E Hc. unfold send_block. rewrite E.
  destruct (AuthSet.Has (wantBlocks pws) c) eqn:EH; [by apply AuthSet.set_Has_spec in EH|].
  rewrite reverseIndexAdd_eq.
  pose proof (cnt_wantBlock_pos c s) as H1. pose proof (cnt_wantBlock_zero c s) as H2.
  destruct (0 <? _), (_ =? 0), (wanted _); try done; naive_solver.
Qed.

Lemma send_have_new p s flt c pws :
  peerWants s !! p = Some pws → c ∉ broadcastWants s → c ∉ wantBlocks pws → c ∉ wantHaves pws →
  send_have p (s, flt) c =
    (recordWant p (mkPeerWant (wantBlocks pws) ({[c]} ∪ wantHaves pws) (peerQueue pws)) c
       (if wanted (wantPeerCounts c s) then wantGauge s else wantGauge s + 1)
       (wantBlockGauge s) s,
     flt ++ [c]).
Proof.
  intros E H1%AuthSet.Has_false H2%AuthSet.Has_false H3%AuthSet.Has_false.
  unfold send_have. rewrite E, H1, H2, H3, reverseIndexAdd_eq. by destruct (wanted _).
Qed.

Lemma send_block_Inv p s flt c pws :
  Inv s → peerWants s !! p = Some pws → c ∉ wantBlocks pws → Inv (send_block p (s, flt) c).1.
Proof.
  intros HI E Hc. rewrite (send_block_new _ _ _ _ _ E Hc). cbn [fst].
  assert (∀ x, (x ∈ {[c]} ∪ wantBlocks pws ∨ x ∈ wantHaves pws ∖ {[c]}) ↔
               (x ∈ wantBlocks pws ∨ x ∈ wantHaves pws) ∨ x = c) as Hp.
  { intros x. rewrite elem_of_union, elem_of_difference, elem_of_singleton.
    destruct (decide (x = c)); tauto. }
  pose proof (inv_disj _ HI _ _ E) as Hd.
  eapply recordWant_Inv; [done..|cbn; set_solver|by eapply recordWant_gauge|].
  apply (counts_raise (blockPending s) _ _ c).
  - apply HI.
  - rewrite blockPending_alt by (intros; by eapply recordWant_index).
    exists p. unfold sentBlock. cbn. rewrite lookup_insert_eq. eexists. split; [done|]. cbn. set_solver.
  - intros x Hx. rewrite !blockPending_alt by first [intros; by eapply recordWant_index | apply HI].
    f_equiv. intros p'. unfold sentBlock. cbn. rewrite lookup_insert.
    case_decide as Ep; [|done]. subst p'. rewrite E. split; intros (pws' & [= <-] & Hin);
      eexists; (split; [done|]); cbn in *; set_solver.
  - apply cnt_wantBlock_pos.
Qed.

Lemma send_have_Inv p s flt c pws :
  Inv s → peerWants s !! p = Some pws →
  c ∉ broadcastWants s → c ∉ wantBlocks pws → c ∉ wantHaves pws → Inv (send_have p (s, flt) c).1.
Proof.
  intros HI E H1 H2 H3. rewrite (send_have_new _ _ _ _ _ E H1 H2 H3). cbn [fst].
  assert (∀ x, (x ∈ wantBlocks pws ∨ x ∈ {[c]} ∪ wantHaves pws) ↔
               (x ∈ wantBlocks pws ∨ x ∈ wantHaves pws) ∨ x = c) as Hp.
  { intros x. rewrite elem_of_union, elem_of_singleton. tauto. }
  pose proof (inv_disj _ HI _ _ E) as Hd.
  eapply recordWant_Inv; [done..|cbn; set_solver|by eapply recordWant_gauge|].
  eapply counts_ext; [apply HI|]. intros x.
  rewrite !blockPending_alt by first [intros; by eapply recordWant_index | apply HI].
  f_equiv. intros p'. unfold sentBlock. cbn. rewrite lookup_insert.
  case_decide as Ep; [|done]. subst p'. rewrite E. split; intros (pws' & [= <-] & Hin); eauto.
Qed.

#[local] Instance peerWant_eq_dec : EqDecision peerWant.
Proof. solve_decision. Defined.

Abbreviation wset := (list_to_set (C := gset Want)).

(** The loop over the want-blocks. *)
Record BlocksSent s p (pws : peerWant) (done : list Want) (acc : peerWantManager * list Want) : Prop := {
  bs_Inv : Inv acc.1;
  bs_peers : peerWants acc.1 =
    <[p := mkPeerWant (wantBlocks pws ∪ wset done) (wantHaves pws ∖ wset done) (peerQueue pws)]>
      (peerWants s);
  bs_bcast : broadcastWants acc.1 = broadcastWants s;
  bs_NoDup : NoDup acc.2;
  bs_flt : ∀ x, x ∈ acc.2 ↔ x ∈ done ∧ x ∉ wantBlocks pws;
}.

Lemma send_blocks_spec s p pws blks :
  Inv s → peerWants s !! p = Some pws →
  BlocksSent s p pws blks (foldl (send_block p) (s, []) blks).
Proof.
  intros HI E. apply foldl_inv.
  - split; cbn; [done| |done|constructor|set_solver].
    rewrite insert_id; [done|]. rewrite E. f_equal. destruct pws; cbn. f_equal; set_solver.
  - intros pre c post [s' flt] _ [H1 H2 H3 H4 H5]. cbn [fst snd] in *.
    pose proof (inv_disj _ HI _ _ E) as Hd.
    assert (peerWants s' !! p = Some
      (mkPeerWant (wantBlocks pws ∪ wset pre) (wantHaves pws ∖ wset pre) (peerQueue pws))) as E'
      by (rewrite H2; apply lookup_insert_eq).
    destruct (decide (c ∈ wantBlocks pws ∪ wset pre)) as [Hc|Hc].
    + unfold send_block. rewrite E'. cbn. rewrite (proj2 (AuthSet.set_Has_spec _ _) Hc).
      split; cbn; [done| |done|done|].
      * rewrite H2. f_equal. rewrite list_to_set_app_L. cbn. f_equal; set_solver.
      * intros x. rewrite H5, elem_of_snoc. set_solver.
    + rewrite (send_block_new _ _ _ _ _ E' Hc). split; cbn.
      * pose proof (send_block_Inv p s' flt c _ H1 E' Hc) as HI'.
        by rewrite (send_block_new _ _ _ _ _ E' Hc) in HI'.
      * rewrite H2, insert_insert_eq. f_equal. rewrite list_to_set_app_L. cbn. f_equal; set_solver.
      * done.
      * apply NoDup_app. split; [done|]. split; [|apply NoDup_singleton].
        intros x. rewrite H5, list_elem_of_singleton. set_solver.
      * intros x. rewrite !elem_of_snoc, H5. set_solver.
Qed.

(** The loop over the want-haves. *)
Record HavesSent s p (pws : peerWant) (done : list Want) (acc : peerWantManager * list Want) : Prop := {
  hs_Inv : Inv acc.1;
  hs_peers : peerWants acc.1 =
    <[p := mkPeerWant (wantBlocks pws) (wantHaves pws ∪ wset acc.2) (peerQueue pws)]> (peerWants s);
  hs_bcast : broadcastWants acc.1 = broadcastWants s;
  hs_NoDup : NoDup acc.2;
  hs_flt : ∀ x, x ∈ acc.2 ↔
    x ∈ done ∧ x ∉ broadcastWants s ∧ x ∉ wantBlocks pws ∧ x ∉ wantHaves pws;
}.

Lemma send_haves_spec s p pws haves :
  Inv s → peerWants s !! p = Some pws →
  HavesSent s p pws haves (foldl (send_have p) (s, []) haves).
Proof.
  intros HI E. apply foldl_inv.
  - split; cbn; [done| |done|constructor|set_solver].
    rewrite insert_id; [done|]. rewrite E. f_equal. destruct pws; cbn. f_equal; set_solver.
  - intros pre c post [s' flt] _ [H1 H2 H3 H4 H5]. cbn [fst snd] in *.
    assert (peerWants s' !! p = Some
      (mkPeerWant (wantBlocks pws) (wantHaves pws ∪ wset flt) (peerQueue pws))) as E'
      by (rewrite H2; apply lookup_insert_eq).
    destruct (decide (c ∉ broadcastWants s' ∧ c ∉ wantBlocks pws ∧ c ∉ wantHaves pws ∪ wset flt))
      as [(C1 & C2 & C3)|Hc].
    + rewrite (send_have_new _ _ _ _ _ E' C1 C2 C3). split; cbn.
      * pose proof (send_have_Inv p s' flt c _ H1 E' C1 C2 C3) as HI'.
        by rewrite (send_have_new _ _ _ _ _ E' C1 C2 C3) in HI'.
      * rewrite H2, insert_insert_eq. f_equal. rewrite list_to_set_app_L. cbn. f_equal; set_solver.
      * done.
      * apply NoDup_app. split; [done|]. split; [|apply NoDup_singleton].
        intros x. rewrite list_elem_of_singleton. set_solver.
      * intros x. rewrite !elem_of_snoc, H5. rewrite H3 in C1. set_solver.
    + assert (send_have p (s', flt) c = (s', flt)) as ->.
      { unfold send_have. rewrite E'. cbn.
        destruct (AuthSet.Has (broadcastWants s') c) eqn:B1; [done|].
        destruct (AuthSet.Has (wantBlocks pws) c) eqn:B2; [done|].
        destruct (AuthSet.Has (wantHaves pws ∪ wset flt) c) eqn:B3; [done|].
        apply AuthSet.Has_false in B1, B2, B3. tauto. }
      split; cbn; [done..|]. intros x. rewrite H5, elem_of_snoc. rewrite <- H3 in *.
      split; [tauto|]. intros ([Hx| ->] & Hr); [tauto|]. apply dec_stable. intros Hn.
      apply Hc. rewrite elem_of_union, elem_of_list_to_set, H5. tauto.
Qed.

Lemma sendWants_spec p blks haves s pws :
  Inv s → peerWants s !! p = Some pws →
  ∃ s' fb fh,
    sendWants p blks haves s = (s', [QWants (peerQueue pws) fb fh]) ∧ Inv s' ∧
    broadcastWants s' = broadcastWants s ∧
    peerWants s' = <[p := mkPeerWant (wantBlocks pws ∪ wset blks)
                            ((wantHaves pws ∖ wset blks) ∪ wset fh) (peerQueue pws)]> (peerWants s) ∧
    NoDup fb ∧ NoDup fh ∧
    (∀ x, x ∈ fb ↔ x ∈ blks ∧ x ∉ wantBlocks pws) ∧
    (∀ x, x ∈ fh ↔ x ∈ haves ∧ x ∉ broadcastWants s ∧ x ∉ wantBlocks pws ∧ x ∉ wantHaves pws ∧ x ∉ blks).
Proof.
  intros HI E. unfold sendWants. rewrite E.
  pose proof (send_blocks_spec s p pws blks HI E) as [B1 B2 B3 B4 B5].
  destruct (foldl (send_block p) (s, []) blks) as [s1 fb]. cbn in *.
  assert (peerWants s1 !! p = Some (mkPeerWant (wantBlocks pws ∪ wset blks)
    (wantHaves pws ∖ wset blks) (peerQueue pws))) as E1 by (rewrite B2; apply lookup_insert_eq).
  pose proof (send_haves_spec s1 p _ haves B1 E1) as [C1 C2 C3 C4 C5].
  destruct (foldl (send_have p) (s1, []) haves) as [s2 fh]. cbn in *.
  exists s2, fb, fh. split_and!; try done; [congruence| |].
  - rewrite C2, B2. by rewrite insert_insert_eq.
  - intros x. rewrite C5, B3, elem_of_difference, elem_of_union, elem_of_list_to_set.
    destruct (decide (x ∈ blks)); tauto.
Qed.

(** ** Broadcasting *)

Record Broadcast s (done : list Want) (acc : peerWantManager * list Want) : Prop := {
  bc_Inv : Inv acc.1;
  bc_peers : peerWants acc.1 = peerWants s;
  bc_index : wantPeers acc.1 = wantPeers s;
  bc_bcast : broadcastWants acc.1 = broadcastWants s ∪ wset done;
  bc_NoDup : NoDup acc.2;
  bc_unsent : ∀ x, x ∈ acc.2 ↔ x ∈ done ∧ x ∉ broadcastWants s;
}.

Lemma add_broadcast_Inv s unsent w :
  Inv s → w ∉ broadcastWants s → Inv (add_broadcast (s, unsent) w).1.
Proof.
  intros [H1 H2 H3 H4 H5] Hw. unfold add_broadcast.
  rewrite (proj2 (AuthSet.Has_false _ _) Hw). cbn.
  pose proof (PeerLedger.wf_lookup _ w H1) as Hl.
  set (s1 := set_broadcast _ s).
  assert (∀ x, pending s1 x ↔ pending s x ∨ x = w) as Hp.
  { intros x. unfold pending, s1. cbn. unfold AuthSet.Add. set_solver. }
  destruct (wantPeers s !! w) as [m|] eqn:E; (split; [done..|]); cbn.
  - eapply counts_ext; [done|]. intros x. rewrite Hp. split; [|tauto].
    intros [?| ->]; [done|]. right. apply Hl. eauto.
  - apply (counts_add (pending s) _ _ w); [done| |done].
    intros [?|Hx%Hl]; [done|]. by destruct Hx.
Qed.

Lemma add_broadcasts_spec s whs : Inv s → Broadcast s whs (foldl add_broadcast (s, []) whs).
Proof.
  intros HI. apply foldl_inv.
  - split; cbn; [done..| |constructor|]; set_solver.
  - intros pre w post [s' unsent] _ [H1 H2 H3 H4 H5 H6]. cbn [fst snd] in *.
    pose proof (add_broadcast_Inv s' unsent w H1) as HI'.
    revert HI'. unfold add_broadcast.
    destruct (AuthSet.Has (broadcastWants s') w) eqn:E; intros HI'.
    + apply AuthSet.set_Has_spec in E. split; cbn; [done..| |done|].
      * rewrite H4 in *. rewrite list_to_set_app_L. set_solver.
      * intros x. rewrite H6, elem_of_snoc. set_solver.
    + apply AuthSet.Has_false in E. split; cbn [fst snd].
      * by apply HI'.
      * cbn. by destruct (wantPeers s' !! w).
      * cbn. by destruct (wantPeers s' !! w).
      * rewrite list_to_set_app_L.
        transitivity (AuthSet.Add w (broadcastWants s')); [cbn; by destruct (wantPeers s' !! w)|].
        rewrite H4. unfold AuthSet.Add. cbn. set_solver.
      * apply NoDup_app. split; [done|]. split; [|apply NoDup_singleton].
        intros x. rewrite H6, list_elem_of_singleton. set_solver.
      * intros x. rewrite !elem_of_snoc, H6. set_solver.
Qed.

Lemma broadcastWantHaves_spec whs s :
  Inv s →
  ∃ s' unsent calls,
    broadcastWantHaves whs s = (s', calls) ∧ Inv s' ∧
    peerWants s' = peerWants s ∧ broadcastWants s' = broadcastWants s ∪ wset whs ∧
    (∀ x, x ∈ unsent ↔ x ∈ whs ∧ x ∉ broadcastWants s) ∧
    calls = omap (λ y, let ws := peer_unsent unsent y.2 in
                       if 0 <? len ws then Some (QBroadcast (peerQueue y.2) ws) else None)
                 (range (peerWants s)).
Proof.
  intros HI. unfold broadcastWantHaves.
  pose proof (add_broadcasts_spec s whs HI) as [H1 H2 H3 H4 H5 H6].
  destruct (foldl add_broadcast (s, []) whs) as [s' unsent]. cbn [fst snd] in *.
  destruct (len unsent =? 0) eqn:E.
  - assert (unsent = []) as -> by by apply len_eqb_nil.
    eexists _, [], _. split_and!; try done.
    generalize (range (peerWants s)) as l. intros l. by induction l.
  - exists s', unsent. rewrite H2. eauto 10.
Qed.

(** ** Cancelling *)

(** A peer's record without the cancelled wants, and the cancels for it. *)
Definition strip (ks : list Want) (pws : peerWant) : peerWant :=
  mkPeerWant (wantBlocks pws ∖ wset ks) (wantHaves pws ∖ wset ks) (peerQueue pws).

Definition was_sent (pws : peerWant) w : bool :=
  AuthSet.Has (wantBlocks pws) w || AuthSet.Has (wantHaves pws) w.

Definition cancels_for (bcast : gset Want) (ks : list Want) (pws : peerWant) : list Want :=
  filter (λ w, AuthSet.Has bcast w) ks ++
  filter (λ w, was_sent pws w && negb (AuthSet.Has bcast w)) ks.

Lemma was_sent_spec pws w : was_sent pws w = true ↔ w ∈ wantBlocks pws ∨ w ∈ wantHaves pws.
Proof. unfold was_sent. by rewrite orb_true_iff, !AuthSet.set_Has_spec. Qed.

Lemma elem_of_cancels_for bcast ks pws w :
  w ∈ cancels_for bcast ks pws ↔
  w ∈ ks ∧ (w ∈ bcast ∨ w ∈ wantBlocks pws ∨ w ∈ wantHaves pws).
Proof.
  unfold cancels_for. rewrite elem_of_app, !list_elem_of_filter, !Is_true_true.
  rewrite andb_true_iff, negb_true_iff, was_sent_spec, AuthSet.set_Has_spec, AuthSet.Has_false.
  destruct (decide (w ∈ bcast)); tauto.
Qed.

Lemma cancel_keys_spec bcast ks pws acc :
  NoDup ks →
  foldl (cancel_key bcast) (pws, acc) ks =
    (strip ks pws, acc ++ filter (λ w, was_sent pws w && negb (AuthSet.Has bcast w)) ks).
Proof.
  intros Hn. revert pws acc. induction Hn as [|c ks Hc Hn IH]; intros pws acc.
  - cbn. rewrite app_nil_r. f_equal. destruct pws. unfold strip. cbn. f_equal; set_solver.
  - cbn [foldl]. unfold cancel_key at 2. rewrite <- negb_orb. fold (was_sent pws c).
    rewrite filter_cons. destruct (was_sent pws c) eqn:E; cbn [negb andb].
    + rewrite IH. f_equal.
      * unfold strip. cbn. unfold AuthSet.Remove. f_equal; set_solver.
      * set (pws' := mkPeerWant _ _ _).
        rewrite (filter_ext_in _ (λ w, was_sent pws w && negb (AuthSet.Has bcast w)) ks).
        -- destruct (AuthSet.Has bcast c); cbn; [done|]. by rewrite <- app_assoc.
        -- intros w Hw. rewrite !Is_true_true, !andb_true_iff, !was_sent_spec.
           cbn. unfold AuthSet.Remove. set_solver.
    + rewrite IH. cbn. f_equal. unfold strip. f_equal.
      all: assert (¬ was_sent pws c = true) as E' by congruence; rewrite was_sent_spec in E'; set_solver.
Qed.

Definition call_for s (ks : list Want) p : option qcall :=
  pws ← peerWants s !! p;
  let toCancel := cancels_for (broadcastWants s) ks pws in
  if 0 <? len toCancel then Some (QCancels (peerQueue pws) toCancel) else None.

(** After the closure [send] ran for the peers [done]. *)
Definition Cancelled s ks (done : list PeerID) (r : peerWantManager * list qcall) : Prop :=
  (∃ m, r.1 = set_peerWants m s) ∧
  (∀ p, peerWants r.1 !! p = if decide (p ∈ done) then strip ks <$> peerWants s !! p
                             else peerWants s !! p) ∧
  r.2 = omap (call_for s ks) done.

Lemma cancel_sends_spec s ks ps :
  NoDup ks → NoDup ps →
  Cancelled s ks ps
    (foldl (cancel_send ks (filter (λ w, AuthSet.Has (broadcastWants s) w) ks)) (s, []) ps).
Proof.
  intros Hks Hps. apply foldl_inv.
  - split; [exists (peerWants s); by destruct s|]. split; [|done].
    intros p. by rewrite decide_False by set_solver.
  - intros pre p post [s' calls] -> ((m & Em) & Hm & Hc). cbn [fst snd] in *.
    apply NoDup_app in Hps as (_ & Hd & _).
    assert (p ∉ pre) as Hp by set_solver.
    unfold cancel_send. rewrite Hm, decide_False by done.
    unfold Cancelled. rewrite omap_app. cbn [omap list_omap]. unfold call_for at 2.
    destruct (peerWants s !! p) as [pws|] eqn:E; cbn [mbind option_bind].
    + assert (broadcastWants s' = broadcastWants s) as -> by by rewrite Em.
      rewrite cancel_keys_spec by done. fold (cancels_for (broadcastWants s) ks pws).
      cbn [fst snd]. split; [exists (<[p := strip ks pws]> (peerWants s')); by rewrite Em|]. split.
      * intros p'. cbn. rewrite lookup_insert, Hm.
        destruct (decide (p = p')) as [->|].
        -- rewrite decide_True by set_solver. by rewrite E.
        -- by erewrite (decide_ext (p' ∈ pre) (p' ∈ pre ++ [p])) by set_solver.
      * rewrite Hc. destruct (0 <? _); [done|]. by rewrite app_nil_r.
    + split; [eauto|]. split; [|by rewrite app_nil_r].
      intros p'. cbn. rewrite Hm. destruct (decide (p = p')) as [->|].
      * rewrite E, decide_False by done. by case_decide.
      * by erewrite (decide_ext (p' ∈ pre) (p' ∈ pre ++ [p])) by set_solver.
Qed.

Definition peer_counts s (ks : list Want) : gmap Want wantPeerCnts :=
  foldl (λ m c, <[c := wantPeerCounts c s]> m) ∅ ks.

Lemma lookup_peer_counts s ks c : c ∈ ks → peer_counts s ks !! c = Some (wantPeerCounts c s).
Proof.
  intros Hc. unfold peer_counts. rewrite (lookup_foldl_insert (λ c, c) (λ c, wantPeerCounts c s)).
  destruct (last _) as [x|] eqn:E.
  - apply last_Some_elem_of, list_elem_of_filter in E as [-> _]. done.
  - apply last_None, filter_nil_iff with (x := c) in E; done.
Qed.

Definition dec_gauges (pc : gmap Want wantPeerCnts) s c : peerWantManager :=
  let cnts := default (mkCnts 0 0 false) (pc !! c) in
  let s := if 0 <? cnt_wantBlock cnts then block_gauge_add (-1) s else s in
  if wanted cnts then gauge_add (-1) s else s.

Lemma dec_gauges_spec s0 s ks :
  Inv s0 → NoDup ks →
  wantGauge s = wantGauge s0 → wantBlockGauge s = wantBlockGauge s0 →
  let s' := foldl (dec_gauges (peer_counts s0 ks)) s ks in
  peerWants s' = peerWants s ∧ wantPeers s' = wantPeers s ∧ broadcastWants s' = broadcastWants s ∧
  counts (λ w, blockPending s0 w ∧ w ∉ ks) (wantBlockGauge s') ∧
  counts (λ w, pending s0 w ∧ w ∉ ks) (wantGauge s').
Proof.
  intros HI Hn E1 E2. cbn zeta.
  apply (foldl_inv (λ done s',
    peerWants s' = peerWants s ∧ wantPeers s' = wantPeers s ∧ broadcastWants s' = broadcastWants s ∧
    counts (λ w, blockPending s0 w ∧ w ∉ done) (wantBlockGauge s') ∧
    counts (λ w, pending s0 w ∧ w ∉ done) (wantGauge s'))).
  - split_and!; [done..| |].
    + rewrite E2. eapply counts_ext; [apply HI|]. intros w. cbn. set_solver.
    + rewrite E1. eapply counts_ext; [apply HI|]. intros w. cbn. set_solver.
  - intros pre c post s' Eks (H1 & H2 & H3 & H4 & H5).
    assert (c ∉ pre) as Hc by (rewrite Eks in Hn; apply NoDup_app in Hn; set_solver).
    assert (dec_gauges (peer_counts s0 ks) s' c =
      mkPWM (peerWants s') (wantPeers s') (broadcastWants s')
        (if negb (wanted (wantPeerCounts c s0)) then wantGauge s' else wantGauge s' + -1)
        (if negb (0 <? cnt_wantBlock (wantPeerCounts c s0)) then wantBlockGauge s'
         else wantBlockGauge s' + -1)) as ->.
    { unfold dec_gauges. rewrite lookup_peer_counts by (rewrite Eks; set_solver). cbn [default].
      unfold id. destruct s'. by destruct (0 <? _), (wanted _). }
    split_and!; [done..| |]; cbn.
    + pose proof (cnt_wantBlock_pos c s0) as Hp. destruct (0 <? _); cbn.
      * eapply (counts_del _ _ _ c); [apply H4|naive_solver|].
        intros w. cbn. rewrite elem_of_snoc. naive_solver.
      * eapply counts_ext; [apply H4|]. intros w. cbn. rewrite elem_of_snoc. naive_solver.
    + pose proof (indexed_wanted_spec c s0 (λ p, proj1 (inv_index _ HI p c))) as Hp.
      destruct (wanted _); cbn.
      * eapply (counts_del _ _ _ c); [apply H5|naive_solver|].
        intros w. cbn. rewrite elem_of_snoc. naive_solver.
      * eapply counts_ext; [apply H5|]. intros w. cbn. rewrite elem_of_snoc. naive_solver.
Qed.

Lemma drop_broadcasts s ks :
  foldl (λ s c, set_broadcast (AuthSet.Remove c (broadcastWants s)) s) s ks =
    set_broadcast (broadcastWants s ∖ wset ks) s.
Proof.
  revert s. induction ks as [|c ks IH]; intros s; cbn [foldl].
  - destruct s; cbn. unfold set_broadcast. cbn. f_equal. set_solver.
  - rewrite IH. unfold set_broadcast, AuthSet.Remove. cbn. f_equal. set_solver.
Qed.

Lemma drop_index s ks :
  foldl (λ s c, set_wantPeers (delete c (wantPeers s)) s) s ks =
    set_wantPeers (foldl (λ m c, delete c m) (wantPeers s) ks) s.
Proof.
  revert s. induction ks as [|c ks IH]; intros s; cbn [foldl]; [by destruct s|]. by rewrite IH.
Qed.

(** The peers [sendCancels] visits: all of them, or those in the index. *)
Definition cancel_targets s (ks : list Want) : list PeerID :=
  if 0 <? len (filter (λ w, AuthSet.Has (broadcastWants s) w) ks) then (range (peerWants s)).*1
  else keys (foldl (λ ps c, default ∅ (wantPeers s !! c) ∪ ps) (∅ : gset PeerID) ks).

Lemma elem_of_index_union s ks p :
  p ∈ foldl (λ ps c, default ∅ (wantPeers s !! c) ∪ ps) (∅ : gset PeerID) ks ↔
  ∃ c, c ∈ ks ∧ indexed s p c.
Proof.
  induction ks as [|c ks IH] using rev_ind; cbn; [set_solver|].
  rewrite foldl_app. cbn. rewrite elem_of_union, IH. setoid_rewrite elem_of_snoc.
  rewrite <- (elem_of_keys (default ∅ _)), elem_of_index. naive_solver.
Qed.

Lemma cancel_targets_NoDup s ks : NoDup (cancel_targets s ks).
Proof. unfold cancel_targets. case_match; [apply NoDup_range_keys|apply NoDup_keys]. Qed.

(** A peer that is not visited has nothing to cancel. *)
Lemma cancel_targets_skip s ks p pws :
  Inv s → p ∉ cancel_targets s ks → peerWants s !! p = Some pws →
  strip ks pws = pws ∧ cancels_for (broadcastWants s) ks pws = [].
Proof.
  intros HI Hp E. unfold cancel_targets in Hp. destruct (0 <? len _) eqn:Hl.
  { destruct Hp. apply list_elem_of_fmap. exists (p, pws). by rewrite elem_of_range. }
  assert (filter (λ w, AuthSet.Has (broadcastWants s) w) ks = []) as Hb.
  { apply dec_stable. intros ?%len_pos. congruence. }
  rewrite elem_of_keys, elem_of_index_union in Hp.
  assert (∀ c, c ∈ ks → c ∉ wantBlocks pws ∧ c ∉ wantHaves pws) as Hk.
  { intros c Hc. split; intros Hw; apply Hp; exists c; (split; [done|]); apply HI; exists pws; auto. }
  split.
  - unfold strip. destruct pws as [B H q]. cbn in *. f_equal; set_solver.
  - apply elem_of_nil_inv. intros w [Hw Hin]%elem_of_cancels_for.
    destruct (Hk w Hw). destruct Hin as [Hin|[?|?]]; [|done..].
    assert (w ∈ filter (λ w, AuthSet.Has (broadcastWants s) w) ks) as Hf
      by (apply list_elem_of_filter; rewrite Is_true_true, AuthSet.set_Has_spec; done).
    rewrite Hb in Hf. by apply elem_of_nil in Hf.
Qed.

Lemma sendCancels_state ks s :
  Inv s → NoDup ks → ks ≠ [] →
  ∃ s',
    sendCancels ks s = (s', omap (call_for s ks) (cancel_targets s ks)) ∧
    (∀ p, peerWants s' !! p = strip ks <$> peerWants s !! p) ∧
    broadcastWants s' = broadcastWants s ∖ wset ks ∧
    (∀ c, wantPeers s' !! c = if decide (c ∈ ks) then None else wantPeers s !! c) ∧
    counts (λ w, blockPending s w ∧ w ∉ ks) (wantBlockGauge s') ∧
    counts (λ w, pending s w ∧ w ∉ ks) (wantGauge s').
Proof.
  intros HI Hn Hne. unfold sendCancels.
  destruct (len ks =? 0) eqn:El; [by apply len_eqb_nil in El|].
  fold (peer_counts s ks). set (bc := filter _ ks).
  match goal with |- context [let '(_, _) := ?X in _] =>
    assert (X = foldl (cancel_send ks bc) (s, []) (cancel_targets s ks)) as ->
      by (unfold cancel_targets; fold bc; by destruct (0 <? len bc)) end.
  pose proof (cancel_sends_spec s ks _ Hn (cancel_targets_NoDup s ks)) as ((m & Em) & Hm & Hc).
  fold bc in Em, Hm, Hc. destruct (foldl _ _ _) as [s1 calls]. cbn [fst snd] in *. subst calls.
  match goal with |- context [foldl ?f s1 ks] => change f with (dec_gauges (peer_counts s ks)) end.
  pose proof (dec_gauges_spec s s1 ks HI Hn) as (G1 & G2 & G3 & G4 & G5);
    [by rewrite Em..|].
  rewrite drop_broadcasts, drop_index. cbn [wantPeers set_broadcast].
  eexists. split; [done|]. cbn. split_and!; [| | |done|done].
  - intros p. rewrite G1, Hm. case_decide as Hp; [done|].
    destruct (peerWants s !! p) as [pws|] eqn:E; [|done]. cbn. f_equal. symmetry.
    by eapply cancel_targets_skip.
  - rewrite G3, Em. cbn. apply set_eq. intros x. rewrite !elem_of_difference, !elem_of_list_to_set.
    unfold bc. rewrite list_elem_of_filter, Is_true_true, AuthSet.set_Has_spec. tauto.
  - intros c. rewrite (lookup_foldl_delete (λ c, c)), list_fmap_id, G2, Em. done.
Qed.

Lemma strip_nil pws : strip [] pws = pws.
Proof. destruct pws. unfold strip. cbn. f_equal; set_solver. Qed.

Lemma sendCancels_spec ks s :
  Inv s → NoDup ks →
  ∃ s' ps,
    sendCancels ks s = (s', omap (call_for s ks) ps) ∧ Inv s' ∧
    (∀ p, peerWants s' !! p = strip ks <$> peerWants s !! p) ∧
    broadcastWants s' = broadcastWants s ∖ wset ks ∧
    NoDup ps ∧ (∀ p, p ∉ ps → call_for s ks p = None).
Proof.
  intros HI Hn. destruct (decide (ks = [])) as [->|Hne].
  { exists s, []. split_and!; try done.
    - intros p. destruct (peerWants s !! p); [|done]. cbn. by rewrite strip_nil.
    - set_solver.
    - constructor.
    - intros p _. unfold call_for. by destruct (peerWants s !! p). }
  destruct (sendCancels_state ks s HI Hn Hne) as (s' & E & Hp & Hb & Hw & G1 & G2).
  exists s', (cancel_targets s ks).
  assert (∀ p w, sent s' p w ↔ sent s p w ∧ w ∉ ks) as Hs.
  { intros p w. unfold sent. rewrite Hp. destruct (peerWants s !! p) as [pws|]; cbn; [|naive_solver].
    split; [intros (? & [= <-] & H); cbn in H|intros ((? & [= <-] & H) & Hn')];
      [split; [exists pws|]|eexists; split; [done|]; cbn]; set_solver. }
  assert (∀ p w, sentBlock s' p w ↔ sentBlock s p w ∧ w ∉ ks) as Hsb.
  { intros p w. unfold sentBlock. rewrite Hp. destruct (peerWants s !! p) as [pws|]; cbn; [|naive_solver].
    split; [intros (? & [= <-] & H); cbn in H|intros ((? & [= <-] & H) & Hn')];
      [split; [exists pws|]|eexists; split; [done|]; cbn]; set_solver. }
  assert (∀ p w, indexed s' p w ↔ indexed s p w ∧ w ∉ ks) as Hix.
  { intros p w. unfold PeerLedger.waits. rewrite Hw. case_decide; naive_solver. }
  split_and!; [done| |done|done|apply cancel_targets_NoDup|].
  - split.
    + intros c m. rewrite Hw. case_decide; [done|]. apply HI.
    + intros p w. rewrite Hix, Hs. by rewrite (inv_index _ HI).
    + intros p pws'. rewrite Hp. destruct (peerWants s !! p) as [pws|] eqn:Ep; [|done].
      cbn. intros [= <-]. pose proof (inv_disj _ HI _ _ Ep). cbn. set_solver.
    + eapply counts_ext; [apply G1|]. intros w. unfold blockPending.
      setoid_rewrite Hix. setoid_rewrite Hsb. naive_solver.
    + eapply counts_ext; [apply G2|]. intros w. unfold pending. setoid_rewrite Hix.
      rewrite Hb, elem_of_difference, elem_of_list_to_set. naive_solver.
  - intros p Hnp. unfold call_for. destruct (peerWants s !! p) as [pws|] eqn:Ep; [|done]. cbn.
    destruct (cancel_targets_skip s ks p pws HI Hnp Ep) as [_ ->]. done.
Qed.

(** ** What the message queues are told

    [outstanding q] replays a call on the set of wants the queue [q] has been
    asked for and not been told to cancel. *)
Definition outstanding (q : qref) (ws : gset Want) (c : qcall) : gset Want :=
  match c with
  | QBroadcast q' l => if decide (q' = q) then ws ∪ wset l else ws
  | QWants q' bs hs => if decide (q' = q) then ws ∪ wset bs ∪ wset hs else ws
  | QCancels q' l => if decide (q' = q) then ws ∖ wset l else ws
  end.
Definition replay (q : qref) (tr : list qcall) : gset Want := foldl (outstanding q) ∅ tr.

Definition queue_of (c : qcall) : qref :=
  match c with QBroadcast q _ | QWants q _ _ | QCancels q _ => q end.

Lemma outstanding_other q ws c : queue_of c ≠ q → outstanding q ws c = ws.
Proof. destruct c; cbn; intros; by rewrite decide_False. Qed.

(** Only the calls on the queue itself matter. *)
Lemma replay_filter q (tr : list qcall) : replay q (filter (λ c, queue_of c = q) tr) = replay q tr.
Proof.
  unfold replay. generalize (∅ : gset Want) as ws. induction tr as [|c tr IH]; intros ws; [done|].
  rewrite filter_cons. cbn [foldl]. case_decide as E; cbn [foldl]; [apply IH|].
  by rewrite outstanding_other.
Qed.

(** A loop that calls at most one queue per peer changes what [q] was told once,
    if [q] belongs to one peer. *)
Lemma replay_loop `{EqDecision A} (g : A → option qcall) (l : list A) q ws x :
  NoDup l →
  (∀ y c, y ∈ l → y ≠ x → g y = Some c → queue_of c ≠ q) →
  (x ∉ l → g x = None) →
  foldl (outstanding q) ws (omap g l) = from_option (outstanding q ws) ws (g x).
Proof.
  intros Hn. revert ws. induction Hn as [|y l Hy Hn IH]; intros ws Hq Hx.
  { rewrite Hx by set_solver. done. }
  cbn [omap list_omap].
  destruct (g y) as [c|] eqn:Ey; destruct (decide (y = x)) as [->|Hne].
  - cbn [foldl]. rewrite Ey. cbn.
    assert (∀ l' ws, (∀ y c, y ∈ l' → g y = Some c → queue_of c ≠ q) →
              foldl (outstanding q) ws (omap g l') = ws) as Hid.
    { clear -GO. induction l' as [|z l' IH]; intros ws' Hz; [done|]. cbn.
      destruct (g z) as [c|] eqn:Ez; cbn.
      - rewrite outstanding_other by (eapply Hz; [left|done]). apply IH. intros; eapply Hz; [by right|done].
      - apply IH. intros; eapply Hz; [by right|done]. }
    apply Hid. intros z c' Hz Hc. eapply Hq; [by right| |done]. set_solver.
  - cbn [foldl]. rewrite outstanding_other by (eapply Hq; [left| |]; done).
    apply IH; [intros; eapply Hq; [by right|done..]|set_solver].
  - rewrite IH; [by rewrite Ey|intros; eapply Hq; [by right|done..]|done].
  - apply IH; [intros; eapply Hq; [by right|done..]|set_solver].
Qed.

(** ** Runs of the manager *)

Inductive op :=
| AddPeer (q : qref) (p : PeerID)
| RemovePeer (p : PeerID)
| BroadcastWantHaves (ws : list Want)
| SendWants (p : PeerID) (wantBlocks wantHaves : list Want)
| SendCancels (ws : list Want).

Definition run_op (o : op) s : peerWantManager * list qcall :=
  match o with
  | AddPeer q p => addPeer q p s
  | RemovePeer p => (removePeer p s, [])
  | BroadcastWantHaves ws => broadcastWantHaves ws s
  | SendWants p bs hs => sendWants p bs hs s
  | SendCancels ws => sendCancels ws s
  end.

(** A new peer comes with a new message queue, and the keys of one cancel are
    distinct. *)
Definition op_ok (o : op) s (tr : list qcall) : Prop :=
  match o with
  | AddPeer q p => peerWants s !! p = None →
                   (∀ c, c ∈ tr → queue_of c ≠ q) ∧
                   (∀ p' pws, peerWants s !! p' = Some pws → peerQueue pws ≠ q)
  | SendCancels ws => NoDup ws
  | _ => True
  end.

Inductive step : relation (peerWantManager * list qcall) :=
| step_op o s tr : op_ok o s tr → step (s, tr) ((run_op o s).1, tr ++ (run_op o s).2).

(** The queue of every peer was told exactly what the manager records. *)
Record Delivered (tr : list qcall) s : Prop := {
  del_inj : ∀ p1 p2 pws1 pws2, peerWants s !! p1 = Some pws1 → peerWants s !! p2 = Some pws2 →
    peerQueue pws1 = peerQueue pws2 → p1 = p2;
  del_replay : ∀ p pws, peerWants s !! p = Some pws →
    replay (peerQueue pws) tr = wantBlocks pws ∪ wantHaves pws ∪ broadcastWants s;
}.

Lemma Inv_run_op o s tr : op_ok o s tr → Inv s → Inv (run_op o s).1.
Proof.
  destruct o; cbn; intros Ho HI.
  - by apply Inv_addPeer.
  - by apply Inv_removePeer.
  - destruct (broadcastWantHaves_spec ws s HI) as (? & ? & ? & -> & ? & _). done.
  - destruct (peerWants s !! p) as [pws|] eqn:E.
    + destruct (sendWants_spec p wantBlocks0 wantHaves0 s pws HI E) as (? & ? & ? & -> & ? & _). done.
    + unfold sendWants. by rewrite E.
  - destruct (sendCancels_spec ws s HI Ho) as (? & ? & -> & ? & _). done.
Qed.

Lemma Delivered_addPeer q p s tr :
  op_ok (AddPeer q p) s tr → Delivered tr s → Delivered (tr ++ (addPeer q p s).2) (addPeer q p s).1.
Proof.
  intros Hok [Hinj Hrep]. unfold addPeer. cbn in Hok.
  destruct (peerWants s !! p) as [pws|] eqn:E; cbn [fst snd]; [rewrite app_nil_r; by split|].
  destruct Hok as [Hq Hu]; [done|].
  set (calls := if 0 <? _ then _ else _). split; cbn.
  - intros p1 p2 pws1 pws2. rewrite !lookup_insert.
    repeat case_decide; naive_solver.
  - intros p' pws'. rewrite lookup_insert. unfold replay. rewrite foldl_app.
    case_decide as Ep.
    + intros [= <-]. cbn.
      assert (foldl (outstanding q) ∅ tr = ∅) as ->.
      { apply (foldl_inv_simple (λ ws, ws = ∅)); [done|]. intros ws c Hc ->.
        apply outstanding_other. auto. }
      unfold calls, AuthSet.NewSet, AuthSet.Len. destruct (0 <? _) eqn:El; cbn.
      * rewrite decide_True by done. apply set_eq. intros x.
        rewrite !elem_of_union, elem_of_list_to_set. unfold AuthSet.Keys. rewrite elem_of_keys. tauto.
      * assert (broadcastWants s = ∅) as ->; [|set_solver].
        unfold AuthSet.Len in El. cbn in El. apply leibniz_equiv, size_empty_inv. lia.
    + intros E'. fold (replay (peerQueue pws') tr). rewrite (Hrep _ _ E').
      unfold calls. destruct (0 <? _); cbn; [|done].
      rewrite decide_False; [done|]. intros ->. by eapply Hu.
Qed.

Lemma Delivered_removePeer p s tr : Inv s → Delivered tr s → Delivered tr (removePeer p s).
Proof.
  intros HI [Hinj Hrep]. destruct (peerWants s !! p) as [pws|] eqn:E; [|unfold removePeer; by rewrite E].
  destruct (removePeer_Mid p s pws HI E) as (s' & HM & ->).
  assert (∀ p' pws', delete p (peerWants s') !! p' = Some pws' → peerWants s !! p' = Some pws') as Hl.
  { intros p' pws'. rewrite (mid_peers _ _ _ _ HM), lookup_delete. by case_decide. }
  split; cbn.
  - eauto.
  - intros p' pws' E'. rewrite (mid_bcast _ _ _ _ HM). eauto.
Qed.

Lemma Delivered_sendWants p bs hs s tr :
  Inv s → Delivered tr s → Delivered (tr ++ (sendWants p bs hs s).2) (sendWants p bs hs s).1.
Proof.
  intros HI [Hinj Hrep]. destruct (peerWants s !! p) as [pws|] eqn:E.
  2: { unfold sendWants. rewrite E. cbn. rewrite app_nil_r. by split. }
  destruct (sendWants_spec p bs hs s pws HI E) as (s' & fb & fh & -> & _ & Eb & Ep & _ & _ & Hfb & Hfh).
  cbn [fst snd]. split.
  - intros p1 p2 pws1 pws2. rewrite Ep, !lookup_insert.
    repeat case_decide; intros; simplify_eq; try done; cbn in *; eauto.
  - intros p' pws'. rewrite Ep, Eb, lookup_insert. unfold replay. rewrite foldl_app. cbn.
    fold (replay (peerQueue pws') tr). case_decide as Hp.
    + subst p'. intros [= <-]. cbn. rewrite decide_True by done. rewrite (Hrep _ _ E).
      apply set_eq. intros x. rewrite !elem_of_union, elem_of_difference, !elem_of_list_to_set, Hfb, Hfh.
      destruct (decide (x ∈ bs)), (decide (x ∈ wantBlocks pws)), (decide (x ∈ wantHaves pws)); tauto.
    + intros E'. rewrite decide_False; [by eapply Hrep|]. intros Hqq. by apply Hp, (Hinj p p' _ _ E E').
Qed.

Lemma Delivered_broadcast ws s tr :
  Inv s → Delivered tr s →
  Delivered (tr ++ (broadcastWantHaves ws s).2) (broadcastWantHaves ws s).1.
Proof.
  intros HI [Hinj Hrep].
  destruct (broadcastWantHaves_spec ws s HI) as (s' & unsent & calls & -> & _ & Ep & Eb & Hu & Hc).
  cbn [fst snd]. split; rewrite Ep; [done|].
  intros p pws E. unfold replay. rewrite foldl_app. fold (replay (peerQueue pws) tr).
  rewrite (Hrep _ _ E), Hc, Eb, (replay_loop _ _ _ _ (p, pws)).
  - cbn. assert (∀ x, x ∈ peer_unsent unsent pws ↔
      (x ∈ ws ∧ x ∉ broadcastWants s) ∧ x ∉ wantBlocks pws ∧ x ∉ wantHaves pws) as Hpu.
    { intros x. unfold peer_unsent. rewrite list_elem_of_filter, Hu, Is_true_true, andb_true_iff,
        !negb_true_iff, !AuthSet.Has_false. tauto. }
    apply set_eq. intros x. destruct (0 <? len (peer_unsent unsent pws)) eqn:El; cbn.
    + rewrite decide_True by done. rewrite !elem_of_union, !elem_of_list_to_set, Hpu.
      destruct (decide (x ∈ broadcastWants s)), (decide (x ∈ wantBlocks pws)),
        (decide (x ∈ wantHaves pws)); tauto.
    + assert (peer_unsent unsent pws = []) as En by (apply dec_stable; intros ?%len_pos; congruence).
      specialize (Hpu x). rewrite En in Hpu. rewrite !elem_of_union, elem_of_list_to_set.
      rewrite elem_of_nil in Hpu.
      destruct (decide (x ∈ broadcastWants s)), (decide (x ∈ wantBlocks pws)),
        (decide (x ∈ wantHaves pws)); tauto.
  - eapply NoDup_fmap_1, NoDup_range_keys.
  - intros [p' pws'] c Hin%elem_of_range Hne. cbn. case_match; [|done]. intros [= <-] Hqq. cbn in Hqq.
    assert (p' = p) as -> by eauto. simplify_eq.
  - rewrite elem_of_range. done.
Qed.

Lemma Delivered_sendCancels ks s tr :
  Inv s → NoDup ks → Delivered tr s →
  Delivered (tr ++ (sendCancels ks s).2) (sendCancels ks s).1.
Proof.
  intros HI Hn [Hinj Hrep].
  destruct (sendCancels_spec ks s HI Hn) as (s' & ps & -> & _ & Ep & Eb & Hps & Hskip).
  cbn [fst snd].
  assert (∀ p pws', peerWants s' !! p = Some pws' →
    ∃ pws, peerWants s !! p = Some pws ∧ pws' = strip ks pws) as Hl.
  { intros p pws'. rewrite Ep. destruct (peerWants s !! p); cbn; naive_solver. }
  split.
  - intros p1 p2 pws1 pws2 (? & ? & ->)%Hl (? & ? & ->)%Hl. cbn. eauto.
  - intros p pws' (pws & E & ->)%Hl. cbn. unfold replay. rewrite foldl_app.
    fold (replay (peerQueue pws) tr). rewrite (Hrep _ _ E), Eb, (replay_loop _ _ _ _ p);
      [|done| |by apply Hskip].
    + unfold call_for. rewrite E. cbn.
      pose proof (elem_of_cancels_for (broadcastWants s) ks pws) as Hcf.
      apply set_eq. intros x. specialize (Hcf x). destruct (0 <? _) eqn:El; cbn.
      * rewrite decide_True by done. rewrite elem_of_difference, elem_of_list_to_set, Hcf.
        rewrite !elem_of_union, !elem_of_difference, !elem_of_list_to_set.
        destruct (decide (x ∈ ks)); tauto.
      * assert (cancels_for (broadcastWants s) ks pws = []) as En
          by (apply dec_stable; intros ?%len_pos; congruence).
        rewrite En, elem_of_nil in Hcf.
        rewrite !elem_of_union, !elem_of_difference, !elem_of_list_to_set.
        destruct (decide (x ∈ ks)); tauto.
    + intros p' c Hin Hne. unfold call_for. destruct (peerWants s !! p') as [pws'|] eqn:E'; [|done].
      cbn. case_match; [|done]. intros [= <-] Hqq. cbn in Hqq. by apply Hne, (Hinj p' p _ _ E' E).
Qed.

Lemma Delivered_run_op o s tr :
  op_ok o s tr → Inv s → Delivered tr s → Delivered (tr ++ (run_op o s).2) (run_op o s).1.
Proof.
  destruct o; cbn [run_op]; intros Ho HI HD.
  - by apply Delivered_addPeer.
  - cbn. rewrite app_nil_r. by apply Delivered_removePeer.
  - by apply Delivered_broadcast.
  - by apply Delivered_sendWants.
  - by apply Delivered_sendCancels.
Qed.

Lemma reachable_inv x y :
  rtc step x y → Inv x.1 ∧ Delivered x.2 x.1 → Inv y.1 ∧ Delivered y.2 y.1.
Proof.
  induction 1 as [x|x y z Hs _ IH]; [done|]. intros [HI HD]. apply IH.
  destruct Hs. cbn in *. eauto using Inv_run_op, Delivered_run_op.
Qed.

Lemma Delivered_new : Delivered [] newPeerWantManager.
Proof. split; cbn; intros *; by rewrite lookup_empty. Qed.

(** ** Which queues an operation uses *)

Definition queueOf s p : option qref := peerQueue <$> peerWants s !! p.

Lemma queueOf_run_op o s tr p :
  op_ok o s tr → Inv s →
  queueOf (run_op o s).1 p =
    match o with
    | AddPeer q p' => if decide (p = p') then Some (default q (queueOf s p')) else queueOf s p
    | RemovePeer p' => if decide (p = p') then None else queueOf s p
    | _ => queueOf s p
    end.
Proof.
  intros Ho HI. unfold queueOf. destruct o as [q p'|p'|ws|p' bs hs|ks]; cbn.
  - unfold addPeer. destruct (peerWants s !! p') as [pws|] eqn:E; cbn.
    + case_decide; [subst; by rewrite E|done].
    + rewrite lookup_insert. repeat case_decide; congruence || done.
  - destruct (peerWants s !! p') as [pws|] eqn:E.
    + destruct (removePeer_Mid p' s pws HI E) as (s' & HM & ->). cbn.
      rewrite (mid_peers _ _ _ _ HM), lookup_delete. repeat case_decide; congruence || done.
    + unfold removePeer. rewrite E. case_decide; [subst; by rewrite E|done].
  - destruct (broadcastWantHaves_spec ws s HI) as (? & ? & ? & -> & _ & E & _). cbn. by rewrite E.
  - destruct (peerWants s !! p') as [pws|] eqn:E; [|unfold sendWants; by rewrite E].
    destruct (sendWants_spec p' bs hs s pws HI E) as (? & ? & ? & -> & _ & _ & Ep & _). cbn.
    rewrite Ep, lookup_insert. case_decide; [subst; by rewrite E|done].
  - destruct (sendCancels_spec ks s HI Ho) as (? & ? & -> & _ & Ep & _). cbn. rewrite Ep.
    by destruct (peerWants s !! p).
Qed.

(** Only queues of peers the manager knows are called. *)
Lemma calls_run_op o s tr c :
  op_ok o s tr → Inv s → c ∈ (run_op o s).2 → ∃ p, queueOf (run_op o s).1 p = Some (queue_of c).
Proof.
  intros Ho HI Hc. assert (∃ p, match o with
    | AddPeer q p' => p = p' ∧ queueOf s p' = None ∧ q = queue_of c
    | RemovePeer _ => False
    | _ => queueOf s p = Some (queue_of c) end) as (p & Hp).
  { unfold queueOf. destruct o as [q p'|p'|ws|p' bs hs|ks]; cbn in Hc.
    - exists p'. unfold addPeer in Hc.
      destruct (peerWants s !! p') as [pws|]; cbn in Hc; [by apply elem_of_nil in Hc|].
      destruct (0 <? _); [|by apply elem_of_nil in Hc].
      apply list_elem_of_singleton in Hc as ->. done.
    - by apply elem_of_nil in Hc.
    - destruct (broadcastWantHaves_spec ws s HI) as (? & ? & ? & E & _ & _ & _ & _ & Ec).
      rewrite E in Hc. cbn in Hc. rewrite Ec in Hc.
      apply list_elem_of_omap in Hc as ([p pws] & Hin%elem_of_range & Hg). cbn in Hg.
      exists p. rewrite Hin. cbn. case_match; by simplify_eq.
    - destruct (peerWants s !! p') as [pws|] eqn:E.
      2: { unfold sendWants in Hc. rewrite E in Hc. by apply elem_of_nil in Hc. }
      destruct (sendWants_spec p' bs hs s pws HI E) as (? & ? & ? & Es & _). rewrite Es in Hc.
      cbn in Hc. apply list_elem_of_singleton in Hc as ->. exists p'. by rewrite E.
    - destruct (sendCancels_spec ks s HI Ho) as (? & ps & Es & _). rewrite Es in Hc. cbn in Hc.
      apply list_elem_of_omap in Hc as (p & _ & Hg). exists p. unfold call_for in Hg.
      destruct (peerWants s !! p) as [pws|]; [|done]. cbn in *. case_match; by simplify_eq. }
  exists p. rewrite (queueOf_run_op o s tr p Ho HI).
  destruct o; try done. destruct Hp as (-> & -> & ->). by rewrite decide_True.
Qed.
End facts.
End PWMFacts.
