(* ===== verification/PeerManager.v ===== *)
(** * The pool of connected peers (src/internal/peermanager/peermanager.go)

    [PeerManager] owns one [PeerQueue] per connected peer, hands wants and cancels
    to the [peerWantManager] and tells the sessions registered for a peer about
    its connectivity.  The effects on other objects (queues, sessions) are the
    list of events an operation emits, in order; [createPeerQueue] allocates a
    queue object, so the state carries the next unused reference. *)
From S2P Require Import Prelude Auth Ledger PeerWantManager PeerWantFacts.
Open Scope Z_scope.

(** A session object: the identifier its [ID()] method returns, and which object
    it is. *)
Record SessionRef := mkSession {
  Session_ID : Z;
  Session_obj : nat;
}.

Inductive pm_event `{CL : CidLib} :=
| EvStartup (q : qref)
| EvShutdown (q : qref)
| EvCall (c : qcall)
| EvResponse (q : qref) (ks : list Want)
| EvSignal (s : SessionRef) (p : PeerID) (isConnected : bool).

Module PM.
Section pm.
Context {CL : CidLib} {GO : GoRuntime}.

Record PeerManager := mkPM {
  peerQueues : gmap PeerID qref;
  pwm : PWM.peerWantManager;
  nextQueue : qref;
  sessions : gmap Z SessionRef;
  peerSessions : gmap PeerID (gset Z);
  self : PeerID;
}.

Definition set_pwm (w : PWM.peerWantManager) (pm : PeerManager) : PeerManager :=
  mkPM (peerQueues pm) w (nextQueue pm) (sessions pm) (peerSessions pm) (self pm).
Definition set_queues (m : gmap PeerID qref) (n : qref) (pm : PeerManager) : PeerManager :=
  mkPM m (pwm pm) n (sessions pm) (peerSessions pm) (self pm).
Definition set_sessions (ss : gmap Z SessionRef) (ps : gmap PeerID (gset Z)) (pm : PeerManager)
  : PeerManager :=
  mkPM (peerQueues pm) (pwm pm) (nextQueue pm) ss ps (self pm).

Definition New (self : PeerID) : PeerManager :=
  {| peerQueues := ∅; pwm := PWM.newPeerWantManager; nextQueue := 0%nat;
     self := self; sessions := ∅; peerSessions := ∅ |}.

Definition ConnectedPeers (pm : PeerManager) : list PeerID := (range (peerQueues pm)).*1.
Definition AvailablePeers (pm : PeerManager) : list PeerID := ConnectedPeers pm.

Definition getOrCreate (p : PeerID) (pm : PeerManager) : qref * PeerManager * list pm_event :=
  match peerQueues pm !! p with
  | Some pq => (pq, pm, [])
  | None =>
      let pq := nextQueue pm in
      (pq, set_queues (<[p := pq]> (peerQueues pm)) (S pq) pm, [EvStartup pq])
  end.

Definition signalAvailability (p : PeerID) (isConnected : bool) (pm : PeerManager) : list pm_event :=
  match peerSessions pm !! p with
  | None => []
  | Some sesIds =>
      omap (λ sesId, match sessions pm !! sesId with
                     | Some s => Some (EvSignal s p isConnected)
                     | None => None
                     end) (keys sesIds)
  end.

Definition Connected (p : PeerID) (pm : PeerManager) : PeerManager * list pm_event :=
  let '(pq, pm, evs) := getOrCreate p pm in
  let '(w, calls) := PWM.addPeer pq p (pwm pm) in
  let pm := set_pwm w pm in
  (pm, evs ++ (EvCall <$> calls) ++ signalAvailability p true pm).

Definition Disconnected (p : PeerID) (pm : PeerManager) : PeerManager * list pm_event :=
  match peerQueues pm !! p with
  | None => (pm, [])
  | Some pq =>
      let evs := signalAvailability p false pm in
      let pm := set_queues (delete p (peerQueues pm)) (nextQueue pm) pm in
      let pm := set_pwm (PWM.removePeer p (pwm pm)) pm in
      (pm, evs ++ [EvShutdown pq])
  end.

(** The queue is looked up under the lock and called after it is released. *)
Definition ResponseReceived (p : PeerID) (ks : list Want) (pm : PeerManager) : list pm_event :=
  match peerQueues pm !! p with
  | Some pq => [EvResponse pq ks]
  | None => []
  end.

Definition BroadcastWantHaves (wantHaves : list Want) (pm : PeerManager)
  : PeerManager * list pm_event :=
  let '(w, calls) := PWM.broadcastWantHaves wantHaves (pwm pm) in
  (set_pwm w pm, EvCall <$> calls).

Definition SendWants (p : PeerID) (wantBlocks wantHaves : list Want) (pm : PeerManager)
  : PeerManager * list pm_event :=
  match peerQueues pm !! p with
  | Some _ =>
      let '(w, calls) := PWM.sendWants p wantBlocks wantHaves (pwm pm) in
      (set_pwm w pm, EvCall <$> calls)
  | None => (pm, [])
  end.

Definition SendCancels (cancelKs : list Want) (pm : PeerManager) : PeerManager * list pm_event :=
  let '(w, calls) := PWM.sendCancels cancelKs (pwm pm) in
  (set_pwm w pm, EvCall <$> calls).

Definition CurrentWants (pm : PeerManager) : list Want := PWM.getWants (pwm pm).
Definition CurrentWantBlocks (pm : PeerManager) : list Want := PWM.getWantBlocks (pwm pm).
Definition CurrentWantHaves (pm : PeerManager) : list Want := PWM.getWantHaves (pwm pm).

Definition RegisterSession (p : PeerID) (s : SessionRef) (pm : PeerManager) : PeerManager :=
  let ss := match sessions pm !! Session_ID s with
            | Some _ => sessions pm
            | None => <[Session_ID s := s]> (sessions pm)
            end in
  let ids := match peerSessions pm !! p with Some ids => ids | None => ∅ end in
  set_sessions ss (<[p := {[Session_ID s]} ∪ ids]> (peerSessions pm)) pm.

Definition UnregisterSession (ses : Z) (pm : PeerManager) : PeerManager :=
  let ps := foldl (λ ps x,
      match ps !! x.1 with
      | None => ps
      | Some ids =>
          let ids' := ids ∖ {[ses]} in
          if (size ids' =? 0)%nat then delete x.1 ps else <[x.1 := ids']> ps
      end) (peerSessions pm) (range (peerSessions pm)) in
  set_sessions (delete ses (sessions pm)) ps pm.
End pm.
End PM.

(** ** Facts *)

Module PMFacts.
Import PM.
Section facts.
Context {CL : CidLib} {GO : GoRuntime}.
Implicit Types (pm : PeerManager) (p : PeerID).

(** Every operation of the manager that changes its state. *)
Inductive op :=
| OConnected p
| ODisconnected p
| OBroadcast (ws : list Want)
| OSendWants p (wantBlocks wantHaves : list Want)
| OSendCancels (ws : list Want)
| ORegister p (s : SessionRef)
| OUnregister (ses : Z).

Definition run_op (o : op) pm : PeerManager * list pm_event :=
  match o with
  | OConnected p => Connected p pm
  | ODisconnected p => Disconnected p pm
  | OBroadcast ws => BroadcastWantHaves ws pm
  | OSendWants p bs hs => SendWants p bs hs pm
  | OSendCancels ws => SendCancels ws pm
  | ORegister p s => (RegisterSession p s pm, [])
  | OUnregister ses => (UnregisterSession ses pm, [])
  end.

Definition op_ok (o : op) : Prop :=
  match o with OSendCancels ws => NoDup ws | _ => True end.

Inductive step : relation (PeerManager * list pm_event) :=
| step_op o pm tr : op_ok o → step (pm, tr) ((run_op o pm).1, tr ++ (run_op o pm).2).

(** The calls on queues among the events. *)
Definition calls (tr : list pm_event) : list qcall :=
  omap (λ e, match e with EvCall c => Some c | _ => None end) tr.

Lemma calls_app tr tr' : calls (tr ++ tr') = calls tr ++ calls tr'.
Proof. apply omap_app. Qed.

Lemma calls_EvCall cs : calls (EvCall <$> cs) = cs.
Proof. induction cs as [|c cs IH]; [done|]. cbn. f_equal. apply IH. Qed.

Lemma calls_signal p b pm : calls (signalAvailability p b pm) = [].
Proof.
  unfold signalAvailability. destruct (peerSessions pm !! p) as [ids|]; [|done].
  generalize (keys ids) as l. intros l. induction l as [|s l IH]; [done|]. cbn.
  by destruct (sessions pm !! s).
Qed.

(** The queue map and the want manager know the same peers and queues, and every
    queue in use was allocated, started and not shut down. *)
Record Inv pm (tr : list pm_event) : Prop := mkInv {
  inv_queues : ∀ p, peerQueues pm !! p = PWM.peerQueue <$> PWM.peerWants (pwm pm) !! p;
  inv_inj : ∀ p1 p2 q, peerQueues pm !! p1 = Some q → peerQueues pm !! p2 = Some q → p1 = p2;
  inv_alloc : ∀ p q, peerQueues pm !! p = Some q → (q < nextQueue pm)%nat;
  inv_calls : ∀ c, c ∈ calls tr → (PWMFacts.queue_of c < nextQueue pm)%nat;
  inv_started : ∀ p q, peerQueues pm !! p = Some q → EvStartup q ∈ tr ∧ EvShutdown q ∉ tr;
  inv_shut : ∀ q, EvShutdown q ∈ tr → (q < nextQueue pm)%nat;
}.

(** The operation of the want manager that an operation of the manager performs,
    if any. *)
Definition pwm_op (o : op) pm : option PWMFacts.op :=
  match o with
  | OConnected p => Some (PWMFacts.AddPeer (default (nextQueue pm) (peerQueues pm !! p)) p)
  | ODisconnected p => match peerQueues pm !! p with Some _ => Some (PWMFacts.RemovePeer p) | None => None end
  | OBroadcast ws => Some (PWMFacts.BroadcastWantHaves ws)
  | OSendWants p bs hs => match peerQueues pm !! p with Some _ => Some (PWMFacts.SendWants p bs hs) | None => None end
  | OSendCancels ws => Some (PWMFacts.SendCancels ws)
  | ORegister _ _ | OUnregister _ => None
  end.

Lemma run_op_pwm o pm :
  let r := match pwm_op o pm with
           | Some o' => PWMFacts.run_op o' (pwm pm)
           | None => (pwm pm, [])
           end in
  pwm (run_op o pm).1 = r.1 ∧ calls (run_op o pm).2 = r.2.
Proof.
  destruct o; cbn [pwm_op run_op]; try done.
  - unfold Connected, getOrCreate. cbn. destruct (peerQueues pm !! p); cbn;
      destruct (PWM.addPeer _ p _); cbn; by rewrite ?calls_app, calls_EvCall, calls_signal, app_nil_r.
  - unfold Disconnected. destruct (peerQueues pm !! p); cbn; [|done].
    by rewrite calls_app, calls_signal.
  - unfold BroadcastWantHaves. cbn. destruct (PWM.broadcastWantHaves _ _). cbn. by rewrite calls_EvCall.
  - unfold SendWants. destruct (peerQueues pm !! p); cbn; [|done].
    destruct (PWM.sendWants _ _ _ _). cbn. by rewrite calls_EvCall.
  - unfold SendCancels. cbn. destruct (PWM.sendCancels _ _). cbn. by rewrite calls_EvCall.
Qed.

Lemma lookup_queue pm tr p : Inv pm tr → peerQueues pm !! p = PWMFacts.queueOf (pwm pm) p.
Proof. intros HI. apply HI. Qed.

(** The queue map and the events besides the calls, operation by operation. *)
Lemma run_op_queues o pm p :
  peerQueues (run_op o pm).1 !! p =
    match o with
    | OConnected p' => if decide (p = p') then Some (default (nextQueue pm) (peerQueues pm !! p'))
                       else peerQueues pm !! p
    | ODisconnected p' => if decide (p = p') then None else peerQueues pm !! p
    | _ => peerQueues pm !! p
    end.
Proof.
  destruct o as [p'|p'|ws|p' bs hs|ks|p' s|ses]; cbn [run_op]; try done.
  - unfold Connected, getOrCreate. destruct (peerQueues pm !! p') as [q|] eqn:E; cbn;
      destruct (PWM.addPeer _ p' _); cbn; rewrite ?lookup_insert; repeat case_decide; congruence || done.
  - unfold Disconnected. destruct (peerQueues pm !! p') as [q|] eqn:E; cbn;
      rewrite ?lookup_delete; repeat case_decide; congruence || done.
  - unfold BroadcastWantHaves. by destruct (PWM.broadcastWantHaves _ _).
  - unfold SendWants. destruct (peerQueues pm !! p'); [|done]. by destruct (PWM.sendWants _ _ _ _).
  - unfold SendCancels. by destruct (PWM.sendCancels _ _).
Qed.

Lemma run_op_next o pm :
  nextQueue (run_op o pm).1 =
    match o with
    | OConnected p => match peerQueues pm !! p with Some _ => nextQueue pm | None => S (nextQueue pm) end
    | _ => nextQueue pm
    end.
Proof.
  destruct o as [p'|p'|ws|p' bs hs|ks|p' s|ses]; cbn [run_op]; try done.
  - unfold Connected, getOrCreate. destruct (peerQueues pm !! p') as [q|] eqn:E; cbn;
      by destruct (PWM.addPeer _ p' _).
  - unfold Disconnected. by destruct (peerQueues pm !! p').
  - unfold BroadcastWantHaves. by destruct (PWM.broadcastWantHaves _ _).
  - unfold SendWants. destruct (peerQueues pm !! p'); [|done]. by destruct (PWM.sendWants _ _ _ _).
  - unfold SendCancels. by destruct (PWM.sendCancels _ _).
Qed.

Lemma not_EvCall e (cs : list qcall) : (∀ c, e ≠ EvCall c) → e ∉ EvCall <$> cs.
Proof. intros He (c & -> & _)%list_elem_of_fmap. by eapply He. Qed.

Lemma not_signal e p b pm : (∀ s b, e ≠ EvSignal s p b) → e ∉ signalAvailability p b pm.
Proof.
  intros He. unfold signalAvailability. destruct (peerSessions pm !! p) as [ids|]; [|apply not_elem_of_nil].
  intros (s & _ & Hs)%list_elem_of_omap. destruct (sessions pm !! s); simplify_eq. by eapply He.
Qed.

Lemma run_op_shutdown o pm q :
  EvShutdown q ∈ (run_op o pm).2 ↔
    match o with ODisconnected p => peerQueues pm !! p = Some q | _ => False end.
Proof.
  destruct o as [p'|p'|ws|p' bs hs|ks|p' s|ses]; cbn [run_op snd]; rewrite ?elem_of_nil; try done.
  - split; [|done]. unfold Connected, getOrCreate.
    destruct (peerQueues pm !! p') as [q'|]; cbn; destruct (PWM.addPeer _ p' _); cbn.
    + rewrite elem_of_app. intros [H|H]; revert H; [by apply not_EvCall|by apply not_signal].
    + rewrite elem_of_cons, elem_of_app. intros [?|[H|H]]; [done|revert H..];
        [by apply not_EvCall|by apply not_signal].
  - unfold Disconnected. destruct (peerQueues pm !! p') as [q'|]; cbn; [|by rewrite elem_of_nil].
    rewrite elem_of_snoc. split; [|intros [= ->]; by right].
    intros [H|[= ->]]; [|done]. exfalso. revert H. by apply not_signal.
  - unfold BroadcastWantHaves. destruct (PWM.broadcastWantHaves _ _). cbn. split; [|done]. by apply not_EvCall.
  - unfold SendWants. destruct (peerQueues pm !! p'); [|cbn; by rewrite elem_of_nil].
    destruct (PWM.sendWants _ _ _ _). cbn. split; [|done]. by apply not_EvCall.
  - unfold SendCancels. destruct (PWM.sendCancels _ _). cbn. split; [|done]. by apply not_EvCall.
Qed.

Lemma run_op_startup p pm :
  peerQueues pm !! p = None → EvStartup (nextQueue pm) ∈ (run_op (OConnected p) pm).2.
Proof.
  intros E. cbn. unfold Connected, getOrCreate. rewrite E. destruct (PWM.addPeer _ p _). cbn. left.
Qed.

(** The operation of the want manager meets its precondition. *)
Lemma pwm_op_ok o o' pm tr :
  Inv pm tr → op_ok o → pwm_op o pm = Some o' → PWMFacts.op_ok o' (pwm pm) (calls tr).
Proof.
  intros HI Ho. destruct o as [p'|p'|ws|p' bs hs|ks|p' s|ses]; cbn; try (intros [= <-]; done).
  - intros [= <-]. cbn. intros En. rewrite (lookup_queue _ _ p' HI). unfold PWMFacts.queueOf. rewrite En.
    cbn. split.
    + intros c Hc Hq. pose proof (inv_calls _ _ HI c Hc). lia.
    + intros p pws Ep Hq.
      assert (peerQueues pm !! p = Some (PWM.peerQueue pws)) as E
        by (rewrite (inv_queues _ _ HI), Ep; done).
      pose proof (inv_alloc _ _ HI _ _ E). lia.
  - destruct (peerQueues pm !! p'); [|done]. intros [= <-]. done.
  - destruct (peerQueues pm !! p'); [|done]. intros [= <-]. done.
Qed.

Lemma run_op_queueOf o pm tr p :
  Inv pm tr → PWMFacts.Inv (pwm pm) → op_ok o →
  PWMFacts.queueOf (pwm (run_op o pm).1) p = peerQueues (run_op o pm).1 !! p.
Proof.
  intros HI HP Ho. destruct (run_op_pwm o pm) as [-> _]. rewrite run_op_queues.
  pose proof (pwm_op_ok o) as Hok. destruct (pwm_op o pm) as [o'|] eqn:E; cbn.
  - rewrite (PWMFacts.queueOf_run_op o' _ (calls tr)) by eauto.
    destruct o as [p'|p'|ws|p' bs hs|ks|p' s|ses]; cbn in E; simplify_eq; cbn;
      rewrite ?(lookup_queue pm tr) in * by done; try done.
    + case_decide; [|done]. by destruct (PWMFacts.queueOf (pwm pm) p').
    + case_match; by simplify_eq.
    + case_match; by simplify_eq.
  - destruct o as [p'|p'|ws|p' bs hs|ks|p' s|ses]; cbn in E; simplify_eq;
      rewrite (lookup_queue pm tr p) by done; try done.
    rewrite (lookup_queue pm tr p') in E by done. case_decide; [|done]. subst.
    by destruct (PWMFacts.queueOf (pwm pm) p').
Qed.

Lemma run_op_calls o pm tr c :
  Inv pm tr → PWMFacts.Inv (pwm pm) → op_ok o → c ∈ calls (run_op o pm).2 →
  ∃ p, peerQueues (run_op o pm).1 !! p = Some (PWMFacts.queue_of c).
Proof.
  intros HI HP Ho Hc. setoid_rewrite <- (run_op_queueOf o pm tr); [|done..].
  destruct (run_op_pwm o pm) as [-> Ec]. rewrite Ec in Hc.
  destruct (pwm_op o pm) as [o'|] eqn:E; cbn in *; [|by apply elem_of_nil in Hc].
  eapply PWMFacts.calls_run_op; [by eapply pwm_op_ok|done|done].
Qed.

Lemma pool_run_op o pm tr :
  Inv pm tr → PWMFacts.Inv (pwm pm) → op_ok o → Inv (run_op o pm).1 (tr ++ (run_op o pm).2).
Proof.
  intros HI HP Ho.
  assert (nextQueue pm ≤ nextQueue (run_op o pm).1)%nat as Hmono
    by (rewrite run_op_next; destruct o; try done; case_match; lia).
  assert (∀ p q, peerQueues (run_op o pm).1 !! p = Some q →
    peerQueues pm !! p = Some q ∨
    (o = OConnected p ∧ peerQueues pm !! p = None ∧ q = nextQueue pm)) as Hq.
  { intros p q. rewrite run_op_queues.
    destruct o; auto; case_decide; subst; auto; [|done].
    destruct (peerQueues pm !! p0) eqn:E; cbn; intros; simplify_eq; auto. }
  assert (∀ p q, peerQueues (run_op o pm).1 !! p = Some q → (q < nextQueue (run_op o pm).1)%nat) as Hlt.
  { intros p q [E|(-> & E & ->)]%Hq; [pose proof (inv_alloc _ _ HI _ _ E); lia|].
    rewrite run_op_next, E. lia. }
  split.
  - intros p. symmetry. by eapply run_op_queueOf.
  - intros p1 p2 q [E1|(-> & E1 & ->)]%Hq [E2|(Eo & E2 & Eq)]%Hq.
    + by eapply HI.
    + pose proof (inv_alloc _ _ HI _ _ E1). lia.
    + pose proof (inv_alloc _ _ HI _ _ E2). lia.
    + congruence.
  - done.
  - intros c. rewrite calls_app, elem_of_app. intros [Hc|Hc].
    + pose proof (inv_calls _ _ HI c Hc). lia.
    + destruct (run_op_calls o pm tr c) as (p & E); eauto.
  - intros p q E. rewrite !elem_of_app, run_op_shutdown. destruct (Hq p q E) as [E'|(-> & E' & ->)].
    + destruct (inv_started _ _ HI _ _ E') as [Hs Hn]. split; [by left|].
      intros [?|Hd]; [done|]. destruct o; try done.
      assert (p = p0) as -> by by eapply HI.
      rewrite run_op_queues, decide_True in E by done. done.
    + split; [right; by apply run_op_startup|]. intros [Hs|[]].
      pose proof (inv_shut _ _ HI _ Hs). lia.
  - intros q. rewrite elem_of_app, run_op_shutdown. intros [Hs|Hd].
    + pose proof (inv_shut _ _ HI _ Hs). lia.
    + destruct o; try done. pose proof (inv_alloc _ _ HI _ _ Hd). lia.
Qed.

Lemma pool_new p : Inv (New p) [].
Proof. split; cbn; intros *; rewrite ?lookup_empty, ?elem_of_nil; done. Qed.

(** Each step of the manager is at most one step of the want manager. *)
Lemma step_simulation o pm tr :
  Inv pm tr → op_ok o →
  rtc PWMFacts.step (pwm pm, calls tr)
    (pwm (run_op o pm).1, calls (tr ++ (run_op o pm).2)).
Proof.
  intros HI Ho. rewrite calls_app. destruct (run_op_pwm o pm) as [-> ->].
  destruct (pwm_op o pm) as [o'|] eqn:E; cbn.
  - apply rtc_once. constructor. by eapply pwm_op_ok.
  - by rewrite app_nil_r.
Qed.

Definition Good (x : PeerManager * list pm_event) : Prop :=
  Inv x.1 x.2 ∧ PWMFacts.Inv (pwm x.1) ∧ PWMFacts.Delivered (calls x.2) (pwm x.1).

Lemma pool_reachable_good x y : rtc step x y → Good x → Good y.
Proof.
  induction 1 as [x|x y z Hs _ IH]; [done|]. intros (HI & HP & HD). apply IH.
  destruct Hs as [o pm tr Ho]. cbn in *.
  pose proof (step_simulation o pm tr HI Ho) as Hsim.
  pose proof (PWMFacts.reachable_inv _ _ Hsim (conj HP HD)) as [HP' HD'].
  split; [by apply pool_run_op|done].
Qed.

(** A run as a function of the operations. *)
Definition run_ops (os : list op) (x : PeerManager * list pm_event) : PeerManager * list pm_event :=
  foldl (λ x o, ((run_op o x.1).1, x.2 ++ (run_op o x.1).2)) x os.

Lemma run_ops_steps os x : Forall op_ok os → rtc step x (run_ops os x).
Proof.
  intros Hos. revert x. induction Hos as [|o os Ho _ IH]; intros [pm tr]; [done|].
  eapply rtc_l; [by constructor|apply IH].
Qed.

Lemma Good_new p : Good (New p, []).
Proof. split; [apply pool_new|]. split; [apply PWMFacts.Inv_newPeerWantManager|apply PWMFacts.Delivered_new]. Qed.
End facts.
End PMFacts.
