(* ===== verification/BlockPresence.v ===== *)
(** * What peers said about blocks
      (src/internal/blockpresencemanager/blockpresencemanager.go)

    [BlockPresenceManager] remembers, per cid and peer, whether the peer answered
    HAVE or DONT_HAVE.  A HAVE is never overwritten by a later DONT_HAVE. *)
From S2P Require Import Prelude Auth.

Module BPM.
Abbreviation BlockPresenceManager := (gmap Cid (gmap PeerID bool)).
Section bpm.
Context {CL : CidLib} {GO : GoRuntime}.

Implicit Types (m : BlockPresenceManager) (p : PeerID) (c : Cid).

Definition New : BlockPresenceManager := ∅.

Definition updateBlockPresence p c (present : bool) m : BlockPresenceManager :=
  let m := match m !! c with Some _ => m | None => <[c := ∅]> m end in
  let ps := default ∅ (m !! c) in
  match ps !! p with
  | Some true => m
  | _ => <[c := <[p := present]> ps]> m
  end.

Definition ReceiveFrom p (haves dontHaves : list Want) m : BlockPresenceManager :=
  let m := foldl (λ m w, updateBlockPresence p (Want_Cid w) true m) m haves in
  foldl (λ m w, updateBlockPresence p (Want_Cid w) false m) m dontHaves.

Definition PeerHasBlock p c m : bool := default false (default ∅ (m !! c) !! p).

Definition PeerDoesNotHaveBlock p c m : bool :=
  match default ∅ (m !! c) !! p with
  | Some have => negb have
  | None => false
  end.

Definition allDontHave (peers : list PeerID) c m : bool :=
  match m !! c with
  | None => false
  | Some ps =>
      forallb (λ p, match ps !! p with None => false | Some has => negb has end) peers
  end.

Definition AllPeersDoNotHaveBlock (peers : list PeerID) (ws : list Want) m : list Want :=
  foldl (λ res w, if allDontHave peers (Want_Cid w) m then res ++ [w] else res) [] ws.

Definition RemoveKeys (ws : list Want) m : BlockPresenceManager :=
  foldl (λ m w, delete (Want_Cid w) m) m ws.

Definition HasKey c m : bool := match m !! c with Some _ => true | None => false end.

(** ** The answer of a peer, as the map records it *)

Definition answer m p c : option bool := default ∅ (m !! c) !! p.

Lemma answer_update p c b m p' c' :
  answer (updateBlockPresence p c b m) p' c' =
    if decide (p' = p ∧ c' = c)
    then Some (bool_decide (answer m p c = Some true) || b)
    else answer m p' c'.
Proof.
  unfold updateBlockPresence, answer.
  set (m1 := match m !! c with Some _ => m | None => <[c := ∅]> m end).
  assert (∀ c', default ∅ (m1 !! c') = default ∅ (m !! c')) as Hm1.
  { intros c2. unfold m1. destruct (m !! c) as [x|] eqn:E; [done|].
    rewrite lookup_insert. case_decide; [subst; by rewrite E|done]. }
  rewrite !Hm1. destruct (default ∅ (m !! c) !! p) as [[]|] eqn:Ea; cbn.
  { rewrite Hm1. case_decide as Hd; [|done]. by destruct Hd as [-> ->]. }
  all: rewrite lookup_insert; destruct (decide (c = c')) as [->|]; cbn;
    [rewrite lookup_insert; repeat case_decide; naive_solver|];
    rewrite Hm1, decide_False by naive_solver; done.
Qed.

Lemma answer_updates p b ws m p' c' :
  answer (foldl (λ m w, updateBlockPresence p (Want_Cid w) b m) m ws) p' c' =
    if decide (p' = p ∧ c' ∈ Want_Cid <$> ws)
    then Some (bool_decide (answer m p c' = Some true) || b)
    else answer m p' c'.
Proof.
  induction ws as [|w ws IH] using rev_ind; cbn.
  - by rewrite decide_False by set_solver.
  - rewrite foldl_app. cbn. rewrite answer_update, fmap_app. cbn.
    destruct (decide (p' = p ∧ c' = Want_Cid w)) as [[-> ->]|Hn].
    + rewrite (decide_True (P := p = p ∧ Want_Cid w ∈ _)) by set_solver.
      rewrite IH. case_decide; [|done]. by destruct b, (bool_decide (answer m p (Want_Cid w) = Some true)).
    + rewrite IH. erewrite (decide_ext (p' = p ∧ c' ∈ Want_Cid <$> ws)); [done|].
      rewrite elem_of_snoc. naive_solver.
Qed.

Lemma answer_RemoveKeys ws m p c :
  answer (RemoveKeys ws m) p c = if decide (c ∈ Want_Cid <$> ws) then None else answer m p c.
Proof.
  unfold answer, RemoveKeys. rewrite (lookup_foldl_delete Want_Cid). by case_decide.
Qed.

Lemma answer_ReceiveFrom p hs ds m p' c :
  answer (ReceiveFrom p hs ds m) p' c =
    if decide (p' = p ∧ (c ∈ Want_Cid <$> hs ∨ c ∈ Want_Cid <$> ds))
    then Some (bool_decide (c ∈ Want_Cid <$> hs ∨ answer m p c = Some true))
    else answer m p' c.
Proof.
  unfold ReceiveFrom. rewrite !answer_updates.
  destruct (decide (p' = p)) as [->|]; [|by rewrite !decide_False by naive_solver].
  destruct (decide (c ∈ Want_Cid <$> hs)) as [Hh|Hh], (decide (c ∈ Want_Cid <$> ds)) as [Hd|Hd];
    destruct (decide (answer m p c = Some true)) as [Ha|Ha];
    repeat first [rewrite decide_True by tauto | rewrite decide_False by tauto];
    rewrite ?orb_true_r;
    repeat first [rewrite bool_decide_true by (tauto || done) | rewrite bool_decide_false by (tauto || done)];
    done.
Qed.

Lemma AllPeersDoNotHaveBlock_eq peers ws m :
  AllPeersDoNotHaveBlock peers ws m = filter (λ w, allDontHave peers (Want_Cid w) m) ws.
Proof.
  unfold AllPeersDoNotHaveBlock.
  assert (∀ acc, foldl (λ res w, if allDontHave peers (Want_Cid w) m then res ++ [w] else res) acc ws =
                 acc ++ filter (λ w, allDontHave peers (Want_Cid w) m) ws) as E; [|by rewrite E].
  induction ws as [|w ws IH]; intros acc; cbn [foldl]; [by rewrite app_nil_r|].
  rewrite IH, filter_cons. destruct (allDontHave _ _ _); cbn; [by rewrite <- app_assoc|done].
Qed.

Lemma allDontHave_spec peers c m :
  allDontHave peers c m = true ↔
  is_Some (m !! c) ∧ ∀ p, p ∈ peers → answer m p c = Some false.
Proof.
  unfold allDontHave, answer. destruct (m !! c) as [ps|]; cbn.
  - rewrite forallb_forall. setoid_rewrite <- list_elem_of_In. split.
    + intros H. split; [eauto|]. intros p Hp. specialize (H p Hp). by destruct (ps !! p) as [[]|].
    + intros [_ H] p Hp. by rewrite (H p Hp).
  - split; [done|]. by intros [[? ?] _].
Qed.

(** ** Histories

    The messages and clean-ups the manager was told about, oldest first. *)
Inductive event :=
| Received p (haves dontHaves : list Want)
| Removed (ws : list Want).

Definition apply (m : BlockPresenceManager) (e : event) : BlockPresenceManager :=
  match e with
  | Received p hs ds => ReceiveFrom p hs ds m
  | Removed ws => RemoveKeys ws m
  end.

Definition replay (h : list event) : BlockPresenceManager := foldl apply New h.

(** The cid was not cleaned up during [h]. *)
Definition kept c (h : list event) : Prop := ∀ ws, Removed ws ∈ h → c ∉ Want_Cid <$> ws.

(** The peer sent a HAVE (a DONT_HAVE) for the cid since its last clean-up. *)
Definition said_have (h : list event) p c : Prop :=
  ∃ pre hs ds post, h = pre ++ Received p hs ds :: post ∧ c ∈ Want_Cid <$> hs ∧ kept c post.
Definition said_dont (h : list event) p c : Prop :=
  ∃ pre hs ds post, h = pre ++ Received p hs ds :: post ∧ c ∈ Want_Cid <$> ds ∧ kept c post.

Lemma kept_snoc c h e : kept c (h ++ [e]) ↔ kept c h ∧ (∀ ws, e = Removed ws → c ∉ Want_Cid <$> ws).
Proof. unfold kept. setoid_rewrite elem_of_snoc. naive_solver. Qed.

(** Both predicates, when the history grows by one event. *)
Lemma said_snoc (sel : list Want → list Want → list Want) h e p c :
  (∃ pre hs ds post, h ++ [e] = pre ++ Received p hs ds :: post ∧
     c ∈ Want_Cid <$> sel hs ds ∧ kept c post) ↔
  ((∃ pre hs ds post, h = pre ++ Received p hs ds :: post ∧
     c ∈ Want_Cid <$> sel hs ds ∧ kept c post) ∧ (∀ ws, e = Removed ws → c ∉ Want_Cid <$> ws)) ∨
  (∃ hs ds, e = Received p hs ds ∧ c ∈ Want_Cid <$> sel hs ds).
Proof.
  split.
  - intros (pre & hs & ds & post & E & Hc & Hk).
    destruct post as [|x post _] using rev_ind.
    + apply app_inj_tail in E as [_ ->]. right. eauto.
    + rewrite app_comm_cons, app_assoc in E. apply app_inj_tail in E as [-> ->].
      apply kept_snoc in Hk as [Hk He]. left. eauto 10.
  - intros [[(pre & hs & ds & post & -> & Hc & Hk) He]|(hs & ds & -> & Hc)].
    + exists pre, hs, ds, (post ++ [e]). rewrite <- app_assoc. rewrite kept_snoc. eauto.
    + exists h, hs, ds, []. split_and!; [done|done|]. intros ws Hw. by apply elem_of_nil in Hw.
Qed.

Lemma said_have_snoc h e p c :
  said_have (h ++ [e]) p c ↔
  (said_have h p c ∧ (∀ ws, e = Removed ws → c ∉ Want_Cid <$> ws)) ∨
  (∃ hs ds, e = Received p hs ds ∧ c ∈ Want_Cid <$> hs).
Proof. apply (said_snoc (λ hs ds, hs)). Qed.

Lemma said_dont_snoc h e p c :
  said_dont (h ++ [e]) p c ↔
  (said_dont h p c ∧ (∀ ws, e = Removed ws → c ∉ Want_Cid <$> ws)) ∨
  (∃ hs ds, e = Received p hs ds ∧ c ∈ Want_Cid <$> ds).
Proof. apply (said_snoc (λ hs ds, ds)). Qed.

Lemma said_nil p c : ¬ said_have [] p c ∧ ¬ said_dont [] p c.
Proof. split; intros (pre & ? & ? & ? & E & _); by destruct pre. Qed.

Lemma replay_answer h p c :
  (answer (replay h) p c = Some true ↔ said_have h p c) ∧
  (answer (replay h) p c = Some false ↔ said_dont h p c ∧ ¬ said_have h p c).
Proof.
  induction h as [|e h IH] using rev_ind.
  { unfold answer, replay, New. cbn. rewrite lookup_empty. cbn. rewrite lookup_empty.
    pose proof (said_nil p c). naive_solver. }
  unfold replay. rewrite foldl_app. cbn [foldl]. fold (replay h).
  rewrite said_have_snoc, said_dont_snoc. destruct IH as [IH1 IH2].
  destruct e as [p' hs ds|ws]; cbn [apply].
  - rewrite answer_ReceiveFrom. case_decide as Hd.
    + destruct Hd as [<- Hd]. case_bool_decide as Hb; split; naive_solver.
    + split; naive_solver.
  - rewrite answer_RemoveKeys. case_decide; split; naive_solver.
Qed.
End bpm.
End BPM.
