(* ===== verification/SessionInterest.v ===== *)
(** * Which sessions care about which wants
      (src/internal/sessioninterestmanager/sessioninterestmanager.go)

    The manager maps a want to the sessions that are interested in it; the
    boolean says whether the session still wants the block or only wants to hear
    about it. *)
From S2P Require Import Prelude Auth.

Module SIM.
Abbreviation SessionInterestManager := (gmap Want (gmap Z bool)).
Section sim.
Context {CL : CidLib} {GO : GoRuntime}.

Implicit Types (m : SessionInterestManager) (ses : Z) (w : Want).

Definition New : SessionInterestManager := ∅.

Definition RecordSessionInterest ses (ks : list Want) m : SessionInterestManager :=
  foldl (λ m w, match m !! w with
                | Some want => <[w := <[ses := true]> want]> m
                | None => <[w := {[ses := true]}]> m
                end) m ks.

(** The body both removal loops share: forget the session for a tracked key, and
    forget the key when no session is left. *)
Definition removeFrom ses (acc : SessionInterestManager * list Want) w
  : SessionInterestManager * list Want :=
  let '(m, deletedKs) := acc in
  match m !! w with
  | None => acc
  | Some want =>
      let want' := delete ses want in
      if (size want' =? 0)%nat then (delete w m, deletedKs ++ [w])
      else (<[w := want']> m, deletedKs)
  end.

Definition RemoveSession ses m : list Want * SessionInterestManager :=
  let '(m, deletedKs) := foldl (removeFrom ses) (m, []) (range m).*1 in (deletedKs, m).

Definition RemoveSessionWants ses (ks : list Want) m : SessionInterestManager :=
  foldl (λ m c, match m !! c with
                | Some want => match want !! ses with
                               | Some true => <[c := <[ses := false]> want]> m
                               | _ => m
                               end
                | None => m
                end) m ks.

Definition RemoveSessionInterested ses (ws : list Want) m : list Want * SessionInterestManager :=
  let '(m, deletedKs) := foldl (removeFrom ses) (m, []) ws in (deletedKs, m).

Definition isInterested ses m w : bool :=
  match default ∅ (m !! w) !! ses with Some _ => true | None => false end.

Definition FilterSessionInterested ses (ksets : list (list Want)) m : list (list Want) :=
  (λ ks, foldl (λ has c, if isInterested ses m c then has ++ [c] else has) [] ks) <$> ksets.

Definition SplitWantedUnwanted (blks : list AuthBlock) m : list AuthBlock * list AuthBlock :=
  let wantedKs := foldl (λ wantedKs b,
      let w := AuthBlock_Want b in
      foldl (λ wantedKs x, if (x.2 : bool) then AuthSet.Add w wantedKs else wantedKs)
            wantedKs (range (default ∅ (m !! w)))) AuthSet.NewSet blks in
  foldl (λ acc b, if AuthSet.Has wantedKs (AuthBlock_Want b) then (acc.1 ++ [b], acc.2)
                  else (acc.1, acc.2 ++ [b])) ([], []) blks.

Definition InterestedSessions (blks haves dontHaves : list Want) m : list Z :=
  let ks := blks ++ haves ++ dontHaves in
  let sesSet : gset Z := foldl (λ sesSet c,
      foldl (λ sesSet x, {[x.1]} ∪ sesSet) sesSet (range (default ∅ (m !! c)))) ∅ ks in
  keys sesSet.

(** ** The relation the map represents *)

Definition interest m ses w : option bool := default ∅ (m !! w) !! ses.

(** No want is tracked without a session. *)
Definition wf m : Prop := ∀ w want, m !! w = Some want → want ≠ ∅.

(** ** Recording *)

Lemma interest_Record ses ks m s w :
  interest (RecordSessionInterest ses ks m) s w =
    if decide (s = ses ∧ w ∈ ks) then Some true else interest m s w.
Proof.
  unfold RecordSessionInterest, interest.
  induction ks as [|k ks IH] using rev_ind; cbn [foldl].
  { by rewrite decide_False by set_solver. }
  rewrite foldl_app. cbn [foldl]. set (m' := foldl _ _ _) in *.
  assert (default ∅ ((match m' !! k with
    | Some want => <[k := <[ses := true]> want]> m'
    | None => <[k := {[ses := true]}]> m' end) !! w) !! s =
    if decide (s = ses ∧ w = k) then Some true else default ∅ (m' !! w) !! s) as ->.
  { destruct (m' !! k) as [want|] eqn:E; rewrite lookup_insert;
      destruct (decide (k = w)) as [->|]; cbn; rewrite ?E; cbn;
      rewrite ?lookup_insert, ?lookup_singleton, ?lookup_empty;
      repeat case_decide; naive_solver. }
  rewrite IH. repeat case_decide; rewrite elem_of_snoc in *; naive_solver.
Qed.

Lemma wf_Record ses ks m : wf m → wf (RecordSessionInterest ses ks m).
Proof.
  intros Hm. unfold RecordSessionInterest. apply (foldl_inv_simple wf); [done|].
  intros m' k _ Hm' w want. destruct (m' !! k) as [want'|]; rewrite lookup_insert;
    (case_decide; [intros [= <-]|apply Hm']).
  - apply insert_non_empty.
  - apply map_non_empty_singleton.
Qed.

(** ** Removing *)

(** After [removeFrom] ran for the keys [done]. *)
Record Removed ses m (done : list Want) (r : SessionInterestManager * list Want) : Prop := {
  rm_wf : wf r.1;
  rm_interest : ∀ s w, interest r.1 s w =
    if decide (s = ses ∧ w ∈ done) then None else interest m s w;
  rm_NoDup : NoDup r.2;
  rm_deleted : ∀ w, w ∈ r.2 ↔
    w ∈ done ∧ is_Some (m !! w) ∧ ∀ s, is_Some (interest m s w) → s = ses;
}.

Lemma interest_insert m k want s w :
  interest (<[k := want]> m) s w = if decide (w = k) then want !! s else interest m s w.
Proof. unfold interest. rewrite lookup_insert. repeat case_decide; congruence || done. Qed.

Lemma interest_delete m k s w :
  interest (delete k m) s w = if decide (w = k) then None else interest m s w.
Proof.
  unfold interest. rewrite lookup_delete. repeat case_decide; try congruence. cbn. apply lookup_empty.
Qed.

Lemma interest_untracked m s w : m !! w = None → interest m s w = None.
Proof. intros E. unfold interest. rewrite E. cbn. apply lookup_empty. Qed.

(** Another session is interested, or was when the loop began. *)
Lemma Removed_tracked ses m pre m' del w want :
  Removed ses m pre (m', del) → m' !! w = Some want →
  w ∉ del ∧ is_Some (m !! w) ∧ ∀ s, interest m' s w = want !! s.
Proof.
  intros [H1 H2 H3 H4] E. cbn [fst snd] in *.
  assert (∀ s, interest m' s w = want !! s) as Hi by (intros s; unfold interest; by rewrite E).
  destruct (map_choose want (H1 _ _ E)) as (s & b & Hb). pose proof (H2 s w) as Hs. rewrite Hi, Hb in Hs.
  split_and!; [| |done].
  - intros (Hd & _ & Ho)%H4. case_decide; [done|]. assert (s = ses) by (apply Ho; rewrite <- Hs; eauto). naive_solver.
  - destruct (m !! w) eqn:Ew; [eauto|]. rewrite (interest_untracked m s w Ew) in Hs. by case_decide.
Qed.

Lemma Removed_last ses m pre m' del w want :
  Removed ses m pre (m', del) → m' !! w = Some want → delete ses want = ∅ →
  Removed ses m (pre ++ [w]) (delete w m', del ++ [w]).
Proof.
  intros HR E Es. destruct (Removed_tracked _ _ _ _ _ _ _ HR E) as (Hdel & Hmw & Hi). destruct HR as [H1 H2 H3 H4]. cbn [fst snd] in *.
  assert (∀ s, s ≠ ses → want !! s = None) as Hn.
  { intros s Hs. rewrite <- (lookup_delete_ne want ses) by done. by rewrite Es, lookup_empty. }
  split; cbn [fst snd].
  - intros k want' [_ Hk]%lookup_delete_Some. by eapply H1.
  - intros s k. rewrite interest_delete, H2.
    case_decide as Ek; [subst k|repeat case_decide; rewrite elem_of_snoc in *; naive_solver].
    destruct (decide (s = ses)) as [->|Hs]; [by rewrite decide_True by set_solver|].
    rewrite decide_False by tauto. specialize (H2 s w). rewrite decide_False, Hi, Hn in H2 by tauto. done.
  - apply NoDup_app. split; [done|]. split; [|apply NoDup_singleton]. intros x Hx ->%list_elem_of_singleton. done.
  - intros k. rewrite !elem_of_snoc, H4. split; [|naive_solver].
    intros [?| ->]; [naive_solver|]. split_and!; [by right|done|].
    intros s [b Hb]. apply dec_stable. intros Hs. specialize (H2 s w). rewrite decide_False, Hi, Hn, Hb in H2 by tauto. done.
Qed.

Lemma Removed_more ses m pre m' del w want :
  Removed ses m pre (m', del) → m' !! w = Some want → delete ses want ≠ ∅ →
  Removed ses m (pre ++ [w]) (<[w := delete ses want]> m', del).
Proof.
  intros HR E Es. destruct (Removed_tracked _ _ _ _ _ _ _ HR E) as (Hdel & _ & Hi). destruct HR as [H1 H2 H3 H4]. cbn [fst snd] in *.
  split; cbn [fst snd].
  - intros k want'. rewrite lookup_insert. case_decide; [by intros [= <-]|apply H1].
  - intros s k. rewrite interest_insert, H2.
    case_decide as Ek; [subst k|repeat case_decide; rewrite elem_of_snoc in *; naive_solver].
    rewrite lookup_delete, <- Hi, H2. repeat case_decide; rewrite elem_of_snoc in *; naive_solver.
  - done.
  - intros k. rewrite elem_of_snoc, H4. split; [naive_solver|].
    intros ([?| ->] & ? & Ho); [naive_solver|]. exfalso. apply map_choose in Es as (s & b & Hb).
    rewrite lookup_delete in Hb. case_decide as Hs; [done|]. specialize (H2 s w). rewrite decide_False, Hi, Hb in H2 by naive_solver.
    apply Hs. symmetry. apply Ho. rewrite <- H2. eauto.
Qed.

Lemma Removed_untracked ses m pre m' del w :
  wf m → Removed ses m pre (m', del) → m' !! w = None → Removed ses m (pre ++ [w]) (m', del).
Proof.
  intros Hm [H1 H2 H3 H4] E. cbn [fst snd] in *.
  assert (∀ s, interest m' s w = None) as Hi by (intros s; by apply interest_untracked).
  split; cbn [fst snd]; [done| |done|].
  - intros s k. rewrite H2.
    destruct (decide (k = w)) as [->|]; [|repeat case_decide; rewrite elem_of_snoc in *; naive_solver].
    pose proof (H2 s w) as Hsw. rewrite Hi in Hsw. repeat case_decide; rewrite ?elem_of_snoc in *; naive_solver.
  - intros k. rewrite elem_of_snoc, H4. split; [naive_solver|].
    intros ([?| ->] & Hmw & Ho); [naive_solver|].
    destruct Hmw as [want Ew]. destruct (map_choose want (Hm _ _ Ew)) as (s & b & Hb).
    assert (interest m s w = Some b) as Hb' by (unfold interest; by rewrite Ew).
    pose proof (H2 s w) as Hsw. rewrite Hi, Hb' in Hsw. case_decide; [|done]. naive_solver.
Qed.

Lemma removeFrom_Removed ses m pre w r :
  wf m → Removed ses m pre r → Removed ses m (pre ++ [w]) (removeFrom ses r w).
Proof.
  intros Hm HR. destruct r as [m' del]. unfold removeFrom.
  destruct (m' !! w) as [want|] eqn:E; [|by apply Removed_untracked].
  destruct (Nat.eqb_spec (size (delete ses want)) 0) as [Es|Es].
  - apply map_size_empty_inv in Es. by eapply Removed_last.
  - eapply Removed_more; [done|done|]. intros E0. by rewrite E0, map_size_empty in Es.
Qed.

Lemma removeFrom_loop ses m ws :
  wf m → Removed ses m ws (foldl (removeFrom ses) (m, []) ws).
Proof.
  intros Hm. apply foldl_inv.
  - split; cbn; [done| |constructor|].
    + intros s w. by rewrite decide_False by set_solver.
    + set_solver.
  - intros pre w post r _ Hr. by apply removeFrom_Removed.
Qed.

(** A received block is no longer wanted by the session, which stays interested. *)
Lemma interest_RemoveSessionWants ses ks m s w :
  interest (RemoveSessionWants ses ks m) s w =
    if decide (s = ses ∧ w ∈ ks ∧ interest m s w = Some true) then Some false else interest m s w.
Proof.
  unfold RemoveSessionWants. induction ks as [|k ks IH] using rev_ind; cbn [foldl].
  { rewrite decide_False; [done|]. set_solver. }
  rewrite foldl_app. cbn [foldl]. set (m' := foldl _ _ _) in *.
  assert (interest m' ses k = default ∅ (m' !! k) !! ses) as Hk by done.
  assert (interest match m' !! k with
    | Some want => match want !! ses with Some true => <[k := <[ses := false]> want]> m' | _ => m' end
    | None => m' end s w =
    if decide (s = ses ∧ w = k ∧ interest m' s w = Some true) then Some false
    else interest m' s w) as ->.
  { destruct (m' !! k) as [want|] eqn:E; cbn in Hk; [destruct (want !! ses) as [[]|] eqn:Es|].
    - rewrite interest_insert. destruct (decide (w = k)) as [->|].
      + rewrite lookup_insert. destruct (decide (ses = s)) as [->|].
        * by rewrite decide_True.
        * rewrite decide_False by naive_solver. unfold interest. by rewrite E.
      + rewrite decide_False by naive_solver. done.
    - rewrite decide_False by naive_solver. done.
    - rewrite decide_False by naive_solver. done.
    - rewrite lookup_empty in Hk. rewrite decide_False by naive_solver. done. }
  rewrite IH. repeat case_decide; rewrite ?elem_of_snoc in *; naive_solver.
Qed.

Lemma elem_of_range_keys m w : w ∈ (range m).*1 ↔ is_Some (m !! w).
Proof.
  rewrite list_elem_of_fmap. split.
  - intros ([k v] & -> & H%elem_of_range). eauto.
  - intros [v Hv]. exists (w, v). by rewrite elem_of_range.
Qed.

(** ** Queries *)

Lemma filter_loop {A} (f : A → bool) (l acc : list A) :
  foldl (λ acc x, if f x then acc ++ [x] else acc) acc l = acc ++ filter (λ x, f x) l.
Proof.
  revert acc. induction l as [|x l IH]; intros acc; cbn [foldl]; [by rewrite app_nil_r|].
  rewrite IH, filter_cons. destruct (f x); cbn; [by rewrite <- app_assoc|done].
Qed.

Lemma split_loop {A} (f : A → bool) (l a b : list A) :
  foldl (λ acc x, if f x then (acc.1 ++ [x], acc.2) else (acc.1, acc.2 ++ [x])) (a, b) l =
    (a ++ filter (λ x, f x) l, b ++ filter (λ x, negb (f x)) l).
Proof.
  revert a b. induction l as [|x l IH]; intros a b; cbn [foldl]; [by rewrite !app_nil_r|].
  rewrite !filter_cons. destruct (f x); cbn; rewrite IH; by rewrite <- !app_assoc.
Qed.

(** Some session still wants the block. *)
Definition wanted m w : bool :=
  bool_decide (Exists (λ x, x.2 = true) (map_to_list (default ∅ (m !! w)))).

Lemma interest_wanted_spec m w : wanted m w = true ↔ ∃ s, interest m s w = Some true.
Proof.
  unfold wanted, interest. rewrite bool_decide_eq_true, Exists_exists. split.
  - intros ([s b] & Hin%elem_of_map_to_list & Hb). cbn in Hb. subst. eauto.
  - intros (s & Hs). exists (s, true). by rewrite elem_of_map_to_list.
Qed.

Lemma wantedKs_spec blks m w :
  w ∈ foldl (λ wantedKs b,
      foldl (λ wantedKs x, if (x.2 : bool) then AuthSet.Add (AuthBlock_Want b) wantedKs else wantedKs)
            wantedKs (range (default ∅ (m !! AuthBlock_Want b)))) AuthSet.NewSet blks ↔
  w ∈ AuthBlock_Want <$> blks ∧ ∃ s, interest m s w = Some true.
Proof.
  induction blks as [|b blks IH] using rev_ind; [cbn; unfold AuthSet.NewSet; set_solver|].
  rewrite foldl_app, fmap_app. cbn [foldl fmap list_fmap]. set (W := foldl _ AuthSet.NewSet blks) in *.
  rewrite elem_of_snoc. set (k := AuthBlock_Want b) in *.
  assert (∀ l, w ∈ foldl (λ wantedKs x, if (x.2 : bool) then AuthSet.Add k wantedKs else wantedKs) W l ↔
    w ∈ W ∨ (w = k ∧ ∃ x : Z * bool, x ∈ l ∧ x.2 = true)) as E.
  { induction l as [|x l IHl] using rev_ind; [cbn; set_solver|].
    rewrite foldl_app. cbn [foldl]. setoid_rewrite elem_of_snoc.
    destruct x as [s []]; cbn; [unfold AuthSet.Add; rewrite elem_of_union, elem_of_singleton|];
      rewrite IHl; naive_solver. }
  rewrite E, IH. unfold interest. split.
  - intros [?|[-> ([s b'] & Hin%elem_of_range & Hb)]]; [naive_solver|]. cbn in Hb. subst. eauto.
  - intros [[?| ->] (s & Hs)]; [eauto|]. right. split; [done|]. exists (s, true). by rewrite elem_of_range.
Qed.

Lemma InterestedSessions_spec blks haves dontHaves m s :
  s ∈ InterestedSessions blks haves dontHaves m ↔
  ∃ w, w ∈ blks ++ haves ++ dontHaves ∧ is_Some (interest m s w).
Proof.
  unfold InterestedSessions. rewrite elem_of_keys. generalize (blks ++ haves ++ dontHaves) as ks.
  induction ks as [|k ks IH] using rev_ind; [cbn; set_solver|].
  rewrite foldl_app. cbn [foldl]. set (X := foldl _ _ ks) in *.
  assert (∀ l, s ∈ foldl (λ sesSet x, {[x.1]} ∪ sesSet) X l ↔ s ∈ X ∨ s ∈ (l : list (Z * bool)).*1) as E.
  { induction l as [|x l IHl] using rev_ind; [cbn; set_solver|].
    rewrite foldl_app, fmap_app. cbn. rewrite elem_of_snoc. set_solver. }
  rewrite E, IH. setoid_rewrite elem_of_snoc. unfold interest at 2.
  assert (s ∈ (range (default ∅ (m !! k))).*1 ↔ is_Some (interest m s k)) as ->.
  { unfold interest. rewrite list_elem_of_fmap. split.
    - intros ([s' v] & -> & H%elem_of_range). cbn. rewrite H. eauto.
    - intros [v Hv]. exists (s, v). by rewrite elem_of_range. }
  fold (interest m). split; [naive_solver|].
  intros (w & [?| ->] & ?); [left; eauto|by right].
Qed.

(** ** Runs *)

Inductive op :=
| Record_ ses (ks : list Want)
| RemoveSession_ ses
| RemoveWants_ ses (ks : list Want)
| RemoveInterested_ ses (ws : list Want).

Definition run_op m (o : op) : SessionInterestManager :=
  match o with
  | Record_ ses ks => RecordSessionInterest ses ks m
  | RemoveSession_ ses => (RemoveSession ses m).2
  | RemoveWants_ ses ks => RemoveSessionWants ses ks m
  | RemoveInterested_ ses ws => (RemoveSessionInterested ses ws m).2
  end.

Definition run (os : list op) : SessionInterestManager := foldl run_op New os.

Lemma wf_RemoveSessionWants ses ks m : wf m → wf (RemoveSessionWants ses ks m).
Proof.
  intros Hm. unfold RemoveSessionWants. apply (foldl_inv_simple wf); [done|].
  intros m' k _ Hm'. destruct (m' !! k) as [want|]; [|done]. destruct (want !! ses) as [[]|]; [|done..].
  intros w want'. rewrite lookup_insert. case_decide; [intros [= <-]; apply insert_non_empty|apply Hm'].
Qed.

Lemma wf_run os : wf (run os).
Proof.
  unfold run. apply (foldl_inv_simple wf); [by intros w want|].
  intros m o _ Hm. destruct o as [ses ks|ses|ses ks|ses ws]; cbn [run_op].
  - by apply wf_Record.
  - unfold RemoveSession. destruct (removeFrom_loop ses m (range m).*1 Hm) as [H _ _ _].
    by destruct (foldl (removeFrom ses) _ _).
  - by apply wf_RemoveSessionWants.
  - unfold RemoveSessionInterested. destruct (removeFrom_loop ses m ws Hm) as [H _ _ _].
    by destruct (foldl (removeFrom ses) _ _).
Qed.
(** [SplitWantedUnwanted] partitions the blocks, in order. *)
Lemma SplitWantedUnwanted_eq (blks : list AuthBlock) m :
  SplitWantedUnwanted blks m =
    (filter (λ b, wanted m (AuthBlock_Want b)) blks,
     filter (λ b, negb (wanted m (AuthBlock_Want b))) blks).
Proof.
  unfold SplitWantedUnwanted. set (W := foldl _ AuthSet.NewSet blks).
  rewrite (split_loop (λ b, AuthSet.Has W (AuthBlock_Want b))). cbn [app].
  assert (∀ b, b ∈ blks → AuthSet.Has W (AuthBlock_Want b) = wanted m (AuthBlock_Want b)) as E.
  { intros b Hb. apply eq_true_iff_eq. rewrite AuthSet.set_Has_spec, interest_wanted_spec. unfold W.
    rewrite wantedKs_spec. split; [tauto|]. intros H. split; [by apply list_elem_of_fmap_2|done]. }
  f_equal; apply filter_ext_in; intros b Hb; by rewrite E.
Qed.

(** [RemoveSession] removes the interests of the session and returns the wants
    that nobody else is interested in. *)
Lemma RemoveSession_spec ses m :
  wf m →
  let r := RemoveSession ses m in
  wf r.2 ∧ (∀ s w, interest r.2 s w = if decide (s = ses) then None else interest m s w) ∧
  NoDup r.1 ∧ (∀ w, w ∈ r.1 ↔ is_Some (m !! w) ∧ ∀ s, is_Some (interest m s w) → s = ses).
Proof.
  intros Hwf. cbn zeta. destruct (removeFrom_loop ses m (range m).*1 Hwf) as [H0 H1 H2 H3].
  unfold RemoveSession. destruct (foldl (removeFrom ses) (m, []) (range m).*1) as [m' ks].
  cbn [fst snd] in *. split_and!; [done| |done|].
  - intros s w. rewrite H1. repeat case_decide; try tauto. subst.
    destruct (m !! w) eqn:E; [|by apply interest_untracked].
    exfalso. match goal with H : ¬ _ |- _ => apply H end. split; [done|].
    apply elem_of_range_keys. eauto.
  - intros w. rewrite H3, elem_of_range_keys. tauto.
Qed.
End sim.
End SIM.
