(* ===== verification/SessionWants.v ===== *)
(** * The wants of one session
      (src/internal/session/cidqueue.go, sessionwants.go,
       peerresponsetracker.go, sentwantblockstracker.go)

    A session keeps the wants it has not sent yet in a queue with lazy deletion
    ([cidQueue]), the wants it has sent in a map with an ordering slice
    ([sessionWants]), counts which peer answered first ([peerResponseTracker])
    and which want-blocks went to which peer ([sentWantBlocksTracker]). *)
From S2P Require Import Prelude Auth Float64.
From Stdlib Require Import SpecFloat.
From stdpp Require Import options.
Set Default Goal Selector "1".

(** ** The queue *)

Module CidQueue.
Section queue.
Context {CL : CidLib}.

(** [eset] is authoritative; [elems] may hold wants already removed from it. *)
Record cidQueue := mkQueue {
  elems : list Want;
  eset : gset Cid;
}.
Implicit Types (q : cidQueue) (w : Want) (c : Cid).

Definition newCidQueue : cidQueue := {| elems := []; eset := ∅ |}.

(** The loop of [Pop]; every iteration drops the head of [elems]. *)
Fixpoint pop (es : list Want) (s : gset Cid) : Want * cidQueue :=
  match es with
  | [] => (Want_Undef, mkQueue [] s)
  | out :: es' =>
      if decide (Want_Cid out ∈ s) then (out, mkQueue es' (s ∖ {[Want_Cid out]}))
      else pop es' s
  end.
Definition Pop q : Want * cidQueue := pop (elems q) (eset q).

Definition Cids q : list Want * cidQueue :=
  let q := if bool_decide (size (eset q) < length (elems q))%nat
           then mkQueue (filter (λ w, Want_Cid w ∈ eset q) (elems q)) (eset q) else q in
  (elems q, q).

Definition Push w q : cidQueue :=
  if decide (Want_Cid w ∈ eset q) then q
  else mkQueue (elems q ++ [w]) ({[Want_Cid w]} ∪ eset q).

Definition Remove c q : cidQueue := mkQueue (elems q) (eset q ∖ {[c]}).
Definition Has c q : bool := bool_decide (c ∈ eset q).
Definition Len q : Z := Z.of_nat (size (eset q)).

(** Every member of the set is somewhere in the slice. *)
Definition wf q : Prop := ∀ c, c ∈ eset q → c ∈ Want_Cid <$> elems q.

Lemma queue_Has_spec c q : Has c q = true ↔ c ∈ eset q.
Proof. apply bool_decide_eq_true. Qed.

Lemma wf_newCidQueue : wf newCidQueue.
Proof. intros c. cbn. set_solver. Qed.

Lemma wf_Push w q : wf q → wf (Push w q).
Proof.
  intros Hq. unfold Push. case_decide; [done|]. intros c. cbn. rewrite fmap_app. cbn.
  specialize (Hq c). rewrite elem_of_snoc. set_solver.
Qed.

Lemma wf_queue_Remove c q : wf q → wf (Remove c q).
Proof. intros Hq c'. cbn. specialize (Hq c'). set_solver. Qed.

Lemma wf_Cids q : wf q → wf (Cids q).2.
Proof.
  intros Hq. unfold Cids. cbn. case_bool_decide; [|done]. intros c Hc. cbn in *.
  apply list_elem_of_fmap. destruct (proj1 (list_elem_of_fmap _ _ _) (Hq c Hc)) as (w & -> & Hw).
  exists w. rewrite list_elem_of_filter. done.
Qed.

(** [Pop] of a queue with a member returns the first want of the slice whose cid
    is a member. *)
Lemma pop_spec q :
  wf q → eset q ≠ ∅ →
  ∃ pre w post,
    elems q = pre ++ w :: post ∧
    Want_Cid w ∈ eset q ∧ (∀ x, x ∈ pre → Want_Cid x ∉ eset q) ∧
    Pop q = (w, mkQueue post (eset q ∖ {[Want_Cid w]})) ∧ wf (Pop q).2.
Proof.
  intros Hq (c & Hc)%set_choose_L. specialize (Hq) as Hq'. specialize (Hq' c Hc).
  unfold Pop, wf in *. destruct q as [es s]. cbn in *.
  induction es as [|w es IH]; cbn in *; [by apply elem_of_nil in Hq'|].
  case_decide as Hw.
  - exists [], w, es. split_and!; [done|done|set_solver|done|]. cbn. intros c'.
    specialize (Hq c'). set_solver.
  - destruct IH as (pre & w' & post & E & H1 & H2 & H3 & H4).
    + intros c' Hc'. specialize (Hq c' Hc'). set_solver.
    + set_solver.
    + exists (w :: pre), w', post. split_and!; [by rewrite E|done| |done|done].
      intros x [->|Hx]%elem_of_cons; [done|]. by apply H2.
Qed.

Lemma pop_empty q : eset q = ∅ → Pop q = (Want_Undef, mkQueue [] ∅).
Proof.
  destruct q as [es s]. unfold Pop. cbn. intros ->. induction es as [|w es IH]; cbn; [done|].
  by rewrite decide_False by set_solver.
Qed.
End queue.
End CidQueue.

(** ** Pending and live wants *)

Module SW.
Section sw.
Context {CL : CidLib} {GO : GoRuntime}.

Definition liveWantsOrderGCLimit : Z := 32.

Record sessionWants := mkSW {
  toFetch : CidQueue.cidQueue;
  liveWants : gmap Want Time;
  liveWantsOrder : list Want;
  broadcastLimit : Z;
}.
Implicit Types (s : sessionWants) (w : Want) (ks : list Want) (now : Time).

Definition set_toFetch (q : CidQueue.cidQueue) s : sessionWants :=
  mkSW q (liveWants s) (liveWantsOrder s) (broadcastLimit s).
Definition set_live (m : gmap Want Time) s : sessionWants :=
  mkSW (toFetch s) m (liveWantsOrder s) (broadcastLimit s).
Definition set_order (o : list Want) s : sessionWants :=
  mkSW (toFetch s) (liveWants s) o (broadcastLimit s).

Definition newSessionWants (limit : Z) : sessionWants :=
  {| toFetch := CidQueue.newCidQueue; liveWants := ∅; liveWantsOrder := [];
     broadcastLimit := limit |}.

Definition BlocksRequested (newWants : list Want) s : sessionWants :=
  foldl (λ s k, set_toFetch (CidQueue.Push k (toFetch s)) s) s newWants.

(** The loop of [GetNextWants]; [n] is the number of iterations [toAdd] still
    allows. *)
Fixpoint getNext (n : nat) now (live : list Want) s : list Want * sessionWants :=
  match n with
  | O => (live, s)
  | S n' =>
      if (0 <? CidQueue.Len (toFetch s))%Z then
        let '(c, q) := CidQueue.Pop (toFetch s) in
        getNext n' now (live ++ [c])
          (mkSW q (<[c := now]> (liveWants s)) (liveWantsOrder s ++ [c]) (broadcastLimit s))
      else (live, s)
  end.

Definition GetNextWants now s : list Want * sessionWants :=
  let currentLiveCount := Z.of_nat (size (liveWants s)) in
  let toAdd := (broadcastLimit s - currentLiveCount)%Z in
  getNext (Z.to_nat toAdd) now [] s.

Definition WantsSent now ks s : sessionWants :=
  foldl (λ s c,
      match liveWants s !! c with
      | None =>
          if CidQueue.Has (Want_Cid c) (toFetch s) then
            mkSW (CidQueue.Remove (Want_Cid c) (toFetch s)) (<[c := now]> (liveWants s))
                 (liveWantsOrder s ++ [c]) (broadcastLimit s)
          else s
      | Some _ => s
      end) s ks.

Definition isWanted w s : bool :=
  match liveWants s !! w with
  | Some _ => true
  | None => CidQueue.Has (Want_Cid w) (toFetch s)
  end.

(** One iteration of the loop of [BlocksReceived]: wanted keys, total latency and
    the state. *)
Definition receive now (acc : list Want * Duration * sessionWants) w
  : list Want * Duration * sessionWants :=
  let '(wanted, total, s) := acc in
  if isWanted w s then
    let total := match liveWants s !! w with
                 | Some sentAt => if negb (Time_IsZero sentAt) then int64 (total + Time_Sub now sentAt) else total
                 | None => total
                 end in
    (wanted ++ [w], total,
     set_toFetch (CidQueue.Remove (Want_Cid w) (toFetch s)) (set_live (delete w (liveWants s)) s))
  else acc.

Definition gcOrder s : sessionWants :=
  if (liveWantsOrderGCLimit <? len (liveWantsOrder s) - Z.of_nat (size (liveWants s)))%Z
  then set_order (filter (λ w, is_Some (liveWants s !! w)) (liveWantsOrder s)) s
  else s.

Definition BlocksReceived now ks s : list Want * Duration * sessionWants :=
  if (len ks =? 0)%Z then ([], 0%Z, s)
  else
    let '(wanted, total, s) := foldl (receive now) ([], 0%Z, s) ks in
    (wanted, total, gcOrder s).

(** The loop of [PrepareBroadcast], which stops once the limit is reached. *)
Fixpoint prepare (order : list Want) (limit : Z) now (live : list Want) (m : gmap Want Time)
  : list Want * gmap Want Time :=
  match order with
  | [] => (live, m)
  | c :: order' =>
      match m !! c with
      | Some _ =>
          let m := <[c := now]> m in
          let live := live ++ [c] in
          if (len live =? limit)%Z then (live, m) else prepare order' limit now live m
      | None => prepare order' limit now live m
      end
  end.

Definition PrepareBroadcast now s : list Want * sessionWants :=
  let '(live, m) := prepare (liveWantsOrder s) (broadcastLimit s) now [] (liveWants s) in
  (live, set_live m s).

Definition CancelPending (cs : list Cid) s : sessionWants :=
  foldl (λ s k, set_toFetch (CidQueue.Remove k (toFetch s)) s) s cs.

Definition LiveWants s : list Want := (range (liveWants s)).*1.

(** [i] is the result of [rand.Intn(len(sw.liveWantsOrder))]. *)
Definition RandomLiveWant (i : nat) s : Want :=
  if (len (liveWantsOrder s) =? 0)%Z then Want_Undef
  else default Want_Undef (liveWantsOrder s !! i).

Definition HasLiveWants s : bool := (0 <? Z.of_nat (size (liveWants s)))%Z.

(** ** Facts *)

(** The queue is well formed and every live want is in the ordering slice. *)
Record wf s : Prop := mkWf {
  wf_queue : CidQueue.wf (toFetch s);
  wf_order : ∀ w, is_Some (liveWants s !! w) → w ∈ liveWantsOrder s;
}.

Abbreviation pending s := (CidQueue.eset (toFetch s)).

Lemma isWanted_spec w s : isWanted w s = true ↔ is_Some (liveWants s !! w) ∨ Want_Cid w ∈ pending s.
Proof.
  unfold isWanted. destruct (liveWants s !! w) as [t|].
  - split; [left; eauto|done].
  - rewrite CidQueue.queue_Has_spec. split; [by right|]. intros [[? ?]|?]; done.
Qed.

(** A want that becomes live is entered in both the map and the slice. *)
Lemma wf_goLive s q now w :
  wf s → CidQueue.wf q →
  wf (mkSW q (<[w := now]> (liveWants s)) (liveWantsOrder s ++ [w]) (broadcastLimit s)).
Proof.
  intros [_ Ho] Hq. split; cbn; [done|]. intros w'. rewrite lookup_insert, elem_of_snoc.
  case_decide; [auto|]. left. auto.
Qed.

Lemma wf_newSessionWants n : wf (newSessionWants n).
Proof. split; [apply CidQueue.wf_newCidQueue|]. cbn. intros w [? E]. by rewrite lookup_empty in E. Qed.

Lemma wf_BlocksRequested ks s : wf s → wf (BlocksRequested ks s).
Proof.
  intros Hs. apply (foldl_inv_simple wf); [done|]. intros s' w _ [H1 H2].
  split; [by apply CidQueue.wf_Push|done].
Qed.

Lemma wf_CancelPending cs s : wf s → wf (CancelPending cs s).
Proof.
  intros Hs. apply (foldl_inv_simple wf); [done|]. intros s' w _ [H1 H2].
  split; [by apply CidQueue.wf_queue_Remove|done].
Qed.

Lemma wf_WantsSent now ks s : wf s → wf (WantsSent now ks s).
Proof.
  intros Hs. apply (foldl_inv_simple wf); [done|]. intros s' w _ Hs'.
  destruct (liveWants s' !! w); [done|]. case_match; [|done].
  apply wf_goLive; [done|]. apply CidQueue.wf_queue_Remove, Hs'.
Qed.

(** The newly live wants of one call. *)
Record NextWants (n : nat) s (new : list Want) s' : Prop := {
  nw_wf : wf s';
  nw_limit : broadcastLimit s' = broadcastLimit s;
  nw_length : (length new ≤ n)%nat;
  nw_size : (size (liveWants s') ≤ size (liveWants s) + length new)%nat;
  nw_pending : pending s' = pending s ∖ list_to_set (Want_Cid <$> new);
  nw_from : ∀ w, w ∈ new → Want_Cid w ∈ pending s ∧ is_Some (liveWants s' !! w);
  nw_NoDup : NoDup (Want_Cid <$> new);
  nw_keep : ∀ w, is_Some (liveWants s !! w) → is_Some (liveWants s' !! w);
  nw_all : (length new < n)%nat → pending s' = ∅;
}.

Lemma getNext_spec n now live s :
  wf s → ∃ new s', getNext n now live s = (live ++ new, s') ∧ NextWants n s new s'.
Proof.
  revert live s. induction n as [|n IH]; intros live s Hs; cbn [getNext].
  { exists [], s. rewrite app_nil_r. split; [done|].
    split; cbn; try done; [lia|set_solver|set_solver|constructor|lia]. }
  unfold CidQueue.Len. destruct (0 <? _)%Z eqn:El.
  - assert (pending s ≠ ∅) as Hne by (intros E; by rewrite E, size_empty in El).
    destruct (CidQueue.pop_spec _ (wf_queue _ Hs) Hne) as (pre & w & post & _ & Hw & _ & Ep & Hq).
    rewrite Ep in *. cbn [snd] in Hq. set (q := CidQueue.mkQueue _ _) in *.
    pose proof (wf_goLive s q now w Hs Hq) as Hs1. set (s1 := mkSW _ _ _ _) in *.
    destruct (IH (live ++ [w]) s1 Hs1) as (new & s' & -> & [H1 H2 H3 H4 H5 H6 H7 H8 H9]).
    exists (w :: new), s'. rewrite <- app_assoc. split; [done|]. split; [done|done|cbn; lia|..].
    + cbn in *. rewrite map_size_insert in H4. case_match; cbn in *; lia.
    + rewrite H5. cbn. set_solver.
    + intros x [->|Hx]%elem_of_cons.
      * split; [done|]. apply H8. cbn. rewrite lookup_insert_eq. eauto.
      * destruct (H6 x Hx) as [Hx' ?]. split; [cbn in Hx'; set_solver|done].
    + cbn. constructor; [|done]. intros (x & Ex & Hx)%list_elem_of_fmap.
      destruct (H6 x Hx) as [Hx' _]. cbn in Hx'. rewrite <- Ex in Hx'. set_solver.
    + intros x Hx. apply H8. cbn. rewrite lookup_insert. case_decide; eauto.
    + intros Hlt. apply H9. cbn in Hlt. lia.
  - exists [], s. rewrite app_nil_r. split; [done|].
    split; cbn; try done; [lia|lia|set_solver|set_solver|constructor|].
    intros _. apply leibniz_equiv, size_empty_inv. lia.
Qed.

(** The loop of [BlocksReceived], after the keys [done]. *)
Record Received s (done : list Want) (r : list Want * Duration * sessionWants) : Prop := {
  rc_wf : wf r.2;
  rc_limit : broadcastLimit r.2 = broadcastLimit s;
  rc_live : ∀ w, liveWants r.2 !! w = if decide (w ∈ done) then None else liveWants s !! w;
  rc_pending : pending r.2 = pending s ∖ list_to_set (Want_Cid <$> done);
  rc_NoDup : NoDup r.1.1;
  rc_wanted : ∀ w, w ∈ r.1.1 → w ∈ done ∧ isWanted w s = true;
  rc_lives : ∀ w, w ∈ done → is_Some (liveWants s !! w) → w ∈ r.1.1;
  rc_cids : ∀ w, w ∈ done → Want_Cid w ∈ pending s → Want_Cid w ∈ Want_Cid <$> r.1.1;
}.

Lemma receive_not_wanted s done r w : Received s done r → w ∈ r.1.1 → isWanted w r.2 = false.
Proof.
  intros HR Hw. apply not_true_is_false. rewrite isWanted_spec, (rc_live _ _ _ HR), (rc_pending _ _ _ HR).
  destruct (rc_wanted _ _ _ HR w Hw) as [Hd _]. rewrite decide_True by done.
  intros [[? ?]|Hp]; [done|]. apply elem_of_difference in Hp as [_ Hp]. apply Hp.
  apply elem_of_list_to_set, list_elem_of_fmap_2. done.
Qed.

Lemma receive_Received now s done r w :
  Received s done r → Received s (done ++ [w]) (receive now r w).
Proof.
  intros HR. pose proof (receive_not_wanted s done r w HR) as Hnw.
  destruct HR as [H1 H2 H3 H4 H5 H6 H7 H8]. destruct r as [[wanted total] s']. cbn [fst snd] in *.
  unfold receive. destruct (isWanted w s') eqn:Ew.
  - split; cbn [fst snd].
    + destruct H1 as [Hq Ho]. split; [by apply CidQueue.wf_queue_Remove|]. cbn. intros x.
      rewrite lookup_delete. case_decide; [by intros [? ?]|apply Ho].
    + done.
    + intros x. cbn. rewrite lookup_delete, H3. clear -GO.
      repeat case_decide; rewrite ?elem_of_snoc in *; naive_solver.
    + cbn. rewrite H4, fmap_app, list_to_set_app_L. cbn. set_solver.
    + apply NoDup_app. split; [done|]. split; [|apply NoDup_singleton].
      intros x Hx ->%list_elem_of_singleton. by specialize (Hnw Hx).
    + intros x [Hx| ->]%elem_of_snoc; [destruct (H6 x Hx); split; [set_solver|done]|].
      split; [set_solver|]. apply isWanted_spec in Ew. apply isWanted_spec.
      rewrite H3, H4 in Ew. destruct Ew as [Ew|Ew]; [left; by case_decide; [destruct Ew|]|set_solver].
    + intros x Hx Hl. apply elem_of_snoc. apply elem_of_snoc in Hx as [Hx| ->]; [left; auto|by right].
    + intros x Hx Hl. rewrite fmap_app. cbn. apply elem_of_snoc.
      apply elem_of_snoc in Hx as [Hx| ->]; [left; auto|by right].
  - apply not_true_iff_false in Ew. rewrite isWanted_spec, H3, H4 in Ew.
    assert (w ∉ done → ¬ is_Some (liveWants s !! w)) as Hl.
    { intros Hd Hs. apply Ew. left. by rewrite decide_False. }
    assert (Want_Cid w ∉ pending s ∨ Want_Cid w ∈ Want_Cid <$> done) as Hp.
    { destruct (decide (Want_Cid w ∈ pending s)) as [Hp|]; [|by left]. right. apply dec_stable. intros Hn.
      apply Ew. right. set_solver. }
    split; cbn [fst snd]; [done|done| | |done| | |].
    + intros x. rewrite H3.
      destruct (decide (x ∈ done)) as [Hd|Hd], (decide (x ∈ done ++ [w])) as [Hd'|Hd'];
        rewrite elem_of_snoc in Hd'; try tauto.
      assert (x = w) as -> by tauto. destruct (liveWants s !! w) eqn:Ex; [|done]. exfalso.
      apply Hl; eauto.
    + rewrite H4, fmap_app, list_to_set_app_L. cbn. set_solver.
    + intros x Hx. destruct (H6 x Hx). split; [apply elem_of_snoc; by left|done].
    + intros x [Hx| ->]%elem_of_snoc Hs; [auto|].
      destruct (decide (w ∈ done)); [auto|]. by destruct Hl.
    + intros x [Hx| ->]%elem_of_snoc Hs; [auto|]. destruct Hp as [?|Hp]; [done|].
      apply list_elem_of_fmap in Hp as (y & Ey & Hy). rewrite Ey in *. auto.
Qed.

Lemma receive_loop now ks s : wf s → Received s ks (foldl (receive now) ([], 0%Z, s) ks).
Proof.
  intros Hs. apply foldl_inv.
  - split; cbn; [done|done| |by rewrite difference_empty_L|constructor| | |];
      intros w; [by rewrite decide_False by apply not_elem_of_nil|..]; by intros ?%elem_of_nil.
  - intros pre w post r _. apply receive_Received.
Qed.

Lemma wf_gcOrder s : wf s → wf (gcOrder s).
Proof.
  intros [H1 H2]. unfold gcOrder. case_match; [|done]. split; cbn; [done|].
  intros w Hw. apply list_elem_of_filter. auto.
Qed.

Lemma gcOrder_Received s done wanted total s' :
  Received s done (wanted, total, s') → Received s done (wanted, total, gcOrder s').
Proof.
  intros [H1 H2 H3 H4 H5 H6 H7 H8]. cbn [fst snd] in *.
  split; cbn [fst snd]; [by apply wf_gcOrder|..]; unfold gcOrder; try case_match; done.
Qed.

Lemma BlocksReceived_spec now ks s : wf s → Received s ks (BlocksReceived now ks s).
Proof.
  intros Hs. unfold BlocksReceived. pose proof (receive_loop now ks s Hs) as HR.
  destruct (len ks =? 0)%Z eqn:E; [by apply len_eqb_nil in E as ->|].
  destruct (foldl _ _ ks) as [[wanted total] s']. by apply gcOrder_Received.
Qed.

(** The loop of [PrepareBroadcast] over the slice [order]. *)
Lemma prepare_spec order limit now live m :
  (0 < limit → len live < limit)%Z →
  ∃ new m',
    prepare order limit now live m = (live ++ new, m') ∧
    (∀ w, w ∈ new → w ∈ order ∧ is_Some (m !! w)) ∧
    (∀ w, m' !! w = if decide (w ∈ new) then Some now else m !! w) ∧
    (0 < limit → len (live ++ new) ≤ limit)%Z ∧
    (len (live ++ new) = limit ∨ ∀ w, w ∈ order → is_Some (m !! w) → w ∈ new).
Proof.
  revert live m. induction order as [|c order IH]; intros live m Hl; cbn [prepare].
  { exists [], m. rewrite app_nil_r. split_and!; [done|by intros w ?%elem_of_nil| |lia|right; by intros w ?%elem_of_nil].
    intros w. by rewrite decide_False by apply not_elem_of_nil. }
  destruct (m !! c) as [t|] eqn:Ec.
  - assert (∀ w, <[c := now]> m !! w = if decide (w ∈ [c]) then Some now else m !! w) as Hm1.
    { intros w. rewrite lookup_insert. repeat case_decide; set_solver. }
    destruct (len (live ++ [c]) =? limit)%Z eqn:El.
    + apply Z.eqb_eq in El. exists [c], (<[c := now]> m). split_and!; [done| |done|lia|left; lia].
      intros w ->%list_elem_of_singleton. split; [left|eauto].
    + destruct (IH (live ++ [c]) (<[c := now]> m)) as (new & m' & -> & H1 & H2 & H3 & H4).
      { apply Z.eqb_neq in El. unfold len in *. rewrite length_app in *. cbn [length] in *. lia. }
      exists (c :: new), m'. rewrite <- app_assoc in *. cbn in *. split_and!; [done| | |done|].
      * intros w [->|Hw]%elem_of_cons; [split; [left|eauto]|]. destruct (H1 w Hw) as [Hi Hs].
        split; [by right|]. rewrite Hm1 in Hs. case_decide; [|done].
        assert (w = c) as -> by set_solver. eauto.
      * intros w. rewrite H2, Hm1. repeat case_decide; set_solver.
      * destruct H4 as [?|H4]; [by left|right]. intros w [->|Hw]%elem_of_cons Hs; [left|right].
        apply H4; [done|]. rewrite Hm1. case_decide; eauto.
  - destruct (IH live m Hl) as (new & m' & -> & H1 & H2 & H3 & H4).
    exists new, m'. split_and!; [done| |done|done|].
    + intros w Hw. destruct (H1 w Hw). split; [by right|done].
    + destruct H4 as [?|H4]; [by left|right]. intros w [->|Hw]%elem_of_cons Hs; [|auto].
      rewrite Ec in Hs. by destruct Hs.
Qed.

Lemma wf_PrepareBroadcast now s : (0 ≤ broadcastLimit s)%Z → wf s → wf (PrepareBroadcast now s).2.
Proof.
  intros Hl [H1 H2]. unfold PrepareBroadcast.
  destruct (prepare_spec (liveWantsOrder s) (broadcastLimit s) now [] (liveWants s))
    as (new & m' & -> & Hn & Hm & _); [done|]. cbn. split; [done|]. cbn.
  intros w. rewrite Hm. case_decide as Hw; [|apply H2]. intros _. by apply Hn.
Qed.

(** ** Runs *)

Inductive step : relation sessionWants :=
| st_BlocksRequested ks s : step s (BlocksRequested ks s)
| st_GetNextWants now s : step s (GetNextWants now s).2
| st_WantsSent now ks s : step s (WantsSent now ks s)
| st_BlocksReceived now ks s : step s (BlocksReceived now ks s).2
| st_PrepareBroadcast now s : step s (PrepareBroadcast now s).2
| st_CancelPending cs s : step s (CancelPending cs s).

Lemma limit_step s s' : step s s' → wf s → broadcastLimit s' = broadcastLimit s.
Proof.
  destruct 1; intros Hs.
  - apply (foldl_inv_simple (λ s', broadcastLimit s' = broadcastLimit s)); by intros.
  - unfold GetNextWants. edestruct getNext_spec as (? & ? & -> & HN); [done|]. apply HN.
  - apply (foldl_inv_simple (λ s', broadcastLimit s' = broadcastLimit s)); [done|].
    intros s' w _ E. repeat case_match; done.
  - by apply BlocksReceived_spec.
  - unfold PrepareBroadcast. by destruct (prepare _ _ _ _ _).
  - apply (foldl_inv_simple (λ s', broadcastLimit s' = broadcastLimit s)); by intros.
Qed.

Lemma wf_step s s' : step s s' → (0 ≤ broadcastLimit s)%Z → wf s → wf s'.
Proof.
  destruct 1; intros Hl Hs.
  - by apply wf_BlocksRequested.
  - unfold GetNextWants. edestruct getNext_spec as (? & ? & -> & HN); [done|]. apply HN.
  - by apply wf_WantsSent.
  - by apply BlocksReceived_spec.
  - by apply wf_PrepareBroadcast.
  - by apply wf_CancelPending.
Qed.

Lemma wf_reachable s s' : rtc step s s' → (0 ≤ broadcastLimit s)%Z → wf s → wf s'.
Proof.
  induction 1 as [|s1 s2 s3 Hs _ IH]; [done|]. intros Hl Hw. apply IH; [|by eapply wf_step].
  by rewrite (limit_step _ _ Hs Hw).
Qed.

Lemma limit_reachable s s' :
  rtc step s s' → (0 ≤ broadcastLimit s)%Z → wf s → broadcastLimit s' = broadcastLimit s.
Proof.
  induction 1 as [|s1 s2 s3 Hs _ IH]; [done|]. intros Hl Hw.
  rewrite <- (limit_step _ _ Hs Hw). apply IH; [|by eapply wf_step].
  by rewrite (limit_step _ _ Hs Hw).
Qed.
End sw.
End SW.

(** ** First responders and sent want-blocks *)

Module PRT.
Abbreviation peerResponseTracker := (gmap PeerID Z).
Section prt.

Implicit Types (t : peerResponseTracker) (p : PeerID).

Definition newPeerResponseTracker : peerResponseTracker := ∅.

Definition receivedBlockFrom (from : PeerID) t : peerResponseTracker :=
  <[from := int64 (default 0%Z (t !! from) + 1)]> t.

Definition getPeerCount p t : Z := match t !! p with Some count => count | None => 1%Z end.

(** The second loop of [choose]; [rnd] is the result of [rand.Float64()]. *)
Fixpoint pick (ps : list PeerID) (total : Z) (rnd counted : spec_float) t : option PeerID :=
  match ps with
  | [] => None
  | p :: ps' =>
      let counted := F64.add counted (F64.div (F64.of_Z (getPeerCount p t)) (F64.of_Z total)) in
      if F64.gtb counted rnd then Some p else pick ps' total rnd counted t
  end.

Definition choose (rnd : spec_float) (peers : list PeerID) t : PeerID :=
  if (len peers =? 0)%Z then ""
  else
    let total := foldl (λ total p, int64 (total + getPeerCount p t)) 0%Z peers in
    match pick peers total rnd (S754_zero false) t with
    | Some p => p
    | None => default "" (last peers)
    end.

Lemma pick_elem ps total rnd counted t p : pick ps total rnd counted t = Some p → p ∈ ps.
Proof.
  revert counted. induction ps as [|p' ps IH]; intros counted; cbn [pick]; [done|].
  case_match; [intros [= ->]; left|intros Hp; right; eauto].
Qed.

Lemma choose_elem rnd peers t : peers ≠ [] → choose rnd peers t ∈ peers.
Proof.
  intros Hne. unfold choose. destruct (len peers =? 0)%Z eqn:E; [by apply len_eqb_nil in E|].
  destruct (pick _ _ _ _ _) as [p|] eqn:Ep; [by eapply pick_elem|].
  destruct (last peers) as [p|] eqn:El; [by apply last_Some_elem_of|].
  by apply last_None in El.
Qed.
End prt.
End PRT.

Module SentWants.
Abbreviation sentWantBlocksTracker := (gmap PeerID (gset Want)).
Section swbt.
Context {CL : CidLib}.


Definition newSentWantBlocksTracker : sentWantBlocksTracker := ∅.

Definition addSentWantBlocksTo (p : PeerID) (ks : list Want) (t : sentWantBlocksTracker)
  : sentWantBlocksTracker :=
  let cids := default ∅ (t !! p) in
  <[p := foldl (λ cids c, {[c]} ∪ cids) cids ks]> t.

Definition haveSentWantBlockTo (p : PeerID) (w : Want) (t : sentWantBlocksTracker) : bool :=
  bool_decide (w ∈ default (∅ : gset Want) (t !! p)).

Lemma haveSent_add p ks t p' w :
  haveSentWantBlockTo p' w (addSentWantBlocksTo p ks t) = true ↔
  haveSentWantBlockTo p' w t = true ∨ (p' = p ∧ w ∈ ks).
Proof.
  unfold haveSentWantBlockTo, addSentWantBlocksTo. rewrite !bool_decide_eq_true, lookup_insert.
  assert (∀ X : gset Want, w ∈ foldl (λ cids c, {[c]} ∪ cids) X ks ↔ w ∈ X ∨ w ∈ ks) as E.
  { induction ks as [|k ks IH]; intros X; cbn; [set_solver|]. rewrite IH. set_solver. }
  case_decide; cbn; [subst; rewrite E|]; naive_solver.
Qed.
End swbt.
End SentWants.
