(* ===== verification/SessionPeers.v ===== *)
(** * The peers of one session
      (src/internal/sessionpeermanager/sessionpeermanager.go)

    [SessionPeerManager] keeps the set of peers of a session and asks the
    connection manager, through [PeerTagger], to keep their connections.  The
    calls on the tagger are returned in order. *)
From S2P Require Import Prelude Auth.
From stdpp Require Import pretty.
Set Default Goal Selector "1".

Inductive tcall :=
| TagPeer (p : PeerID) (tag : string) (v : Z)
| UntagPeer (p : PeerID) (tag : string)
| Protect (p : PeerID) (tag : string)
| Unprotect (p : PeerID) (tag : string).

Module SPM.
Section spm.
Context {GO : GoRuntime}.

Definition sessionPeerTagValue : Z := 5.

Record SessionPeerManager := mkSPM {
  id : Z;
  tag : string;
  peers : gset PeerID;
  peersDiscovered : bool;
}.
Implicit Types (s : SessionPeerManager) (p : PeerID).

Definition New (id : Z) : SessionPeerManager :=
  {| id := id; tag := "bs-ses-" +:+ pretty id; peers := ∅; peersDiscovered := false |}.

Definition AddPeer p s : bool * SessionPeerManager * list tcall :=
  if decide (p ∈ peers s) then (false, s, [])
  else (true, mkSPM (id s) (tag s) ({[p]} ∪ peers s) true, [TagPeer p (tag s) sessionPeerTagValue]).

Definition ProtectConnection p s : list tcall :=
  if decide (p ∈ peers s) then [Protect p (tag s)] else [].

Definition RemovePeer p s : bool * SessionPeerManager * list tcall :=
  if decide (p ∈ peers s)
  then (true, mkSPM (id s) (tag s) (peers s ∖ {[p]}) (peersDiscovered s),
        [UntagPeer p (tag s); Unprotect p (tag s)])
  else (false, s, []).

Definition PeersDiscovered s : bool := peersDiscovered s.
Definition Peers s : list PeerID := keys (peers s).
Definition HasPeers s : bool := (0 <? size (peers s))%nat.
Definition HasPeer p s : bool := bool_decide (p ∈ peers s).

Definition Shutdown s : list tcall :=
  keys (peers s) ≫= λ p, [UntagPeer p (tag s); Unprotect p (tag s)].

(** ** What the connection manager holds for the session's tag *)

Definition tagged (t : string) (X : gset PeerID) (e : tcall) : gset PeerID :=
  match e with
  | TagPeer p t' _ => if decide (t' = t) then {[p]} ∪ X else X
  | UntagPeer p t' => if decide (t' = t) then X ∖ {[p]} else X
  | _ => X
  end.
Definition protected (t : string) (X : gset PeerID) (e : tcall) : gset PeerID :=
  match e with
  | Protect p t' => if decide (t' = t) then {[p]} ∪ X else X
  | Unprotect p t' => if decide (t' = t) then X ∖ {[p]} else X
  | _ => X
  end.

Inductive step : relation (SessionPeerManager * list tcall) :=
| st_AddPeer p s tr : step (s, tr) ((AddPeer p s).1.2, tr ++ (AddPeer p s).2)
| st_Protect p s tr : step (s, tr) (s, tr ++ ProtectConnection p s)
| st_RemovePeer p s tr : step (s, tr) ((RemovePeer p s).1.2, tr ++ (RemovePeer p s).2).

(** Exactly the session's peers are tagged, and only they are protected. *)
Record Inv s (tr : list tcall) : Prop := mkInv {
  inv_tagged : foldl (tagged (tag s)) ∅ tr = peers s;
  inv_protected : foldl (protected (tag s)) ∅ tr ⊆ peers s;
  inv_discovered : peersDiscovered s = false → peers s = ∅;
}.

Lemma tags_step x y : step x y → Inv x.1 x.2 → Inv y.1 y.2.
Proof.
  destruct 1 as [p s tr|p s tr|p s tr]; cbn [fst snd]; intros [H1 H2 H3].
  - unfold AddPeer. case_decide; cbn [fst snd]; [rewrite app_nil_r; by split|].
    split; cbn; rewrite ?foldl_app; cbn; [rewrite decide_True by done; set_solver|set_solver|done].
  - unfold ProtectConnection. case_decide; [|rewrite app_nil_r; by split].
    split; rewrite ?foldl_app; cbn; [done|rewrite decide_True by done; set_solver|done].
  - unfold RemovePeer. case_decide; cbn [fst snd]; [|rewrite app_nil_r; by split].
    split; cbn; rewrite ?foldl_app; cbn; rewrite ?decide_True by done; set_solver.
Qed.

Lemma tags_reachable x y : rtc step x y → Inv x.1 x.2 → Inv y.1 y.2.
Proof. induction 1 as [|x y z Hs _ IH]; [done|]. intros HI. apply IH. by eapply tags_step. Qed.

Lemma tags_new n : Inv (New n) [].
Proof. split; done. Qed.

Lemma tag_step x y : step x y → tag y.1 = tag x.1.
Proof.
  destruct 1; cbn; [|done|]; unfold AddPeer, RemovePeer; by case_decide.
Qed.

(** Running the calls of [Shutdown] removes every peer of the session. *)
Lemma Shutdown_untags s X :
  foldl (tagged (tag s)) X (Shutdown s) = X ∖ peers s ∧
  foldl (protected (tag s)) X (Shutdown s) = X ∖ peers s.
Proof.
  assert (∀ (l : list PeerID) Y,
    foldl (tagged (tag s)) Y (l ≫= λ p, [UntagPeer p (tag s); Unprotect p (tag s)]) =
      Y ∖ list_to_set l ∧
    foldl (protected (tag s)) Y (l ≫= λ p, [UntagPeer p (tag s); Unprotect p (tag s)]) =
      Y ∖ list_to_set l) as E.
  { induction l as [|p l IH]; intros Y; [cbn; split; set_solver|].
    rewrite bind_cons, !foldl_app. destruct (IH (Y ∖ {[p]})) as [IH1 IH2]. cbn.
    rewrite !decide_True by done. rewrite IH1, IH2. split; set_solver. }
  unfold Shutdown. destruct (E (keys (peers s)) X) as [-> ->].
  assert (list_to_set (keys (peers s)) = peers s) as ->; [|done].
  apply set_eq. intros p. by rewrite elem_of_list_to_set, elem_of_keys.
Qed.
End spm.
End SPM.
