(* ===== verification/ConnectEvents.v ===== *)
(** * Connection events (src/network/connecteventmanager.go)

    libp2p reports every connection and disconnection of a peer, and the network
    layer reports unresponsive peers; [connectEventManager] turns these into
    strictly alternating [PeerConnected] and [PeerDisconnected] calls on its
    listener. *)
From S2P Require Import Prelude Auth.
Open Scope Z_scope.

Module CEM.

Record connState := mkConn {
  refs : Z;
  responsive : bool;
}.

(** A call on the [ConnectionListener]. *)
Inductive lcall :=
| PeerConnected (p : PeerID)
| PeerDisconnected (p : PeerID).

Abbreviation connectEventManager := (gmap PeerID connState).
Implicit Types (c : connectEventManager) (p : PeerID).

Definition newConnectEventManager : connectEventManager := ∅.

Definition Connected p c : connectEventManager * list lcall :=
  let state := match c !! p with Some state => state | None => mkConn 0 true end in
  let state := mkConn (refs state + 1) (responsive state) in
  (<[p := state]> c, if (refs state =? 1) && responsive state then [PeerConnected p] else []).

Definition Disconnected p c : connectEventManager * list lcall :=
  match c !! p with
  | None => (c, [])
  | Some state =>
      let state := mkConn (refs state - 1) (responsive state) in
      if refs state =? 0
      then (delete p c, if responsive state then [PeerDisconnected p] else [])
      else (<[p := state]> c, [])
  end.

Definition MarkUnresponsive p c : connectEventManager * list lcall :=
  match c !! p with
  | None => (c, [])
  | Some state =>
      if negb (responsive state) then (c, [])
      else (<[p := mkConn (refs state) false]> c, [PeerDisconnected p])
  end.

(** [OnMessage] first looks under the read lock whether there is anything to do,
    and checks again under the write lock. *)
Definition OnMessage_check p c : bool :=
  match c !! p with
  | None => false
  | Some state => negb (responsive state)
  end.

Definition OnMessage_update p c : connectEventManager * list lcall :=
  match c !! p with
  | None => (c, [])
  | Some state =>
      if responsive state then (c, [])
      else (<[p := mkConn (refs state) true]> c, [PeerConnected p])
  end.

(** Without interference between the two locks. *)
Definition OnMessage p c : connectEventManager * list lcall :=
  if OnMessage_check p c then OnMessage_update p c else (c, []).

(** ** What the listener sees *)

(** The peers the listener was last told are connected; [None] when it was told
    something it already knew. *)
Definition listen (seen : option (gset PeerID)) (e : lcall) : option (gset PeerID) :=
  match seen with
  | None => None
  | Some s =>
      match e with
      | PeerConnected p => if decide (p ∈ s) then None else Some ({[p]} ∪ s)
      | PeerDisconnected p => if decide (p ∈ s) then Some (s ∖ {[p]}) else None
      end
  end.
Definition view (tr : list lcall) : option (gset PeerID) := foldl listen (Some ∅) tr.

(** The write lock of [OnMessage] may be taken in any later state, so its second
    half is a step of its own. *)
Inductive step : relation (connectEventManager * list lcall) :=
| st_Connected p c tr : step (c, tr) ((Connected p c).1, tr ++ (Connected p c).2)
| st_Disconnected p c tr : step (c, tr) ((Disconnected p c).1, tr ++ (Disconnected p c).2)
| st_MarkUnresponsive p c tr : step (c, tr) ((MarkUnresponsive p c).1, tr ++ (MarkUnresponsive p c).2)
| st_OnMessage p c tr : step (c, tr) ((OnMessage_update p c).1, tr ++ (OnMessage_update p c).2).

(** Every peer on record has a connection, and the listener knows exactly the
    responsive ones. *)
Definition responsive_peer c p : Prop := ∃ st, c !! p = Some st ∧ responsive st = true.

Record Inv c (tr : list lcall) : Prop := mkInv {
  inv_refs : ∀ p st, c !! p = Some st → 1 ≤ refs st;
  inv_view : ∃ s, view tr = Some s ∧ ∀ p, p ∈ s ↔ responsive_peer c p;
}.

Lemma view_app tr e : view (tr ++ [e]) = listen (view tr) e.
Proof. unfold view. by rewrite foldl_app. Qed.

(** The four ways a peer's record changes, with the call each one makes. *)
Lemma Inv_set c tr p st st' :
  Inv c tr → 1 ≤ refs st' →
  (c !! p = Some st ∨ (c !! p = None ∧ responsive st = false)) →
  Inv (<[p := st']> c)
      (tr ++ if eqb (responsive st) (responsive st') then []
             else if responsive st' then [PeerConnected p] else [PeerDisconnected p]).
Proof.
  intros [Hr (s & Hv & Hs)] Hr' Hst.
  assert (p ∈ s ↔ responsive st = true) as Hp.
  { rewrite Hs. unfold responsive_peer. destruct Hst as [E|[E E']]; rewrite E; [naive_solver|].
    rewrite E'. naive_solver. }
  assert (∀ p', p' ≠ p → responsive_peer (<[p := st']> c) p' ↔ p' ∈ s) as Hne.
  { intros p' Hn. rewrite Hs. unfold responsive_peer. by rewrite lookup_insert_ne by done. }
  assert (responsive_peer (<[p := st']> c) p ↔ responsive st' = true) as Heq.
  { unfold responsive_peer. rewrite lookup_insert_eq. naive_solver. }
  split.
  - intros p' st2. rewrite lookup_insert. case_decide; [by intros [= <-]|apply Hr].
  - destruct (responsive st) eqn:E1, (responsive st') eqn:E2; cbn [eqb];
      rewrite ?app_nil_r, ?view_app, ?Hv; cbn.
    + exists s. split; [done|]. intros p'. destruct (decide (p' = p)) as [->|Hn]; [tauto|].
      by rewrite Hne.
    + rewrite decide_True by tauto. eexists. split; [done|]. intros p'.
      destruct (decide (p' = p)) as [->|Hn]; [rewrite Heq; set_solver|]. rewrite Hne by done. set_solver.
    + rewrite decide_False by (rewrite Hp; done). eexists. split; [done|]. intros p'.
      destruct (decide (p' = p)) as [->|Hn]; [rewrite Heq; set_solver|]. rewrite Hne by done. set_solver.
    + exists s. split; [done|]. intros p'. destruct (decide (p' = p)) as [->|Hn]; [tauto|].
      by rewrite Hne.
Qed.

Lemma Inv_drop c tr p st :
  Inv c tr → c !! p = Some st →
  Inv (delete p c) (tr ++ if responsive st then [PeerDisconnected p] else []).
Proof.
  intros [Hr (s & Hv & Hs)] E. split.
  - intros p' st'. rewrite lookup_delete. case_decide; [done|apply Hr].
  - assert (p ∈ s ↔ responsive st = true) as Hp
      by (rewrite Hs; unfold responsive_peer; rewrite E; naive_solver).
    assert (∀ p', responsive_peer (delete p c) p' ↔ p' ∈ s ∧ p' ≠ p) as Hd.
    { intros p'. rewrite Hs. unfold responsive_peer. rewrite lookup_delete. case_decide; naive_solver. }
    destruct (responsive st); rewrite ?app_nil_r, ?view_app, ?Hv; cbn.
    + rewrite decide_True by tauto. eexists. split; [done|]. intros p'. rewrite Hd. set_solver.
    + exists s. split; [done|]. intros p'. rewrite Hd. split; [|tauto]. intros Hin. split; [done|].
      intros ->. apply Hp in Hin. done.
Qed.

Lemma conns_step x y : step x y → Inv x.1 x.2 → Inv y.1 y.2.
Proof.
  destruct 1 as [p c tr|p c tr|p c tr|p c tr]; cbn [fst snd]; intros HI.
  - unfold Connected. destruct (c !! p) as [st|] eqn:E; cbn [fst snd refs responsive].
    + pose proof (inv_refs _ _ HI p st E) as Hr.
      replace (refs st + 1 =? 1) with false by lia. cbn [andb].
      pose proof (Inv_set c tr p st (mkConn (refs st + 1) (responsive st)) HI) as H.
      cbn in H. rewrite eqb_reflx in H. apply H; [lia|by left].
    + apply (Inv_set c tr p (mkConn 0 false) (mkConn 1 true) HI); [cbn; lia|by right].
  - unfold Disconnected. destruct (c !! p) as [st|] eqn:E; cbn [fst snd refs responsive];
      [|by rewrite app_nil_r].
    pose proof (inv_refs _ _ HI p st E) as Hr.
    destruct (refs st - 1 =? 0) eqn:E0; cbn [fst snd].
    + by apply Inv_drop.
    + apply Z.eqb_neq in E0.
      pose proof (Inv_set c tr p st (mkConn (refs st - 1) (responsive st)) HI) as H.
      cbn in H. rewrite eqb_reflx in H. apply H; [lia|by left].
  - unfold MarkUnresponsive. destruct (c !! p) as [st|] eqn:E; cbn [fst snd]; [|by rewrite app_nil_r].
    destruct (responsive st) eqn:Er; cbn [negb fst snd]; [|by rewrite app_nil_r].
    pose proof (Inv_set c tr p st (mkConn (refs st) false) HI) as H. cbn in H. rewrite Er in H.
    apply H; [by eapply HI|by left].
  - unfold OnMessage_update. destruct (c !! p) as [st|] eqn:E; cbn [fst snd]; [|by rewrite app_nil_r].
    destruct (responsive st) eqn:Er; cbn [fst snd]; [by rewrite app_nil_r|].
    pose proof (Inv_set c tr p st (mkConn (refs st) true) HI) as H. cbn in H. rewrite Er in H.
    apply H; [by eapply HI|by left].
Qed.

Lemma conns_new : Inv newConnectEventManager [].
Proof.
  unfold newConnectEventManager. split; [intros p st; by rewrite lookup_empty|]. exists ∅. split; [done|].
  intros p. unfold responsive_peer. rewrite lookup_empty. set_solver.
Qed.

Lemma conns_reachable x y : rtc step x y → Inv x.1 x.2 → Inv y.1 y.2.
Proof. induction 1 as [|x y z Hs _ IH]; [done|]. intros HI. apply IH. by eapply conns_step. Qed.
End CEM.
