(* ===== verification/SessionWantSender.v ===== *)
(** * Choosing whom to ask (src/internal/session/sessionwantsender.go)

    [sessionWantSender] sends, for every want of a session, one optimistic
    want-block to the peer that looks best and want-haves to the other peers.
    Changes (new wants, cancels, messages, connectivity) arrive on a buffered
    channel; the run loop collects a batch and applies it in [onChange].

    The objects behind the fields [pm], [canceller], [onSend] and
    [onPeersExhausted] are reached through the events an operation emits, which
    the model appends to [evs]; the block presence manager is shared with other
    sessions and is an argument of the operations that read it, one value per
    batch.  [wantInfo] objects are only reachable through the map [wants], so
    they are stored in it.  The calls of [rand.Float64] read an arbitrary
    stream [rand]; [draws] counts them. *)
From S2P Require Import Prelude Auth Float64 BlockPresence SessionWants SessionPeers.
From Stdlib Require Import SpecFloat.
From stdpp Require Import options.
Set Default Goal Selector "1".

Module SWS.
Section sws.
Context {CL : CidLib} {GO : GoRuntime} (rand : nat → spec_float).

Definition changesBufferSize : Z := 128.
Definition peerDontHaveLimit : Z := 16.

Inductive BlockPresence := BPDontHave | BPUnknown | BPHave.
#[global] Instance BlockPresence_eq_dec : EqDecision BlockPresence.
Proof. solve_decision. Defined.

(** The [iota] value of a constant; the order matters. *)
Definition bp_int (bp : BlockPresence) : Z :=
  match bp with BPDontHave => 0 | BPUnknown => 1 | BPHave => 2 end.

Record update := mkUpdate {
  from : PeerID;
  ks : list Want;
  haves : list Want;
  dontHaves : list Want;
}.
Definition no_update : update := mkUpdate "" [] [] [].

Record peerAvailability := mkAvailability {
  target : PeerID;
  available : bool;
}.
Definition no_availability : peerAvailability := mkAvailability "" false.

Record change := mkChange {
  ch_add : list Want;
  ch_cancel : list Want;
  ch_update : update;
  ch_availability : peerAvailability;
}.

(** ** What is known about one want *)

Record wantInfo := mkWantInfo {
  blockPresence : gmap PeerID BlockPresence;
  sentTo : PeerID;
  bestPeer : PeerID;
  exhausted : bool;
}.
Implicit Types (wi : wantInfo) (p : PeerID) (w : Want) (t : PRT.peerResponseTracker) (rnd : spec_float).

Definition newWantInfo : wantInfo :=
  {| blockPresence := ∅; sentTo := ""; bestPeer := ""; exhausted := false |}.

Definition set_bestPeer p wi : wantInfo := mkWantInfo (blockPresence wi) (sentTo wi) p (exhausted wi).
Definition set_sentTo p wi : wantInfo := mkWantInfo (blockPresence wi) p (bestPeer wi) (exhausted wi).
Definition set_exhausted b wi : wantInfo := mkWantInfo (blockPresence wi) (sentTo wi) (bestPeer wi) b.
Definition set_presence m wi : wantInfo := mkWantInfo m (sentTo wi) (bestPeer wi) (exhausted wi).

(** The loop that finds the best presence, the first peer with it and how many
    peers share it. *)
Definition best_step (acc : BlockPresence * PeerID * Z) (x : PeerID * BlockPresence)
  : BlockPresence * PeerID * Z :=
  let '(bestBP, bestPeer, countWithBest) := acc in
  let '(p, bp) := x in
  if (bp_int bestBP <? bp_int bp)%Z then (bp, p, 1%Z)
  else if (bp_int bp =? bp_int bestBP)%Z then (bestBP, bestPeer, (countWithBest + 1)%Z)
  else (bestBP, bestPeer, countWithBest).

Definition calculateBestPeer t rnd wi : wantInfo :=
  let '(bestBP, best, countWithBest) :=
    foldl best_step (BPDontHave, "", 0%Z) (range (blockPresence wi)) in
  let wi := set_bestPeer best wi in
  if String.eqb best "" then wi
  else if (countWithBest <=? 1)%Z then wi
  else
    let peersWithBest :=
      foldl (λ l x, if (bp_int x.2 =? bp_int bestBP)%Z then l ++ [x.1] else l) []
        (range (blockPresence wi)) in
    set_bestPeer (PRT.choose rnd peersWithBest t) wi.

Definition setPeerBlockPresence t rnd p (bp : BlockPresence) wi : wantInfo :=
  let wi := set_presence (<[p := bp]> (blockPresence wi)) wi in
  let wi := calculateBestPeer t rnd wi in
  if decide (bp = BPHave) then set_exhausted false wi else wi.

Definition wi_removePeer t rnd p wi : wantInfo :=
  let wi := if String.eqb p (sentTo wi) then set_sentTo "" wi else wi in
  let wi := set_presence (delete p (blockPresence wi)) wi in
  calculateBestPeer t rnd wi.

(** ** The sender *)

(** Calls on other objects. *)
Inductive sws_event :=
| EvRegisterSession (p : PeerID)
| EvUnregisterSession (sid : Z)
| EvSendWants (p : PeerID) (wantBlocks wantHaves : list Want)
| EvOnSend (p : PeerID) (wantBlocks wantHaves : list Want)
| EvPeersExhausted (ws : list Want)
| EvCancelSessionWants (sid : Z) (ws : list Want)
| EvTagger (c : tcall).

Record sessionWantSender := mkSender {
  sessionID : Z;
  changes : list change;                       (* the buffered channel *)
  spawned : list change;                       (* held by goroutines that wait for room *)
  wants : gmap Want wantInfo;
  wantDups : gmap Cid (list Want);
  peerConsecutiveDontHaves : gmap PeerID Z;
  swbt : SentWants.sentWantBlocksTracker;
  peerRspTrkr : PRT.peerResponseTracker;
  spm : SPM.SessionPeerManager;
  ctxDone : bool;
  closed : bool;
  draws : nat;
  evs : list sws_event;
}.
Implicit Types (s : sessionWantSender) (bpm : BPM.BlockPresenceManager).

Definition newSessionWantSender (sid : Z) (spm : SPM.SessionPeerManager) : sessionWantSender :=
  {| sessionID := sid; changes := []; spawned := []; wants := ∅; wantDups := ∅;
     peerConsecutiveDontHaves := ∅; swbt := SentWants.newSentWantBlocksTracker;
     peerRspTrkr := PRT.newPeerResponseTracker; spm := spm; ctxDone := false; closed := false;
     draws := 0; evs := [] |}.

Definition ID s : Z := sessionID s.

Definition set_changes x s := mkSender (sessionID s) x (spawned s) (wants s) (wantDups s)
  (peerConsecutiveDontHaves s) (swbt s) (peerRspTrkr s) (spm s) (ctxDone s) (closed s) (draws s) (evs s).
Definition set_spawned x s := mkSender (sessionID s) (changes s) x (wants s) (wantDups s)
  (peerConsecutiveDontHaves s) (swbt s) (peerRspTrkr s) (spm s) (ctxDone s) (closed s) (draws s) (evs s).
Definition set_wants x s := mkSender (sessionID s) (changes s) (spawned s) x (wantDups s)
  (peerConsecutiveDontHaves s) (swbt s) (peerRspTrkr s) (spm s) (ctxDone s) (closed s) (draws s) (evs s).
Definition set_wantDups x s := mkSender (sessionID s) (changes s) (spawned s) (wants s) x
  (peerConsecutiveDontHaves s) (swbt s) (peerRspTrkr s) (spm s) (ctxDone s) (closed s) (draws s) (evs s).
Definition set_counts x s := mkSender (sessionID s) (changes s) (spawned s) (wants s) (wantDups s)
  x (swbt s) (peerRspTrkr s) (spm s) (ctxDone s) (closed s) (draws s) (evs s).
Definition set_swbt x s := mkSender (sessionID s) (changes s) (spawned s) (wants s) (wantDups s)
  (peerConsecutiveDontHaves s) x (peerRspTrkr s) (spm s) (ctxDone s) (closed s) (draws s) (evs s).
Definition set_tracker x s := mkSender (sessionID s) (changes s) (spawned s) (wants s) (wantDups s)
  (peerConsecutiveDontHaves s) (swbt s) x (spm s) (ctxDone s) (closed s) (draws s) (evs s).
Definition set_spm x s := mkSender (sessionID s) (changes s) (spawned s) (wants s) (wantDups s)
  (peerConsecutiveDontHaves s) (swbt s) (peerRspTrkr s) x (ctxDone s) (closed s) (draws s) (evs s).
Definition set_ctxDone x s := mkSender (sessionID s) (changes s) (spawned s) (wants s) (wantDups s)
  (peerConsecutiveDontHaves s) (swbt s) (peerRspTrkr s) (spm s) x (closed s) (draws s) (evs s).
Definition set_closed x s := mkSender (sessionID s) (changes s) (spawned s) (wants s) (wantDups s)
  (peerConsecutiveDontHaves s) (swbt s) (peerRspTrkr s) (spm s) (ctxDone s) x (draws s) (evs s).
Definition set_draws x s := mkSender (sessionID s) (changes s) (spawned s) (wants s) (wantDups s)
  (peerConsecutiveDontHaves s) (swbt s) (peerRspTrkr s) (spm s) (ctxDone s) (closed s) x (evs s).
Definition emit es s := mkSender (sessionID s) (changes s) (spawned s) (wants s) (wantDups s)
  (peerConsecutiveDontHaves s) (swbt s) (peerRspTrkr s) (spm s) (ctxDone s) (closed s) (draws s)
  (evs s ++ es).

(** *** The channel of changes *)

Definition room s : bool := (len (changes s) <? changesBufferSize)%Z.

(** A [select] between the send and [ctx.Done()]; [drop] says which ready case
    is chosen.  [None] means that the caller blocks. *)
Definition addChange (drop : bool) (c : change) s : option sessionWantSender :=
  if ctxDone s && drop then Some s
  else if room s then Some (set_changes (changes s ++ [c]) s)
  else if ctxDone s then Some s
  else None.

Definition addChangeNonBlocking (c : change) s : sessionWantSender :=
  if room s then set_changes (changes s ++ [c]) s
  else set_spawned (spawned s ++ [c]) s.

Definition Add (drop : bool) (ws : list Want) s : option sessionWantSender :=
  if (len ws =? 0)%Z then Some s
  else addChange drop (mkChange ws [] no_update no_availability) s.

Definition Cancel (drop : bool) (ws : list Want) s : option sessionWantSender :=
  if (len ws =? 0)%Z then Some s
  else addChange drop (mkChange [] ws no_update no_availability) s.

Definition Update (drop : bool) (from : PeerID) (ks haves dontHaves : list Want) s
  : option sessionWantSender :=
  let hasUpdate := (0 <? len ks)%Z || (0 <? len haves)%Z || (0 <? len dontHaves)%Z in
  if negb hasUpdate then Some s
  else addChange drop (mkChange [] [] (mkUpdate from ks haves dontHaves) no_availability) s.

Definition availability_change p (isAvailable : bool) : change :=
  mkChange [] [] no_update (mkAvailability p isAvailable).

Definition SignalAvailability p (isAvailable : bool) s : sessionWantSender :=
  addChangeNonBlocking (availability_change p isAvailable) s.

(** The body of a goroutine that waits for room, when it gets to run. *)
Definition deliver (i : nat) s : option sessionWantSender :=
  match spawned s !! i with
  | None => None
  | Some c =>
      if room s
      then Some (set_changes (changes s ++ [c]) (set_spawned (list_delete i (spawned s)) s))
      else None
  end.

Definition collectChanges (chs : list change) s : list change * sessionWantSender :=
  let n := (Z.to_nat changesBufferSize - length chs)%nat in
  (chs ++ take n (changes s), set_changes (drop n (changes s)) s).

(** *** Wants *)

Definition next_rand s : spec_float * sessionWantSender :=
  (rand (draws s), set_draws (S (draws s)) s).

(** A change of the [wantInfo] object of a want, if it is tracked. *)
Definition with_want w (f : wantInfo → wantInfo) s : sessionWantSender :=
  match wants s !! w with
  | Some wi => set_wants (<[w := f wi]> (wants s)) s
  | None => s
  end.

Definition getWantSentTo w s : PeerID * bool :=
  match wants s !! w with
  | Some wi => (sentTo wi, true)
  | None => ("", false)
  end.
Definition setWantSentTo w p s : sessionWantSender := with_want w (set_sentTo p) s.

Definition known_presence bpm w p : BlockPresence :=
  if BPM.PeerHasBlock p (Want_Cid w) bpm then BPHave
  else if BPM.PeerDoesNotHaveBlock p (Want_Cid w) bpm then BPDontHave
  else BPUnknown.

Definition updateWantBlockPresence bpm w p s : sessionWantSender :=
  match wants s !! w with
  | None => s
  | Some wi =>
      let '(rnd, s) := next_rand s in
      with_want w (setPeerBlockPresence (peerRspTrkr s) rnd p (known_presence bpm w p)) s
  end.

Definition trackWant bpm w s : sessionWantSender :=
  match wants s !! w with
  | Some _ => s
  | None =>
      let s := set_wants (<[w := newWantInfo]> (wants s)) s in
      let dups := default [] (wantDups s !! Want_Cid w) in
      let s := set_wantDups (<[Want_Cid w := dups ++ [w]]> (wantDups s)) s in
      foldl (λ s p, updateWantBlockPresence bpm w p s) s (SPM.Peers (spm s))
  end.

Definition untrackWant w s : sessionWantSender := set_wants (delete w (wants s)) s.

Definition removeWant w s : option wantInfo * sessionWantSender :=
  match wants s !! w with
  | Some wi => (Some wi, set_wants (delete w (wants s)) s)
  | None => (None, s)
  end.

Definition removeWantPeer w p s : sessionWantSender :=
  let '(rnd, s) := next_rand s in
  with_want w (wi_removePeer (peerRspTrkr s) rnd p) s.

Definition updateWantsPeerAvailability bpm p (isNowAvailable : bool) s : sessionWantSender :=
  foldl (λ s x, if isNowAvailable then updateWantBlockPresence bpm x.1 p s
                else removeWantPeer x.1 p s)
    s (range (wants s)).

(** *** Availability *)

Definition spm_AddPeer p s : bool * sessionWantSender :=
  let '(isNew, m, tcs) := SPM.AddPeer p (spm s) in (isNew, emit (EvTagger <$> tcs) (set_spm m s)).
Definition spm_RemovePeer p s : bool * sessionWantSender :=
  let '(was, m, tcs) := SPM.RemovePeer p (spm s) in (was, emit (EvTagger <$> tcs) (set_spm m s)).

Definition availability_step bpm (acc : sessionWantSender * list PeerID * list PeerID)
    (x : PeerID * bool) : sessionWantSender * list PeerID * list PeerID :=
  let '(s, newlyAvailable, newlyUnavailable) := acc in
  let '(p, isNowAvailable) := x in
  let '(stateChange, s) := if isNowAvailable then spm_AddPeer p s else spm_RemovePeer p s in
  if (stateChange : bool) then
    let s := updateWantsPeerAvailability bpm p isNowAvailable s in
    let s := set_counts (delete p (peerConsecutiveDontHaves s)) s in
    if isNowAvailable then (s, newlyAvailable ++ [p], newlyUnavailable)
    else (s, newlyAvailable, newlyUnavailable ++ [p])
  else (s, newlyAvailable, newlyUnavailable).

Definition processAvailability bpm (availability : gmap PeerID bool) s
  : sessionWantSender * list PeerID * list PeerID :=
  foldl (availability_step bpm) (s, [], []) (range availability).

(** *** Messages *)

Definition clear_count p s : sessionWantSender :=
  set_counts (delete p (peerConsecutiveDontHaves s)) s.

(** The body of the loop over received blocks. *)
Definition block_step (from : PeerID) (acc : sessionWantSender * gset Want) w
  : sessionWantSender * gset Want :=
  let '(s, blkCids) := acc in
  let '(removed, s) := removeWant w s in
  let s := match removed with
           | Some _ =>
               let s := set_tracker (PRT.receivedBlockFrom from (peerRspTrkr s)) s in
               emit (EvTagger <$> SPM.ProtectConnection from (spm s)) s
           | None => s
           end in
  (clear_count from s, AuthSet.Add w blkCids).

(** The body of the loop over DONT_HAVEs. *)
Definition dontHave_step bpm (blkCids : gset Want) (from : PeerID)
    (acc : sessionWantSender * list Want * gset PeerID) w
  : sessionWantSender * list Want * gset PeerID :=
  let '(s, dhs, prunePeers) := acc in
  let n := default 0%Z (peerConsecutiveDontHaves s !! from) in
  let '(s, prunePeers) :=
    if (n =? peerDontHaveLimit)%Z then (s, {[from]} ∪ prunePeers)
    else (set_counts (<[from := (n + 1)%Z]> (peerConsecutiveDontHaves s)) s, prunePeers) in
  if AuthSet.Has blkCids w then (s, dhs, prunePeers)
  else
    let s := updateWantBlockPresence bpm w from s in
    let s :=
      if SentWants.haveSentWantBlockTo from w (swbt s) then
        let '(sent, ok) := getWantSentTo w s in
        if (ok : bool) && String.eqb sent from then setWantSentTo w "" s else s
      else s in
    (s, dhs ++ [w], prunePeers).

(** The body of the loop over HAVEs. *)
Definition have_step bpm (blkCids : gset Want) (from : PeerID)
    (acc : sessionWantSender * gset PeerID) w : sessionWantSender * gset PeerID :=
  let '(s, prunePeers) := acc in
  let s := if negb (AuthSet.Has blkCids w) then updateWantBlockPresence bpm w from s else s in
  (clear_count from s, prunePeers ∖ {[from]}).

(** Whether the peer sent a HAVE for something the session wants. *)
Definition useful bpm s p : bool :=
  existsb (λ x, BPM.PeerHasBlock p (Want_Cid x.1) bpm) (range (wants s)).

(** A goroutine with a [SignalAvailability] for each peer is started; each
    change is in flight until it is delivered. *)
Definition spawn_prunes (prunePeers : list PeerID) s : sessionWantSender :=
  set_spawned (spawned s ++ ((λ p, availability_change p false) <$> prunePeers)) s.

Definition processUpdates bpm (updates : list update) s : list Want * sessionWantSender :=
  let '(s, blkCids) :=
    foldl (λ acc upd, foldl (block_step (from upd)) acc (ks upd)) (s, AuthSet.NewSet) updates in
  let '(s, dhs, prunePeers) :=
    foldl (λ acc upd, foldl (dontHave_step bpm blkCids (from upd)) acc (dontHaves upd))
      (s, [], ∅) updates in
  let '(s, prunePeers) :=
    foldl (λ acc upd, foldl (have_step bpm blkCids (from upd)) acc (haves upd))
      (s, prunePeers) updates in
  let prune := filter (λ p, useful bpm s p = false) (keys prunePeers) in
  (dhs, if (0 <? len prune)%Z then spawn_prunes prune s else s).

(** *** Exhausted wants *)

Definition newlyExhausted (ws : list Want) s : list Want * sessionWantSender :=
  foldl (λ '(res, s) w,
    match wants s !! w with
    | Some wi => if negb (exhausted wi) then (res ++ [w], with_want w (set_exhausted true) s) else (res, s)
    | None => (res, s)
    end) ([], s) ws.

Definition processExhaustedWants (exh : list Want) s : sessionWantSender :=
  let '(newly, s) := newlyExhausted exh s in
  if (0 <? len newly)%Z then emit [EvPeersExhausted newly] s else s.

(** The slice is made with [len(sws.wants)] zero wants before the wants are
    appended. *)
Definition all_pending s : list Want := repeat Want_Undef (size (wants s)) ++ (range (wants s)).*1.

Definition checkForExhaustedWants bpm (dhs : list Want) (newlyUnavailable : list PeerID) s
  : sessionWantSender :=
  if (len dhs =? 0)%Z && (len newlyUnavailable =? 0)%Z then s
  else
    let ws := if (0 <? len newlyUnavailable)%Z then all_pending s else dhs in
    if (0 <? len newlyUnavailable)%Z && negb (SPM.HasPeers (spm s)) then processExhaustedWants ws s
    else if (0 <? len ws)%Z
    then processExhaustedWants (BPM.AllPeersDoNotHaveBlock (SPM.Peers (spm s)) ws bpm) s
    else s.

(** *** Sending *)

Record wantSets := mkWantSets {
  wantBlocks : gset Want;
  wantHaves : gset Want;
}.
Abbreviation allWants := (gmap PeerID wantSets).

Definition forPeer (aw : allWants) p : wantSets := default (mkWantSets ∅ ∅) (aw !! p).
Definition add_wantBlock p w (aw : allWants) : allWants :=
  <[p := mkWantSets (AuthSet.Add w (wantBlocks (forPeer aw p))) (wantHaves (forPeer aw p))]> aw.
Definition add_wantHave w (aw : allWants) p : allWants :=
  <[p := mkWantSets (wantBlocks (forPeer aw p)) (AuthSet.Add w (wantHaves (forPeer aw p)))]> aw.

Definition next_step (newlyAvailable : list PeerID) (acc : sessionWantSender * allWants)
    (x : Want * wantInfo) : sessionWantSender * allWants :=
  let '(s, toSend) := acc in
  let '(w, wi) := x in
  let toSend := foldl (add_wantHave w) toSend newlyAvailable in
  if negb (String.eqb (sentTo wi) "") then (s, toSend)
  else if String.eqb (bestPeer wi) "" then (s, toSend)
  else
    let s := setWantSentTo w (bestPeer wi) s in
    let toSend := add_wantBlock (bestPeer wi) w toSend in
    (s, foldl (add_wantHave w) toSend (filter (λ op, op ≠ bestPeer wi) (SPM.Peers (spm s)))).

Definition getPiggybackWantHaves p (wbs : gset Want) s : list Want :=
  filter (λ w, negb (AuthSet.Has wbs w) && negb (SentWants.haveSentWantBlockTo p w (swbt s)) = true)
    (range (wants s)).*1.

Definition send_step s (x : PeerID * wantSets) : sessionWantSender :=
  let '(p, snd) := x in
  let whs := foldl (λ X w, AuthSet.Add w X) (wantHaves snd) (getPiggybackWantHaves p (wantBlocks snd) s) in
  let wblks := AuthSet.Keys (wantBlocks snd) in
  let whaves := AuthSet.Keys whs in
  let s := emit [EvSendWants p wblks whaves; EvOnSend p wblks whaves] s in
  set_swbt (SentWants.addSentWantBlocksTo p wblks (swbt s)) s.

Definition sendWants (sends : allWants) s : sessionWantSender := foldl send_step s (range sends).

Definition sendNextWants (newlyAvailable : list PeerID) s : sessionWantSender :=
  let '(s, toSend) := foldl (next_step newlyAvailable) (s, ∅) (range (wants s)) in
  sendWants toSend s.

(** *** The run loop *)

Record batch := mkBatch {
  b_state : sessionWantSender;
  b_availability : gmap PeerID bool;
  b_cancels : list Want;
  b_updates : list update;
}.

Definition apply_change bpm (b : batch) (chng : change) : batch :=
  let s := foldl (λ s w, trackWant bpm w s) (b_state b) (ch_add chng) in
  let s := foldl (λ s w, untrackWant w s) s (ch_cancel chng) in
  let upd := ch_update chng in
  let b := mkBatch s (b_availability b) (b_cancels b ++ ch_cancel chng) (b_updates b) in
  let b :=
    if negb (String.eqb (from upd) "") then
      let b :=
        if (0 <? len (ks upd))%Z || (0 <? len (haves upd))%Z
        then mkBatch (emit [EvRegisterSession (from upd)] (b_state b))
               (<[from upd := true]> (b_availability b)) (b_cancels b) (b_updates b)
        else b in
      mkBatch (b_state b) (b_availability b) (b_cancels b) (b_updates b ++ [upd])
    else b in
  let av := ch_availability chng in
  if negb (String.eqb (target av) "")
  then mkBatch (b_state b) (<[target av := available av]> (b_availability b)) (b_cancels b) (b_updates b)
  else b.

Definition onChange bpm (chs : list change) s : sessionWantSender :=
  let '(chs, s) := collectChanges chs s in
  let b := foldl (apply_change bpm) (mkBatch s ∅ [] []) chs in
  let '(s, newlyAvailable, newlyUnavailable) :=
    processAvailability bpm (b_availability b) (b_state b) in
  let '(dhs, s) := processUpdates bpm (b_updates b) s in
  let s := checkForExhaustedWants bpm dhs newlyUnavailable s in
  let s := if (0 <? len (b_cancels b))%Z
           then emit [EvCancelSessionWants (sessionID s) (b_cancels b)] s else s in
  if SPM.HasPeers (spm s) then sendNextWants newlyAvailable s else s.

(** One iteration of [Run] that takes a change, and the one that ends it. *)
Definition run_change bpm s : option sessionWantSender :=
  if closed s then None
  else match changes s with
       | [] => None
       | ch :: rest => Some (onChange bpm [ch] (set_changes rest s))
       end.
Definition run_exit s : option sessionWantSender :=
  if ctxDone s && negb (closed s)
  then Some (set_closed true (emit [EvUnregisterSession (sessionID s)] s))
  else None.

(** The first half of [Shutdown]; the second half waits for [closed]. *)
Definition Shutdown s : sessionWantSender := set_ctxDone true s.
End sws.
End SWS.
