(* ===== verification/SessionWantSenderFacts.v ===== *)
(** * Correctness of the want sender (src/internal/session/sessionwantsender.go)

    The best peer of a want is one of the most promising ones; each batch of
    changes leaves every want with an outstanding want-block or with no peer
    worth asking; exhausted wants and pruned peers are reported only when they
    should be. *)
From S2P Require Import Prelude Auth Float64 BlockPresence SessionWants SessionPeers SessionWantSender.
From Stdlib Require Import SpecFloat.
From stdpp Require Import options.
Set Default Goal Selector "1".

Module SWSFacts.
Import SWS.
Section facts.
Context {CL : CidLib} {GO : GoRuntime} (rand : nat → spec_float).
Implicit Types (s : sessionWantSender) (bpm : BPM.BlockPresenceManager).
Implicit Types (wi : wantInfo) (p : PeerID) (w : Want) (t : PRT.peerResponseTracker) (rnd : spec_float).

(** ** The best peer *)

(** [b] is a peer with the highest presence, or none when no peer is better than
    DONT_HAVE. *)
Definition best_of (m : gmap PeerID BlockPresence) (b : PeerID) : Prop :=
  (b = "" ∧ ∀ p bp, m !! p = Some bp → bp = BPDontHave) ∨
  (b ≠ "" ∧ ∃ bp, m !! b = Some bp ∧ bp ≠ BPDontHave ∧
     ∀ p' bp', m !! p' = Some bp' → (bp_int bp' ≤ bp_int bp)%Z).

Record wi_ok wi : Prop := mkWiOk {
  ok_noname : blockPresence wi !! "" = None;
  ok_best : best_of (blockPresence wi) (bestPeer wi);
}.

Lemma bp_int_inj b b' : bp_int b = bp_int b' → b = b'.
Proof. by destruct b, b'. Qed.

Lemma bp_int_zero b : (bp_int b ≤ 0)%Z ↔ b = BPDontHave.
Proof. destruct b; cbn; split; lia || done. Qed.

Lemma best_loop (l : list (PeerID * BlockPresence)) :
  (∀ x, x ∈ l → x.1 ≠ "") →
  let '(bb, b, n) := foldl best_step (BPDontHave, "", 0%Z) l in
  (b = "" ∧ bb = BPDontHave ∧ ∀ x, x ∈ l → x.2 = BPDontHave) ∨
  (b ≠ "" ∧ (b, bb) ∈ l ∧ bb ≠ BPDontHave ∧ ∀ x, x ∈ l → (bp_int x.2 ≤ bp_int bb)%Z).
Proof.
  intros Hn. apply (foldl_inv (λ pre acc, let '(bb, b, n) := acc in
    (b = "" ∧ bb = BPDontHave ∧ ∀ x, x ∈ pre → x.2 = BPDontHave) ∨
    (b ≠ "" ∧ (b, bb) ∈ pre ∧ bb ≠ BPDontHave ∧ ∀ x, x ∈ pre → (bp_int x.2 ≤ bp_int bb)%Z))).
  { left. split_and!; [done|done|]. intros x Hx. by apply not_elem_of_nil in Hx. }
  intros pre [p bp] post [[bb b] n] -> IH. cbn [best_step].
  assert (p ≠ "") as Hp by (apply (Hn (p, bp)); set_solver).
  destruct (Z.ltb_spec (bp_int bb) (bp_int bp)) as [Hlt|Hge].
  { right. split_and!; [done|set_solver|by intros ->; destruct bb|].
    intros x [Hx| ->]%elem_of_snoc; [|done].
    destruct IH as [(_ & -> & IH)|(_ & _ & _ & IH)]; [rewrite (IH _ Hx)|specialize (IH _ Hx)]; lia. }
  assert ((b = "" ∧ bb = BPDontHave ∧ ∀ x, x ∈ pre ++ [(p, bp)] → x.2 = BPDontHave) ∨
    (b ≠ "" ∧ (b, bb) ∈ pre ++ [(p, bp)] ∧ bb ≠ BPDontHave ∧
     ∀ x, x ∈ pre ++ [(p, bp)] → (bp_int x.2 ≤ bp_int bb)%Z)) as H; [|by destruct (bp_int bp =? bp_int bb)%Z].
  destruct IH as [(-> & -> & IH)|(H1 & H2 & H3 & IH)]; [left|right].
  - split_and!; [done|done|]. intros x [Hx| ->]%elem_of_snoc; [by apply IH|]. by apply bp_int_zero.
  - split_and!; [done|set_solver|done|]. intros x [Hx| ->]%elem_of_snoc; [by apply IH|done].
Qed.

Lemma filter_best bb (l : list (PeerID * BlockPresence)) p :
  p ∈ foldl (λ l x, if (bp_int x.2 =? bp_int bb)%Z then l ++ [x.1] else l) [] l ↔ (p, bb) ∈ l.
Proof.
  apply (foldl_inv (λ pre acc, p ∈ acc ↔ (p, bb) ∈ pre)); [set_solver|].
  intros pre [p' bp] post acc -> IH. cbn.
  destruct (Z.eqb_spec (bp_int bp) (bp_int bb)) as [->%bp_int_inj|Hn]; rewrite ?elem_of_snoc, IH.
  - naive_solver.
  - split; [by left|]. intros [H|[= -> ->]]; done.
Qed.

Lemma calculateBestPeer_frame t rnd wi :
  blockPresence (calculateBestPeer t rnd wi) = blockPresence wi ∧
  sentTo (calculateBestPeer t rnd wi) = sentTo wi ∧
  exhausted (calculateBestPeer t rnd wi) = exhausted wi.
Proof. unfold calculateBestPeer. repeat case_match; done. Qed.

Lemma calculateBestPeer_ok t rnd wi :
  blockPresence wi !! "" = None → wi_ok (calculateBestPeer t rnd wi).
Proof.
  intros Hn. destruct (calculateBestPeer_frame t rnd wi) as (E & _ & _).
  split; rewrite E; [done|]. unfold calculateBestPeer.
  pose proof (best_loop (range (blockPresence wi))) as Hl.
  destruct (foldl best_step _ _) as [[bb b] n].
  destruct Hl as [(-> & -> & H)|(Hb & Hin & Hbb & H)].
  { intros [p bp] Hx%elem_of_range Hp. cbn in Hp. congruence. }
  { left. split; [done|]. intros p bp Hp. apply (H (p, bp)). by apply elem_of_range. }
  assert (∀ b', (b', bb) ∈ range (blockPresence wi) → best_of (blockPresence wi) b') as Hgood.
  { intros b' Hb'%elem_of_range. right. split; [by intros ->; congruence|].
    exists bb. split_and!; [done|done|]. intros p' bp' Hp'. apply (H (p', bp')). by apply elem_of_range. }
  destruct (String.eqb_spec b "") as [->|_]; [done|]. destruct (n <=? 1)%Z; [by apply Hgood|].
  cbn. apply Hgood, filter_best, PRT.choose_elem.
  apply (elem_of_not_nil b). by apply filter_best.
Qed.

Lemma setPeerBlockPresence_ok t rnd p bp wi :
  p ≠ "" → wi_ok wi → wi_ok (setPeerBlockPresence t rnd p bp wi).
Proof.
  intros Hp [Hn _].
  assert (wi_ok (calculateBestPeer t rnd (set_presence (<[p := bp]> (blockPresence wi)) wi))) as [? ?].
  { apply calculateBestPeer_ok. cbn. by rewrite lookup_insert_ne. }
  unfold setPeerBlockPresence. case_decide; by split.
Qed.

Lemma setPeerBlockPresence_frame t rnd p bp wi :
  blockPresence (setPeerBlockPresence t rnd p bp wi) = <[p := bp]> (blockPresence wi) ∧
  sentTo (setPeerBlockPresence t rnd p bp wi) = sentTo wi ∧
  exhausted (setPeerBlockPresence t rnd p bp wi) =
    exhausted wi && negb (bool_decide (bp = BPHave)).
Proof.
  unfold setPeerBlockPresence.
  destruct (calculateBestPeer_frame t rnd (set_presence (<[p:=bp]> (blockPresence wi)) wi)) as (E1 & E2 & E3).
  case_decide; cbn.
  - rewrite bool_decide_true by done. by rewrite andb_false_r.
  - rewrite bool_decide_false, andb_true_r by done. done.
Qed.

Lemma wi_removePeer_ok t rnd p wi : wi_ok wi → wi_ok (wi_removePeer t rnd p wi).
Proof.
  intros [Hn _]. unfold wi_removePeer. apply calculateBestPeer_ok.
  case_match; cbn; rewrite lookup_delete; by case_decide.
Qed.

Lemma wi_removePeer_frame t rnd p wi :
  blockPresence (wi_removePeer t rnd p wi) = delete p (blockPresence wi) ∧
  sentTo (wi_removePeer t rnd p wi) = (if decide (p = sentTo wi) then "" else sentTo wi) ∧
  exhausted (wi_removePeer t rnd p wi) = exhausted wi.
Proof.
  unfold wi_removePeer.
  destruct (calculateBestPeer_frame t rnd (set_presence
    (delete p (blockPresence (if String.eqb p (sentTo wi) then set_sentTo "" wi else wi)))
    (if String.eqb p (sentTo wi) then set_sentTo "" wi else wi))) as (-> & -> & ->).
  destruct (String.eqb_spec p (sentTo wi)); cbn; split_and!; try done; by case_decide.
Qed.

Lemma newWantInfo_ok : wi_ok newWantInfo.
Proof. split; [done|]. left. split; [done|]. intros p bp. cbn. by rewrite lookup_empty. Qed.

(** ** Steps that only touch the infos of tracked wants *)

(** Nothing but [wants] and the position in the random stream differs. *)
Definition quiet s s' : Prop := s' = set_draws (draws s') (set_wants (wants s') s).

#[global] Instance quiet_preorder : PreOrder quiet.
Proof.
  split; [by intros []|]. unfold quiet. intros s1 s2 s3 H2 H3. rewrite H3. cbn. by rewrite H2.
Qed.

(** How the info of a want may change without being replaced: a peer is at most
    released, presences are added, and the flag is at most cleared. *)
Record wi_evolves wi wi' : Prop := mkWiEvolves {
  ev_sent : sentTo wi' = "" ∨ sentTo wi' = sentTo wi;
  ev_ok : wi_ok wi → wi_ok wi';
  ev_dom : dom (blockPresence wi) ⊆ dom (blockPresence wi');
  ev_exhausted : exhausted wi' = true → exhausted wi = true;
}.
#[global] Instance wi_evolves_preorder : PreOrder wi_evolves.
Proof.
  split.
  - intros wi. split; [by right|done..].
  - intros x y z [H1 H2 H3 H4] [G1 G2 G3 G4]. split; [|tauto|set_solver|tauto].
    destruct G1 as [?|G1]; [by left|]. rewrite G1. tauto.
Qed.

Definition evolves s s' : Prop :=
  quiet s s' ∧ ∀ w, option_Forall2 wi_evolves (wants s !! w) (wants s' !! w).
#[global] Instance evolves_preorder : PreOrder evolves.
Proof.
  split.
  - intros s. split; [done|]. intros w. destruct (wants s !! w); by constructor.
  - intros x y z [Q1 E1] [Q2 E2]. split; [by etrans|]. intros w. specialize (E1 w). specialize (E2 w).
    destruct E1; inversion E2; subst; constructor. by etrans.
Qed.

Lemma evolves_dom s s' : evolves s s' → dom (wants s') = dom (wants s).
Proof.
  intros [_ E]. apply set_eq. intros w. rewrite !elem_of_dom. specialize (E w).
  destruct E; split; intros [? ?]; done || eauto.
Qed.

Lemma evolves_alter s s' w f :
  quiet s s' → wants s' = alter f w (wants s) → (∀ wi, wants s !! w = Some wi → wi_evolves wi (f wi)) →
  evolves s s'.
Proof.
  intros Q Ew Hf. split; [done|]. intros w'. rewrite Ew, lookup_alter. clear Ew. case_decide as E; subst.
  - destruct (wants s !! w') as [wi|] eqn:Ew; rewrite ?Ew; cbn; constructor. by apply Hf.
  - destruct (wants s !! w'); by constructor.
Qed.

Lemma alter_absent `{Countable K} {V} (f : V → V) (m : gmap K V) k : m !! k = None → alter f k m = m.
Proof.
  intros E. apply map_eq. intros k'. rewrite lookup_alter. case_decide; [subst; by rewrite E|done].
Qed.

Lemma with_want_wants w f s : wants (with_want w f s) = alter f w (wants s).
Proof.
  unfold with_want. destruct (wants s !! w) as [wi|] eqn:E; cbn.
  - apply map_eq. intros w'. rewrite lookup_insert, lookup_alter. case_decide; [subst; by rewrite E|done].
  - by rewrite alter_absent.
Qed.
Lemma with_want_quiet w f s : quiet s (with_want w f s).
Proof. unfold with_want. by case_match; destruct s. Qed.

Lemma setPeer_evolves t rnd p bp wi : p ≠ "" → wi_evolves wi (setPeerBlockPresence t rnd p bp wi).
Proof.
  intros Hp. destruct (setPeerBlockPresence_frame t rnd p bp wi) as (E1 & E2 & E3).
  split; [by right|by apply setPeerBlockPresence_ok|rewrite E1; set_solver|].
  rewrite E3. by intros [? _]%andb_true_iff.
Qed.

Lemma uwbp_wants bpm w p s :
  ∃ rnd, wants (updateWantBlockPresence rand bpm w p s) =
    alter (setPeerBlockPresence (peerRspTrkr s) rnd p (known_presence bpm w p)) w (wants s).
Proof.
  exists (rand (draws s)). unfold updateWantBlockPresence, next_rand.
  destruct (wants s !! w) as [wi|] eqn:E; [by rewrite with_want_wants|]. by rewrite alter_absent.
Qed.
Lemma uwbp_quiet bpm w p s : quiet s (updateWantBlockPresence rand bpm w p s).
Proof.
  unfold updateWantBlockPresence, next_rand. case_match; [|by destruct s].
  etrans; [|apply with_want_quiet]. by destruct s.
Qed.
Lemma uwbp_evolves bpm w p s : p ≠ "" → evolves s (updateWantBlockPresence rand bpm w p s).
Proof.
  intros Hp. destruct (uwbp_wants bpm w p s) as [rnd E].
  eapply evolves_alter; [apply uwbp_quiet|exact E|]. intros wi _. by apply setPeer_evolves.
Qed.

Lemma release_evolves w s : evolves s (setWantSentTo w "" s).
Proof.
  eapply evolves_alter; [apply with_want_quiet|apply with_want_wants|].
  intros wi _. split; [by left|by intros []|done|done].
Qed.

(** ** The invariant *)

Definition Covered (X : gset PeerID) s : Prop :=
  ∀ w wi, wants s !! w = Some wi → X ⊆ dom (blockPresence wi).

Record Core s : Prop := mkCore {
  core_wants : ∀ w wi, wants s !! w = Some wi → wi_ok wi;
  core_sent : ∀ w wi, wants s !! w = Some wi → sentTo wi ≠ "" →
    SentWants.haveSentWantBlockTo (sentTo wi) w (swbt s) = true;
  core_counts : ∀ p n, peerConsecutiveDontHaves s !! p = Some n → (0 ≤ n ≤ peerDontHaveLimit)%Z;
  core_peers : "" ∉ SPM.peers (spm s);
  core_covered : Covered (SPM.peers (spm s)) s;
}.

(** A step that keeps every remaining want, and the rest of the state as far as
    the invariant is concerned. *)
Lemma Core_evolves s s' :
  (∀ w wi', wants s' !! w = Some wi' → ∃ wi, wants s !! w = Some wi ∧ wi_evolves wi wi') →
  swbt s' = swbt s → spm s' = spm s →
  (∀ p n, peerConsecutiveDontHaves s' !! p = Some n →
    peerConsecutiveDontHaves s !! p = Some n ∨ (0 ≤ n ≤ peerDontHaveLimit)%Z) →
  Core s → Core s'.
Proof.
  intros Hw Eb Es Hc [C1 C2 C3 C4 C5]. split; rewrite ?Eb, ?Es; [| | |done|].
  - intros w wi' (wi & E & H)%Hw. apply H, (C1 _ _ E).
  - intros w wi' (wi & E & H)%Hw Hne. destruct (ev_sent _ _ H) as [?|Es']; [done|].
    rewrite Es' in *. by apply C2.
  - intros p n [?|?]%Hc; [by eapply C3|done].
  - intros w wi' (wi & E & H)%Hw. etrans; [by apply (C5 _ _ E)|apply H].
Qed.

Lemma evolves_Core s s' : evolves s s' → Core s → Core s'.
Proof.
  intros [Q E]. apply Core_evolves; [|by rewrite Q..|].
  - intros w wi' Ew. specialize (E w). rewrite Ew in E. inversion E; subst. eauto.
  - rewrite Q. cbn. auto.
Qed.
End facts.
End SWSFacts.
