(* ===== verification/SessionWantSenderRun.v ===== *)
(** * What a batch of changes does (src/internal/session/sessionwantsender.go)

    The handlers of [onChange], one specification each: which wants stay tracked,
    which peers stay in the session, what is reported, and that the invariant
    [Core] is kept. *)
From S2P Require Import Prelude Auth Float64 BlockPresence SessionWants SessionPeers SessionWantSender.
From S2P Require Import SessionWantSenderFacts.
From Stdlib Require Import SpecFloat.
From stdpp Require Import options.
Set Default Goal Selector "1".

Module SWSRun.
Import SWS SWSFacts.
Section facts.
Context {CL : CidLib} {GO : GoRuntime} (rand : nat → spec_float).
Implicit Types (s : sessionWantSender) (bpm : BPM.BlockPresenceManager).
Implicit Types (wi : wantInfo) (p : PeerID) (w : Want).

(** The part of the state that other components see. *)
Definition keep s : SentWants.sentWantBlocksTracker * list change * Z * bool * bool :=
  (swbt s, changes s, sessionID s, ctxDone s, closed s).
Definition io s := (evs s, spm s, spawned s, keep s).

Lemma quiet_io s s' : quiet s s' → io s' = io s.
Proof. by intros ->. Qed.

Abbreviation tracked s := (dom (wants s)).

(** The number of DONT_HAVEs a peer has sent in a row. *)
Definition count s p : Z := default 0%Z (peerConsecutiveDontHaves s !! p).

Lemma count_bounds s p : Core s → (0 ≤ count s p ≤ peerDontHaveLimit)%Z.
Proof.
  intros HC. unfold count. destruct (peerConsecutiveDontHaves s !! p) eqn:E; cbn; [by eapply core_counts|].
  unfold peerDontHaveLimit. lia.
Qed.

(** ** New and cancelled wants *)


Lemma Core_delete w s : Core s → Core (set_wants (delete w (wants s)) s).
Proof.
  apply Core_evolves; [|done|done|by left].
  intros w' wi'. cbn. rewrite lookup_delete. case_decide; [done|]. intros E. by exists wi'.
Qed.

Lemma present_after bpm w ps s :
  (∀ p, p ∈ ps → p ≠ "") → ∀ wi, wants (foldl (λ s p, updateWantBlockPresence rand bpm w p s) s ps) !! w = Some wi →
  list_to_set ps ⊆ dom (blockPresence wi).
Proof.
  intros Hne. apply (foldl_inv (λ pre s', ∀ wi, wants s' !! w = Some wi →
    list_to_set pre ⊆ dom (blockPresence wi))); [intros; cbn; set_solver|].
  intros pre p post s' -> IH wi. destruct (uwbp_wants rand bpm w p s') as [rnd ->].
  rewrite lookup_alter, decide_True by done. intros (wi0 & E & ->)%fmap_Some.
  destruct (setPeerBlockPresence_frame (peerRspTrkr s') rnd p (known_presence bpm w p) wi0) as (-> & _).
  rewrite list_to_set_app_L, dom_insert_L. specialize (IH _ E). cbn. set_solver.
Qed.

Lemma evolves_foldl {A} (f : sessionWantSender → A → sessionWantSender) (l : list A) s :
  (∀ s' x, x ∈ l → evolves s' (f s' x)) → evolves s (foldl f s l).
Proof. apply foldl_preorder, _. Qed.

Lemma trackWant_spec bpm w s :
  Core s →
  let s' := trackWant rand bpm w s in
  Core s' ∧ io s' = io s ∧ peerConsecutiveDontHaves s' = peerConsecutiveDontHaves s ∧
  tracked s' = {[w]} ∪ tracked s ∧ (∀ w', w' ≠ w → wants s' !! w' = wants s !! w').
Proof.
  intros HC. unfold trackWant. destruct (wants s !! w) as [wi|] eqn:Ew; cbn zeta.
  { split_and!; [done..| |done]. apply elem_of_dom_2 in Ew. set_solver. }
  set (s1 := set_wantDups _ _). assert (spm s1 = spm s) as Es by done.
  set (s2 := foldl _ s1 _).
  assert (∀ p, p ∈ SPM.Peers (spm s1) → p ≠ "") as Hne.
  { intros p Hp ->. apply elem_of_keys in Hp. by apply (core_peers _ HC). }
  assert (evolves s1 s2) as HE.
  { apply evolves_foldl. intros s' p Hp. apply uwbp_evolves. by apply Hne. }
  pose proof (evolves_dom _ _ HE) as Hd. pose proof HE as [HQ Hev].
  assert (∀ w', w' ≠ w → wants s2 !! w' = wants s !! w') as Hother.
  { intros w' Hw'. apply (foldl_inv_simple (λ s', wants s' !! w' = wants s !! w')).
    - cbn. by rewrite lookup_insert_ne.
    - intros s' p _ <-. destruct (uwbp_wants rand bpm w p s') as [rnd ->]. by rewrite lookup_alter_ne. }
  split_and!; [|by rewrite (quiet_io _ _ HQ)|by rewrite HQ| |done].
  2:{ rewrite Hd. cbn. by rewrite dom_insert_L. }
  destruct HC as [C1 C2 C3 C4 C5]. split; try (rewrite HQ; cbn; done).
  - intros w' wi' E. specialize (Hev w'). rewrite E in Hev. inversion Hev as [wi0 ? Hw E0|]; subst.
    apply Hw. cbn in E0. symmetry in E0. rewrite lookup_insert in E0. case_decide; simplify_eq.
    + apply newWantInfo_ok.
    + by eapply C1.
  - intros w' wi' E Hs. specialize (Hev w'). rewrite E in Hev. inversion Hev as [wi0 ? Hw E0|]; subst.
    cbn in E0. symmetry in E0. rewrite lookup_insert in E0.
    destruct (ev_sent _ _ Hw) as [?|Ht]; [done|]. rewrite Ht in *. replace (swbt s2) with (swbt s) by by rewrite HQ.
    case_decide; simplify_eq. by apply C2.
  - replace (spm s2) with (spm s) by by rewrite HQ. intros w' wi' E.
    destruct (decide (w' = w)) as [->|Hw']; [|rewrite Hother in E by done; by eapply C5].
    pose proof (present_after bpm w _ s1 Hne _ E) as Hp. unfold SPM.Peers in Hp. rewrite Es in Hp.
    intros p Hin. apply Hp, elem_of_list_to_set, elem_of_keys, Hin.
Qed.

Lemma untrackWant_spec w s :
  Core s →
  let s' := untrackWant w s in
  Core s' ∧ io s' = io s ∧ peerConsecutiveDontHaves s' = peerConsecutiveDontHaves s ∧
  tracked s' = tracked s ∖ {[w]}.
Proof. intros HC. split_and!; [by apply Core_delete|done|done|]. cbn. by rewrite dom_delete_L. Qed.

Lemma track_all bpm ws s :
  Core s →
  let s' := foldl (λ s w, trackWant rand bpm w s) s ws in
  Core s' ∧ io s' = io s ∧ peerConsecutiveDontHaves s' = peerConsecutiveDontHaves s ∧
  tracked s' = tracked s ∪ list_to_set ws.
Proof.
  intros HC. apply (foldl_inv (λ pre s', Core s' ∧ io s' = io s ∧
    peerConsecutiveDontHaves s' = peerConsecutiveDontHaves s ∧ tracked s' = tracked s ∪ list_to_set pre)).
  { split_and!; [done|done|done|set_solver]. }
  intros pre w post s' _ (H1 & H2 & Hc & H3). destruct (trackWant_spec bpm w s' H1) as (G1 & G2 & Gc & G4 & _).
  split_and!; [done|by rewrite G2|by rewrite Gc|]. rewrite G4, H3, list_to_set_app_L. cbn. set_solver.
Qed.

Lemma untrack_all ws s :
  Core s →
  let s' := foldl (λ s w, untrackWant w s) s ws in
  Core s' ∧ io s' = io s ∧ peerConsecutiveDontHaves s' = peerConsecutiveDontHaves s ∧
  tracked s' = tracked s ∖ list_to_set ws.
Proof.
  intros HC. apply (foldl_inv (λ pre s', Core s' ∧ io s' = io s ∧
    peerConsecutiveDontHaves s' = peerConsecutiveDontHaves s ∧ tracked s' = tracked s ∖ list_to_set pre)).
  { split_and!; [done|done|done|set_solver]. }
  intros pre w post s' _ (H1 & H2 & Hc & H3). destruct (untrackWant_spec w s' H1) as (G1 & G2 & Gc & G3).
  split_and!; [done|by rewrite G2|by rewrite Gc|]. rewrite G3, H3, list_to_set_app_L. cbn. set_solver.
Qed.

(** ** Availability *)

Lemma update_available bpm p s :
  p ≠ "" →
  let s' := updateWantsPeerAvailability rand bpm p true s in
  evolves s s' ∧ ∀ w wi, wants s' !! w = Some wi → p ∈ dom (blockPresence wi).
Proof.
  intros Hp. cbn zeta. unfold updateWantsPeerAvailability.
  set (s' := foldl _ _ _).
  assert (evolves s s') as HE by (apply evolves_foldl; intros; by apply uwbp_evolves).
  split; [done|]. intros w wi Ew.
  assert (w ∈ (range (wants s)).*1) as Hw.
  { assert (is_Some (wants s !! w)) as [wi0 E0].
    { apply elem_of_dom. rewrite <- (evolves_dom _ _ HE). by apply elem_of_dom_2 in Ew. }
    apply list_elem_of_fmap. exists (w, wi0). split; [done|]. by apply elem_of_range. }
  revert wi Ew Hw. unfold s'.
  apply (foldl_inv (λ pre s', ∀ wi, wants s' !! w = Some wi → w ∈ pre.*1 → p ∈ dom (blockPresence wi)));
    [intros; set_solver|].
  intros pre [w' wi'] post s1 _ IH wi. cbn [fst]. destruct (uwbp_wants rand bpm w' p s1) as [rnd ->].
  rewrite lookup_alter. case_decide as E; subst.
  - intros (wi0 & E & ->)%fmap_Some _.
    destruct (setPeerBlockPresence_frame (peerRspTrkr s1) rnd p (known_presence bpm w p) wi0) as (-> & _).
    set_solver.
  - intros Ew Hin. apply IH; [done|]. rewrite fmap_app in Hin. set_solver.
Qed.

(** What the removal of a peer does to an info. *)
Record wi_released p wi wi' : Prop := mkReleased {
  rel_ok : wi_ok wi → wi_ok wi';
  rel_presence : blockPresence wi' = delete p (blockPresence wi);
  rel_sent : sentTo wi' = if decide (p = sentTo wi) then "" else sentTo wi;
  rel_exhausted : exhausted wi' = exhausted wi;
}.

Lemma update_unavailable bpm p s :
  let s' := updateWantsPeerAvailability rand bpm p false s in
  quiet s s' ∧ ∀ w, option_Forall2 (wi_released p) (wants s !! w) (wants s' !! w).
Proof.
  cbn zeta. unfold updateWantsPeerAvailability. set (f := λ s x, removeWantPeer rand x.1 p s).
  change (foldl _ _ _) with (foldl f s (range (wants s))).
  assert (∀ s x, wants (f s x) =
    alter (wi_removePeer (peerRspTrkr s) (rand (draws s)) p) x.1 (wants s)) as Ef.
  { intros s1 [w wi]. unfold f, removeWantPeer, next_rand. by rewrite with_want_wants. }
  split.
  { apply foldl_preorder; [apply _|]. intros s1 [w wi] _. unfold f, removeWantPeer, next_rand.
    etrans; [|apply with_want_quiet]. by destruct s1. }
  clearbody f. intros w.
  assert ((w ∈ (range (wants s)).*1 → option_Forall2 (wi_released p) (wants s !! w) (wants (foldl f s (range (wants s))) !! w)) ∧
    (w ∉ (range (wants s)).*1 → wants (foldl f s (range (wants s))) !! w = wants s !! w)) as [H1 H2].
  { pose proof (NoDup_range_keys (wants s)) as Hnd. revert Hnd.
    apply (foldl_inv (λ pre s', NoDup pre.*1 →
      (w ∈ pre.*1 → option_Forall2 (wi_released p) (wants s !! w) (wants s' !! w)) ∧
      (w ∉ pre.*1 → wants s' !! w = wants s !! w))); [set_solver|].
    intros pre [w' wi'] post s1 _ IH. rewrite fmap_app, NoDup_app. cbn. intros (Hnd & Hd & _).
    destruct (IH Hnd) as [IH1 IH2]. rewrite Ef. cbn. rewrite lookup_alter.
    destruct (decide (w' = w)) as [->|Hne].
    - split; [|set_solver]. intros _. rewrite IH2 by (intros Hin; apply (Hd _ Hin); set_solver).
      destruct (wants s !! w) as [wi|]; constructor.
      destruct (wi_removePeer_frame (peerRspTrkr s1) (rand (draws s1)) p wi) as (? & ? & ?).
      split; [apply wi_removePeer_ok|done..].
    - split; [|set_solver]. intros Hin. apply IH1. set_solver. }
  destruct (decide (w ∈ (range (wants s)).*1)) as [Hin|Hin]; [by apply H1|]. rewrite H2 by done.
  destruct (wants s !! w) as [wi|] eqn:E; constructor. exfalso. apply Hin, list_elem_of_fmap.
  exists (w, wi). split; [done|]. by apply elem_of_range.
Qed.

(** What changes of availability leave alone: the tracked wants, what was sent,
    the channel; the calls on the tagger are those of the session peer manager. *)
Record avail_frame s s' : Prop := mkAvailFrame {
  af_tracked : tracked s' = tracked s;
  af_keep : keep s' = keep s;
  af_spawned : spawned s' = spawned s;
  af_counts : ∀ p, (count s' p ≤ count s p)%Z;
  af_exhausted : ∀ w wi wi', wants s !! w = Some wi → wants s' !! w = Some wi' →
    exhausted wi' = true → exhausted wi = true;
  af_events : ∃ tcs, evs s' = evs s ++ (EvTagger <$> tcs) ∧
    ∀ tr, rtc SPM.step (spm s, tr) (spm s', tr ++ tcs);
}.
#[global] Instance avail_frame_preorder : PreOrder avail_frame.
Proof.
  split.
  - intros s. split; [done..|congruence|].
    exists []. split; [by rewrite app_nil_r|].
    intros tr. by rewrite app_nil_r.
  - intros x y z [A1 A2 A3 Ac A4 (t1 & A5 & A6)] [B1 B2 B3 Bc B4 (t2 & B5 & B6)].
    split; [congruence..|intros p; etrans; [apply Bc|apply Ac]| |].
    + intros w wi wi' E E' H. assert (w ∈ tracked y) as [wi1 E1]%elem_of_dom.
      { rewrite A1. by apply elem_of_dom_2 in E. }
      eapply A4; [done..|]. by eapply B4.
    + exists (t1 ++ t2). split; [by rewrite B5, A5, fmap_app, app_assoc|].
      intros tr. etrans; [apply A6|]. rewrite app_assoc. apply B6.
Qed.

Lemma join_spec bpm p s :
  p ≠ "" → Core s → p ∉ SPM.peers (spm s) →
  let s1 := (spm_AddPeer p s).2 in
  let s2 := updateWantsPeerAvailability rand bpm p true s1 in
  let s' := set_counts (delete p (peerConsecutiveDontHaves s2)) s2 in
  Core s' ∧ avail_frame s s' ∧ SPM.peers (spm s') = {[p]} ∪ SPM.peers (spm s).
Proof.
  intros Hp HC Hn. cbn zeta. unfold spm_AddPeer.
  pose proof (λ tr, rtc_once _ _ (SPM.st_AddPeer p (spm s) tr)) as Hstep. revert Hstep.
  unfold SPM.AddPeer. rewrite decide_False by done. cbn [fst snd]. intros Hstep.
  set (m := SPM.mkSPM _ _ _ _) in *. set (tcs := [TagPeer _ _ _]) in *. set (s1 := emit _ (set_spm m s)).
  destruct (update_available bpm p s1 Hp) as [[HQ Hev] Hpres].
  set (s2 := updateWantsPeerAvailability rand bpm p true s1) in *.
  assert (spm s2 = m) as Em by by rewrite HQ.
  pose proof HC as HC0. split_and!; [|split|by cbn; rewrite Em].
  - destruct HC as [C1 C2 C3 C4 C5]. split; cbn.
    + intros w wi' E. specialize (Hev w). rewrite E in Hev. inversion Hev as [wi ? Hw E0|]; subst.
      apply Hw. by eapply C1.
    + intros w wi' E Hs. specialize (Hev w). rewrite E in Hev. inversion Hev as [wi ? Hw E0|]; subst.
      destruct (ev_sent _ _ Hw) as [?|Ht]; [done|]. rewrite Ht in *.
      replace (swbt s2) with (swbt s) by by rewrite HQ. by apply C2.
    + intros p' n. rewrite lookup_delete. case_decide; [done|]. rewrite HQ. apply C3.
    + rewrite Em. cbn. set_solver.
    + intros w wi' E. cbn. rewrite Em. cbn. change (wants s2 !! w = Some wi') in E. specialize (Hpres _ _ E).
      specialize (Hev w). rewrite E in Hev. inversion Hev as [wi ? Hw E0|]; subst.
      pose proof (C5 w wi (eq_sym E0)). pose proof (ev_dom _ _ Hw). set_solver.
  - cbn. apply (evolves_dom s1). by split.
  - unfold keep. cbn. by rewrite HQ.
  - cbn. by rewrite HQ.
  - intros q. pose proof (count_bounds s q HC0). unfold count in *. cbn. rewrite lookup_delete.
    case_decide; cbn; [lia|]. rewrite HQ. cbn. lia.
  - intros w wi wi' E E'. cbn in E'. specialize (Hev w). rewrite E' in Hev.
    inversion Hev as [wi0 ? Hw E0|]; subst. cbn in E0. rewrite E in E0. simplify_eq. apply Hw.
  - exists tcs. split; [cbn; by rewrite HQ|]. cbn. rewrite Em. apply Hstep.
Qed.

Lemma leave_spec bpm p s :
  Core s → p ∈ SPM.peers (spm s) →
  let s1 := (spm_RemovePeer p s).2 in
  let s2 := updateWantsPeerAvailability rand bpm p false s1 in
  let s' := set_counts (delete p (peerConsecutiveDontHaves s2)) s2 in
  Core s' ∧ avail_frame s s' ∧ SPM.peers (spm s') = SPM.peers (spm s) ∖ {[p]}.
Proof.
  intros HC Hn. cbn zeta. unfold spm_RemovePeer.
  pose proof (λ tr, rtc_once _ _ (SPM.st_RemovePeer p (spm s) tr)) as Hstep. revert Hstep.
  unfold SPM.RemovePeer. rewrite decide_True by done. cbn [fst snd]. intros Hstep.
  set (m := SPM.mkSPM _ _ _ _) in *. set (tcs := [UntagPeer _ _; _]) in *.
  set (s1 := emit _ (set_spm m s)).
  destruct (update_unavailable bpm p s1) as [HQ Hrel].
  set (s2 := updateWantsPeerAvailability rand bpm p false s1) in *.
  assert (spm s2 = m) as Em by by rewrite HQ.
  assert (∀ w wi', wants s2 !! w = Some wi' → ∃ wi, wants s !! w = Some wi ∧ wi_released p wi wi') as Hw.
  { intros w wi' E. specialize (Hrel w). rewrite E in Hrel. inversion Hrel as [wi ? Hw E0|]; subst.
    by exists wi. }
  pose proof HC as HC0. split_and!; [|split|by cbn; rewrite Em].
  - destruct HC as [C1 C2 C3 C4 C5]. split; cbn.
    + intros w wi' (wi & E & H)%Hw. by eapply H, C1.
    + intros w wi' (wi & E & H)%Hw. rewrite (rel_sent _ _ _ H). case_decide; [done|]. intros Hs.
      replace (swbt s2) with (swbt s) by by rewrite HQ. by apply C2.
    + intros p' n. rewrite lookup_delete. case_decide; [done|]. rewrite HQ. apply C3.
    + rewrite Em. cbn. set_solver.
    + intros w wi' (wi & E & H)%Hw. cbn. rewrite Em, (rel_presence _ _ _ H). cbn.
      specialize (C5 _ _ E). rewrite dom_delete_L. set_solver.
  - cbn. apply set_eq. intros w. rewrite !elem_of_dom. specialize (Hrel w). cbn in Hrel.
    destruct Hrel; split; intros [? ?]; done || eauto.
  - unfold keep. cbn. by rewrite HQ.
  - cbn. by rewrite HQ.
  - intros q. pose proof (count_bounds s q HC0). unfold count in *. cbn. rewrite lookup_delete.
    case_decide; cbn; [lia|]. rewrite HQ. cbn. lia.
  - intros w wi wi' E (wi0 & E' & H)%Hw. rewrite E in E'. simplify_eq. by rewrite (rel_exhausted _ _ _ H).
  - exists tcs. split; [cbn; by rewrite HQ|]. cbn. rewrite Em. apply Hstep.
Qed.

Lemma availability_step_spec bpm s na nu p (b : bool) :
  p ≠ "" → Core s →
  ∃ s', availability_step rand bpm (s, na, nu) (p, b) =
      (s', na ++ (if b && bool_decide (p ∉ SPM.peers (spm s)) then [p] else []),
       nu ++ (if negb b && bool_decide (p ∈ SPM.peers (spm s)) then [p] else [])) ∧
    Core s' ∧ avail_frame s s' ∧
    SPM.peers (spm s') = (if b then {[p]} ∪ SPM.peers (spm s) else SPM.peers (spm s) ∖ {[p]}).
Proof.
  intros Hp HC. unfold availability_step. destruct b; cbn [negb andb].
  - destruct (decide (p ∈ SPM.peers (spm s))) as [Hin|Hin].
    + rewrite bool_decide_false by tauto. unfold spm_AddPeer, SPM.AddPeer. rewrite decide_True by done.
      eexists. split; [by rewrite !app_nil_r|]. cbn.
      assert (emit [] (set_spm (spm s) s) = s) as -> by (destruct s; unfold emit; cbn; by rewrite app_nil_r).
      split_and!; [done|done|set_solver].
    + rewrite bool_decide_true by done. destruct (join_spec bpm p s Hp HC Hin) as (H1 & H2 & H3).
      revert H1 H2 H3. unfold spm_AddPeer, SPM.AddPeer. rewrite decide_False by done. cbn [fst snd].
      intros. eexists. split; [by rewrite !app_nil_r|]. done.
  - destruct (decide (p ∈ SPM.peers (spm s))) as [Hin|Hin].
    + rewrite bool_decide_true by done. destruct (leave_spec bpm p s HC Hin) as (H1 & H2 & H3).
      revert H1 H2 H3. unfold spm_RemovePeer, SPM.RemovePeer. rewrite decide_True by done. cbn [fst snd].
      intros. eexists. split; [by rewrite !app_nil_r|]. done.
    + rewrite bool_decide_false by tauto. unfold spm_RemovePeer, SPM.RemovePeer. rewrite decide_False by done.
      eexists. split; [by rewrite !app_nil_r|]. cbn.
      assert (emit [] (set_spm (spm s) s) = s) as -> by (destruct s; unfold emit; cbn; by rewrite app_nil_r).
      split_and!; [done|done|set_solver].
Qed.

(** After the entries [pre] of the availability map. *)
Record Avail s0 (pre : list (PeerID * bool)) (acc : sessionWantSender * list PeerID * list PeerID) : Prop := mkAvail {
  av_core : Core acc.1.1;
  av_same : avail_frame s0 acc.1.1;
  av_peers : ∀ p, p ∈ SPM.peers (spm acc.1.1) ↔ (p, true) ∈ pre ∨ (p ∈ SPM.peers (spm s0) ∧ p ∉ pre.*1);
  av_added : ∀ p, p ∈ acc.1.2 ↔ (p, true) ∈ pre ∧ p ∉ SPM.peers (spm s0);
  av_gone : ∀ p, p ∈ acc.2 ↔ (p, false) ∈ pre ∧ p ∈ SPM.peers (spm s0);
}.

Lemma Avail_step bpm s0 pre p b acc :
  p ≠ "" → p ∉ pre.*1 → Avail s0 pre acc → Avail s0 (pre ++ [(p, b)]) (availability_step rand bpm acc (p, b)).
Proof.
  destruct acc as [[s1 na] nu]. intros Hne Hp [I1 I2 I3 I4 I5]. cbn [fst snd] in *. set (P := SPM.peers (spm s0)) in *.
  assert (p ∈ SPM.peers (spm s1) ↔ p ∈ P) as Hpp.
  { rewrite I3. split; [|tauto]. intros [Hin|[? _]]; [|done]. destruct Hp. apply list_elem_of_fmap. by exists (p, true). }
  destruct (availability_step_spec bpm s1 na nu p b) as (s2 & -> & J1 & J2 & J3); [done|done|].
  assert (∀ p' b', (p', b') ∈ pre → p' ≠ p) as Hpre.
  { intros p' b' Hin ->. apply Hp, list_elem_of_fmap. by exists (p, b'). }
  split; cbn [fst snd]; [done|by etrans|..]; fold P; intros p'.
  - rewrite J3, fmap_app. cbn. rewrite elem_of_snoc, not_elem_of_app, list_elem_of_singleton.
    clear - I3 Hp Hpre. specialize (I3 p'). specialize (Hpre p' true).
    destruct b; rewrite ?elem_of_union, ?elem_of_difference, elem_of_singleton, I3;
      destruct (decide (p' = p)) as [->|]; (split; [intros ?|intros [[?|[=]]|[? ?]]]); subst; tauto.
  - rewrite elem_of_app, elem_of_snoc, I4. destruct b; cbn; [|split; [|by intros [[?|[=]] ?]; left]].
    + rewrite (bool_decide_ext _ _ (not_iff_compat Hpp)).
      case_bool_decide; rewrite ?list_elem_of_singleton, ?elem_of_nil;
        (split; [intros [[? ?]|?]|intros [[?|[= ->]] ?]]); subst; tauto.
    + rewrite elem_of_nil. tauto.
  - rewrite elem_of_app, elem_of_snoc, I5. destruct b; cbn; [split; [|by intros [[?|[=]] ?]; left]|].
    + rewrite elem_of_nil. tauto.
    + rewrite (bool_decide_ext _ _ Hpp).
      case_bool_decide; rewrite ?list_elem_of_singleton, ?elem_of_nil;
        (split; [intros [[? ?]|?]|intros [[?|[= ->]] ?]]); subst; tauto.
Qed.

Lemma Avail_loop bpm (av : gmap PeerID bool) s :
  av !! "" = None → Core s → Avail s (range av) (foldl (availability_step rand bpm) (s, [], []) (range av)).
Proof.
  intros Hn HC. assert (∀ x, x ∈ range av → x.1 ≠ "") as Hne.
  { intros [p b] Hx%elem_of_range ?. cbn in *. congruence. }
  pose proof (NoDup_range_keys av) as Hnd. revert Hnd Hne.
  apply (foldl_inv (λ pre acc, NoDup pre.*1 → (∀ x, x ∈ pre → x.1 ≠ "") → Avail s pre acc)).
  { intros _ _. split; cbn [fst snd]; [done|done|set_solver..]. }
  intros pre [p b] post acc _ IH Hnd Hne. rewrite fmap_app in Hnd. apply NoDup_app in Hnd as (Hnd & Hd & _).
  apply Avail_step; [by apply (Hne (p, b)), elem_of_app; right; left| |apply IH; [done|intros; apply Hne; set_solver]].
  intros Hin. apply (Hd _ Hin). set_solver.
Qed.

Lemma processAvailability_spec bpm (av : gmap PeerID bool) s :
  av !! "" = None → Core s →
  ∃ s' na nu, processAvailability rand bpm av s = (s', na, nu) ∧
    Core s' ∧ avail_frame s s' ∧
    (∀ p, p ∈ SPM.peers (spm s') ↔ default (bool_decide (p ∈ SPM.peers (spm s))) (av !! p) = true) ∧
    (∀ p, p ∈ na ↔ av !! p = Some true ∧ p ∉ SPM.peers (spm s)) ∧
    (∀ p, p ∈ nu ↔ av !! p = Some false ∧ p ∈ SPM.peers (spm s)).
Proof.
  intros Hn HC. unfold processAvailability. pose proof (Avail_loop bpm av s Hn HC) as [H1 H2 H3 H4 H5].
  destruct (foldl _ _ (range av)) as [[s' na] nu]. cbn [fst snd] in *.
  assert (∀ p b, av !! p = Some b ↔ (p, b) ∈ range av) as Hav by (intros; by rewrite elem_of_range).
  exists s', na, nu. split_and!; [done|done|done| |by setoid_rewrite Hav|by setoid_rewrite Hav].
  intros p. rewrite H3. destruct (av !! p) as [b|] eqn:E; cbn.
  - assert (p ∈ (range av).*1) by (apply list_elem_of_fmap; exists (p, b); by rewrite <- Hav).
    rewrite <- Hav. destruct b; [tauto|]. rewrite E. naive_solver.
  - assert (p ∉ (range av).*1).
    { intros ([p' b'] & -> & Hin%Hav)%list_elem_of_fmap. cbn in *. congruence. }
    rewrite bool_decide_eq_true, <- Hav, E. naive_solver.
Qed.

(** ** Messages *)

(** A nested loop over the messages and the keys of each is one loop over pairs. *)
Definition pairs (g : update → list Want) (us : list update) : list (PeerID * Want) :=
  us ≫= λ u, (λ w, (from u, w)) <$> g u.

Lemma foldl_pairs {S} (f : PeerID → S → Want → S) (g : update → list Want) us (a : S) :
  foldl (λ acc u, foldl (f (from u)) acc (g u)) a us = foldl (λ acc x, f x.1 acc x.2) a (pairs g us).
Proof.
  revert a. unfold pairs. induction us as [|u us IH]; intros a; [done|]. rewrite bind_cons, foldl_app.
  cbn [foldl]. rewrite IH. f_equal. clear IH. revert a. induction (g u) as [|w ws IHw]; intros a; [done|].
  cbn. apply IHw.
Qed.

Lemma elem_of_pairs g us p w : (p, w) ∈ pairs g us ↔ ∃ u, u ∈ us ∧ from u = p ∧ w ∈ g u.
Proof.
  unfold pairs. rewrite list_elem_of_bind. setoid_rewrite list_elem_of_fmap. naive_solver.
Qed.

Lemma Core_clear p s : Core s → Core (clear_count p s).
Proof.
  apply Core_evolves; [|done|done|].
  - intros w wi E. by exists wi.
  - intros p' n. cbn. rewrite lookup_delete. case_decide; [done|]. by left.
Qed.

Lemma block_step_spec p w s blk :
  Core s →
  let r := block_step p (s, blk) w in
  Core r.1 ∧ r.2 = {[w]} ∪ blk ∧ wants r.1 = delete w (wants s) ∧
  keep r.1 = keep s ∧ spm r.1 = spm s ∧ spawned r.1 = spawned s ∧
  (∃ tcs, evs r.1 = evs s ++ (EvTagger <$> tcs) ∧ ∀ tr, rtc SPM.step (spm s, tr) (spm s, tr ++ tcs)) ∧
  (∀ q, (count r.1 q ≤ count s q)%Z).
Proof.
  intros HC. cbn zeta. unfold block_step, removeWant.
  assert (∀ s' q, peerConsecutiveDontHaves s' = peerConsecutiveDontHaves s →
    (count (clear_count p s') q ≤ count s q)%Z) as Hle.
  { intros s' q E. unfold count. cbn. rewrite E, lookup_delete. case_decide; cbn; [|done].
    destruct (peerConsecutiveDontHaves s !! q) eqn:Eq; [|done]. cbn. apply (core_counts _ HC) in Eq. lia. }
  destruct (wants s !! w) as [wi|] eqn:E; cbn [fst snd].
  - split_and!; [|done..| |intros; by apply Hle].
    + apply Core_clear. apply (Core_evolves s); [|done|done|by left|done].
      intros w' wi'. cbn. rewrite lookup_delete. case_decide; [done|]. intros ?. by exists wi'.
    + exists (SPM.ProtectConnection p (spm s)). split; [done|]. intros tr. apply rtc_once, SPM.st_Protect.
  - split_and!; [by apply Core_clear|done| |done..| |intros; by apply Hle].
    + cbn. by rewrite delete_id.
    + exists []. split; [by rewrite app_nil_r|]. intros tr. by rewrite app_nil_r.
Qed.

Lemma blocks_loop us s :
  Core s →
  ∃ s' tcs, foldl (λ acc u, foldl (block_step (from u)) acc (ks u)) (s, AuthSet.NewSet) us =
      (s', list_to_set (us ≫= ks)) ∧
    Core s' ∧ (∀ w, w ∈ us ≫= ks → wants s' !! w = None) ∧
    (∀ w, w ∉ us ≫= ks → wants s' !! w = wants s !! w) ∧
    keep s' = keep s ∧ spm s' = spm s ∧ spawned s' = spawned s ∧
    evs s' = evs s ++ (EvTagger <$> tcs) ∧ (∀ tr, rtc SPM.step (spm s, tr) (spm s, tr ++ tcs)) ∧
    (∀ p, (count s' p ≤ count s p)%Z).
Proof.
  intros HC. rewrite foldl_pairs.
  assert ((us ≫= ks) = (pairs ks us).*2) as ->.
  { unfold pairs. induction us as [|u us IH]; [done|]. rewrite !bind_cons, fmap_app, IH, <- list_fmap_compose.
    f_equal. cbn. by rewrite list_fmap_id. }
  apply (foldl_inv (λ pre acc, ∃ s' tcs, acc = (s', list_to_set pre.*2) ∧
    Core s' ∧ (∀ w, w ∈ pre.*2 → wants s' !! w = None) ∧
    (∀ w, w ∉ pre.*2 → wants s' !! w = wants s !! w) ∧
    keep s' = keep s ∧ spm s' = spm s ∧ spawned s' = spawned s ∧
    evs s' = evs s ++ (EvTagger <$> tcs) ∧ (∀ tr, rtc SPM.step (spm s, tr) (spm s, tr ++ tcs)) ∧
    (∀ p, (count s' p ≤ count s p)%Z))).
  { exists s, []. split_and!; [done|done|set_solver|done..|by rewrite app_nil_r|intros; by rewrite app_nil_r|done]. }
  intros pre [p w] post acc _ (s1 & tcs & -> & H1 & H2 & H2' & H3 & H4 & H5 & H6 & H7 & H8). cbn [fst snd].
  destruct (block_step_spec p w s1 (list_to_set pre.*2) H1) as (G1 & G2 & G3 & G4 & G5 & G6 & (tcs' & G7 & G8) & G9).
  destruct (block_step p (s1, list_to_set pre.*2) w) as [s2 blk]. cbn [fst snd] in *.
  exists s2, (tcs ++ tcs'). rewrite fmap_app. split_and!.
  - f_equal. rewrite G2, list_to_set_app_L. cbn. set_solver.
  - done.
  - intros w' Hw'. rewrite G3, lookup_delete. case_decide; [done|]. apply H2. cbn in Hw'. set_solver.
  - intros w' Hw'. cbn in Hw'. rewrite G3, lookup_delete, decide_False by set_solver. apply H2'. set_solver.
  - by rewrite G4.
  - by rewrite G5.
  - by rewrite G6.
  - by rewrite G7, H6, fmap_app, app_assoc.
  - intros tr. etrans; [apply H7|]. rewrite app_assoc. rewrite <- H4. apply G8.
  - intros q. etrans; [apply G9|apply H8].
Qed.

(** Steps that only change infos and DONT_HAVE counts. *)
Record upd_frame s s' : Prop := mkUpdFrame {
  uf_io : io s' = io s;
  uf_wants : ∀ w, option_Forall2 wi_evolves (wants s !! w) (wants s' !! w);
}.
#[global] Instance upd_frame_preorder : PreOrder upd_frame.
Proof.
  split.
  - intros s. split; [done|]. intros w. destruct (wants s !! w); by constructor.
  - intros x y z [A1 A2] [B1 B2]. split; [congruence|]. intros w. specialize (A2 w). specialize (B2 w).
    destruct A2; inversion B2; subst; constructor. by etrans.
Qed.
Lemma evolves_upd_frame s s' : evolves s s' → upd_frame s s'.
Proof. intros [HQ HE]. split; [by apply quiet_io|done]. Qed.

Lemma upd_frame_Core s s' :
  upd_frame s s' → Core s → (∀ p n, peerConsecutiveDontHaves s' !! p = Some n → (0 ≤ n ≤ peerDontHaveLimit)%Z) →
  Core s'.
Proof.
  intros [Hio Hw] HC Hc. unfold io, keep in Hio. simplify_eq.
  apply (Core_evolves s); [|congruence|congruence|by right; eapply Hc|done].
  intros w wi' E. specialize (Hw w). rewrite E in Hw. inversion Hw; subst. eauto.
Qed.

Lemma dontHave_step_spec bpm blk p w s dhs pr :
  p ≠ "" → Core s →
  ∃ s', dontHave_step rand bpm blk p (s, dhs, pr) w =
      (s', if AuthSet.Has blk w then dhs else dhs ++ [w],
       if (count s p =? peerDontHaveLimit)%Z then {[p]} ∪ pr else pr) ∧
    Core s' ∧ upd_frame s s' ∧
    (∀ q, count s' q = if decide (q = p) then Z.min peerDontHaveLimit (count s p + 1) else count s q).
Proof.
  intros Hp HC. unfold dontHave_step. fold (count s p).
  pose proof (count_bounds s p HC) as Hb.
  set (acc := if (count s p =? peerDontHaveLimit)%Z then _ else _).
  assert (∃ s1, acc = (s1, if (count s p =? peerDontHaveLimit)%Z then {[p]} ∪ pr else pr) ∧
    Core s1 ∧ upd_frame s s1 ∧
    (∀ q, count s1 q = if decide (q = p) then Z.min peerDontHaveLimit (count s p + 1) else count s q))
    as (s1 & -> & H1 & H2 & H3).
  { unfold acc. destruct (Z.eqb_spec (count s p) peerDontHaveLimit) as [E|E].
    - exists s. split_and!; [done|done|done|]. intros q. case_decide; [subst|done]. lia.
    - eexists. split; [done|].
      assert (upd_frame s (set_counts (<[p := (count s p + 1)%Z]> (peerConsecutiveDontHaves s)) s)) as HF.
      { split; [done|]. intros w'. cbn. destruct (wants s !! w'); by constructor. }
      split_and!; [|done|].
      + apply (upd_frame_Core s); [done..|]. intros q n. cbn. rewrite lookup_insert.
        case_decide; [intros [= <-]; lia|]. by apply core_counts.
      + intros q. unfold count at 1. cbn. rewrite lookup_insert. unfold count.
        repeat case_decide; subst; try done. cbn. unfold count in *. lia. }
  destruct (AuthSet.Has blk w); [by exists s1|].
  set (s2 := updateWantBlockPresence rand bpm w p s1).
  assert (evolves s1 s2) as He by by apply uwbp_evolves.
  set (s3 := if SentWants.haveSentWantBlockTo p w (swbt s2) then _ else _).
  assert (evolves s1 s3) as He3.
  { etrans; [exact He|]. unfold s3. case_match; [|done]. destruct (getWantSentTo w s2).
    case_match; [apply release_evolves|done]. }
  exists s3. split; [done|]. split; [by eapply evolves_Core|].
  split; [etrans; [done|by apply evolves_upd_frame]|].
  intros q. rewrite <- H3. unfold count. destruct He3 as [-> _]. done.
Qed.

(** How many of the pairs come from a peer. *)
Definition times p (l : list (PeerID * Want)) : Z := len (filter (λ x, x.1 = p) l).

Lemma dontHaves_loop bpm blk us s :
  (∀ u, u ∈ us → from u ≠ "") → Core s →
  ∃ s' pr, foldl (λ acc u, foldl (dontHave_step rand bpm blk (from u)) acc (dontHaves u)) (s, [], ∅) us =
      (s', filter (λ w, w ∉ blk) (pairs dontHaves us).*2, pr) ∧
    Core s' ∧ upd_frame s s' ∧
    (∀ p, p ∈ pr ↔ (peerDontHaveLimit < count s p + times p (pairs dontHaves us))%Z).
Proof.
  intros Hne HC. rewrite foldl_pairs.
  assert (∀ x, x ∈ pairs dontHaves us → x.1 ≠ "") as Hx.
  { intros [p w] (u & Hu & <- & _)%elem_of_pairs. by apply Hne. }
  pose proof (λ p, count_bounds s p HC) as Hb.
  enough (∃ s' pr, foldl (λ acc x, dontHave_step rand bpm blk x.1 acc x.2) (s, [], ∅) (pairs dontHaves us) =
      (s', filter (λ w, w ∉ blk) (pairs dontHaves us).*2, pr) ∧
    Core s' ∧ upd_frame s s' ∧
    (∀ p, p ∈ pr ↔ (peerDontHaveLimit < count s p + times p (pairs dontHaves us))%Z) ∧
    (∀ p, count s' p = Z.min peerDontHaveLimit (count s p + times p (pairs dontHaves us))))
    as (s' & pr & ? & ? & ? & ? & _) by by exists s', pr.
  revert Hx. generalize (pairs dontHaves us) as l. intros l. induction l as [|[p w] l IH] using rev_ind.
  { intros _. exists s, ∅. split_and!; [done..| |]; intros p; unfold times; cbn; specialize (Hb p);
      [|unfold len; cbn; lia]. unfold len. cbn. split; [set_solver|lia]. }
  intros Hx. destruct IH as (s1 & pr & E & H1 & H2 & H3 & H4); [intros; apply Hx; set_solver|].
  rewrite foldl_app, E. cbn [foldl fst snd].
  destruct (dontHave_step_spec bpm blk p w s1 (filter (λ w, w ∉ blk) l.*2) pr) as (s2 & -> & G1 & G2 & G3);
    [apply (Hx (p, w)); set_solver|done|].
  assert (∀ q, times q (l ++ [(p, w)]) = times q l + if decide (q = p) then 1 else 0)%Z as Ht.
  { intros q. unfold times, len. rewrite filter_app, length_app, filter_cons. cbn.
    repeat case_decide; subst; cbn; congruence || lia. }
  do 2 eexists. split.
  { rewrite fmap_app, filter_app. change ([(p, w)].*2) with [w]. rewrite filter_cons, filter_nil.
    unfold AuthSet.Has. case_bool_decide; case_decide; try done. by rewrite app_nil_r. }
  split_and!; [done|by etrans| |]; intros q; rewrite Ht.
  - pose proof (H3 q) as H3q. pose proof (Hb q) as Hbq. pose proof (H4 p) as H4p.
    destruct (Z.eqb_spec (count s1 p) peerDontHaveLimit) as [El|El]; case_decide; subst;
      rewrite ?elem_of_union, ?elem_of_singleton, H3q; [| |lia..].
    + split; intros; [lia|by left].
    + split; [intros [?|?]; [done|lia]|intros; right; lia].
  - rewrite G3. case_decide; subst; rewrite H4; lia.
Qed.

Lemma have_step_spec bpm blk p w s pr :
  p ≠ "" → Core s →
  ∃ s', have_step rand bpm blk p (s, pr) w = (s', pr ∖ {[p]}) ∧ Core s' ∧ upd_frame s s'.
Proof.
  intros Hp HC. unfold have_step. eexists. split; [done|].
  set (s1 := if negb (AuthSet.Has blk w) then _ else _).
  assert (evolves s s1) as He by (unfold s1; case_match; [by apply uwbp_evolves|done]).
  split; [by eapply Core_clear, evolves_Core|]. etrans; [by apply evolves_upd_frame|].
  split; [done|]. intros w'. cbn. destruct (wants s1 !! w'); by constructor.
Qed.

Lemma haves_loop bpm blk us s pr :
  (∀ u, u ∈ us → from u ≠ "") → Core s →
  ∃ s' pr', foldl (λ acc u, foldl (have_step rand bpm blk (from u)) acc (haves u)) (s, pr) us = (s', pr') ∧
    Core s' ∧ upd_frame s s' ∧ (∀ p, p ∈ pr' ↔ p ∈ pr ∧ ∀ w, (p, w) ∉ pairs haves us).
Proof.
  intros Hne HC. rewrite foldl_pairs.
  assert (∀ x, x ∈ pairs haves us → x.1 ≠ "") as Hx.
  { intros [p w] (u & Hu & <- & _)%elem_of_pairs. by apply Hne. }
  revert Hx. generalize (pairs haves us) as l. intros l. induction l as [|[p w] l IH] using rev_ind.
  { intros _. exists s, pr. split_and!; [done..|]. set_solver. }
  intros Hx. destruct IH as (s1 & pr1 & E & H1 & H2 & H3); [intros; apply Hx; set_solver|].
  rewrite foldl_app, E. cbn [foldl fst snd].
  destruct (have_step_spec bpm blk p w s1 pr1) as (s2 & -> & G1 & G2);
    [apply (Hx (p, w)); set_solver|done|].
  do 2 eexists. split; [done|]. split_and!; [done|by etrans|]. intros q.
  rewrite elem_of_difference, elem_of_singleton, H3. setoid_rewrite elem_of_snoc. naive_solver.
Qed.
End facts.
End SWSRun.
