(* ===== verification/SessionWantSenderBatch.v ===== *)
(** * Batches of the want sender (src/internal/session/sessionwantsender.go)

    The composition of the handlers in [processUpdates], [checkForExhaustedWants],
    [sendNextWants] and [onChange], and the invariant of the run loop. *)
From S2P Require Import Prelude Auth Float64 BlockPresence SessionWants SessionPeers SessionWantSender.
From S2P Require Import SessionWantSenderFacts SessionWantSenderRun.
From Stdlib Require Import SpecFloat.
From stdpp Require Import options.
Set Default Goal Selector "1".

Module SWSBatch.
Import SWS SWSFacts SWSRun.
Section facts.
Context {CL : CidLib} {GO : GoRuntime} (rand : nat → spec_float).
Implicit Types (s : sessionWantSender) (bpm : BPM.BlockPresenceManager).
Implicit Types (wi : wantInfo) (p : PeerID) (w : Want).

Abbreviation tracked s := (dom (wants s)).
Abbreviation peers s := (SPM.peers (spm s)).

(** ** Messages *)

Definition received (us : list update) : list Want := us ≫= ks.

(** When a peer is dropped from the session for useless answers: more than
    [peerDontHaveLimit] DONT_HAVEs in a row, no HAVE in the batch and no HAVE on
    record for a want that is still tracked. *)
Definition pruned bpm us s s' p : Prop :=
  (peerDontHaveLimit < count s p + times p (pairs dontHaves us))%Z ∧
  (∀ w, (p, w) ∉ pairs haves us) ∧
  (∀ w, w ∈ tracked s' → BPM.PeerHasBlock p (Want_Cid w) bpm = false).

Lemma useful_false bpm s p :
  useful bpm s p = false ↔ ∀ w, w ∈ tracked s → BPM.PeerHasBlock p (Want_Cid w) bpm = false.
Proof.
  unfold useful. rewrite <- not_true_iff_false, existsb_exists. split.
  - intros H w [wi E]%elem_of_dom. apply not_true_iff_false. intros Ht. apply H.
    exists (w, wi). split; [|done]. by apply list_elem_of_In, elem_of_range.
  - intros H ([w wi] & Hin%list_elem_of_In%elem_of_range & Ht). cbn in Ht.
    rewrite H in Ht; [done|]. by apply elem_of_dom_2 in Hin.
Qed.

Lemma upd_frame_tracked s s' : upd_frame s s' → tracked s' = tracked s.
Proof.
  intros [_ E]. apply set_eq. intros w. rewrite !elem_of_dom. specialize (E w).
  destruct E; split; intros [? ?]; done || eauto.
Qed.

Lemma processUpdates_spec bpm us s :
  (∀ u, u ∈ us → from u ≠ "") → Core s →
  ∃ dhs s' tcs prune, processUpdates rand bpm us s = (dhs, s') ∧
    Core s' ∧ keep s' = keep s ∧ spm s' = spm s ∧
    tracked s' = tracked s ∖ list_to_set (received us) ∧
    (∀ w wi wi', wants s !! w = Some wi → wants s' !! w = Some wi' →
       exhausted wi' = true → exhausted wi = true) ∧
    (∀ w, w ∈ dhs ↔ w ∉ received us ∧ ∃ u, u ∈ us ∧ w ∈ dontHaves u) ∧
    evs s' = evs s ++ (EvTagger <$> tcs) ∧ (∀ tr, rtc SPM.step (spm s, tr) (spm s, tr ++ tcs)) ∧
    spawned s' = spawned s ++ ((λ p, availability_change p false) <$> prune) ∧
    (∀ p, p ∈ prune → pruned bpm us s s' p).
Proof.
  intros Hne HC. unfold processUpdates.
  destruct (blocks_loop us s HC) as (s1 & tcs & -> & A1 & A2 & A3 & A4 & A5 & A6 & A7 & A8 & A9).
  destruct (dontHaves_loop rand bpm (list_to_set (us ≫= ks)) us s1 Hne A1) as (s2 & pr & -> & B1 & B2 & B3).
  destruct (haves_loop rand bpm (list_to_set (us ≫= ks)) us s2 pr Hne B1) as (s3 & pr' & -> & C1 & C2 & C3).
  set (prune := filter _ (keys pr')).
  set (s' := if (0 <? len prune)%Z then spawn_prunes prune s3 else s3).
  assert (spawned s' = spawned s3 ++ ((λ p, availability_change p false) <$> prune)) as Hsp.
  { unfold s'. destruct (0 <? len prune)%Z eqn:E; [done|]. destruct prune; [by rewrite app_nil_r|done]. }
  assert (wants s' = wants s3 ∧ Core s' ∧ keep s' = keep s3 ∧ spm s' = spm s3 ∧ evs s' = evs s3) as (W1 & W2 & W3 & W4 & W5).
  { unfold s'. case_match; [|done]. split_and!; [done| |done..]. by destruct C1. }
  assert (upd_frame s1 s3) as [D1 D2] by by etrans.
  pose proof (f_equal (λ x, x.1.1.1) D1) as D1e. pose proof (f_equal (λ x, x.1.1.2) D1) as D1s.
  pose proof (f_equal (λ x, x.1.2) D1) as D1p. pose proof (f_equal snd D1) as D1k. cbn in D1e, D1s, D1p, D1k.
  exists (filter (λ w, w ∉ (list_to_set (us ≫= ks) : gset Want)) (pairs dontHaves us).*2), s', tcs, prune. split_and!.
  - done.
  - done.
  - congruence.
  - congruence.
  - rewrite W1, (upd_frame_tracked s1 s3) by by split. apply set_eq. intros w.
    rewrite elem_of_difference, elem_of_list_to_set, !elem_of_dom. unfold received.
    destruct (decide (w ∈ us ≫= ks)) as [Hw|Hw].
    + rewrite A2 by done. split; [by intros [? ?]|tauto].
    + rewrite A3 by done. tauto.
  - intros w wi wi' E E' H. rewrite W1 in E'. specialize (D2 w). rewrite E' in D2.
    inversion D2 as [wi1 ? Hev E1|]; subst.
    destruct (decide (w ∈ us ≫= ks)) as [Hw|Hw]; [rewrite A2 in E1 by done; done|].
    rewrite A3, E in E1 by done. simplify_eq. by apply Hev.
  - intros w. rewrite list_elem_of_filter, elem_of_list_to_set, list_elem_of_fmap. unfold received.
    split; (intros [H1 H2]; split; [done|]).
    + destruct H2 as ([p w'] & -> & (u & ? & _ & ?)%elem_of_pairs). eauto.
    + destruct H2 as (u & Hu & Hw). exists (from u, w). split; [done|]. apply elem_of_pairs. eauto.
  - congruence.
  - done.
  - rewrite Hsp. congruence.
  - intros p [Hu Hp]%list_elem_of_filter. apply elem_of_keys, C3 in Hp as [Hp Hh].
    apply B3 in Hp. split_and!; [specialize (A9 p); lia|done|]. rewrite W1. by apply useful_false.
Qed.

(** ** Exhausted wants *)

Lemma newlyExhausted_spec ws s :
  ∃ res s', newlyExhausted ws s = (res, s') ∧ quiet s s' ∧ NoDup res ∧
    (∀ w, w ∈ res ↔ w ∈ ws ∧ ∃ wi, wants s !! w = Some wi ∧ exhausted wi = false) ∧
    (∀ w, w ∈ ws → wants s' !! w = set_exhausted true <$> wants s !! w) ∧
    (∀ w, w ∉ ws → wants s' !! w = wants s !! w).
Proof.
  unfold newlyExhausted. set (f := λ '(res, s) w, _).
  apply (foldl_inv (λ pre acc, ∃ res s', acc = (res, s') ∧ quiet s s' ∧ NoDup res ∧
    (∀ w, w ∈ res ↔ w ∈ pre ∧ ∃ wi, wants s !! w = Some wi ∧ exhausted wi = false) ∧
    (∀ w, w ∈ pre → wants s' !! w = set_exhausted true <$> wants s !! w) ∧
    (∀ w, w ∉ pre → wants s' !! w = wants s !! w))).
  { exists [], s. split_and!; [done|done|constructor|set_solver..]. }
  intros pre w post acc _ (res & s1 & -> & HQ & Hnd & H1 & H2 & H3). unfold f.
  destruct (decide (w ∈ pre)) as [Hw|Hw].
  { assert (∀ w', w' ∈ pre ++ [w] ↔ w' ∈ pre) as Hpre by (intros; rewrite elem_of_snoc; naive_solver).
    assert (∀ wi, wants s1 !! w = Some wi → exhausted wi = true) as Hex.
    { intros wi. rewrite H2 by done. by intros (wi0 & _ & ->)%fmap_Some. }
    exists res, s1. split_and!; [|done|done|by setoid_rewrite Hpre..].
    destruct (wants s1 !! w) as [wi|]; [|done]. by rewrite (Hex wi). }
  specialize (H3 w Hw) as Ew. destruct (wants s1 !! w) as [wi|] eqn:E1.
  - destruct (exhausted wi) eqn:Ex; cbn [negb].
    + exists res, s1. split_and!; [done|done|done| | |].
      * intros w'. rewrite elem_of_snoc, H1. split; [naive_solver|]. intros [[?| ->] (wi' & ? & ?)]; [naive_solver|congruence].
      * intros w' [?| ->]%elem_of_snoc; [by apply H2|]. rewrite E1, <- Ew. cbn. by destruct wi; cbn in *; subst.
      * intros w' Hn. apply H3. set_solver.
    + do 2 eexists. split; [done|]. split_and!.
      * etrans; [done|apply with_want_quiet].
      * apply NoDup_app. split_and!; [done| |apply NoDup_singleton].
        intros w' Hin ->%list_elem_of_singleton. apply H1 in Hin. tauto.
      * intros w'. rewrite !elem_of_snoc, H1. split; [|naive_solver].
        intros [?| ->]; [naive_solver|]. split; [by right|]. by exists wi.
      * intros w' Hin. rewrite with_want_wants, lookup_alter. case_decide; subst.
        -- by rewrite E1, <- Ew.
        -- apply H2. set_solver.
      * intros w' Hn. rewrite with_want_wants, lookup_alter_ne by set_solver. apply H3. set_solver.
  - exists res, s1. split_and!; [done|done|done| | |].
    + intros w'. rewrite elem_of_snoc, H1. split; [naive_solver|]. intros [[?| ->] (wi' & ? & ?)]; [naive_solver|congruence].
    + intros w' [?| ->]%elem_of_snoc; [by apply H2|]. by rewrite E1, <- Ew.
    + intros w' Hn. apply H3. set_solver.
Qed.

(** The wants that a batch reports as exhausted: tracked, not reported before,
    touched by a DONT_HAVE or by a departing peer, and either the last peer left
    or every peer of the session said DONT_HAVE. *)
Definition exhausts bpm (dhs : list Want) (nu : list PeerID) s w : Prop :=
  (∃ wi, wants s !! w = Some wi ∧ exhausted wi = false) ∧ (nu ≠ [] ∨ w ∈ dhs) ∧
  ((nu ≠ [] ∧ peers s = ∅) ∨
   (is_Some (bpm !! Want_Cid w) ∧ ∀ p, p ∈ peers s → BPM.answer bpm p (Want_Cid w) = Some false)).

Definition report (ws : list Want) : list sws_event :=
  match ws with [] => [] | _ => [EvPeersExhausted ws] end.

Lemma elem_of_report l ws : EvPeersExhausted l ∈ report ws → l = ws.
Proof. unfold report. destruct ws; [by intros ?%not_elem_of_nil|]. by intros [= ->]%list_elem_of_singleton. Qed.

(** Only the flag of some infos is raised. *)
Definition flagged wi wi' : Prop := wi' = wi ∨ wi' = set_exhausted true wi.

Lemma processExhaustedWants_spec ws s :
  ∃ res, let s' := processExhaustedWants ws s in
    evs s' = evs s ++ report res ∧ NoDup res ∧
    (∀ w, w ∈ res ↔ w ∈ ws ∧ ∃ wi, wants s !! w = Some wi ∧ exhausted wi = false) ∧
    quiet (emit (report res) s) s' ∧
    (∀ w, option_Forall2 flagged (wants s !! w) (wants s' !! w)) ∧
    (∀ w wi', w ∈ res → wants s' !! w = Some wi' → exhausted wi' = true).
Proof.
  unfold processExhaustedWants.
  destruct (newlyExhausted_spec ws s) as (res & s1 & -> & HQ & Hnd & H1 & H2 & H3). exists res. cbn zeta.
  set (s' := if (0 <? len res)%Z then _ else _).
  assert (s' = emit (report res) s1) as ->.
  { unfold s'. destruct (0 <? len res)%Z eqn:E; [by destruct res|]. destruct res; [|done].
    unfold emit. cbn. rewrite app_nil_r. by destruct s1. }
  split_and!; [cbn; by rewrite HQ|done|done|rewrite HQ; done| |].
  - intros w. cbn. destruct (decide (w ∈ ws)) as [Hw|Hw].
    + rewrite H2 by done. destruct (wants s !! w); constructor. by right.
    + rewrite H3 by done. destruct (wants s !! w); constructor. by left.
  - intros w wi' [Hw _]%H1. cbn. rewrite H2 by done. by intros (wi & _ & ->)%fmap_Some.
Qed.

Lemma HasPeers_false s : SPM.HasPeers (spm s) = false ↔ peers s = ∅.
Proof.
  unfold SPM.HasPeers. rewrite Nat.ltb_ge. split; [|by intros ->].
  intros H. apply leibniz_equiv, size_empty_inv. lia.
Qed.

Lemma elem_of_all_pending s w wi : wants s !! w = Some wi → w ∈ all_pending s.
Proof.
  intros E. unfold all_pending. apply elem_of_app. right. apply list_elem_of_fmap.
  exists (w, wi). split; [done|]. by apply elem_of_range.
Qed.

Lemma checkForExhaustedWants_spec bpm dhs nu s :
  ∃ res, let s' := checkForExhaustedWants bpm dhs nu s in
    evs s' = evs s ++ report res ∧ NoDup res ∧ (∀ w, w ∈ res ↔ exhausts bpm dhs nu s w) ∧
    quiet (emit (report res) s) s' ∧
    (∀ w, option_Forall2 flagged (wants s !! w) (wants s' !! w)) ∧
    (∀ w wi', w ∈ res → wants s' !! w = Some wi' → exhausted wi' = true).
Proof.
  assert (emit (report []) s = s) as E0 by (unfold emit; cbn; rewrite app_nil_r; by destruct s).
  assert (∀ w, option_Forall2 flagged (wants s !! w) (wants s !! w)) as Hf.
  { intros w. destruct (wants s !! w); constructor. by left. }
  assert ((∀ w, ¬ exhausts bpm dhs nu s w) →
    ∃ res, evs s = evs s ++ report res ∧ NoDup res ∧ (∀ w, w ∈ res ↔ exhausts bpm dhs nu s w) ∧
      quiet (emit (report res) s) s ∧ (∀ w, option_Forall2 flagged (wants s !! w) (wants s !! w)) ∧
      (∀ w wi', w ∈ res → wants s !! w = Some wi' → exhausted wi' = true)) as Hnone.
  { intros Hno. exists []. rewrite E0. split_and!; [by rewrite app_nil_r|constructor| |done|done|set_solver].
    intros w. split; [set_solver|]. intros H. by destruct (Hno w). }
  unfold checkForExhaustedWants.
  destruct ((len dhs =? 0)%Z && (len nu =? 0)%Z) eqn:Ee.
  { apply andb_true_iff in Ee as [->%len_eqb_nil ->%len_eqb_nil].
    apply Hnone. intros w (_ & [?|?%not_elem_of_nil] & _); done. }
  set (ws := if (0 <? len nu)%Z then all_pending s else dhs).
  assert (∀ w wi, wants s !! w = Some wi → w ∈ ws ↔ nu ≠ [] ∨ w ∈ dhs) as Hws.
  { intros w wi E. unfold ws. destruct (0 <? len nu)%Z eqn:En.
    - apply len_pos in En. apply elem_of_all_pending in E. tauto.
    - destruct nu; [|done]. naive_solver. }
  destruct ((0 <? len nu)%Z && negb (SPM.HasPeers (spm s))) eqn:Ep.
  { apply andb_true_iff in Ep as [Hnu%len_pos Hpe%negb_true_iff%HasPeers_false].
    destruct (processExhaustedWants_spec ws s) as (res & H1 & H2 & H3 & H4 & H5 & H6).
    exists res. split_and!; [done|done| |done..]. intros w. rewrite H3. unfold exhausts. split.
    - intros [Hw (wi & E & Hex)]. split_and!; [eauto|by left|left; done].
    - intros [(wi & E & Hex) [Hor _]]. split; [by eapply Hws|eauto]. }
  assert (¬ (nu ≠ [] ∧ peers s = ∅)) as Hnp.
  { intros [Hn1%len_pos Hn2%HasPeers_false]. by rewrite Hn1, Hn2 in Ep. }
  destruct (0 <? len ws)%Z eqn:El.
  - destruct (processExhaustedWants_spec (BPM.AllPeersDoNotHaveBlock (SPM.Peers (spm s)) ws bpm) s)
      as (res & H1 & H2 & H3 & H4 & H5 & H6).
    exists res. split_and!; [done|done| |done..]. intros w.
    rewrite H3, BPM.AllPeersDoNotHaveBlock_eq, list_elem_of_filter, Is_true_true, BPM.allDontHave_spec.
    unfold exhausts, SPM.Peers. setoid_rewrite elem_of_keys. split.
    + intros [[Hd Hw] (wi & E & Hex)]. split_and!; [eauto|by eapply Hws|by right].
    + intros [(wi & E & Hex) [Hor [?|Hd]]]; [done|]. split; [|eauto]. split; [done|by eapply Hws].
  - apply Hnone. intros w [(wi & E & _) [Hor%(Hws _ _ E) _]]. destruct ws; [|done].
    by apply not_elem_of_nil in Hor.
Qed.

(** ** Sending *)

(** No answer is awaited and some peer is worth asking. *)
Definition ready wi : Prop := sentTo wi = "" ∧ bestPeer wi ≠ "".
(** The info once the best peer has been asked. *)
Definition asked wi : wantInfo := if String.eqb (sentTo wi) "" then set_sentTo (bestPeer wi) wi else wi.

Lemma forPeer_insert (ts : gmap PeerID wantSets) p x q :
  forPeer (<[p := x]> ts) q = if decide (q = p) then x else forPeer ts q.
Proof. unfold forPeer. rewrite lookup_insert. by repeat case_decide; subst. Qed.

Lemma add_wantHaves_spec w ps ts :
  let ts' := foldl (add_wantHave w) ts ps in
  (∀ p, wantBlocks (forPeer ts' p) = wantBlocks (forPeer ts p)) ∧
  (∀ p w', w' ∈ wantHaves (forPeer ts' p) ↔ w' ∈ wantHaves (forPeer ts p) ∨ (w' = w ∧ p ∈ ps)) ∧
  (∀ p, is_Some (ts' !! p) ↔ is_Some (ts !! p) ∨ p ∈ ps).
Proof.
  cbn zeta. induction ps as [|q ps IH] using rev_ind; [set_solver|].
  destruct IH as (H1 & H2 & H3). rewrite foldl_app. cbn [foldl]. set (ts' := foldl _ _ _) in *.
  unfold add_wantHave, AuthSet.Add. split_and!; intros p.
  - rewrite forPeer_insert. case_decide; subst; cbn; apply H1.
  - intros w'. rewrite forPeer_insert, elem_of_snoc. specialize (H2 p w'). case_decide; subst; cbn.
    + rewrite elem_of_union, elem_of_singleton. tauto.
    + tauto.
  - rewrite lookup_insert_is_Some, elem_of_snoc, H3. destruct (decide (q = p)); naive_solver.
Qed.

Lemma add_wantBlock_spec w b ts :
  let ts' := add_wantBlock b w ts in
  (∀ p w', w' ∈ wantBlocks (forPeer ts' p) ↔ w' ∈ wantBlocks (forPeer ts p) ∨ (w' = w ∧ p = b)) ∧
  (∀ p, wantHaves (forPeer ts' p) = wantHaves (forPeer ts p)) ∧
  (∀ p, is_Some (ts' !! p) ↔ is_Some (ts !! p) ∨ p = b).
Proof.
  cbn zeta. unfold add_wantBlock, AuthSet.Add. split_and!; intros p.
  - intros w'. rewrite forPeer_insert. case_decide; subst; cbn; [|tauto].
    rewrite elem_of_union, elem_of_singleton. tauto.
  - rewrite forPeer_insert. by case_decide; subst.
  - rewrite lookup_insert_is_Some. destruct (decide (b = p)); naive_solver.
Qed.

(** The effect of one want on the table of what to send. *)
Lemma next_step_spec na s ts w wi :
  wants s !! w = Some wi →
  ∃ ts', next_step na (s, ts) (w, wi) = (set_wants (alter asked w (wants s)) s, ts') ∧
    (∀ p w', w' ∈ wantBlocks (forPeer ts' p) ↔
       w' ∈ wantBlocks (forPeer ts p) ∨ (w' = w ∧ ready wi ∧ bestPeer wi = p)) ∧
    (∀ p w', w' ∈ wantHaves (forPeer ts' p) ↔
       w' ∈ wantHaves (forPeer ts p) ∨
       (w' = w ∧ (p ∈ na ∨ (ready wi ∧ bestPeer wi ≠ p ∧ p ∈ peers s)))) ∧
    (∀ p, is_Some (ts' !! p) ↔
       is_Some (ts !! p) ∨ p ∈ na ∨ (ready wi ∧ (bestPeer wi = p ∨ p ∈ peers s))).
Proof.
  intros E. unfold next_step. set (ts1 := foldl (add_wantHave w) ts na).
  destruct (add_wantHaves_spec w na ts) as (A1 & A2 & A3). fold ts1 in A1, A2, A3.
  assert ((sentTo wi ≠ "" ∨ bestPeer wi = "") → alter asked w (wants s) = wants s) as Hsame.
  { intros Hor. apply map_eq. intros w'. rewrite lookup_alter. case_decide; [subst|done].
    rewrite E. cbn. f_equal. unfold asked. destruct (String.eqb_spec (sentTo wi) "") as [Hs|Hs]; [|done].
    destruct Hor as [?| ->]; [done|]. destruct wi; cbn in *; by subst. }
  assert (set_wants (wants s) s = s) as Hid by by destruct s.
  assert (¬ ready wi → (∀ p w', w' ∈ wantBlocks (forPeer ts1 p) ↔
       w' ∈ wantBlocks (forPeer ts p) ∨ (w' = w ∧ ready wi ∧ bestPeer wi = p)) ∧
    (∀ p w', w' ∈ wantHaves (forPeer ts1 p) ↔
       w' ∈ wantHaves (forPeer ts p) ∨
       (w' = w ∧ (p ∈ na ∨ (ready wi ∧ bestPeer wi ≠ p ∧ p ∈ peers s)))) ∧
    (∀ p, is_Some (ts1 !! p) ↔
       is_Some (ts !! p) ∨ p ∈ na ∨ (ready wi ∧ (bestPeer wi = p ∨ p ∈ peers s)))) as Hidle.
  { intros Hr. split_and!; intros p; [intros w'; rewrite A1|intros w'; rewrite A2|rewrite A3]; tauto. }
  destruct (String.eqb_spec (sentTo wi) "") as [Hs|Hs]; cbn [negb].
  2:{ exists ts1. rewrite Hsame, Hid by by left. split; [done|]. apply Hidle. by intros [? _]. }
  destruct (String.eqb_spec (bestPeer wi) "") as [Hb|Hb].
  { exists ts1. rewrite Hsame, Hid by by right. split; [done|]. apply Hidle. by intros [_ ?]. }
  assert (ready wi) as Hr by done.
  destruct (add_wantBlock_spec w (bestPeer wi) ts1) as (B1 & B2 & B3).
  set (ts2 := add_wantBlock (bestPeer wi) w ts1) in *.
  set (s1 := setWantSentTo w (bestPeer wi) s).
  assert (s1 = set_wants (alter asked w (wants s)) s) as Es1.
  { unfold s1, setWantSentTo, with_want. rewrite E. f_equal. apply map_eq. intros w'.
    rewrite lookup_insert, lookup_alter. case_decide; [subst|done]. rewrite E. cbn. f_equal. unfold asked.
    by rewrite Hs. }
  assert (SPM.Peers (spm s1) = SPM.Peers (spm s)) as -> by by rewrite Es1.
  destruct (add_wantHaves_spec w (filter (λ op, op ≠ bestPeer wi) (SPM.Peers (spm s))) ts2) as (C1 & C2 & C3).
  set (ts3 := foldl (add_wantHave w) ts2 _) in *.
  assert (∀ p, p ∈ filter (λ op, op ≠ bestPeer wi) (SPM.Peers (spm s)) ↔ p ≠ bestPeer wi ∧ p ∈ peers s) as Hf.
  { intros p. unfold SPM.Peers. by rewrite list_elem_of_filter, elem_of_keys. }
  exists ts3. split; [by rewrite Es1|]. split_and!; intros p.
  - intros w'. rewrite C1, B1, A1. naive_solver.
  - intros w'. rewrite C2, B2, A2, Hf. naive_solver.
  - rewrite C3, B3, A3, Hf. destruct (decide (p = bestPeer wi)); naive_solver.
Qed.

Lemma next_loop na s :
  ∃ ts, foldl (next_step na) (s, ∅) (range (wants s)) = (set_wants (asked <$> wants s) s, ts) ∧
    (∀ p w, w ∈ wantBlocks (forPeer ts p) ↔ ∃ wi, wants s !! w = Some wi ∧ ready wi ∧ bestPeer wi = p) ∧
    (∀ p w, w ∈ wantHaves (forPeer ts p) ↔ ∃ wi, wants s !! w = Some wi ∧
       (p ∈ na ∨ (ready wi ∧ bestPeer wi ≠ p ∧ p ∈ peers s))) ∧
    (∀ p, is_Some (ts !! p) ↔ ∃ w wi, wants s !! w = Some wi ∧
       (p ∈ na ∨ (ready wi ∧ (bestPeer wi = p ∨ p ∈ peers s)))).
Proof.
  setoid_rewrite <- (elem_of_range (wants s)).
  assert (∃ W ts, foldl (next_step na) (s, ∅) (range (wants s)) = (set_wants W s, ts) ∧
    (∀ w, w ∈ (range (wants s)).*1 → W !! w = asked <$> wants s !! w) ∧
    (∀ w, w ∉ (range (wants s)).*1 → W !! w = wants s !! w) ∧
    (∀ p w, w ∈ wantBlocks (forPeer ts p) ↔ ∃ wi, (w, wi) ∈ range (wants s) ∧ ready wi ∧ bestPeer wi = p) ∧
    (∀ p w, w ∈ wantHaves (forPeer ts p) ↔ ∃ wi, (w, wi) ∈ range (wants s) ∧
       (p ∈ na ∨ (ready wi ∧ bestPeer wi ≠ p ∧ p ∈ peers s))) ∧
    (∀ p, is_Some (ts !! p) ↔ ∃ w wi, (w, wi) ∈ range (wants s) ∧
       (p ∈ na ∨ (ready wi ∧ (bestPeer wi = p ∨ p ∈ peers s)))))
    as (W & ts & -> & H1 & H2 & H3 & H4 & H5).
  { assert (∀ w wi, (w, wi) ∈ range (wants s) → wants s !! w = Some wi) as Hin by (intros; by apply elem_of_range).
    pose proof (NoDup_range_keys (wants s)) as Hnd. revert Hin Hnd.
    apply (foldl_inv (λ pre acc, (∀ w wi, (w, wi) ∈ pre → wants s !! w = Some wi) → NoDup pre.*1 →
      ∃ W ts, acc = (set_wants W s, ts) ∧
      (∀ w, w ∈ pre.*1 → W !! w = asked <$> wants s !! w) ∧ (∀ w, w ∉ pre.*1 → W !! w = wants s !! w) ∧
      (∀ p w, w ∈ wantBlocks (forPeer ts p) ↔ ∃ wi, (w, wi) ∈ pre ∧ ready wi ∧ bestPeer wi = p) ∧
      (∀ p w, w ∈ wantHaves (forPeer ts p) ↔ ∃ wi, (w, wi) ∈ pre ∧
         (p ∈ na ∨ (ready wi ∧ bestPeer wi ≠ p ∧ p ∈ peers s))) ∧
      (∀ p, is_Some (ts !! p) ↔ ∃ w wi, (w, wi) ∈ pre ∧
         (p ∈ na ∨ (ready wi ∧ (bestPeer wi = p ∨ p ∈ peers s)))))).
    { intros _ _. exists (wants s), ∅. split_and!; [by destruct s|set_solver|done|..]; intros p; [| |].
      - intros w. unfold forPeer. rewrite lookup_empty. cbn. set_solver.
      - intros w. unfold forPeer. rewrite lookup_empty. cbn. set_solver.
      - rewrite lookup_empty. split; [by intros [? ?]|]. intros (? & ? & ?%not_elem_of_nil & _). done. }
    intros pre [w wi] post acc _ IH Hin Hnd. rewrite fmap_app in Hnd. apply NoDup_app in Hnd as (Hnd & Hd & _).
    destruct IH as (W & ts & -> & I1 & I2 & I3 & I4 & I5); [intros; apply Hin; set_solver|done|].
    assert (w ∉ pre.*1) as Hw by (intros Hx; apply (Hd _ Hx); set_solver).
    assert (wants s !! w = Some wi) as Ew by (apply Hin; set_solver).
    destruct (next_step_spec na (set_wants W s) ts w wi) as (ts' & -> & J1 & J2 & J3);
      [cbn; by rewrite I2|]. cbn in J2, J3.
    exists (alter asked w W), ts'. split_and!; [done|..].
    - intros w' Hw'. rewrite lookup_alter. case_decide; [subst; by rewrite I2|].
      apply I1. rewrite fmap_app in Hw'. set_solver.
    - intros w' Hw'. rewrite fmap_app in Hw'. rewrite lookup_alter_ne by set_solver. apply I2. set_solver.
    - intros p w'. by rewrite J1, I3, (exists_snoc_pair (λ wi, ready wi ∧ bestPeer wi = p)).
    - intros p w'. by rewrite J2, I4, (exists_snoc_pair (λ wi, p ∈ na ∨ ready wi ∧ bestPeer wi ≠ p ∧ p ∈ peers s)).
    - intros p. rewrite J3, I5.
      setoid_rewrite (exists_snoc_pair (λ wi, p ∈ na ∨ ready wi ∧ (bestPeer wi = p ∨ p ∈ peers s))).
      split; [intros [(w' & ?)|?]; [exists w'; by left|exists w; right; by split]|].
      intros (w' & [?|[_ ?]]); [left; by exists w'|by right]. }
  exists ts. split_and!; [|done..]. f_equal. f_equal. apply map_eq. intros w. rewrite lookup_fmap.
  destruct (decide (w ∈ (range (wants s)).*1)) as [Hw|Hw]; [by apply H1|]. rewrite H2 by done.
  destruct (wants s !! w) as [wi|] eqn:E; [|done]. destruct Hw. apply list_elem_of_fmap.
  exists (w, wi). split; [done|]. by apply elem_of_range.
Qed.

(** The messages to the peers, and the record of want-blocks sent. *)
Definition sends (l : list (PeerID * (list Want * list Want))) : list sws_event :=
  l ≫= λ x, [EvSendWants x.1 x.2.1 x.2.2; EvOnSend x.1 x.2.1 x.2.2].

Definition message s (x : PeerID * wantSets) : PeerID * (list Want * list Want) :=
  (x.1, (AuthSet.Keys (wantBlocks x.2),
         AuthSet.Keys (foldl (λ X w, AuthSet.Add w X) (wantHaves x.2)
           (getPiggybackWantHaves x.1 (wantBlocks x.2) s)))).

Lemma send_loop ts s :
  let s' := sendWants ts s in
  s' = set_swbt (swbt s') (emit (sends (message s <$> range ts)) s) ∧
  (∀ p w, SentWants.haveSentWantBlockTo p w (swbt s') = true ↔
     SentWants.haveSentWantBlockTo p w (swbt s) = true ∨ w ∈ wantBlocks (forPeer ts p)).
Proof.
  cbn zeta. unfold sendWants. set (s' := foldl _ _ _).
  assert (s' = set_swbt (swbt s') (emit (sends (message s <$> range ts)) s) ∧
    (∀ p w, SentWants.haveSentWantBlockTo p w (swbt s') = true ↔
     SentWants.haveSentWantBlockTo p w (swbt s) = true ∨ ∃ x, (p, x) ∈ range ts ∧ w ∈ wantBlocks x))
    as [H1 H2].
  { unfold s'. pose proof (NoDup_range_keys ts) as Hnd. revert Hnd.
    apply (foldl_inv (λ pre s', NoDup pre.*1 → s' = set_swbt (swbt s') (emit (sends (message s <$> pre)) s) ∧
      (∀ p w, SentWants.haveSentWantBlockTo p w (swbt s') = true ↔
       SentWants.haveSentWantBlockTo p w (swbt s) = true ∨ ∃ x, (p, x) ∈ pre ∧ w ∈ wantBlocks x))).
    { intros _. split; [unfold emit; cbn; rewrite app_nil_r; by destruct s|set_solver]. }
    intros pre [p x] post s1 _ IH Hnd. rewrite fmap_app in Hnd. apply NoDup_app in Hnd as (Hnd & Hd & _).
    destruct (IH Hnd) as [I1 I2]. clear IH.
    assert (getPiggybackWantHaves p (wantBlocks x) s1 = getPiggybackWantHaves p (wantBlocks x) s) as Epig.
    { unfold getPiggybackWantHaves. assert (wants s1 = wants s) as -> by by rewrite I1.
      apply filter_ext_in. intros w _.
      assert (SentWants.haveSentWantBlockTo p w (swbt s1) = SentWants.haveSentWantBlockTo p w (swbt s)) as ->; [|done].
      apply eq_true_iff_eq. rewrite I2. split; [|by left]. intros [?|(y & Hy & _)]; [done|].
      destruct (Hd p); [|set_solver]. apply list_elem_of_fmap. by exists (p, y). }
    split.
    - unfold send_step. rewrite Epig, I1, fmap_app. unfold sends. rewrite bind_app. unfold emit, set_swbt. cbn.
      by rewrite <- app_assoc.
    - intros q w. unfold send_step. cbn. rewrite SentWants.haveSent_add, I2. unfold AuthSet.Keys.
      rewrite elem_of_keys, (exists_snoc_pair (λ x, w ∈ wantBlocks x)). tauto. }
  split; [done|]. intros p w. rewrite H2. unfold forPeer. setoid_rewrite elem_of_range.
  destruct (ts !! p) as [x|]; cbn; [|set_solver]. naive_solver.
Qed.

Lemma elem_of_piggyback p wbs s w :
  w ∈ getPiggybackWantHaves p wbs s ↔
  w ∈ tracked s ∧ w ∉ wbs ∧ SentWants.haveSentWantBlockTo p w (swbt s) = false.
Proof.
  unfold getPiggybackWantHaves. rewrite list_elem_of_filter, andb_true_iff, !negb_true_iff, AuthSet.Has_false.
  rewrite list_elem_of_fmap, elem_of_dom. split.
  - intros [? ([w' wi] & -> & ?%elem_of_range)]. naive_solver.
  - intros ([wi ?] & ? & ?). split; [done|]. exists (w, wi). split; [done|]. by apply elem_of_range.
Qed.

Lemma elem_of_addAll (X : gset Want) (ws : list Want) w :
  w ∈ foldl (λ X w, AuthSet.Add w X) X ws ↔ w ∈ X ∨ w ∈ ws.
Proof. revert X. induction ws as [|w' ws IH]; intros X; cbn; [set_solver|]. rewrite IH. unfold AuthSet.Add. set_solver. Qed.

(** What one peer is sent: the wants it is asked for, and the want-haves that go
    with them. *)
Definition to_ask s p w : Prop := ∃ wi, wants s !! w = Some wi ∧ ready wi ∧ bestPeer wi = p.
Definition to_probe (na : list PeerID) s p w : Prop :=
  w ∈ tracked s ∧
  (p ∈ na ∨ (p ∈ peers s ∧ ∃ b, b ≠ p ∧ to_ask s b w) ∨
   (¬ to_ask s p w ∧ SentWants.haveSentWantBlockTo p w (swbt s) = false)).

Lemma sendNextWants_spec na s :
  let s' := sendNextWants na s in
  ∃ l, s' = set_swbt (swbt s') (emit (sends l) (set_wants (asked <$> wants s) s)) ∧ NoDup l.*1 ∧
    (∀ p, p ∈ l.*1 ↔ ∃ w, w ∈ tracked s ∧ (p ∈ na ∨ ∃ b, to_ask s b w ∧ (b = p ∨ p ∈ peers s))) ∧
    (∀ p wb wh, (p, (wb, wh)) ∈ l → NoDup wb ∧ NoDup wh ∧
       (∀ w, w ∈ wb ↔ to_ask s p w) ∧ (∀ w, w ∈ wh ↔ to_probe na s p w)) ∧
    (∀ p w, SentWants.haveSentWantBlockTo p w (swbt s') = true ↔
       SentWants.haveSentWantBlockTo p w (swbt s) = true ∨ to_ask s p w).
Proof.
  cbn zeta. unfold sendNextWants.
  destruct (next_loop na s) as (ts & -> & H1 & H2 & H3).
  set (s1 := set_wants (asked <$> wants s) s). destruct (send_loop ts s1) as [G1 G2].
  set (s' := sendWants ts s1) in *. exists (message s1 <$> range ts).
  assert ((message s1 <$> range ts).*1 = (range ts).*1) as Ek by (rewrite <- list_fmap_compose; done).
  split_and!; [done|rewrite Ek; apply NoDup_range_keys|..].
  - intros p. rewrite Ek. assert (p ∈ (range ts).*1 ↔ is_Some (ts !! p)) as ->.
    { rewrite list_elem_of_fmap. split.
      - intros ([p' x] & -> & ?%elem_of_range). by exists x.
      - intros [x ?]. exists (p, x). split; [done|]. by apply elem_of_range. }
    rewrite H3. unfold to_ask. split.
    + intros (w & wi & E & Hor). exists w. split; [by apply elem_of_dom_2 in E|].
      destruct Hor as [?|[? ?]]; [by left|right]. exists (bestPeer wi). split; [by exists wi|tauto].
    + intros (w & [wi E]%elem_of_dom & Hor). exists w, wi. split; [done|].
      destruct Hor as [?|(b & (wi' & E' & Hr & <-) & ?)]; [by left|right]. simplify_eq. done.
  - intros p wb wh ([p' x] & Heq & Hx%elem_of_range)%list_elem_of_fmap. unfold message in Heq. cbn in Heq.
    simplify_eq. assert (forPeer ts p' = x) as Ex by (unfold forPeer; by rewrite Hx).
    assert (∀ w, w ∈ wantBlocks x ↔ to_ask s p' w) as Hask by (intros w; rewrite <- Ex; apply H1).
    split_and!; [apply NoDup_keys|apply NoDup_keys|intros w; unfold AuthSet.Keys; by rewrite elem_of_keys|].
    intros w. unfold AuthSet.Keys. rewrite elem_of_keys, elem_of_addAll, elem_of_piggyback, Hask, <- Ex, H2.
    unfold s1. cbn. rewrite dom_fmap_L. unfold to_probe, to_ask. split.
    + intros [(wi & E & Hor)|(Hw & Hn & Hs)]; [|tauto]. split; [by apply elem_of_dom_2 in E|].
      destruct Hor as [?|(Hr & Hb & Hp)]; [by left|right; left]. split; [done|]. exists (bestPeer wi).
      split; [done|]. by exists wi.
    + intros [[wi E]%elem_of_dom Hor]. destruct Hor as [?|[(Hp & b & Hb & (wi' & E' & Hr & <-))|[Hn Hs]]].
      * left. exists wi. split; [done|by left].
      * left. exists wi'. tauto.
      * right. split_and!; [by apply elem_of_dom_2 in E|done|done].
  - intros p w. rewrite G2. cbn. by rewrite H1.
Qed.

Lemma asked_ok wi : wi_ok wi → wi_ok (asked wi).
Proof. intros [? ?]. unfold asked. case_match; by split. Qed.

Lemma sendNextWants_Core na s :
  Core s →
  let s' := sendNextWants na s in
  Core s' ∧ (∀ w wi, wants s' !! w = Some wi → sentTo wi ≠ "" ∨ bestPeer wi = "").
Proof.
  intros [C1 C2 C3 C4 C5]. destruct (sendNextWants_spec na s) as (l & E & _ & _ & _ & Hsent).
  cbn zeta in *. set (s' := sendNextWants na s) in *.
  assert (∀ w wi', wants s' !! w = Some wi' → ∃ wi, wants s !! w = Some wi ∧ wi' = asked wi) as Hw.
  { intros w wi'. rewrite E. cbn. rewrite lookup_fmap. intros (wi & ? & ->)%fmap_Some. eauto. }
  split; [split|].
  - intros w wi' (wi & Ew & ->)%Hw. eapply asked_ok, C1, Ew.
  - intros w wi' (wi & Ew & ->)%Hw. unfold asked.
    destruct (String.eqb_spec (sentTo wi) "") as [Hs|Hs]; cbn; intros Hne; apply Hsent.
    + right. by exists wi.
    + left. by apply C2.
  - rewrite E. apply C3.
  - rewrite E. apply C4.
  - replace (peers s') with (peers s) by by rewrite E.
    intros w wi' (wi & Ew & ->)%Hw. replace (blockPresence (asked wi)) with (blockPresence wi); [by eapply C5|].
    unfold asked. by case_match.
  - intros w wi' (wi & Ew & ->)%Hw. unfold asked.
    destruct (String.eqb_spec (sentTo wi) "") as [Hs|Hs]; cbn; [|by left].
    destruct (decide (bestPeer wi = "")); [by right|by left].
Qed.
End facts.
End SWSBatch.
