(* ===== verification/SessionWantSenderLoop.v ===== *)
(** * The run loop of the want sender (src/internal/session/sessionwantsender.go)

    The effect of a whole batch and the invariant of every reachable state. *)
From S2P Require Import Prelude Auth Float64 BlockPresence SessionWants SessionPeers SessionWantSender.
From S2P Require Import SessionWantSenderFacts SessionWantSenderRun SessionWantSenderBatch.
From Stdlib Require Import SpecFloat.
From stdpp Require Import options.
Set Default Goal Selector "1".

Module SWSLoop.
Import SWS SWSFacts SWSRun SWSBatch.
Section facts.
Context {CL : CidLib} {GO : GoRuntime} (rand : nat → spec_float).
Implicit Types (s : sessionWantSender) (bpm : BPM.BlockPresenceManager) (ch : change).
Implicit Types (wi : wantInfo) (p : PeerID) (w : Want).

Abbreviation tracked s := (dom (wants s)).
Abbreviation peers s := (SPM.peers (spm s)).

(** ** What the changes of a batch ask for *)

Definition track_step (X : gset Want) ch : gset Want :=
  (X ∪ list_to_set (ch_add ch)) ∖ list_to_set (ch_cancel ch).
Definition updates_of (chs : list change) : list update :=
  filter (λ u, from u ≠ "") (ch_update <$> chs).
(** A message with blocks or HAVEs shows that its sender is available. *)
Definition shows u : bool := negb (String.eqb (from u) "") && ((0 <? len (ks u))%Z || (0 <? len (haves u))%Z).
Definition avail_step (m : gmap PeerID bool) ch : gmap PeerID bool :=
  let m := if shows (ch_update ch) then <[from (ch_update ch) := true]> m else m in
  let a := ch_availability ch in
  if String.eqb (target a) "" then m else <[target a := available a]> m.
Definition availability_of (chs : list change) : gmap PeerID bool := foldl avail_step ∅ chs.
Definition cancels_of (chs : list change) : list Want := chs ≫= ch_cancel.

Lemma availability_named chs : availability_of chs !! "" = None.
Proof.
  unfold availability_of. apply (foldl_inv_simple (λ m, m !! "" = None)); [done|].
  intros m ch _ E. unfold avail_step, shows.
  destruct (String.eqb_spec (target (ch_availability ch)) ""), (String.eqb_spec (from (ch_update ch)) "");
    cbn [negb andb]; try case_match; rewrite ?lookup_insert_ne by done; done.
Qed.

Lemma apply_change_spec bpm b ch :
  Core (b_state b) →
  let b' := apply_change rand bpm b ch in
  Core (b_state b') ∧ tracked (b_state b') = track_step (tracked (b_state b)) ch ∧
  b_availability b' = avail_step (b_availability b) ch ∧
  b_cancels b' = b_cancels b ++ ch_cancel ch ∧
  b_updates b' = b_updates b ++ updates_of [ch] ∧
  keep (b_state b') = keep (b_state b) ∧ spm (b_state b') = spm (b_state b) ∧
  spawned (b_state b') = spawned (b_state b) ∧
  peerConsecutiveDontHaves (b_state b') = peerConsecutiveDontHaves (b_state b) ∧
  evs (b_state b') = evs (b_state b) ++
    (if shows (ch_update ch) then [EvRegisterSession (from (ch_update ch))] else []).
Proof.
  intros HC. cbn zeta. unfold apply_change.
  destruct (track_all rand bpm (ch_add ch) (b_state b) HC) as (A1 & A2 & Ac & A3). cbn zeta in *.
  set (s1 := foldl (λ s w, trackWant rand bpm w s) _ _) in *.
  destruct (untrack_all (ch_cancel ch) s1 A1) as (B1 & B2 & Bc & B3). cbn zeta in *. rewrite Ac in Bc.
  set (s2 := foldl (λ s w, untrackWant w s) _ _) in *.
  rewrite A2 in B2. pose proof (f_equal (λ x, x.1.1.1) B2) as E1. pose proof (f_equal (λ x, x.1.1.2) B2) as E2.
  pose proof (f_equal (λ x, x.1.2) B2) as E3. pose proof (f_equal snd B2) as E4. cbn in E1, E2, E3, E4.
  assert (tracked s2 = track_step (tracked (b_state b)) ch) as Et by (rewrite B3, A3; done).
  assert (Core (emit [EvRegisterSession (from (ch_update ch))] s2)) as B1' by by destruct B1.
  unfold updates_of, avail_step, shows. change (ch_update <$> [ch]) with [ch_update ch].
  rewrite filter_cons, filter_nil.
  destruct (String.eqb_spec (from (ch_update ch)) "") as [Ef|Ef]; cbn [negb andb].
  - rewrite decide_False by tauto. destruct (String.eqb_spec (target (ch_availability ch)) ""); cbn;
      rewrite ?app_nil_r; by split_and!.
  - rewrite decide_True by tauto. destruct (_ || _); cbn; destruct (String.eqb_spec (target (ch_availability ch)) ""); cbn;
      rewrite ?app_nil_r; split_and!; try done; by rewrite E1.
Qed.

Definition registered (chs : list change) : list PeerID :=
  from <$> filter (λ u, shows u = true) (ch_update <$> chs).

Lemma batch_spec bpm chs s :
  Core s →
  let b := foldl (apply_change rand bpm) (mkBatch s ∅ [] []) chs in
  Core (b_state b) ∧ tracked (b_state b) = foldl track_step (tracked s) chs ∧
  b_availability b = availability_of chs ∧ b_cancels b = cancels_of chs ∧ b_updates b = updates_of chs ∧
  keep (b_state b) = keep s ∧ spm (b_state b) = spm s ∧ spawned (b_state b) = spawned s ∧
  peerConsecutiveDontHaves (b_state b) = peerConsecutiveDontHaves s ∧
  evs (b_state b) = evs s ++ (EvRegisterSession <$> registered chs).
Proof.
  intros HC. cbn zeta. induction chs as [|ch chs IH] using rev_ind.
  { cbn. split_and!; try done. by rewrite app_nil_r. }
  destruct IH as (H1 & H2 & H3 & H4 & H5 & H6 & H7 & H8 & Hc & H9).
  rewrite foldl_app. cbn [foldl]. set (b := foldl _ _ _) in *.
  destruct (apply_change_spec bpm b ch H1) as (G1 & G2 & G3 & G4 & G5 & G6 & G7 & G8 & Gc & G9).
  cbn zeta in *. split_and!; [done|..].
  - by rewrite G2, H2, foldl_app.
  - rewrite G3, H3. unfold availability_of. by rewrite foldl_app.
  - rewrite G4, H4. unfold cancels_of. rewrite bind_app. cbn. by rewrite app_nil_r.
  - rewrite G5, H5. unfold updates_of. by rewrite fmap_app, filter_app.
  - congruence.
  - congruence.
  - congruence.
  - congruence.
  - rewrite G9, H9. unfold registered. rewrite !fmap_app, filter_app, !fmap_app, app_assoc. f_equal.
    change (ch_update <$> [ch]) with [ch_update ch]. rewrite filter_cons, filter_nil.
    destruct (shows (ch_update ch)); by repeat case_decide.
Qed.

(** ** A whole batch *)

(** The changes that [onChange] processes, given the ones already taken. *)
Definition collected (chs : list change) s : list change :=
  chs ++ take (Z.to_nat changesBufferSize - length chs) (changes s).

(** A want-block for [w] was sent to [p]. *)
Definition emitted s p w : Prop := ∃ wb wh, EvSendWants p wb wh ∈ evs s ∧ w ∈ wb.

(** The state change of [onChange]. *)
Record BatchEffect bpm (chs : list change) s s' : Prop := mkBatchEffect {
  be_tracked : tracked s' =
    foldl track_step (tracked s) chs ∖ list_to_set (received (updates_of chs));
  be_peers : ∀ p, p ∈ peers s' ↔
    default (bool_decide (p ∈ peers s)) (availability_of chs !! p) = true;
  be_events : ∃ tcs ws l, evs s' = evs s ++ (EvRegisterSession <$> registered chs) ++
      (EvTagger <$> tcs) ++ report ws ++
      (if (0 <? len (cancels_of chs))%Z then [EvCancelSessionWants (sessionID s) (cancels_of chs)] else []) ++
      sends l ∧
    (∀ tr, rtc SPM.step (spm s, tr) (spm s', tr ++ tcs)) ∧
    (∀ w, w ∈ ws → w ∈ tracked s' ∧ (peers s' = ∅ ∨
       ∀ p, p ∈ peers s' → BPM.answer bpm p (Want_Cid w) = Some false)) ∧
    (peers s' = ∅ → l = []);
  be_spawned : ∃ prune, spawned s' = spawned s ++ ((λ p, availability_change p false) <$> prune) ∧
    ∀ p, p ∈ prune → (peerDontHaveLimit < count s p + times p (pairs dontHaves (updates_of chs)))%Z ∧
      (∀ w, (p, w) ∉ pairs haves (updates_of chs)) ∧
      (∀ w, w ∈ tracked s' → BPM.PeerHasBlock p (Want_Cid w) bpm = false);
  be_progress : peers s' ≠ ∅ → ∀ w wi, wants s' !! w = Some wi → sentTo wi ≠ "" ∨ bestPeer wi = "";
  be_sent : ∀ p w, SentWants.haveSentWantBlockTo p w (swbt s') = true →
    SentWants.haveSentWantBlockTo p w (swbt s) = true ∨ emitted s' p w;
  be_id : sessionID s' = sessionID s;
  be_ctx : ctxDone s' = ctxDone s ∧ closed s' = closed s;
}.

Lemma exhausted_reports es rs tcs ws sid cs msgs l :
  EvPeersExhausted l ∈ es ++ (EvRegisterSession <$> rs) ++ (EvTagger <$> tcs) ++ report ws ++
    (if (0 <? len cs)%Z then [EvCancelSessionWants sid cs] else []) ++ sends msgs →
  EvPeersExhausted l ∈ es ∨ l = ws.
Proof.
  rewrite !elem_of_app. intros [?|[H|[H|[H|[H|H]]]]]; [by left|exfalso|exfalso|right|exfalso|exfalso].
  - by apply list_elem_of_fmap in H as (? & ? & _).
  - by apply list_elem_of_fmap in H as (? & ? & _).
  - by apply elem_of_report.
  - case_match; [by apply list_elem_of_singleton in H|by apply not_elem_of_nil in H].
  - unfold sends in H. apply list_elem_of_bind in H as (x & H & _). set_solver.
Qed.

Lemma sendNextWants_emits na s p w :
  let s' := sendNextWants na s in
  SentWants.haveSentWantBlockTo p w (swbt s') = true →
  SentWants.haveSentWantBlockTo p w (swbt s) = true ∨ emitted s' p w.
Proof.
  destruct (sendNextWants_spec na s) as (l & E & _ & Hp & Hl & Hs). cbn zeta in *. intros [?|Ha]%Hs; [by left|right].
  assert (p ∈ l.*1) as ([p' [wb wh]] & -> & Hin)%list_elem_of_fmap.
  { apply Hp. exists w. split; [destruct Ha as (wi & ? & _); by eapply elem_of_dom_2|right]. exists p. by split; [|left]. }
  exists wb, wh. split; [|by apply (Hl _ _ _ Hin)]. rewrite E. cbn. apply elem_of_app. right.
  unfold sends. apply list_elem_of_bind. eexists. split; [|exact Hin]. left.
Qed.

(** The tail of [onChange], after the messages have been processed. *)
Lemma finish_spec bpm dhs na nu cs s :
  Core s →
  let s1 := checkForExhaustedWants bpm dhs nu s in
  let s2 := if (0 <? len cs)%Z then emit [EvCancelSessionWants (sessionID s1) cs] s1 else s1 in
  let s' := if SPM.HasPeers (spm s2) then sendNextWants na s2 else s2 in
  Core s' ∧ spm s' = spm s ∧ tracked s' = tracked s ∧ spawned s' = spawned s ∧ changes s' = changes s ∧
  (sessionID s', ctxDone s', closed s') = (sessionID s, ctxDone s, closed s) ∧
  (∃ ws l, evs s' = evs s ++ report ws ++
     (if (0 <? len cs)%Z then [EvCancelSessionWants (sessionID s) cs] else []) ++ sends l ∧
     (∀ w, w ∈ ws ↔ exhausts bpm dhs nu s w) ∧ (peers s = ∅ → l = [])) ∧
  (peers s ≠ ∅ → ∀ w wi, wants s' !! w = Some wi → sentTo wi ≠ "" ∨ bestPeer wi = "") ∧
  (∀ p w, SentWants.haveSentWantBlockTo p w (swbt s') = true →
    SentWants.haveSentWantBlockTo p w (swbt s) = true ∨ emitted s' p w).
Proof.
  intros HC. cbn zeta.
  destruct (checkForExhaustedWants_spec bpm dhs nu s) as (ws & A1 & _ & A3 & A4 & A5 & _).
  set (s1 := checkForExhaustedWants bpm dhs nu s) in *. cbn zeta in *.
  assert (tracked s1 = tracked s) as Ht1.
  { apply set_eq. intros w. rewrite !elem_of_dom. specialize (A5 w). destruct A5; split; intros [? ?]; done || eauto. }
  assert (Core s1) as HC1.
  { destruct HC as [C1 C2 C3 C4 C5].
    assert (∀ w wi', wants s1 !! w = Some wi' → ∃ wi, wants s !! w = Some wi ∧ flagged wi wi') as Hw.
    { intros w wi' E. specialize (A5 w). rewrite E in A5. inversion A5; subst. eauto. }
    split.
    - intros w wi' (wi & E & [->| ->])%Hw; [by eapply C1|]. destruct (C1 _ _ E). by split.
    - intros w wi' (wi & E & Hf)%Hw. replace (swbt s1) with (swbt s) by by rewrite A4.
      assert (sentTo wi' = sentTo wi) as -> by by destruct Hf as [->| ->]. by apply C2.
    - rewrite A4. apply C3.
    - rewrite A4. apply C4.
    - replace (peers s1) with (peers s) by by rewrite A4. intros w wi' (wi & E & Hf)%Hw.
      assert (blockPresence wi' = blockPresence wi) as -> by by destruct Hf as [->| ->]. by eapply C5. }
  set (s2 := if (0 <? len cs)%Z then _ else _).
  assert (s2 = emit (if (0 <? len cs)%Z then [EvCancelSessionWants (sessionID s) cs] else []) s1) as E2.
  { unfold s2. assert (sessionID s1 = sessionID s) as -> by by rewrite A4. case_match; [done|].
    unfold emit. rewrite app_nil_r. by destruct s1. }
  assert (Core s2) as HC2 by (rewrite E2; by destruct HC1).
  assert (spm s2 = spm s) as Em by by rewrite E2, A4.
  assert (evs s2 = evs s ++ report ws ++
    (if (0 <? len cs)%Z then [EvCancelSessionWants (sessionID s) cs] else [])) as Ee.
  { rewrite E2. cbn. by rewrite A1, <- app_assoc. }
  assert (tracked s2 = tracked s ∧ spawned s2 = spawned s ∧ changes s2 = changes s ∧
    (sessionID s2, ctxDone s2, closed s2) = (sessionID s, ctxDone s, closed s) ∧ swbt s2 = swbt s) as (F1 & F2 & F3 & F4 & F5).
  { rewrite E2. cbn. split_and!; [done|by rewrite A4..]. }
  clearbody s2. rewrite Em. destruct (SPM.HasPeers (spm s)) eqn:Hp.
  - assert (peers s ≠ ∅) as Hne by by intros ?%HasPeers_false; congruence.
    destruct (sendNextWants_Core na s2 HC2) as [G1 G2].
    pose proof (sendNextWants_emits na s2) as Hem. destruct (sendNextWants_spec na s2) as (l & El & _).
    cbn zeta in *. set (s3 := sendNextWants na s2) in *.
    split_and!; [done|by rewrite El|rewrite El; cbn; by rewrite dom_fmap_L|by rewrite El|by rewrite El|by rewrite El| |done|].
    + exists ws, l. split_and!; [rewrite El; cbn; by rewrite Ee, <- !app_assoc|done|done].
    + intros p w. rewrite <- F5. apply Hem.
  - apply HasPeers_false in Hp. split_and!; [done..| |done|by rewrite F5; left]. exists ws, [].
    split_and!; [by rewrite Ee, app_nil_r|done|done].
Qed.

Lemma onChange_spec bpm chs s :
  Core s →
  let s' := onChange rand bpm chs s in
  Core s' ∧ BatchEffect bpm (collected chs s) s s' ∧
  changes s' = drop (Z.to_nat changesBufferSize - length chs) (changes s).
Proof.
  intros HC. cbn zeta. unfold onChange, collectChanges. fold (collected chs s). set (all := collected chs s).
  set (s0 := set_changes _ s). assert (Core s0) as HC0 by by destruct HC.
  destruct (batch_spec bpm all s0 HC0) as (A1 & A2 & A3 & A4 & A5 & A6 & A7 & A8 & Ac & A9). cbn zeta in *.
  set (b := foldl (apply_change rand bpm) (mkBatch s0 ∅ [] []) all) in *. clearbody b.
  rewrite A3, A4, A5.
  destruct (processAvailability_spec rand bpm (availability_of all) (b_state b)) as
    (s1 & na & nu & -> & B1 & B2 & B3 & B4 & B5); [apply availability_named|done|].
  destruct (processUpdates_spec rand bpm (updates_of all) s1) as
    (dhs & s2 & tcs & prune & -> & C1 & C2 & C3 & C4 & _ & _ & C7 & C8 & C9 & C10);
    [by intros u [? _]%list_elem_of_filter|done|].
  destruct (finish_spec bpm dhs na nu (cancels_of all) s2 C1) as (D1 & D2 & D3 & D4 & D5 & D6 & (ws & l & D7 & D8 & D9) & D10 & D11).
  cbn zeta in *. set (s' := if SPM.HasPeers _ then _ else _) in *. clearbody s'.
  destruct B2 as [E1 E2 E3 Ec _ (tcs0 & E4 & E5)].
  assert (spm s' = spm s1) as Em by congruence.
  assert (sessionID s2 = sessionID s ∧ ctxDone s2 = ctxDone s ∧ closed s2 = closed s ∧ changes s2 = changes s0 ∧ swbt s2 = swbt s) as (I1 & I2 & I3 & I4 & I5).
  { assert (keep s2 = keep s0) as Ek by congruence. unfold keep in Ek. split_and!; by injection Ek. }
  split; [done|]. split; [|by rewrite D5, I4]. split.
  - rewrite D3, C4, E1, A2. done.
  - intros p. rewrite Em, B3, A7. done.
  - exists (tcs0 ++ tcs), ws, l. split_and!.
    + rewrite D7, C7, E4, A9, I1, fmap_app, <- !app_assoc. done.
    + intros tr. rewrite Em. etrans; [|rewrite app_assoc, <- C3; rewrite C3; apply C8].
      rewrite <- (A7 : spm (b_state b) = spm s). apply E5.
    + intros w (Hw & _ & Hor)%D8. rewrite D3. split; [destruct Hw as (wi & ? & _); by eapply elem_of_dom_2|].
      rewrite D2. destruct Hor as [[_ ?]|[_ ?]]; [by left|by right].
    + rewrite D2. done.
  - exists prune. split; [by rewrite D4, C9, E3, A8|]. intros p (H0 & H1 & H2)%C10.
    split_and!; [|done|by rewrite D3]. specialize (Ec p). unfold count in Ec, H0 |- *. rewrite Ac in Ec.
    cbn in Ec. lia.
  - rewrite D2. done.
  - intros p w Hh. apply D11 in Hh as [Hh|?]; [left|by right]. rewrite <- I5. exact Hh.
  - injection D6. congruence.
  - injection D6. split; congruence.
Qed.

(** ** Runs *)

(** The calls of the session and of the peer manager, the goroutines that wait
    for room, and the iterations of [Run]; the block presence manager may have
    changed before each batch. *)
Inductive step : relation sessionWantSender :=
| st_Add dr ws s s' : Add dr ws s = Some s' → step s s'
| st_Cancel dr ws s s' : Cancel dr ws s = Some s' → step s s'
| st_Update dr p ks hs ds s s' : Update dr p ks hs ds s = Some s' → step s s'
| st_Signal p b s : step s (SignalAvailability p b s)
| st_deliver i s s' : deliver i s = Some s' → step s s'
| st_change bpm s s' : run_change rand bpm s = Some s' → step s s'
| st_Shutdown s : step s (Shutdown s)
| st_exit s s' : run_exit s = Some s' → step s s'.

(** The invariant of the run loop. *)
Record Inv s : Prop := mkInv {
  inv_core : Core s;
  inv_progress : peers s ≠ ∅ → ∀ w wi, wants s !! w = Some wi → sentTo wi ≠ "" ∨ bestPeer wi = "";
  inv_sent : ∀ p w, SentWants.haveSentWantBlockTo p w (swbt s) = true → emitted s p w;
}.

(** Steps that only move changes around, or end the loop. *)
Definition books s := (wants s, swbt s, peerConsecutiveDontHaves s, spm s).

Lemma emitted_app s s' es p w : evs s' = evs s ++ es → emitted s p w → emitted s' p w.
Proof. intros E (wb & wh & ? & ?). exists wb, wh. split; [rewrite E; set_solver|done]. Qed.

Lemma Inv_books s s' es : books s' = books s → evs s' = evs s ++ es → Inv s → Inv s'.
Proof.
  unfold books. intros [= E1 E2 E3 E4] E [[C1 C2 C3 C4 C5] HP HS].
  split; [split| |]; unfold Covered; rewrite ?E1, ?E2, ?E3, ?E4; try done.
  intros p w ?%HS. by eapply emitted_app.
Qed.

Lemma books_addChange dr c s s' : addChange dr c s = Some s' → books s' = books s ∧ evs s' = evs s.
Proof. unfold addChange. intros. by repeat case_match; simplify_eq. Qed.

Lemma books_step s s' :
  step s s' → (books s' = books s ∧ ∃ es, evs s' = evs s ++ es) ∨ ∃ bpm, run_change rand bpm s = Some s'.
Proof.
  assert (∀ s s', books s' = books s ∧ evs s' = evs s → books s' = books s ∧ ∃ es, evs s' = evs s ++ es) as Hq.
  { intros ?? [? ->]. split; [done|]. exists []. by rewrite app_nil_r. }
  destruct 1 as [dr ws s s' H|dr ws s s' H|dr p ks hs ds s s' H|p b s|i s s' H|bpm s s' H|s|s s' H];
    [left; apply Hq..|right; eauto|left; by apply Hq|left].
  - unfold Add in H. case_match; [by simplify_eq|by eapply books_addChange].
  - unfold Cancel in H. case_match; [by simplify_eq|by eapply books_addChange].
  - unfold Update in H. case_match; [by simplify_eq|by eapply books_addChange].
  - unfold SignalAvailability, addChangeNonBlocking. by case_match.
  - unfold deliver in H. by repeat case_match; simplify_eq.
  - unfold run_exit in H. case_match; simplify_eq. split; [done|]. by eexists.
Qed.

Lemma run_change_spec bpm s s' :
  Inv s → run_change rand bpm s = Some s' →
  ∃ chs, chs ≠ [] ∧ changes s = chs ++ changes s' ∧ (len chs ≤ changesBufferSize)%Z ∧
    BatchEffect bpm chs s s' ∧ Inv s'.
Proof.
  intros [HC _ HS]. unfold run_change. destruct (closed s) eqn:Ec; [done|].
  destruct (changes s) as [|ch rest] eqn:Ech; [done|]. intros [= <-].
  set (s0 := set_changes rest s). assert (Core s0) as HC0 by by destruct HC.
  destruct (onChange_spec bpm [ch] s0 HC0) as (H1 & H2 & H3). cbn zeta in *.
  set (s' := onChange rand bpm [ch] s0) in *. exists (collected [ch] s0). split_and!.
  - done.
  - rewrite H3. unfold collected. cbn -[take drop Z.to_nat changesBufferSize].
    by rewrite take_drop.
  - unfold collected, len. rewrite length_app, length_take. unfold changesBufferSize.
    rewrite length_cons, length_nil. lia.
  - destruct H2. by split.
  - split; [done|apply (be_progress _ _ _ _ H2)|]. intros p w [Hh|?]%(be_sent _ _ _ _ H2); [|done].
    destruct (be_events _ _ _ _ H2) as (tcs & ws & l & E & _). eapply emitted_app; [exact E|]. by apply HS.
Qed.

Lemma sender_step s s' : step s s' → Inv s → Inv s'.
Proof.
  intros [[E [es Ee]]|[bpm E]]%books_step HI; [by eapply Inv_books|].
  by destruct (run_change_spec bpm s s' HI E) as (chs & _ & _ & _ & _ & ?).
Qed.

Lemma sender_reachable s s' : rtc step s s' → Inv s → Inv s'.
Proof. induction 1 as [|s s1 s2 Hs _ IH]; [done|]. intros HI. apply IH. by eapply sender_step. Qed.

Lemma sender_new sid n : Inv (newSessionWantSender sid (SPM.New n)).
Proof.
  assert (∀ w wi, ¬ (∅ : gmap Want wantInfo) !! w = Some wi) as Hno by (intros w wi; by rewrite lookup_empty).
  split; [split| |]; cbn; [..|done|].
  - intros w wi E. by destruct (Hno w wi).
  - intros w wi E. by destruct (Hno w wi).
  - intros p m. by rewrite lookup_empty.
  - set_solver.
  - intros w wi E. by destruct (Hno w wi).
  - intros p w. unfold SentWants.haveSentWantBlockTo, SentWants.newSentWantBlocksTracker. by rewrite lookup_empty.
Qed.
End facts.
End SWSLoop.
