(* ===== verification/Session.v ===== *)
(** * One session (src/internal/session/session.go)

    A session fetches blocks for one client.  Its run loop handles operations
    queued on a channel, an idle timer and a periodic search timer, on top of
    [sessionWants] (what is wanted), [sessionWantSender] (whom to ask) and the
    session interest manager, which all sessions share and which the operations
    take and return.  The calls on the peer manager, the provider finder and the
    session manager are events.  Times and random choices are arguments; a timer
    is the delay of its last [Reset], or [None] when it is not running. *)
From S2P Require Import Prelude Auth Float64 BlockPresence SessionInterest SessionWants SessionPeers.
From S2P Require Import SessionWantSender.
From Stdlib Require Import SpecFloat.
From stdpp Require Import options.
Set Default Goal Selector "1".

Module Session.
Section session.
Context {CL : CidLib} {GO : GoRuntime} (rand : nat → spec_float).

Definition broadcastLiveWantsLimit : Z := 64.
Definition incomingSize : Z := 128.

Inductive opType := opReceive | opWant | opCancel | opBroadcast | opWantsSent.

Record op := mkOp {
  op_op : opType;
  op_keys : list Cid;
  op_wants : list Want;
}.

(** Calls on other objects. *)
Inductive ses_event :=
| EvBroadcastWantHaves (ws : list Want)
| EvFindProviders (w : Want)             (* the goroutine of [findMorePeers] *)
| EvRemoveSession (sid : Z)
| EvUntag (c : tcall).

(** ** Latency *)

Record latencyTracker := mkLatency {
  totalLatency : Duration;
  lt_count : Z;
}.
Definition hasLatency (lt : latencyTracker) : bool :=
  (0 <? totalLatency lt)%Z && (0 <? lt_count lt)%Z.
(** Go's integer division truncates. *)
Definition averageLatency (lt : latencyTracker) : Duration := Z.quot (totalLatency lt) (lt_count lt).
Definition receiveUpdate (count : Z) (total : Duration) (lt : latencyTracker) : latencyTracker :=
  mkLatency (int64 (totalLatency lt + total)) (int64 (lt_count lt + count)).

(** ** The session *)

Record Session := mkSession {
  id : Z;
  sw : SW.sessionWants;
  sws : SWS.sessionWantSender;
  latencyTrkr : latencyTracker;
  incoming : list op;                   (* the buffered channel *)
  enqueuing : list op;                  (* held by goroutines that wait for room *)
  idleTick : option Duration;
  periodicSearchTimer : option Duration;
  baseTickDelay : Duration;
  consecutiveTicks : Z;
  initialSearchDelay : Duration;
  ses_ctxDone : bool;
}.
Implicit Types (s : Session) (sim : SIM.SessionInterestManager) (bpm : BPM.BlockPresenceManager).
Implicit Types (w : Want) (p : PeerID) (o : op).

(** [New], with the first statements of [run]; [wait] is the first
    [NextWaitTime] of the periodic search. *)
Definition New (sid : Z) (sprm : SPM.SessionPeerManager) (initialSearchDelay wait : Duration) : Session :=
  {| id := sid; sw := SW.newSessionWants broadcastLiveWantsLimit;
     sws := SWS.newSessionWantSender sid sprm; latencyTrkr := mkLatency 0 0;
     incoming := []; enqueuing := []; idleTick := Some initialSearchDelay;
     periodicSearchTimer := Some wait; baseTickDelay := 500 * 10 ^ 6; consecutiveTicks := 0;
     initialSearchDelay := initialSearchDelay; ses_ctxDone := false |}.

Definition ID s : Z := id s.

Definition set_sw x s := mkSession (id s) x (sws s) (latencyTrkr s) (incoming s) (enqueuing s)
  (idleTick s) (periodicSearchTimer s) (baseTickDelay s) (consecutiveTicks s) (initialSearchDelay s) (ses_ctxDone s).
Definition set_sws x s := mkSession (id s) (sw s) x (latencyTrkr s) (incoming s) (enqueuing s)
  (idleTick s) (periodicSearchTimer s) (baseTickDelay s) (consecutiveTicks s) (initialSearchDelay s) (ses_ctxDone s).
Definition set_latency x s := mkSession (id s) (sw s) (sws s) x (incoming s) (enqueuing s)
  (idleTick s) (periodicSearchTimer s) (baseTickDelay s) (consecutiveTicks s) (initialSearchDelay s) (ses_ctxDone s).
Definition set_incoming x s := mkSession (id s) (sw s) (sws s) (latencyTrkr s) x (enqueuing s)
  (idleTick s) (periodicSearchTimer s) (baseTickDelay s) (consecutiveTicks s) (initialSearchDelay s) (ses_ctxDone s).
Definition set_enqueuing x s := mkSession (id s) (sw s) (sws s) (latencyTrkr s) (incoming s) x
  (idleTick s) (periodicSearchTimer s) (baseTickDelay s) (consecutiveTicks s) (initialSearchDelay s) (ses_ctxDone s).
Definition set_idle x s := mkSession (id s) (sw s) (sws s) (latencyTrkr s) (incoming s) (enqueuing s)
  x (periodicSearchTimer s) (baseTickDelay s) (consecutiveTicks s) (initialSearchDelay s) (ses_ctxDone s).
Definition set_periodic x s := mkSession (id s) (sw s) (sws s) (latencyTrkr s) (incoming s) (enqueuing s)
  (idleTick s) x (baseTickDelay s) (consecutiveTicks s) (initialSearchDelay s) (ses_ctxDone s).
Definition set_baseTick x s := mkSession (id s) (sw s) (sws s) (latencyTrkr s) (incoming s) (enqueuing s)
  (idleTick s) (periodicSearchTimer s) x (consecutiveTicks s) (initialSearchDelay s) (ses_ctxDone s).
Definition set_ticks x s := mkSession (id s) (sw s) (sws s) (latencyTrkr s) (incoming s) (enqueuing s)
  (idleTick s) (periodicSearchTimer s) (baseTickDelay s) x (initialSearchDelay s) (ses_ctxDone s).
Definition set_done x s := mkSession (id s) (sw s) (sws s) (latencyTrkr s) (incoming s) (enqueuing s)
  (idleTick s) (periodicSearchTimer s) (baseTickDelay s) (consecutiveTicks s) (initialSearchDelay s) x.

(** *** The channel of operations *)

Definition has_room s : bool := (len (incoming s) <? incomingSize)%Z.

(** A [select] between the send and [ctx.Done()]; [None] means that the caller
    blocks, [drop] chooses between two ready cases. *)
Definition enqueue (drop : bool) o s : option Session :=
  if ses_ctxDone s && drop then Some s
  else if has_room s then Some (set_incoming (incoming s ++ [o]) s)
  else if ses_ctxDone s then Some s
  else None.

Definition nonBlockingEnqueue o s : Session :=
  if has_room s then set_incoming (incoming s ++ [o]) s
  else set_enqueuing (enqueuing s ++ [o]) s.

(** The goroutine of [nonBlockingEnqueue], when it gets to run. *)
Definition deliver_op (i : nat) s : option Session :=
  match enqueuing s !! i with
  | None => None
  | Some o =>
      if has_room s
      then Some (set_incoming (incoming s ++ [o]) (set_enqueuing (list_delete i (enqueuing s)) s))
      else None
  end.

(** The two callbacks that [GetBlocks] hands to the getter; [clientDone] says
    whether the client's context is done, which is a third case of the first
    [select]. *)
Definition want_wants (clientDone drop : bool) (ws : list Want) s : option Session :=
  if clientDone && drop then Some s
  else match enqueue drop (mkOp opWant [] ws) s with
       | Some s => Some s
       | None => if clientDone then Some s else None
       end.
Definition cancel_keys (drop : bool) (keys : list Cid) s : option Session :=
  enqueue drop (mkOp opCancel keys []) s.

Definition onWantsSent (wantBlocks wantHaves : list Want) s : Session :=
  nonBlockingEnqueue (mkOp opWantsSent [] (wantBlocks ++ wantHaves)) s.
Definition onPeersExhausted (ws : list Want) s : Session :=
  nonBlockingEnqueue (mkOp opBroadcast [] ws) s.

(** A call on the sender's channel, which may block or be dropped. *)
Definition on_sender (f : SWS.sessionWantSender → option SWS.sessionWantSender) s : option Session :=
  match f (sws s) with Some x => Some (set_sws x s) | None => None end.

Definition ReceiveFrom (drop dropS : bool) (from : PeerID) (ks haves dontHaves : list Want) sim s
  : option Session :=
  match SIM.FilterSessionInterested (id s) [ks; haves; dontHaves] sim with
  | [ks; haves; dontHaves] =>
      match on_sender (SWS.Update dropS from ks haves dontHaves) s with
      | None => None
      | Some s =>
          if (len ks =? 0)%Z then Some s
          else enqueue drop (mkOp opReceive [] ks) s
      end
  | _ => None
  end.

(** *** Broadcasting *)

Definition resetIdleTick s : Session :=
  let tickDelay :=
    if negb (hasLatency (latencyTrkr s)) then initialSearchDelay s
    else int64 (baseTickDelay s + int64 (3 * averageLatency (latencyTrkr s))) in
  set_idle (Some (int64 (tickDelay * int64 (1 + consecutiveTicks s)))) s.

(** [wants] is [None] for Go's [nil]. *)
Definition broadcast (now : Time) (ws : option (list Want)) s : Session * list ses_event :=
  let '(ws, s) := match ws with
                  | Some ws => (ws, s)
                  | None => let '(ws, x) := SW.PrepareBroadcast now (sw s) in (ws, set_sw x s)
                  end in
  let find := match ws with
              | w :: _ => if (consecutiveTicks s =? 0)%Z then [EvFindProviders w] else []
              | [] => []
              end in
  let s := resetIdleTick s in
  let s := if SW.HasLiveWants (sw s) then set_ticks (int64 (consecutiveTicks s + 1)) s else s in
  (s, EvBroadcastWantHaves ws :: find).

(** [i] is the result of [rand.Intn], [wait] that of [NextWaitTime]. *)
Definition handlePeriodicSearch (i : nat) (wait : Duration) s : Session * list ses_event :=
  let randomWant := SW.RandomLiveWant i (sw s) in
  if negb (Cid_Defined (Want_Cid randomWant)) then (s, [])
  else (set_periodic (Some wait) s, [EvFindProviders randomWant; EvBroadcastWantHaves [randomWant]]).

(** The goroutine of [findMorePeers], for one provider it is told about. *)
Definition provider_found (drop : bool) p w s : option Session :=
  on_sender (SWS.Update drop p [] [w] []) s.

(** *** Operations of the run loop *)

Definition handleReceive (now : Time) (ks : list Want) sim s : SIM.SessionInterestManager * Session :=
  let '(wanted, total, x) := SW.BlocksReceived now ks (sw s) in
  let s := set_sw x s in
  if (len wanted =? 0)%Z then (sim, s)
  else
    let s := set_latency (receiveUpdate (len wanted) total (latencyTrkr s)) s in
    let sim := SIM.RemoveSessionWants (id s) wanted sim in
    let s := set_idle None s in
    let s := set_ticks 0%Z s in
    (sim, resetIdleTick s).

(** [None] when the sender's channel is full. *)
Definition wantBlocks (drop : bool) (now : Time) (newks : list Want) sim s
  : option (SIM.SessionInterestManager * Session * list ses_event) :=
  let r :=
    if (0 <? len newks)%Z then
      let sim := SIM.RecordSessionInterest (id s) newks sim in
      let s := set_sw (SW.BlocksRequested newks (sw s)) s in
      match on_sender (SWS.Add drop newks) s with
      | None => None
      | Some s => Some (sim, s)
      end
    else Some (sim, s) in
  match r with
  | None => None
  | Some (sim, s) =>
      if SPM.PeersDiscovered (SWS.spm (sws s)) then Some (sim, s, [])
      else
        let '(ws, x) := SW.GetNextWants now (sw s) in
        let s := set_sw x s in
        Some (sim, s, if (0 <? len ws)%Z then [EvBroadcastWantHaves ws] else [])
  end.

(** One iteration of [run] that takes an operation. *)
Definition run_op (drop : bool) (now : Time) sim s
  : option (SIM.SessionInterestManager * Session * list ses_event) :=
  match incoming s with
  | [] => None
  | oper :: rest =>
      let s := set_incoming rest s in
      match op_op oper with
      | opReceive => let '(sim, s) := handleReceive now (op_wants oper) sim s in Some (sim, s, [])
      | opWant => wantBlocks drop now (op_wants oper) sim s
      | opCancel =>
          let s := set_sw (SW.CancelPending (op_keys oper) (sw s)) s in
          match on_sender (SWS.Cancel drop (op_wants oper)) s with
          | None => None
          | Some s => Some (sim, s, [])
          end
      | opWantsSent => Some (sim, set_sw (SW.WantsSent now (op_wants oper) (sw s)) s, [])
      | opBroadcast => let '(s, es) := broadcast now (Some (op_wants oper)) s in Some (sim, s, es)
      end
  end.

(** The iterations for the two timers, enabled while the timer runs. *)
Definition run_idle (now : Time) s : option (Session * list ses_event) :=
  match idleTick s with
  | Some _ => Some (broadcast now None (set_idle None s))
  | None => None
  end.
Definition run_periodic (i : nat) (wait : Duration) s : option (Session * list ses_event) :=
  match periodicSearchTimer s with
  | Some _ => Some (handlePeriodicSearch i wait (set_periodic None s))
  | None => None
  end.
Definition SetBaseTickDelay (d : Duration) s : Session := set_baseTick d s.

(** [Shutdown] and the last iteration, [handleShutdown]; the sender is stopped
    in between. *)
Definition Shutdown s : Session := set_done true s.
Definition handleShutdown s : Session * list ses_event :=
  let s := set_idle None s in
  let untag := EvUntag <$> SPM.Shutdown (SWS.spm (sws s)) in
  (set_sws (SWS.Shutdown (sws s)) s, untag).
Definition finishShutdown s : option (list ses_event) :=
  if SWS.closed (sws s) then Some [EvRemoveSession (id s)] else None.

(** *** The sender's loop, with the callbacks into the session *)

Definition callback s (e : SWS.sws_event) : Session :=
  match e with
  | SWS.EvOnSend _ wb wh => onWantsSent wb wh s
  | SWS.EvPeersExhausted ws => onPeersExhausted ws s
  | _ => s
  end.

Definition run_sender bpm s : option Session :=
  match SWS.run_change rand bpm (sws s) with
  | None => None
  | Some x =>
      let fresh := drop (length (SWS.evs (sws s))) (SWS.evs x) in
      Some (foldl callback (set_sws x s) fresh)
  end.
End session.
End Session.
