(* ===== verification/SessionFacts.v ===== *)
(** * A session as a whole (src/internal/session/session.go)

    The invariant that ties the session, its want sender and the shared interest
    manager together over every interleaving of calls, goroutines and loop
    iterations. *)
From S2P Require Import Prelude Auth Float64 BlockPresence SessionInterest SessionWants SessionPeers.
From S2P Require Import SessionWantSender SessionWantSenderFacts SessionWantSenderRun.
From S2P Require Import SessionWantSenderBatch SessionWantSenderLoop Session.
From Stdlib Require Import SpecFloat.
From stdpp Require Import options.
Set Default Goal Selector "1".

Module SessionFacts.
Import Session.
Section facts.
Context {CL : CidLib} {GO : GoRuntime} (rand : nat → spec_float).
Implicit Types (s : Session) (sim : SIM.SessionInterestManager) (bpm : BPM.BlockPresenceManager).
Implicit Types (x : SWS.sessionWantSender) (w : Want) (p : PeerID).

(** ** Steps of one session, next to other sessions *)

(** The rest of the system may change what other sessions are interested in. *)
Definition same_interest (sid : Z) sim sim' : Prop :=
  ∀ w, SIM.interest sim' sid w = SIM.interest sim sid w.

Inductive local_step : relation (SIM.SessionInterestManager * Session) :=
| st_receive dr ds p ks hs dhs sim s s' :
    ReceiveFrom dr ds p ks hs dhs sim s = Some s' → local_step (sim, s) (sim, s')
| st_want cd dr ws sim s s' : want_wants cd dr ws s = Some s' → local_step (sim, s) (sim, s')
| st_cancel dr cs sim s s' : cancel_keys dr cs s = Some s' → local_step (sim, s) (sim, s')
| st_deliver_op i sim s s' : deliver_op i s = Some s' → local_step (sim, s) (sim, s')
| st_provider dr p w sim s s' : provider_found dr p w s = Some s' → local_step (sim, s) (sim, s')
| st_availability p b sim s : local_step (sim, s) (sim, set_sws (SWS.SignalAvailability p b (sws s)) s)
| st_deliver i sim s s' : on_sender (SWS.deliver i) s = Some s' → local_step (sim, s) (sim, s')
| st_sender bpm sim s s' : run_sender rand bpm s = Some s' → local_step (sim, s) (sim, s')
| st_sender_exit sim s s' : on_sender SWS.run_exit s = Some s' → local_step (sim, s) (sim, s')
| st_op dr now sim s sim' s' es : run_op dr now sim s = Some (sim', s', es) → local_step (sim, s) (sim', s')
| st_idle now sim s s' es : run_idle now s = Some (s', es) → local_step (sim, s) (sim, s')
| st_periodic i wait sim s s' es : run_periodic i wait s = Some (s', es) → local_step (sim, s) (sim, s')
| st_tickDelay d sim s : local_step (sim, s) (sim, SetBaseTickDelay d s)
| st_Shutdown sim s : local_step (sim, s) (sim, Shutdown s)
| st_handleShutdown sim s : local_step (sim, s) (sim, (handleShutdown s).1).

Inductive step : relation (SIM.SessionInterestManager * Session) :=
| st_local a b : local_step a b → step a b
| st_other sim sim' s : same_interest (id s) sim sim' → step (sim, s) (sim', s).

(** ** The invariant *)

Definition queued x : list SWS.change := SWS.changes x ++ SWS.spawned x.

(** The wants the sender tracks or is about to track. *)
Definition pursued x w : Prop := w ∈ dom (SWS.wants x) ∨ ∃ ch, ch ∈ queued x ∧ w ∈ SWS.ch_add ch.

Record Inv sim s : Prop := mkInv {
  si_sender : SWSLoop.Inv (sws s);
  si_id : SWS.sessionID (sws s) = id s;
  si_queue : ∀ ch, ch ∈ queued (sws s) → SWS.ch_cancel ch = [];
  si_events : ∀ sid ws, SWS.EvCancelSessionWants sid ws ∉ SWS.evs (sws s);
  si_interest : ∀ w, pursued (sws s) w → is_Some (SIM.interest sim (id s) w);
  si_ops : ∀ o, o ∈ incoming s ++ enqueuing s → op_op o = opCancel → op_wants o = [];
  si_wants : SW.wf (sw s) ∧ SW.broadcastLimit (sw s) = broadcastLiveWantsLimit;
}.

(** A change of the sender that only queues changes from [C]. *)
Record sender_ext x x' (C : list SWS.change) : Prop := mkExt {
  se_books : SWSLoop.books x' = SWSLoop.books x;
  se_evs : SWS.evs x' = SWS.evs x ∨ ∃ sid, SWS.evs x' = SWS.evs x ++ [SWS.EvUnregisterSession sid];
  se_id : SWS.sessionID x' = SWS.sessionID x;
  se_queue : ∀ ch, ch ∈ queued x' → ch ∈ queued x ∨ ch ∈ C;
}.

Lemma ext_refl x C : sender_ext x x C.
Proof. split; auto. Qed.

Lemma ext_addChange dr c x x' : SWS.addChange dr c x = Some x' → sender_ext x x' [c].
Proof.
  unfold SWS.addChange. intros H. repeat case_match; simplify_eq; try apply ext_refl.
  split; [done|by left|done|]. intros ch. unfold queued. cbn. set_solver.
Qed.

Lemma ext_Update dr p ks hs ds x x' :
  SWS.Update dr p ks hs ds x = Some x' →
  sender_ext x x' [SWS.mkChange [] [] (SWS.mkUpdate p ks hs ds) SWS.no_availability].
Proof.
  unfold SWS.Update. case_match; [intros [= <-]; apply ext_refl|apply ext_addChange].
Qed.

Lemma ext_Add dr ws x x' :
  SWS.Add dr ws x = Some x' → sender_ext x x' [SWS.mkChange ws [] SWS.no_update SWS.no_availability].
Proof. unfold SWS.Add. case_match; [intros [= <-]; apply ext_refl|apply ext_addChange]. Qed.

Lemma ext_Signal p b x : sender_ext x (SWS.SignalAvailability p b x) [SWS.availability_change p b].
Proof.
  unfold SWS.SignalAvailability, SWS.addChangeNonBlocking.
  case_match; (split; [done|by left|done|]); intros ch; unfold queued; cbn; set_solver.
Qed.

Lemma ext_deliver i x x' : SWS.deliver i x = Some x' → sender_ext x x' [].
Proof.
  unfold SWS.deliver. destruct (SWS.spawned x !! i) as [c|] eqn:E; [|done].
  case_match; [|done]. intros [= <-]. split; [done|by left|done|]. intros ch. unfold queued. cbn.
  apply list_elem_of_lookup_2 in E. rewrite !elem_of_app, list_elem_of_singleton.
  intros [[?| ->]|?%list_elem_of_delete_inv]; auto.
Qed.

Lemma ext_exit x x' : SWS.run_exit x = Some x' → sender_ext x x' [].
Proof.
  unfold SWS.run_exit. case_match; [|done]. intros [= <-].
  split; [done|right; by eexists|done|by left].
Qed.

Lemma Inv_extend sim s sim' s' C :
  Inv sim s → id s' = id s → sender_ext (sws s) (sws s') C →
  (∀ ch, ch ∈ C → SWS.ch_cancel ch = [] ∧ ∀ w, w ∈ SWS.ch_add ch → is_Some (SIM.interest sim' (id s) w)) →
  (∀ w, is_Some (SIM.interest sim (id s) w) → is_Some (SIM.interest sim' (id s) w)) →
  (∀ o, o ∈ incoming s' ++ enqueuing s' → op_op o = opCancel → op_wants o = []) →
  SW.wf (sw s') ∧ SW.broadcastLimit (sw s') = broadcastLiveWantsLimit → Inv sim' s'.
Proof.
  intros [H1 H2 H3 H4 H5 _ H6] Hid [E1 E2 E3 E4] HC Hsim Ho Hsw. split; rewrite ?Hid; [| | | | |done|done].
  - destruct E2 as [E2|[sid E2]]; [|by eapply SWSLoop.Inv_books].
    eapply (SWSLoop.Inv_books _ _ []); [done|by rewrite app_nil_r|done].
  - congruence.
  - intros ch [?|[? _]%HC]%E4; [by apply H3|done].
  - intros sid ws. destruct E2 as [->|[sid' ->]]; [apply H4|].
    rewrite elem_of_app, list_elem_of_singleton. intros [?|?]; [by eapply H4|done].
  - intros w [Hw|(ch & [Hch|[_ Hch]%HC]%E4 & Hw)].
    + apply Hsim, H5. left. unfold SWSLoop.books in E1. injection E1. by intros _ _ _ <-.
    + apply Hsim, H5. right. eauto.
    + by apply Hch.
Qed.

(** ** The sender's batches *)

Lemma track_fold X chs w :
  w ∈ foldl SWSLoop.track_step X chs → w ∈ X ∨ ∃ ch, ch ∈ chs ∧ w ∈ SWS.ch_add ch.
Proof.
  revert X. induction chs as [|ch chs IH]; intros X; cbn; [by left|].
  intros [Hw|(ch' & ? & ?)]%IH; [|right; exists ch'; split; [by right|done]].
  unfold SWSLoop.track_step in Hw. apply elem_of_difference in Hw as [Hw _].
  apply elem_of_union in Hw as [?|?%elem_of_list_to_set]; [by left|right]. exists ch. split; [left|done].
Qed.

Lemma no_cancels chs : (∀ ch, ch ∈ chs → SWS.ch_cancel ch = []) → SWSLoop.cancels_of chs = [].
Proof.
  intros H. unfold SWSLoop.cancels_of. induction chs as [|ch chs IH]; [done|].
  rewrite bind_cons, IH by (intros; apply H; by right). by rewrite H by left.
Qed.

Lemma callbacks_frame (es : list SWS.sws_event) s :
  let s' := foldl callback s es in
  sws s' = sws s ∧ sw s' = sw s ∧ id s' = id s ∧
  ∀ o, o ∈ incoming s' ++ enqueuing s' → o ∈ incoming s ++ enqueuing s ∨ op_op o ≠ opCancel.
Proof.
  cbn zeta. apply (foldl_inv_simple (λ s', sws s' = sws s ∧ sw s' = sw s ∧ id s' = id s ∧
    ∀ o, o ∈ incoming s' ++ enqueuing s' → o ∈ incoming s ++ enqueuing s ∨ op_op o ≠ opCancel)).
  { split_and!; [done..|]. by left. }
  assert (∀ s' o, op_op o ≠ opCancel → sws s' = sws s ∧ sw s' = sw s ∧ id s' = id s ∧
    (∀ o, o ∈ incoming s' ++ enqueuing s' → o ∈ incoming s ++ enqueuing s ∨ op_op o ≠ opCancel) →
    let s'' := nonBlockingEnqueue o s' in sws s'' = sws s ∧ sw s'' = sw s ∧ id s'' = id s ∧
    (∀ o, o ∈ incoming s'' ++ enqueuing s'' → o ∈ incoming s ++ enqueuing s ∨ op_op o ≠ opCancel)) as Hq.
  { intros s' o Ho (H1 & H2 & H3 & H4). cbn zeta. unfold nonBlockingEnqueue.
    case_match; (split_and!; [done..|]); cbn; intros o'; specialize (H4 o');
      rewrite !elem_of_app, ?list_elem_of_singleton in *; intros [[?| ->]|?] || intros [?|[?| ->]]; tauto. }
  intros s' e _ HI. destruct e; cbn; try done; by apply Hq.
Qed.

Lemma Inv_run_sender bpm sim s s' : Inv sim s → run_sender rand bpm s = Some s' → Inv sim s'.
Proof.
  intros [H1 H2 H3 H4 H5 H6 H7]. unfold run_sender.
  destruct (SWS.run_change rand bpm (sws s)) as [x|] eqn:Ex; [|done]. intros [= <-].
  destruct (SWSLoop.run_change_spec rand bpm _ _ H1 Ex) as (chs & _ & Ech & _ & HB & HI).
  set (es := drop _ _). destruct (callbacks_frame es (set_sws x s)) as (E1 & E2 & E3 & E4).
  cbn zeta in *. set (s' := foldl callback _ es) in *. clearbody s' es. cbn in E1, E2, E3, E4.
  assert (∀ ch, ch ∈ chs → SWS.ch_cancel ch = []) as Hchs.
  { intros ch Hch. apply H3. unfold queued. rewrite Ech. set_solver. }
  assert (∀ ch, ch ∈ queued x → ch ∈ queued (sws s) ∨ (SWS.ch_cancel ch = [] ∧ SWS.ch_add ch = [])) as Hq.
  { intros ch. unfold queued. rewrite Ech.
    destruct (SWSLoop.be_spawned _ _ _ _ HB) as (prune & -> & _). rewrite !elem_of_app.
    intros [?|[?|(p & -> & _)%list_elem_of_fmap]]; auto. }
  split; rewrite ?E1, ?E2, ?E3; [done| | | | | |done].
  - by rewrite (SWSLoop.be_id _ _ _ _ HB).
  - intros ch [?|[? _]]%Hq; [by apply H3|done].
  - intros sid ws. destruct (SWSLoop.be_events _ _ _ _ HB) as (tcs & wx & l & -> & _).
    rewrite no_cancels by done. change (0 <? len (@nil Want))%Z with false. cbn [app]. rewrite !elem_of_app.
    intros [H|[H|[H|[H|H]]]]; [by eapply H4|..].
    + by apply list_elem_of_fmap in H as (? & ? & _).
    + by apply list_elem_of_fmap in H as (? & ? & _).
    + destruct wx; cbn in H; [by apply not_elem_of_nil in H|by apply list_elem_of_singleton in H].
    + unfold SWSBatch.sends in H. apply list_elem_of_bind in H as (y & Hy & _). cbn in Hy.
      apply elem_of_cons in Hy as [?|Hy]; [done|]. by apply list_elem_of_singleton in Hy.
  - intros w Hw. apply H5. destruct Hw as [Hw|(ch & [Hch|[_ Hch]]%Hq & Hw)].
    + rewrite (SWSLoop.be_tracked _ _ _ _ HB) in Hw. apply elem_of_difference in Hw as [Hw _].
      apply track_fold in Hw as [?|(ch & ? & ?)]; [by left|right]. exists ch. split; [|done].
      unfold queued. rewrite Ech. set_solver.
    + right. eauto.
    + rewrite Hch in Hw. by apply not_elem_of_nil in Hw.
  - intros o [?|?]%E4 Ho; [by apply H6|done].
Qed.

(** ** Every step *)

Lemma interest_kept sid ks sim w :
  is_Some (SIM.interest sim sid w) → is_Some (SIM.interest (SIM.RemoveSessionWants sid ks sim) sid w).
Proof. rewrite SIM.interest_RemoveSessionWants. case_decide; [by eexists|done]. Qed.

Lemma interest_recorded sid ks sim w :
  is_Some (SIM.interest sim sid w) ∨ w ∈ ks → is_Some (SIM.interest (SIM.RecordSessionInterest sid ks sim) sid w).
Proof. rewrite SIM.interest_Record. case_decide; [by eexists|]. intros [?|?]; [done|tauto]. Qed.

Definition sw_ok (s : Session) : Prop :=
  SW.wf (sw s) ∧ SW.broadcastLimit (sw s) = broadcastLiveWantsLimit.

Lemma sw_ok_step s y : sw_ok s → SW.step (sw s) y → SW.wf y ∧ SW.broadcastLimit y = broadcastLiveWantsLimit.
Proof.
  intros [H1 H2] Hs. split.
  - eapply SW.wf_step; [done| |done]. rewrite H2. done.
  - by rewrite (SW.limit_step _ _ Hs H1).
Qed.

Lemma on_sender_Some f s s' : on_sender f s = Some s' → ∃ x, f (sws s) = Some x ∧ s' = set_sws x s.
Proof. unfold on_sender. destruct (f (sws s)) as [x|]; [intros [= <-]; eauto|done]. Qed.

(** Steps that do not touch the interest manager or the wants. *)
Lemma Inv_frame sim s s' C :
  Inv sim s → id s' = id s → sender_ext (sws s) (sws s') C →
  (∀ ch, ch ∈ C → SWS.ch_cancel ch = [] ∧ SWS.ch_add ch = []) →
  (∀ o, o ∈ incoming s' ++ enqueuing s' → o ∈ incoming s ++ enqueuing s ∨ op_op o ≠ opCancel ∨ op_wants o = []) →
  sw_ok s' → Inv sim s'.
Proof.
  intros HI Hid HE HC Ho Hsw. eapply Inv_extend; [done|done|done| |done| |done].
  - intros ch [-> ->]%HC. split; [done|]. intros w Hw. by apply not_elem_of_nil in Hw.
  - intros o Hin Hop. apply Ho in Hin as [?|[?|?]]; [by apply (si_ops _ _ HI)|done|done].
Qed.

Lemma enqueue_frame dr o s s' :
  enqueue dr o s = Some s' →
  sws s' = sws s ∧ sw s' = sw s ∧ id s' = id s ∧
  ∀ o', o' ∈ incoming s' ++ enqueuing s' → o' ∈ incoming s ++ enqueuing s ∨ o' = o.
Proof.
  unfold enqueue. intros H. repeat case_match; simplify_eq; (split_and!; [done..|]); [by left| |by left].
  intros o'. cbn. rewrite !elem_of_app, list_elem_of_singleton. tauto.
Qed.

Lemma want_wants_cases cd dr ws s s' :
  want_wants cd dr ws s = Some s' → s' = s ∨ enqueue dr (mkOp opWant [] ws) s = Some s'.
Proof.
  unfold want_wants. destruct (cd && dr); [by intros [= <-]; left|]. destruct (enqueue _ _ _); [by right|].
  destruct cd; [by intros [= <-]; left|done].
Qed.

Lemma Inv_enqueue dr o sim s s' :
  (op_op o = opCancel → op_wants o = []) → Inv sim s → enqueue dr o s = Some s' → Inv sim s'.
Proof.
  intros Hop HI (E1 & E2 & E3 & E4)%enqueue_frame.
  apply (Inv_frame sim s s' []); [done|done|rewrite E1; apply ext_refl|set_solver| |].
  - intros o' [?| ->]%E4; [by left|right]. destruct (op_op o); try (by left). right. by apply Hop.
  - unfold sw_ok. rewrite E2. apply HI.
Qed.

Lemma Inv_on_sender f C sim s s' :
  Inv sim s → on_sender f s = Some s' → (∀ x, f (sws s) = Some x → sender_ext (sws s) x C) →
  (∀ ch, ch ∈ C → SWS.ch_cancel ch = [] ∧ SWS.ch_add ch = []) → Inv sim s'.
Proof.
  intros HI (x & Ef & ->)%on_sender_Some HE HC. eapply Inv_frame; [done|done|by apply HE|done|by left|apply HI].
Qed.

Lemma broadcast_frame now ws s :
  let s' := (broadcast now ws s).1 in
  sws s' = sws s ∧ id s' = id s ∧ incoming s' = incoming s ∧ enqueuing s' = enqueuing s ∧
  (sw s' = sw s ∨ sw s' = (SW.PrepareBroadcast now (sw s)).2).
Proof.
  cbn zeta. unfold broadcast. destruct ws as [ws|].
  - cbn. destruct (SW.HasLiveWants (sw s)); cbn; by split_and!; try left.
  - destruct (SW.PrepareBroadcast now (sw s)) as [ws x]. cbn. destruct (SW.HasLiveWants x); cbn; by split_and!; try right.
Qed.

Lemma Inv_broadcast now ws sim s : Inv sim s → Inv sim (broadcast now ws s).1.
Proof.
  intros HI. destruct (broadcast_frame now ws s) as (E1 & E2 & E3 & E4 & E5). cbn zeta in *.
  set (s' := (broadcast now ws s).1) in *. apply (Inv_frame sim s s' []).
  - done.
  - done.
  - rewrite E1. apply ext_refl.
  - set_solver.
  - rewrite E3, E4. by left.
  - pose proof (si_wants _ _ HI) as Hw. unfold sw_ok. destruct E5 as [->| ->]; [done|].
    apply (sw_ok_step s); [done|constructor].
Qed.

Lemma Inv_pop o rest sim s : incoming s = o :: rest → Inv sim s → Inv sim (set_incoming rest s).
Proof.
  intros E HI. apply (Inv_frame sim s _ []); [done|done|apply ext_refl|set_solver| |apply HI].
  intros o' Ho'. left. rewrite E. cbn in Ho'. set_solver.
Qed.

Lemma Inv_handleReceive now ks sim s sim' s' :
  Inv sim s → handleReceive now ks sim s = (sim', s') → Inv sim' s'.
Proof.
  intros HI. unfold handleReceive.
  pose proof (sw_ok_step s _ (si_wants _ _ HI) (SW.st_BlocksReceived now ks (sw s))) as Hsw.
  destruct (SW.BlocksReceived now ks (sw s)) as [[wanted total] y]. cbn [snd] in Hsw.
  case_match; intros [= <- <-].
  - apply (Inv_frame sim s _ []); [done|done|apply ext_refl|set_solver|by left|done].
  - apply (Inv_extend sim s _ _ []); [done|done|apply ext_refl|set_solver| |apply HI|done].
    intros w Hw. by apply interest_kept.
Qed.

Lemma Inv_wantBlocks dr now ks sim s sim' s' es :
  Inv sim s → wantBlocks dr now ks sim s = Some (sim', s', es) → Inv sim' s'.
Proof.
  intros HI. unfold wantBlocks. set (r := if (0 <? len ks)%Z then _ else _).
  assert (∀ sim1 s1, r = Some (sim1, s1) → Inv sim1 s1) as Hr.
  { intros sim1 s1. unfold r. destruct (0 <? len ks)%Z; [|by intros [= <- <-]].
    destruct (on_sender _ _) as [s2|] eqn:E; [|done]. intros [= <- <-].
    apply on_sender_Some in E as (x & Ex & ->). apply ext_Add in Ex.
    eapply Inv_extend; [exact HI|done|exact Ex| | |apply HI|].
    - intros ch ->%list_elem_of_singleton. split; [done|]. cbn. intros w Hw. apply interest_recorded. by right.
    - intros w Hw. apply interest_recorded. by left.
    - apply (sw_ok_step s); [apply HI|constructor]. }
  destruct r as [[sim1 s1]|]; [|done]. specialize (Hr _ _ eq_refl).
  case_match; [by intros [= <- <- _]|].
  pose proof (sw_ok_step s1 _ (si_wants _ _ Hr) (SW.st_GetNextWants now (sw s1))) as Hsw.
  destruct (SW.GetNextWants now (sw s1)) as [ws y]. intros [= <- <- _].
  apply (Inv_frame sim1 s1 _ []); [done|done|apply ext_refl|set_solver|by left|done].
Qed.

Lemma Inv_op dr now sim s sim' s' es :
  Inv sim s → run_op dr now sim s = Some (sim', s', es) → Inv sim' s'.
Proof.
  intros HI. unfold run_op. destruct (incoming s) as [|o rest] eqn:E; [done|].
  pose proof (Inv_pop _ _ _ _ E HI) as HI1. pose proof (si_ops _ _ HI o) as Hop. rewrite E in Hop.
  specialize (Hop ltac:(set_solver)).
  set (s1 := set_incoming rest s) in *. destruct (op_op o) eqn:Eo.
  - destruct (handleReceive _ _ _ _) as [sim1 s2] eqn:Eh. intros [= <- <- _].
    by eapply (Inv_handleReceive _ _ _ _ _ _ HI1 Eh).
  - by apply Inv_wantBlocks.
  - rewrite (Hop eq_refl). unfold SWS.Cancel, on_sender. cbn [len length Z.of_nat Z.eqb].
    intros [= <- <- _].
    assert (Inv sim (set_sw (SW.CancelPending (op_keys o) (sw s1)) s1)) as HI2.
    { apply (Inv_frame sim s1 _ []); [done|done|apply ext_refl|set_solver|by left|].
      apply (sw_ok_step s1); [apply HI1|constructor]. }
    apply (Inv_frame sim _ _ [] HI2); [done|apply ext_refl|set_solver|by left|apply HI2].
  - pose proof (Inv_broadcast now (Some (op_wants o)) sim s1 HI1) as HB.
    destruct (broadcast now (Some (op_wants o)) s1) as [s2 es']. by intros [= <- <- _].
  - intros [= <- <- _]. apply (Inv_frame sim s1 _ []); [done|done|apply ext_refl|set_solver|by left|].
    apply (sw_ok_step s1); [apply HI1|constructor].
Qed.

Lemma session_local_step a b : local_step a b → Inv a.1 a.2 → Inv b.1 b.2.
Proof.
  destruct 1 as [dr ds p ks hs dhs sim s s' H|cd dr ws sim s s' H|dr cs sim s s' H|i sim s s' H
    |dr p w sim s s' H|p b sim s|i sim s s' H|bpm sim s s' H|sim s s' H|dr now sim s sim' s' es H
    |now sim s s' es H|i wait sim s s' es H|d sim s|sim s|sim s]; cbn [fst snd]; intros HI.
  - unfold ReceiveFrom in H. cbn in H. destruct (on_sender _ s) as [s1|] eqn:E; [|done].
    assert (Inv sim s1) as HI1.
    { eapply Inv_on_sender; [done|exact E|intros x Hx; by eapply ext_Update|].
      intros ch ->%list_elem_of_singleton. done. }
    case_match; [by simplify_eq|]. by eapply Inv_enqueue, H.
  - apply want_wants_cases in H as [->|H]; [done|by eapply Inv_enqueue, H].
  - by eapply Inv_enqueue, H.
  - unfold deliver_op in H. destruct (enqueuing s !! i) as [o|] eqn:E; [|done]. case_match; [|done].
    simplify_eq. apply list_elem_of_lookup_2 in E.
    apply (Inv_frame sim s _ []); [done|done|apply ext_refl|set_solver| |apply HI].
    intros o'. cbn. rewrite !elem_of_app, list_elem_of_singleton.
    intros [[?| ->]|?%list_elem_of_delete_inv]; auto.
  - eapply Inv_on_sender; [done|exact H|intros x Hx; by eapply ext_Update|].
    intros ch ->%list_elem_of_singleton. done.
  - eapply Inv_frame; [exact HI|done|apply ext_Signal| |by left|apply HI].
    intros ch ->%list_elem_of_singleton. done.
  - eapply Inv_on_sender; [done|exact H|apply ext_deliver|set_solver].
  - by eapply Inv_run_sender.
  - eapply Inv_on_sender; [done|exact H|apply ext_exit|set_solver].
  - by eapply Inv_op.
  - unfold run_idle in H. destruct (idleTick s); [|done]. injection H as H.
    pose proof (Inv_broadcast now None sim (set_idle None s)) as HB.
    destruct (broadcast now None (set_idle None s)) as [s1 es1]. simplify_eq.
    apply HB. apply (Inv_frame sim s _ []); [done|done|apply ext_refl|set_solver|by left|apply HI].
  - unfold run_periodic in H. destruct (periodicSearchTimer s); [|done].
    assert (sws s' = sws s ∧ sw s' = sw s ∧ id s' = id s ∧ incoming s' = incoming s ∧ enqueuing s' = enqueuing s)
      as (E1 & E2 & E3 & E4 & E5).
    { unfold handlePeriodicSearch in H. case_match; simplify_eq; done. }
    apply (Inv_frame sim s _ []); [done|done|rewrite E1; apply ext_refl|set_solver|rewrite E4, E5; by left|].
    unfold sw_ok. rewrite E2. apply HI.
  - apply (Inv_frame sim s _ []); [done|done|apply ext_refl|set_solver|by left|apply HI].
  - apply (Inv_frame sim s _ []); [done|done|apply ext_refl|set_solver|by left|apply HI].
  - apply (Inv_frame sim s _ []); [done|done| |set_solver|by left|apply HI].
    split; [done|by left|done|by left].
Qed.

Lemma session_step a b : step a b → Inv a.1 a.2 → Inv b.1 b.2.
Proof.
  destruct 1 as [a b H|sim sim' s H]; [by apply session_local_step|]. cbn. intros HI.
  apply (Inv_extend sim s sim' s []); [done|done|apply ext_refl|set_solver| |apply HI|apply HI].
  intros w. by rewrite H.
Qed.

Lemma session_reachable a b : rtc step a b → Inv a.1 a.2 → Inv b.1 b.2.
Proof. induction 1 as [|a b c Hs _ IH]; [done|]. intros HI. apply IH. by eapply session_step. Qed.

Lemma session_new sim sid d wait : Inv sim (New sid (SPM.New sid) d wait).
Proof.
  split; cbn.
  - apply SWSLoop.sender_new.
  - done.
  - set_solver.
  - set_solver.
  - intros w [Hw|(ch & Hch & _)]; [|by apply not_elem_of_nil in Hch]. cbn in Hw. set_solver.
  - set_solver.
  - split; [apply SW.wf_newSessionWants|done].
Qed.

(** ** What a session does to the others *)

Lemma run_op_others dr now sim s sim' s' es :
  run_op dr now sim s = Some (sim', s', es) →
  id s' = id s ∧ (∀ sid, sid ≠ id s → same_interest sid sim sim') ∧ (SIM.wf sim → SIM.wf sim').
Proof.
  unfold run_op. destruct (incoming s) as [|o rest]; [done|]. destruct (op_op o).
  - unfold handleReceive. destruct (SW.BlocksReceived _ _ _) as [[wanted total] y].
    destruct (len wanted =? 0)%Z; intros [= <- <- _]; (split; [done|]); [done|].
    split; [|apply SIM.wf_RemoveSessionWants]. intros sid Hsid w.
    rewrite SIM.interest_RemoveSessionWants, decide_False; [done|]. cbn. tauto.
  - unfold wantBlocks. set (r := if (0 <? len _)%Z then _ else _).
    assert (∀ sim1 s1, r = Some (sim1, s1) → id s1 = id s ∧
      (∀ sid, sid ≠ id s → same_interest sid sim sim1) ∧ (SIM.wf sim → SIM.wf sim1)) as Hr.
    { intros sim1 s1. unfold r. case_match; [|by intros [= <- <-]].
      destruct (on_sender _ _) as [s2|] eqn:E; [|done]. intros [= <- <-].
      apply on_sender_Some in E as (x & _ & ->). split; [done|].
      split; [|apply SIM.wf_Record]. intros sid Hsid w.
      rewrite SIM.interest_Record, decide_False; [done|]. cbn. tauto. }
    destruct r as [[sim1 s1]|]; [|done]. destruct (Hr _ _ eq_refl) as (H1 & H2 & H3).
    case_match; [intros [= <- <- _]; by split|]. destruct (SW.GetNextWants _ _). intros [= <- <- _]. by split.
  - destruct (on_sender _ _) as [s2|] eqn:E; [|done]. intros [= <- <- _].
    apply on_sender_Some in E as (x & _ & ->). done.
  - pose proof (broadcast_frame now (Some (op_wants o)) (set_incoming rest s)) as HB.
    destruct (broadcast _ _ _). cbn in HB. intros [= <- <- _]. split; [apply HB|done].
  - by intros [= <- <- _].
Qed.

Lemma local_others a b :
  local_step a b →
  id b.2 = id a.2 ∧ (∀ sid, sid ≠ id a.2 → same_interest sid a.1 b.1) ∧ (SIM.wf a.1 → SIM.wf b.1).
Proof.
  destruct 1 as [dr ds p ks hs dhs sim s s' H|cd dr ws sim s s' H|dr cs sim s s' H|i sim s s' H
    |dr p w sim s s' H|p b sim s|i sim s s' H|bpm sim s s' H|sim s s' H|dr now sim s sim' s' es H
    |now sim s s' es H|i wait sim s s' es H|d sim s|sim s|sim s]; cbn [fst snd];
    try (split; [|split; [by intros sid _ w|done]]); try done.
  - unfold ReceiveFrom in H. cbn in H. destruct (on_sender _ s) as [s1|] eqn:E; [|done].
    apply on_sender_Some in E as (x & _ & ->).
    case_match; [by simplify_eq|]. by apply enqueue_frame in H as (_ & _ & -> & _).
  - apply want_wants_cases in H as [->|H]; [done|by apply enqueue_frame in H as (_ & _ & -> & _)].
  - by apply enqueue_frame in H as (_ & _ & -> & _).
  - unfold deliver_op in H. by repeat case_match; simplify_eq.
  - by apply on_sender_Some in H as (x & _ & ->).
  - by apply on_sender_Some in H as (x & _ & ->).
  - unfold run_sender in H. destruct (SWS.run_change _ _ _) as [x|]; [|done]. injection H as <-.
    by destruct (callbacks_frame (drop (length (SWS.evs (sws s))) (SWS.evs x)) (set_sws x s)) as (_ & _ & ? & _).
  - by apply on_sender_Some in H as (x & _ & ->).
  - by eapply run_op_others.
  - unfold run_idle in H. destruct (idleTick s); [|done]. injection H as H.
    pose proof (broadcast_frame now None (set_idle None s)) as HB.
    destruct (broadcast _ _ _). cbn in HB. simplify_eq. apply HB.
  - unfold run_periodic in H. destruct (periodicSearchTimer s); [|done].
    unfold handlePeriodicSearch in H. by case_match; simplify_eq.
Qed.

(** ** The periodic search *)

Lemma enqueue_periodic dr o s s' : enqueue dr o s = Some s' → periodicSearchTimer s' = periodicSearchTimer s.
Proof. unfold enqueue. intros. by repeat case_match; simplify_eq. Qed.

Lemma broadcast_periodic now ws s : periodicSearchTimer (broadcast now ws s).1 = periodicSearchTimer s.
Proof.
  unfold broadcast. destruct ws as [ws|]; [|destruct (SW.PrepareBroadcast now (sw s)) as [ws x]]; cbn;
    by destruct (SW.HasLiveWants _).
Qed.

Lemma run_op_periodic dr now sim s sim' s' es :
  run_op dr now sim s = Some (sim', s', es) → periodicSearchTimer s' = periodicSearchTimer s.
Proof.
  unfold run_op. destruct (incoming s) as [|o rest]; [done|]. destruct (op_op o).
  - unfold handleReceive. destruct (SW.BlocksReceived _ _ _) as [[wanted total] y].
    destruct (len wanted =? 0)%Z; by intros [= _ <- _].
  - unfold wantBlocks. destruct (0 <? _)%Z; [destruct (on_sender _ _) as [s1|] eqn:E; [|done];
      apply on_sender_Some in E as (x & _ & ->)|]; (destruct (SPM.PeersDiscovered _); [by intros [= _ <- _]|]);
      destruct (SW.GetNextWants _ _); by intros [= _ <- _].
  - destruct (on_sender _ _) as [s1|] eqn:E; [|done]. apply on_sender_Some in E as (x & _ & ->). by intros [= _ <- _].
  - pose proof (broadcast_periodic now (Some (op_wants o)) (set_incoming rest s)) as Hb.
    destruct (broadcast _ _ _). by intros [= _ <- _].
  - by intros [= _ <- _].
Qed.

(** Only the search itself restarts its timer. *)
Lemma periodic_step a b :
  step a b → periodicSearchTimer a.2 = None → periodicSearchTimer b.2 = None.
Proof.
  destruct 1 as [a b Hl|]; [|done]. destruct Hl as [dr ds p ks hs dhs sim s s' H|cd dr ws sim s s' H|dr cs sim s s' H|i sim s s' H
    |dr p w sim s s' H|p b sim s|i sim s s' H|bpm sim s s' H|sim s s' H|dr now sim s sim' s' es H
    |now sim s s' es H|i wait sim s s' es H|d sim s|sim s|sim s]; cbn [fst snd]; try done; intros Ht.
  - unfold ReceiveFrom in H. cbn in H. destruct (on_sender _ s) as [s1|] eqn:E; [|done].
    apply on_sender_Some in E as (x & _ & ->).
    case_match; [by simplify_eq|]. by apply enqueue_periodic in H as ->.
  - apply want_wants_cases in H as [->|H]; [done|by apply enqueue_periodic in H as ->].
  - by apply enqueue_periodic in H as ->.
  - unfold deliver_op in H. by repeat case_match; simplify_eq.
  - by apply on_sender_Some in H as (x & _ & ->).
  - by apply on_sender_Some in H as (x & _ & ->).
  - unfold run_sender in H. destruct (SWS.run_change _ _ _) as [x|]; [|done]. injection H as <-.
    apply (foldl_inv_simple (λ s', periodicSearchTimer s' = None)); [done|].
    intros s1 e _ Hs. destruct e; cbn; try done; unfold onWantsSent, onPeersExhausted, nonBlockingEnqueue; by case_match.
  - by apply on_sender_Some in H as (x & _ & ->).
  - by rewrite (run_op_periodic _ _ _ _ _ _ _ H).
  - unfold run_idle in H. destruct (idleTick s); [|done]. injection H as H.
    pose proof (broadcast_periodic now None (set_idle None s)) as HB. rewrite H in HB. cbn in HB. by rewrite HB.
  - unfold run_periodic in H. by rewrite Ht in H.
Qed.

Lemma periodic_stopped a b :
  rtc step a b → periodicSearchTimer a.2 = None → periodicSearchTimer b.2 = None.
Proof. induction 1 as [|a b c Hs _ IH]; [done|]. intros Ht. apply IH. by eapply periodic_step. Qed.

(** ** Delivery of answers *)

Lemma filter_interested sid (ks : list Want) sim w :
  w ∈ foldl (λ has c, if SIM.isInterested sid sim c then has ++ [c] else has) [] ks ↔
  w ∈ ks ∧ is_Some (SIM.interest sim sid w).
Proof.
  rewrite SIM.filter_loop, app_nil_l, list_elem_of_filter, Is_true_true. unfold SIM.isInterested.
  fold (SIM.interest sim sid w). destruct (SIM.interest sim sid w); cbn; split; by intros [? ?].
Qed.

(** The wants of interest in a message are handed to the sender, and the blocks
    among them to the session's loop. *)
Lemma ReceiveFrom_delivers dr ds p ks hs dhs sim s s' w :
  SWS.ctxDone (sws s) = false → ReceiveFrom dr ds p ks hs dhs sim s = Some s' →
  w ∈ ks ++ hs ++ dhs → is_Some (SIM.interest sim (id s) w) →
  ∃ u, last (SWS.changes (sws s')) = Some (SWS.mkChange [] [] u SWS.no_availability) ∧
    SWS.from u = p ∧ (w ∈ ks → w ∈ SWS.ks u) ∧ (w ∈ hs → w ∈ SWS.haves u) ∧ (w ∈ dhs → w ∈ SWS.dontHaves u).
Proof.
  intros Hctx. unfold ReceiveFrom. cbn.
  set (f := foldl (λ has c, if SIM.isInterested (id s) sim c then has ++ [c] else has) []).
  assert (∀ l, w ∈ f l ↔ w ∈ l ∧ is_Some (SIM.interest sim (id s) w)) as Hf by (intros; apply filter_interested).
  intros H Hw Hi. destruct (on_sender _ s) as [s1|] eqn:E; [|done].
  apply on_sender_Some in E as (x & Ex & ->).
  assert (SWS.changes (sws s') = SWS.changes x) as ->.
  { case_match; [by simplify_eq|]. by apply enqueue_frame in H as (-> & _). }
  unfold SWS.Update in Ex.
  assert ((0 <? len (f ks))%Z || (0 <? len (f hs))%Z || (0 <? len (f dhs))%Z = true) as Hn.
  { rewrite !elem_of_app in Hw. rewrite !orb_true_iff, !len_pos.
    assert (∀ l : list Want, w ∈ l → l ≠ []) as Hl by (intros l Hx ->; by apply not_elem_of_nil in Hx).
    destruct Hw as [?|[?|?]]; [left; left|left; right|right]; apply Hl, Hf; done. }
  rewrite Hn in Ex. cbn [negb] in Ex. unfold SWS.addChange in Ex. rewrite Hctx in Ex. cbn in Ex.
  destruct (SWS.room (sws s)); [|done]. injection Ex as <-. exists (SWS.mkUpdate p (f ks) (f hs) (f dhs)).
  cbn. rewrite last_snoc. split_and!; [done|done|..]; intros; by apply Hf.
Qed.
End facts.
End SessionFacts.
