(* ===== verification/SessionManager.v ===== *)
(** * The session manager (src/internal/sessionmanager/sessionmanager.go)

    Creates sessions, routes received keys to the sessions that are interested
    in them and cancels wants nobody is interested in any more.  Sessions are
    objects that outlive their entry in the map, so they live in a store
    ([objects], a reference is an index); [sessions] is [None] after [Shutdown],
    as the map is [nil] then.  The interest and presence managers are shared
    with every session and are part of the state; the calls on the peer manager
    are events. *)
From S2P Require Import Prelude Auth BlockPresence SessionInterest SessionWants SessionPeers.
From S2P Require Import SessionWantSender Session.
From Stdlib Require Import SpecFloat.
From stdpp Require Import options.
Set Default Goal Selector "1".

Module SM.
Section sm.
Context {CL : CidLib} {GO : GoRuntime}.

Inductive sm_event :=
| EvSendCancels (ws : list Want).

Record SessionManager := mkSM {
  sessionInterestManager : SIM.SessionInterestManager;
  blockPresenceManager : BPM.BlockPresenceManager;
  sessions : option (gmap Z nat);
  sessID : Z;
  objects : list Session.Session;
}.
Implicit Types (sm : SessionManager).

Definition New : SessionManager :=
  {| sessionInterestManager := SIM.New; blockPresenceManager := BPM.New;
     sessions := Some ∅; sessID := 0; objects := [] |}.

Definition set_sim x sm := mkSM x (blockPresenceManager sm) (sessions sm) (sessID sm) (objects sm).
Definition set_bpm x sm := mkSM (sessionInterestManager sm) x (sessions sm) (sessID sm) (objects sm).
Definition set_sessions x sm :=
  mkSM (sessionInterestManager sm) (blockPresenceManager sm) x (sessID sm) (objects sm).
Definition set_sessID x sm :=
  mkSM (sessionInterestManager sm) (blockPresenceManager sm) (sessions sm) x (objects sm).
Definition set_objects x sm :=
  mkSM (sessionInterestManager sm) (blockPresenceManager sm) (sessions sm) (sessID sm) x.

Definition GetNextSessionID sm : Z * SessionManager :=
  let next := uint64 (sessID sm + 1) in (next, set_sessID next sm).

(** Returns the reference of the new session. *)
Definition NewSession (provSearchDelay wait : Duration) sm : nat * SessionManager :=
  let '(id, sm) := GetNextSessionID sm in
  let session := Session.New id (SPM.New id) provSearchDelay wait in
  let ref := length (objects sm) in
  let sm := set_objects (objects sm ++ [session]) sm in
  match sessions sm with
  | Some m => (ref, set_sessions (Some (<[id := ref]> m)) sm)
  | None => (ref, sm)
  end.

(** Apply an operation to the session behind a reference. *)
Definition with_object (ref : nat) (f : Session.Session → option Session.Session) sm
  : option SessionManager :=
  match objects sm !! ref with
  | None => None
  | Some s => match f s with
              | Some s => Some (set_objects (<[ref := s]> (objects sm)) sm)
              | None => None
              end
  end.

Definition Shutdown sm : SessionManager :=
  let refs := match sessions sm with Some m => (range m).*2 | None => [] end in
  let sm := set_sessions None sm in
  foldl (λ sm ref, default sm (with_object ref (λ s, Some (Session.Shutdown s)) sm)) sm refs.

Definition cancelWants (ws : list Want) sm : SessionManager * list sm_event :=
  (set_bpm (BPM.RemoveKeys ws (blockPresenceManager sm)) sm, [EvSendCancels ws]).

Definition RemoveSession (sesid : Z) sm : SessionManager * list sm_event :=
  let '(cancelKs, sim) := SIM.RemoveSession sesid (sessionInterestManager sm) in
  let '(sm, es) := cancelWants cancelKs (set_sim sim sm) in
  match sessions sm with
  | Some m => (set_sessions (Some (delete sesid m)) sm, es)
  | None => (sm, es)
  end.

Definition CancelSessionWants (sesid : Z) (ws : list Want) sm : SessionManager * list sm_event :=
  let '(cancelKs, sim) := SIM.RemoveSessionInterested sesid ws (sessionInterestManager sm) in
  cancelWants cancelKs (set_sim sim sm).

(** The loop of [ReceiveFrom] over the interested sessions.  The result says
    whether the loop ran to its end (it stops when the manager is shut down);
    [None] means that a session's channel is full and the call blocks.
    [dr], [ds] choose between ready cases of each session's channels. *)
Fixpoint notify (dr ds : Z → bool) (ids : list Z) (p : PeerID) (blks haves dontHaves : list Want) sm
  : option (SessionManager * bool) :=
  match ids with
  | [] => Some (sm, true)
  | id :: ids' =>
      match sessions sm with
      | None => Some (sm, false)
      | Some m =>
          match m !! id with
          | None => notify dr ds ids' p blks haves dontHaves sm
          | Some ref =>
              match with_object ref
                (Session.ReceiveFrom (dr id) (ds id) p blks haves dontHaves (sessionInterestManager sm)) sm with
              | None => None
              | Some sm => notify dr ds ids' p blks haves dontHaves sm
              end
          end
      end
  end.

Definition ReceiveFrom (dr ds : Z → bool) (p : PeerID) (blks haves dontHaves : list Want) sm
  : option (SessionManager * list sm_event) :=
  let sm := set_bpm (BPM.ReceiveFrom p haves dontHaves (blockPresenceManager sm)) sm in
  match notify dr ds (SIM.InterestedSessions blks haves dontHaves (sessionInterestManager sm))
          p blks haves dontHaves sm with
  | None => None
  | Some (sm, true) => Some (sm, [EvSendCancels blks])
  | Some (sm, false) => Some (sm, [])
  end.
End sm.
End SM.
