(* ===== verification/SessionManagerFacts.v ===== *)
(** * All sessions together (src/internal/sessionmanager/sessionmanager.go)

    Every session keeps its invariant next to the others, and what a peer says
    about a want reaches each session whose sender tracks that want. *)
From S2P Require Import Prelude Auth BlockPresence SessionInterest SessionWants SessionPeers.
From S2P Require Import SessionWantSender SessionWantSenderLoop Session SessionFacts SessionManager.
From Stdlib Require Import SpecFloat.
Set Default Goal Selector "1".

Module SMFacts.
Import SM.
Section facts.
Context {CL : CidLib} {GO : GoRuntime} (rand : nat → spec_float).
Implicit Types (sm : SessionManager) (s : Session.Session) (rm : gset Z) (w : Want).

(** ** Steps *)

(** [rm] is the set of sessions that have been removed.  Fewer than [2^64]
    sessions are created, so identifiers are never reused. *)
Inductive step : relation (SessionManager * gset Z) :=
| st_New d wait sm rm : (sessID sm + 1 < 2 ^ 64)%Z → step (sm, rm) ((NewSession d wait sm).2, rm)
| st_local ref s sim' s' sm rm :
    objects sm !! ref = Some s →
    SessionFacts.local_step rand (sessionInterestManager sm, s) (sim', s') →
    step (sm, rm) (set_sim sim' (set_objects (<[ref := s']> (objects sm)) sm), rm)
| st_receive dr ds p blks haves dontHaves sm sm' es rm :
    ReceiveFrom dr ds p blks haves dontHaves sm = Some (sm', es) → step (sm, rm) (sm', rm)
| st_cancel ref s sid ws sm rm :
    objects sm !! ref = Some s → Session.id s ∉ rm →
    SWS.EvCancelSessionWants sid ws ∈ SWS.evs (Session.sws s) →
    step (sm, rm) ((CancelSessionWants sid ws sm).1, rm)
| st_remove ref s es sm rm :
    objects sm !! ref = Some s → Session.finishShutdown s = Some es →
    step (sm, rm) ((RemoveSession (Session.id s) sm).1, {[Session.id s]} ∪ rm)
| st_Shutdown sm rm : step (sm, rm) (Shutdown sm, rm).

(** ** The invariant *)

Record Inv sm rm : Prop := mkInv {
  sm_sessID : sessID sm = len (objects sm);
  sm_ids : ∀ ref s, objects sm !! ref = Some s → Session.id s = (Z.of_nat ref + 1)%Z;
  sm_map : ∀ m id ref, sessions sm = Some m → m !! id = Some ref →
    ∃ s, objects sm !! ref = Some s ∧ Session.id s = id;
  sm_interest : SIM.wf (sessionInterestManager sm);
  sm_sessions : ∀ ref s, objects sm !! ref = Some s → Session.id s ∉ rm →
    SessionFacts.Inv (sessionInterestManager sm) s;
}.

Lemma refs_inj sm rm m i j r :
  Inv sm rm → sessions sm = Some m → m !! i = Some r → m !! j = Some r → i = j.
Proof.
  intros HI Hm Hi Hj. destruct (sm_map _ _ HI _ _ _ Hm Hi) as (s & E & <-).
  destruct (sm_map _ _ HI _ _ _ Hm Hj) as (s' & E' & <-). congruence.
Qed.

Lemma with_object_Some ref f sm sm' :
  with_object ref f sm = Some sm' ↔
  ∃ s s', objects sm !! ref = Some s ∧ f s = Some s' ∧ sm' = set_objects (<[ref := s']> (objects sm)) sm.
Proof.
  unfold with_object. destruct (objects sm !! ref) as [s|]; [|naive_solver].
  destruct (f s) as [s'|] eqn:E; naive_solver.
Qed.

(** ** Routing *)

Section notify.
Context (dr ds : Z → bool) (p : PeerID) (blks haves dontHaves : list Want).

Abbreviation receive sm id := (Session.ReceiveFrom (dr id) (ds id) p blks haves dontHaves (sessionInterestManager sm)).

Lemma notify_spec ids sm sm' b m :
  sessions sm = Some m → NoDup ids → (∀ i j r, m !! i = Some r → m !! j = Some r → i = j) →
  notify dr ds ids p blks haves dontHaves sm = Some (sm', b) →
  b = true ∧ sm' = set_objects (objects sm') sm ∧ length (objects sm') = length (objects sm) ∧
  (∀ ref s', objects sm' !! ref = Some s' → ∃ s, objects sm !! ref = Some s ∧
     (s' = s ∨ ∃ id, receive sm id s = Some s')) ∧
  (∀ id ref s, id ∈ ids → m !! id = Some ref → objects sm !! ref = Some s →
     ∃ s', objects sm' !! ref = Some s' ∧ receive sm id s = Some s') ∧
  (∀ ref, (∀ id, id ∈ ids → m !! id ≠ Some ref) → objects sm' !! ref = objects sm !! ref).
Proof.
  intros Hm Hnd Hinj. revert sm Hm. induction ids as [|id ids IH]; intros sm Hm; cbn [notify].
  { intros [= <- <-]. split_and!; [done|by destruct sm|done| |set_solver|done]. eauto. }
  rewrite Hm. apply NoDup_cons in Hnd as [Hid Hnd]. destruct (m !! id) as [ref|] eqn:Er.
  - destruct (with_object _ _ _) as [sm1|] eqn:E; [|done].
    apply with_object_Some in E as (s & s1 & Eo & Es & ->). intros H.
    destruct (IH Hnd _ (Hm : sessions (set_objects (<[ref := s1]> (objects sm)) sm) = Some m) H)
      as (H1 & H2 & Hl & H3 & H4 & H5). cbn [objects set_objects sessionInterestManager] in Hl, H3, H4, H5.
    rewrite length_insert in Hl.
    assert (∀ id', id' ∈ ids → m !! id' ≠ Some ref) as Hout.
    { intros id' Hin E'. destruct Hid. by rewrite <- (Hinj _ _ _ E' Er). }
    split_and!; [done|by rewrite H2 at 1|done| | |].
    + intros r s' Hr. destruct (H3 r s' Hr) as (s2 & E2 & Hor).
      destruct (decide (r = ref)) as [->|Hne]; [|rewrite list_lookup_insert_ne in E2 by done; by exists s2].
      rewrite H5 in Hr by done. rewrite list_lookup_insert, decide_True in Hr by (split; [done|by eapply lookup_lt_Some]).
      injection Hr as <-. exists s. split; [done|]. right. by exists id.
    + intros id' r s' [->|Hin]%elem_of_cons Em Eo'.
      * simplify_eq. exists s1. split; [|done]. rewrite H5 by done.
        by rewrite list_lookup_insert, decide_True by (split; [done|by eapply lookup_lt_Some]).
      * assert (r ≠ ref) by (intros ->; by apply (Hout id')).
        apply (H4 id' r s' Hin Em). by rewrite list_lookup_insert_ne.
    + intros r Hr. rewrite H5 by (intros; apply Hr; by right).
      rewrite list_lookup_insert_ne; [done|]. intros <-. by apply (Hr id); [left|].
  - intros H. destruct (IH Hnd _ Hm H) as (H1 & H2 & Hl & H3 & H4 & H5). split_and!; [done|done|done|done| |].
    + intros id' r s' [->|Hin]%elem_of_cons Em Eo'; [congruence|by apply (H4 id' r s')].
    + intros r Hr. apply H5. intros; apply Hr; by right.
Qed.

Lemma notify_closed ids sm sm' b :
  sessions sm = None → notify dr ds ids p blks haves dontHaves sm = Some (sm', b) → sm' = sm.
Proof. destruct ids; cbn; [by intros _ [= <- _]|]. intros ->. by intros [= <- _]. Qed.
End notify.

(** ** Every step keeps the invariant *)

Lemma same_interest_Inv sim sim' s :
  SessionFacts.same_interest (Session.id s) sim sim' → SessionFacts.Inv sim s → SessionFacts.Inv sim' s.
Proof.
  intros Hs HI. by apply (SessionFacts.session_step rand _ _ (SessionFacts.st_other rand sim sim' s Hs)).
Qed.

Lemma RemoveSession_interest sid sim :
  SIM.wf sim →
  let r := SIM.RemoveSession sid sim in
  SIM.wf r.2 ∧ ∀ j, j ≠ sid → SessionFacts.same_interest j sim r.2.
Proof.
  intros Hwf. destruct (SIM.RemoveSession_spec sid sim Hwf) as (H1 & H2 & _). split; [done|]. intros j Hj w.
  by rewrite H2, decide_False.
Qed.

(** Objects that change their state by [f] keep their identity. *)
Lemma Inv_objects sm rm objs :
  Inv sm rm → length objs = length (objects sm) →
  (∀ ref s', objs !! ref = Some s' → ∃ s, objects sm !! ref = Some s ∧ Session.id s' = Session.id s ∧
     (SessionFacts.Inv (sessionInterestManager sm) s → SessionFacts.Inv (sessionInterestManager sm) s')) →
  Inv (set_objects objs sm) rm.
Proof.
  intros [H1 H2 H3 H4 H5] Hlen Ho. split; cbn.
  - by rewrite H1; unfold len; rewrite Hlen.
  - intros ref s' (s & E & -> & _)%Ho. by apply H2.
  - intros m id ref Hm Hr. destruct (H3 m id ref Hm Hr) as (s & E & Hs).
    destruct (lookup_lt_is_Some_2 objs ref) as [s' E']; [rewrite Hlen; by eapply lookup_lt_Some|].
    exists s'. split; [done|]. destruct (Ho _ _ E') as (s2 & ? & ? & _). congruence.
  - done.
  - intros ref s' (s & E & Eid & Hs)%Ho Hrm. apply Hs. eapply H5; [done|]. by rewrite <- Eid.
Qed.

Lemma receive_local dr ds p ks hs dhs sim s s' :
  Session.ReceiveFrom dr ds p ks hs dhs sim s = Some s' →
  Session.id s' = Session.id s ∧ (SessionFacts.Inv sim s → SessionFacts.Inv sim s').
Proof.
  intros H. pose proof (SessionFacts.st_receive rand _ _ _ _ _ _ _ _ _ H) as Hl. split.
  - apply (SessionFacts.local_others rand _ _ Hl).
  - apply (SessionFacts.session_local_step rand _ _ Hl).
Qed.

Lemma Inv_receive dr ds p blks haves dontHaves sm sm' es rm :
  Inv sm rm → ReceiveFrom dr ds p blks haves dontHaves sm = Some (sm', es) → Inv sm' rm.
Proof.
  intros HI. unfold ReceiveFrom.
  set (sm0 := set_bpm _ sm). assert (Inv sm0 rm) as HI0 by (destruct HI; by split).
  destruct (notify _ _ _ _ _ _ _ _) as [[sm1 b]|] eqn:E; [|done].
  assert (Inv sm1 rm) as HI1; [|destruct b; by intros [= <- _]].
  destruct (sessions sm0) as [m|] eqn:Em; [|by rewrite (notify_closed _ _ _ _ _ _ _ _ _ _ Em E)].
  destruct (notify_spec dr ds p blks haves dontHaves
    (SIM.InterestedSessions blks haves dontHaves (sessionInterestManager sm0)) sm0 sm1 b m Em) as (_ & H2 & Hl & H3 & _ & _);
    [apply NoDup_keys|intros; by eapply refs_inj|done|].
  rewrite H2. apply Inv_objects; [done|done|].
  intros ref s' (s & Eo & Hor)%H3. exists s. split; [done|].
  destruct Hor as [->|[id Hr]]; [done|]. by apply (receive_local _ _ _ _ _ _ _ _ _ Hr).
Qed.

Lemma Inv_sim sm rm rm' sim' :
  Inv sm rm → SIM.wf sim' → rm ⊆ rm' →
  (∀ ref s, objects sm !! ref = Some s → Session.id s ∉ rm' →
    SessionFacts.same_interest (Session.id s) (sessionInterestManager sm) sim') →
  Inv (set_sim sim' sm) rm'.
Proof.
  intros [H1 H2 H3 H4 H5] Hwf Hrm Hs. split; cbn; [done|done|done|done|].
  intros ref s E Hr. eapply same_interest_Inv; [by eapply Hs|]. eapply H5; [done|set_solver].
Qed.

Lemma Inv_New d wait sm rm :
  (sessID sm + 1 < 2 ^ 64)%Z → Inv sm rm → Inv (NewSession d wait sm).2 rm.
Proof.
  intros Hlt [H1 H2 H3 H4 H5]. unfold NewSession, GetNextSessionID. cbn.
  assert (uint64 (sessID sm + 1) = len (objects sm) + 1)%Z as ->.
  { rewrite uint64_id; rewrite H1 in *; [done|]. unfold len in *. lia. }
  set (n := Session.New _ _ _ _). 
  set (sm1 := mkSM (sessionInterestManager sm) (blockPresenceManager sm) (sessions sm)
    (len (objects sm) + 1) (objects sm ++ [n])).
  assert (∀ ref s, objects sm1 !! ref = Some s ↔
    objects sm !! ref = Some s ∨ (ref = length (objects sm) ∧ s = n)) as Ho.
  { intros ref s. unfold sm1. cbn. rewrite lookup_app_Some, list_lookup_singleton_Some.
    split; [intros [?|(? & ? & <-)]; [by left|right; split; [lia|done]]|].
    intros [?|[-> ->]]; [by left|right]. split; [lia|]. split; [lia|done]. }
  assert (Inv sm1 rm) as HI1.
  { split; unfold sm1; cbn.
    - unfold len. rewrite length_app. cbn. lia.
    - intros ref s [?|[-> ->]]%Ho; [by apply H2|]. done.
    - intros m id ref Hm Hr. destruct (H3 m id ref Hm Hr) as (s & E & Hs). exists s. split; [|done]. apply Ho. by left.
    - done.
    - intros ref s [?|[-> ->]]%Ho Hrm; [by eapply H5|]. apply SessionFacts.session_new. }
  destruct (sessions sm) as [m|] eqn:Em; [|destruct HI1; split; cbn; rewrite ?Em; done]. destruct HI1 as [G1 G2 G3 G4 G5].
  split; cbn; [done|done| |done|done]. intros m' id ref [= <-]. rewrite lookup_insert. case_decide as Hd.
  - intros [= <-]. exists n. split; [apply Ho; by right|]. by rewrite <- Hd.
  - intros Hr. by apply (G3 m).
Qed.

Lemma Inv_Shutdown sm rm : Inv sm rm → Inv (Shutdown sm) rm.
Proof.
  intros HI. unfold Shutdown. apply (foldl_inv_simple (λ sm, Inv sm rm)).
  - destruct HI as [H1 H2 H3 H4 H5]. split; cbn; done.
  - intros sm1 ref _ HI1. destruct (with_object _ _ _) as [sm2|] eqn:E; [|done]. cbn.
    apply with_object_Some in E as (s & s' & Eo & [= <-] & ->).
    apply Inv_objects; [done|by rewrite length_insert|]. intros r s'.
    rewrite list_lookup_insert_Some. intros [(-> & <- & _)|(_ & E)]; [|by exists s'].
    exists s. split; [done|]. split; [done|].
    apply (SessionFacts.session_local_step rand _ _ (SessionFacts.st_Shutdown rand (sessionInterestManager sm1) s)).
Qed.

Lemma manager_step a b : step a b → Inv a.1 a.2 → Inv b.1 b.2.
Proof.
  destruct 1 as [d wait sm rm Hlt|ref s sim' s' sm rm Eo Hl|dr ds p blks haves dhs sm sm' es rm H
    |ref s sid ws sm rm Eo Hrm He|ref s es sm rm Eo Hf|sm rm]; cbn [fst snd]; intros HI.
  - by apply Inv_New.
  - destruct (SessionFacts.local_others rand _ _ Hl) as (Eid & Hoth & Hwf). cbn in Eid, Hoth, Hwf.
    pose proof (SessionFacts.session_local_step rand _ _ Hl) as Hs. cbn in Hs.
    destruct HI as [H1 H2 H3 H4 H5].
    assert (∀ r s1, <[ref := s']> (objects sm) !! r = Some s1 →
      (r = ref ∧ s1 = s') ∨ (r ≠ ref ∧ objects sm !! r = Some s1)) as Ho.
    { intros r s1. rewrite list_lookup_insert_Some. intros [(-> & <- & _)|(? & ?)]; [by left|right]. by split. }
    split; cbn.
    + unfold len. by rewrite length_insert.
    + intros r s1 [[-> ->]|[_ E]]%Ho; [rewrite Eid|]; by apply H2.
    + intros m id r Hm Hr. destruct (H3 m id r Hm Hr) as (s1 & E & <-).
      destruct (decide (r = ref)) as [->|Hne].
      * exists s'. rewrite list_lookup_insert, decide_True by (split; [done|by eapply lookup_lt_Some]).
        split; [done|]. congruence.
      * exists s1. by rewrite list_lookup_insert_ne.
    + by apply Hwf.
    + intros r s1 [[-> ->]|[Hne E]]%Ho Hrm; [apply Hs; eapply H5; [done|congruence]|].
      eapply same_interest_Inv; [|by eapply H5]. apply Hoth.
      rewrite (H2 _ _ E), (H2 _ _ Eo). lia.
  - by eapply Inv_receive.
  - exfalso. by eapply (SessionFacts.si_events _ _ (sm_sessions _ _ HI _ _ Eo Hrm)).
  - unfold RemoveSession. destruct (RemoveSession_interest (Session.id s) (sessionInterestManager sm)) as [Hw Hi];
      [apply HI|]. destruct (SIM.RemoveSession _ _) as [ks sim']. cbn in Hw, Hi.
    assert (Inv (set_sim sim' sm) ({[Session.id s]} ∪ rm)) as [G1 G2 G3 G4 G5].
    { eapply Inv_sim; [done|done|set_solver|]. intros r s1 E Hr. apply Hi. set_solver. }
    cbn. destruct (sessions sm) as [m|] eqn:Em; cbn; (split; cbn; [done|done| |done|done]).
    + intros m' id r [= <-]. rewrite lookup_delete. case_decide; [done|]. by apply (G3 m).
    + intros m' id r Hm'. congruence.
  - by apply Inv_Shutdown.
Qed.

Lemma manager_reachable a b : rtc step a b → Inv a.1 a.2 → Inv b.1 b.2.
Proof. induction 1 as [|a b c Hs _ IH]; [done|]. intros HI. apply IH. by eapply manager_step. Qed.

Lemma manager_new : Inv New ∅.
Proof.
  split; cbn; [done|intros ref s; by rewrite lookup_nil| |intros w x; unfold SIM.New; by rewrite lookup_empty
    |intros ref s; by rewrite lookup_nil].
  intros m id ref [= <-]. by rewrite lookup_empty.
Qed.

(** ** Delivery *)

Lemma ReceiveFrom_reaches dr ds p blks haves dontHaves sm sm' es rm m id ref s w :
  Inv sm rm → sessions sm = Some m → m !! id = Some ref → objects sm !! ref = Some s → id ∉ rm →
  SWS.ctxDone (Session.sws s) = false →
  w ∈ dom (SWS.wants (Session.sws s)) → w ∈ blks ++ haves ++ dontHaves →
  ReceiveFrom dr ds p blks haves dontHaves sm = Some (sm', es) →
  ∃ s' u, objects sm' !! ref = Some s' ∧
    last (SWS.changes (Session.sws s')) = Some (SWS.mkChange [] [] u SWS.no_availability) ∧
    SWS.from u = p ∧ (w ∈ blks → w ∈ SWS.ks u) ∧ (w ∈ haves → w ∈ SWS.haves u) ∧
    (w ∈ dontHaves → w ∈ SWS.dontHaves u).
Proof.
  intros HI Hm Hid Eo Hrm Hctx Ht Hw. unfold ReceiveFrom.
  set (sm0 := set_bpm _ sm). assert (Inv sm0 rm) as HI0 by (destruct HI; by split).
  destruct (notify _ _ _ _ _ _ _ _) as [[sm1 b]|] eqn:E; [|done].
  destruct (notify_spec dr ds p blks haves dontHaves
    (SIM.InterestedSessions blks haves dontHaves (sessionInterestManager sm0)) sm0 sm1 b m Hm) as (-> & _ & _ & _ & H4 & _);
    [apply NoDup_keys|intros; by eapply refs_inj|done|]. intros [= <- _].
  destruct (sm_map _ _ HI _ _ _ Hm Hid) as (s0 & Eo' & Eid). rewrite Eo in Eo'. injection Eo' as <-.
  assert (is_Some (SIM.interest (sessionInterestManager sm) (Session.id s) w)) as Hi.
  { apply (SessionFacts.si_interest _ _ (sm_sessions _ _ HI _ _ Eo ltac:(by rewrite Eid))). by left. }
  destruct (H4 id ref s) as (s' & E' & Hr); [|done|done|].
  { apply SIM.InterestedSessions_spec. exists w. split; [done|]. by rewrite <- Eid. }
  exists s'. destruct (SessionFacts.ReceiveFrom_delivers _ _ _ _ _ _ _ _ _ w Hctx Hr Hw Hi) as (u & ? & ?).
  by exists u.
Qed.
End facts.
End SMFacts.
