(* ===== verification/Bitswap.v ===== *)
(** * Putting the parts together (src/bitswap.go, src/workers.go, src/stat.go)

    [Bitswap] wires the decision engine, the peer manager and the session manager
    together.  [ReceiveMessage] is the handler of the network; [HasBlock] adds a
    local block; [taskWorker] sends what the engine prepares; [provideCollector]
    queues keys to be announced.  The blockstore is the one the engine reads.
    The calls of the session manager on the peer manager are carried out here;
    other effects (queues, sessions, subscribers) are events. *)
From S2P Require Import Prelude Auth Wantlist Hex Proto Message Ledger ScoreLedger TaskMerger.
From S2P Require Import BlockstoreManager Engine PeerWantManager PeerWantFacts PeerManager.
From S2P Require Import BlockPresence SessionInterest SessionManager.
Import Message.
Open Scope Z_scope.

Module Bitswap.

Definition HasBlockBufferSize : Z := 256.
Definition provideKeysBufferSize : Z := 2048.
Definition provideWorkerMax : Z := 6.

Section bitswap.
Context {CL : CidLib} {GO : GoRuntime}.
Context {B : Type} {BS : Blockstore B}.
Context {Q : Type} {PTQ : PeerTaskQueue Q}.
Context {SL : Type} {SLI : ScoreLedger SL}.

Record counters := mkCounters {
  blocksRecvd : Z;
  dupBlocksRecvd : Z;
  dupDataRecvd : Z;
  blocksSent : Z;
  dataSent : Z;
  dataRecvd : Z;
  messagesRecvd : Z;
}.

(** The loop state of [provideCollector]: the key offered on [provideKeys], if
    any, and the keys behind it. *)
Record collector := mkCollector {
  nextKey : option Cid;
  toProvide : list Cid;
}.

(** The state of [provideWorker]: the key it took and could not start yet, and
    the keys being announced, one per token of the limit. *)
Record provider := mkProvider {
  held : option Cid;
  running : list Cid;
}.

Record Bitswap := mkBitswap {
  engine : Engine.Engine B Q SL;
  pm : PM.PeerManager;
  sm : SM.SessionManager;
  cnt : counters;
  newBlocks : list Cid;
  provideKeys : list Cid;
  collecting : collector;
  providing : provider;
  provideEnabled : bool;
  simulateDontHavesOnTimeout : bool;
  closing : bool;
}.
Implicit Types (bs : Bitswap).

Inductive bs_event :=
| EvPM (e : pm_event)
| EvPublish (b : AuthBlock).

Definition set_engine x bs := mkBitswap x (pm bs) (sm bs) (cnt bs) (newBlocks bs) (provideKeys bs)
  (collecting bs) (providing bs) (provideEnabled bs) (simulateDontHavesOnTimeout bs) (closing bs).
Definition set_pm x bs := mkBitswap (engine bs) x (sm bs) (cnt bs) (newBlocks bs) (provideKeys bs)
  (collecting bs) (providing bs) (provideEnabled bs) (simulateDontHavesOnTimeout bs) (closing bs).
Definition set_sm x bs := mkBitswap (engine bs) (pm bs) x (cnt bs) (newBlocks bs) (provideKeys bs)
  (collecting bs) (providing bs) (provideEnabled bs) (simulateDontHavesOnTimeout bs) (closing bs).
Definition set_cnt x bs := mkBitswap (engine bs) (pm bs) (sm bs) x (newBlocks bs) (provideKeys bs)
  (collecting bs) (providing bs) (provideEnabled bs) (simulateDontHavesOnTimeout bs) (closing bs).
Definition set_newBlocks x bs := mkBitswap (engine bs) (pm bs) (sm bs) (cnt bs) x (provideKeys bs)
  (collecting bs) (providing bs) (provideEnabled bs) (simulateDontHavesOnTimeout bs) (closing bs).
Definition set_provideKeys x bs := mkBitswap (engine bs) (pm bs) (sm bs) (cnt bs) (newBlocks bs) x
  (collecting bs) (providing bs) (provideEnabled bs) (simulateDontHavesOnTimeout bs) (closing bs).
Definition set_collecting x bs := mkBitswap (engine bs) (pm bs) (sm bs) (cnt bs) (newBlocks bs)
  (provideKeys bs) x (providing bs) (provideEnabled bs) (simulateDontHavesOnTimeout bs) (closing bs).

Definition set_providing x bs := mkBitswap (engine bs) (pm bs) (sm bs) (cnt bs) (newBlocks bs)
  (provideKeys bs) (collecting bs) x (provideEnabled bs) (simulateDontHavesOnTimeout bs) (closing bs).

Definition New (self : PeerID) (bstore : AuthedBlockstore.AuthedBlockstore B) (sl : SL) (q : Q)
    (engineTaskWorkerCount : Z) (sendDontHaves provide simulate : bool) : Bitswap :=
  {| engine := Engine.SetSendDontHaves sendDontHaves (Engine.NewEngine bstore sl q engineTaskWorkerCount);
     pm := PM.New self; sm := SM.New; cnt := mkCounters 0 0 0 0 0 0 0; newBlocks := [];
     provideKeys := []; collecting := mkCollector None [];
     providing := mkProvider None []; provideEnabled := provide;
     simulateDontHavesOnTimeout := simulate; closing := false |}.

Definition blockstore bs : AuthedBlockstore.AuthedBlockstore B := Engine.bsm (engine bs).
Definition set_blockstore (x : AuthedBlockstore.AuthedBlockstore B) bs : Bitswap :=
  let e := engine bs in
  set_engine (Engine.mkEngine (Engine.ledgerMap e) (Engine.peerLedger e) (Engine.scoreLedger e)
    (Engine.peerRequestQueue e) (Engine.workSignal e) x (Engine.maxReplaceSize e)
    (Engine.sendDontHaves e) (Engine.metricUpdateCounter e) (Engine.taskWorkerCount e)
    (Engine.outboxClosed e)) bs.

(** ** Counters *)

(** An error of the blockstore is logged and counts as absent. *)
Definition blockstoreHas (blks : list AuthBlock) bs : list bool :=
  (λ b, match AuthedBlockstore.Has (blockstore bs) (AuthBlock_Cid b) with
        | Ok has => has
        | Err _ => false
        end) <$> blks.

Definition count_block (c : counters) (x : AuthBlock * bool) : counters :=
  let '(b, has) := x in
  let blkLen := AuthBlock_Size b in
  let c := mkCounters (uint64 (blocksRecvd c + 1)) (dupBlocksRecvd c) (dupDataRecvd c) (blocksSent c)
             (dataSent c) (uint64 (dataRecvd c + uint64 blkLen)) (messagesRecvd c) in
  if (has : bool) then
    mkCounters (blocksRecvd c) (uint64 (dupBlocksRecvd c + 1)) (uint64 (dupDataRecvd c + uint64 blkLen))
      (blocksSent c) (dataSent c) (dataRecvd c) (messagesRecvd c)
  else c.

Definition updateReceiveCounters (blks : list AuthBlock) bs : Bitswap :=
  set_cnt (foldl count_block (cnt bs) (zip blks (blockstoreHas blks bs))) bs.

(** ** Receiving *)

(** The calls of the session manager on the peer manager. *)
Definition on_pm bs (e : SM.sm_event) : Bitswap * list bs_event :=
  match e with
  | SM.EvSendCancels ws => let '(x, es) := PM.SendCancels ws (pm bs) in (set_pm x bs, EvPM <$> es)
  end.
Definition on_pm_all (es : list SM.sm_event) bs : Bitswap * list bs_event :=
  foldl (λ acc e, let '(bs, out) := on_pm acc.1 e in (bs, acc.2 ++ out)) (bs, []) es.

(** The loop that hands cids to the provider; [inl] when the process closes,
    [None] when the channel is full and the call blocks.  [drop] chooses the
    closing case when both are ready. *)
Fixpoint provide_all (drop : bool) (blks : list AuthBlock) bs : option (Bitswap * bool) :=
  match blks with
  | [] => Some (bs, true)
  | blk :: blks' =>
      if closing bs && (drop || negb (len (newBlocks bs) <? HasBlockBufferSize)) then Some (bs, false)
      else if len (newBlocks bs) <? HasBlockBufferSize
      then provide_all drop blks' (set_newBlocks (newBlocks bs ++ [AuthBlock_Cid blk]) bs)
      else None
  end.

Definition errClosed : error := ErrOther "bitswap is closed".

(** [closeErr] is what [process.Close] returns. *)
Definition receiveBlocksFrom (dr ds : Z → bool) (drop : bool) (closeErr : option error)
    (from : PeerID) (blks : list AuthBlock) (haves dontHaves : list Want) bs
  : option (Bitswap * list bs_event * option error) :=
  if closing bs then Some (bs, [], Some errClosed)
  else
    let wanted :=
      if bool_decide (from ≠ "")
      then (SIM.SplitWantedUnwanted blks (SM.sessionInterestManager (sm bs))).1 else blks in
    let '(store, err) :=
      if 0 <? len wanted then AuthedBlockstore.PutMany wanted (blockstore bs) else (blockstore bs, None) in
    let bs := set_blockstore store bs in
    match err with
    | Some err => Some (bs, [], Some err)
    | None =>
        let allKs := AuthBlock_Want <$> blks in
        let es1 :=
          if bool_decide (from ≠ "")
          then EvPM <$> PM.ResponseReceived from (allKs ++ haves ++ dontHaves) (pm bs) else [] in
        match SM.ReceiveFrom dr ds from allKs haves dontHaves (sm bs) with
        | None => None
        | Some (m, smes) =>
            let '(bs, es2) := on_pm_all smes (set_sm m bs) in
            let bs := set_engine (Engine.ReceiveFrom from wanted (engine bs)) bs in
            let es3 := EvPublish <$> wanted in
            let es := es1 ++ es2 ++ es3 in
            if provideEnabled bs then
              match provide_all drop wanted bs with
              | None => None
              | Some (bs, true) => Some (bs, es, None)
              | Some (bs, false) => Some (bs, es, closeErr)
              end
            else Some (bs, es, None)
        end
    end.

Definition HasBlock (dr ds : Z → bool) (drop : bool) (closeErr : option error) (blk : AuthBlock) bs
  : option (Bitswap * list bs_event * option error) :=
  receiveBlocksFrom dr ds drop closeErr "" [blk] [] [] bs.

(** [f] is what the blockstore does to the engine's reads. *)
Definition ReceiveMessage (f : BSM.fault) (dr ds : Z → bool) (drop : bool) (closeErr : option error)
    (p : PeerID) (incoming : impl) bs : option (Bitswap * list bs_event) :=
  let c := cnt bs in
  let bs := set_cnt (mkCounters (blocksRecvd c) (dupBlocksRecvd c) (dupDataRecvd c) (blocksSent c)
              (dataSent c) (dataRecvd c) (uint64 (messagesRecvd c + 1))) bs in
  let bs := set_engine (Engine.MessageReceived f p incoming (engine bs)) bs in
  let iblocks := Blocks incoming in
  let bs := if 0 <? len iblocks then updateReceiveCounters iblocks bs else bs in
  let haves := Haves incoming in
  let dontHaves := DontHaves incoming in
  if (0 <? len iblocks) || (0 <? len haves) || (0 <? len dontHaves) then
    match receiveBlocksFrom dr ds drop closeErr p iblocks haves dontHaves bs with
    | None => None
    | Some (bs, es, _) => Some (bs, es)
    end
  else Some (bs, []).

(** The callback given to the message queues. *)
Definition onDontHaveTimeout (dr ds : Z → bool) (p : PeerID) (dontHaves : list Want) bs
  : option (Bitswap * list bs_event) :=
  if simulateDontHavesOnTimeout bs then
    match SM.ReceiveFrom dr ds p [] [] dontHaves (sm bs) with
    | None => None
    | Some (m, smes) => Some (on_pm_all smes (set_sm m bs))
    end
  else Some (bs, []).

Definition PeerConnected (p : PeerID) bs : Bitswap * list bs_event :=
  let '(x, es) := PM.Connected p (pm bs) in
  (set_engine (Engine.PeerConnected p (engine bs)) (set_pm x bs), EvPM <$> es).
Definition PeerDisconnected (p : PeerID) bs : Bitswap * list bs_event :=
  let '(x, es) := PM.Disconnected p (pm bs) in
  (set_engine (Engine.PeerDisconnected p (engine bs)) (set_pm x bs), EvPM <$> es).

(** ** Clients *)

Definition NewSession (provSearchDelay wait : Duration) bs : nat * Bitswap :=
  let '(ref, m) := SM.NewSession provSearchDelay wait (sm bs) in (ref, set_sm m bs).
Definition WantlistForPeer (p : PeerID) bs : list Want * Bitswap :=
  let '(es, e) := Engine.WantlistForPeer p (engine bs) in (Entry_Want <$> es, set_engine e bs).
Definition LedgerForPeer (p : PeerID) bs : Receipt := Engine.LedgerForPeer p (engine bs).
Definition GetWantlist bs : list Want := PM.CurrentWants (pm bs).
Definition GetWantBlocks bs : list Want := PM.CurrentWantBlocks (pm bs).
Definition GetWantHaves bs : list Want := PM.CurrentWantHaves (pm bs).
Definition IsOnline bs : bool := true.

(** ** Sending *)

(** One turn of [taskWorker] with the envelope it takes from the outbox; [ok]
    says whether the network accepted the message. *)
Definition sendBlocks (ok : bool) (env : Engine.Envelope) bs : Bitswap :=
  let bs :=
    if ok then
      let blks := Blocks (Engine.env_Message env) in
      let sent := foldl (λ n b, int64 (n + AuthBlock_Size b)) 0 blks in
      let c := cnt bs in
      set_cnt (mkCounters (blocksRecvd c) (dupBlocksRecvd c) (dupDataRecvd c)
        (uint64 (blocksSent c + uint64 (len blks))) (uint64 (dataSent c + uint64 sent))
        (dataRecvd c) (messagesRecvd c)) bs
    else bs in
  set_engine (Engine.env_Sent env (engine bs)) bs.

Definition taskWorker_step (ok : bool) (env : Engine.Envelope) bs : Bitswap :=
  let bs := set_engine (Engine.MessageSent (Engine.env_Peer env) (Engine.env_Message env) (engine bs)) bs in
  sendBlocks ok env bs.

(** ** Providing *)

(** The two cases of the select in [provideCollector]. *)
Definition collector_receive (k : Cid) (c : collector) : collector :=
  match nextKey c with
  | None => mkCollector (Some k) (toProvide c)
  | Some _ => mkCollector (nextKey c) (toProvide c ++ [k])
  end.
Definition collector_send (c : collector) : option (Cid * collector) :=
  match nextKey c with
  | None => None
  | Some k =>
      Some (k, match toProvide c with
               | k' :: ks => mkCollector (Some k') ks
               | [] => mkCollector None []
               end)
  end.

Definition collect_step bs : option Bitswap :=
  match newBlocks bs with
  | [] => None
  | k :: rest => Some (set_collecting (collector_receive k (collecting bs)) (set_newBlocks rest bs))
  end.
Definition offer_step bs : option Bitswap :=
  match collector_send (collecting bs) with
  | None => None
  | Some (k, c) =>
      if len (provideKeys bs) <? provideKeysBufferSize
      then Some (set_collecting c (set_provideKeys (provideKeys bs ++ [k]) bs))
      else None
  end.
(** [provideWorker]: take the next key, start announcing it when there is a
    token, and give the token back when an announcement ends. *)
Definition take_step bs : option Bitswap :=
  match held (providing bs), provideKeys bs with
  | None, k :: rest => Some (set_providing (mkProvider (Some k) (running (providing bs))) (set_provideKeys rest bs))
  | _, _ => None
  end.
Definition announce_step bs : option (Cid * Bitswap) :=
  match held (providing bs) with
  | Some k =>
      if len (running (providing bs)) <? provideWorkerMax
      then Some (k, set_providing (mkProvider None (running (providing bs) ++ [k])) bs)
      else None
  | None => None
  end.
Definition done_step (i : nat) bs : option Bitswap :=
  match running (providing bs) !! i with
  | Some _ => Some (set_providing (mkProvider (held (providing bs)) (list_delete i (running (providing bs)))) bs)
  | None => None
  end.

(** ** Statistics *)

Record Stat := mkStat {
  ProvideBufLen : Z;
  st_Wantlist : list Want;
  st_Peers : list PeerID;
  st_BlocksReceived : Z;
  st_DataReceived : Z;
  st_BlocksSent : Z;
  st_DataSent : Z;
  st_DupBlksReceived : Z;
  st_DupDataReceived : Z;
  st_MessagesReceived : Z;
}.

(** [p.Pretty()] is the peer itself here; [less] is the order of strings. *)
Definition Bitswap_Stat (less : string → string → bool) bs : Stat :=
  let c := cnt bs in
  {| ProvideBufLen := len (newBlocks bs); st_Wantlist := GetWantlist bs;
     st_Peers := sort_Sort less (Engine.Peers (engine bs));
     st_BlocksReceived := blocksRecvd c; st_DataReceived := dataRecvd c;
     st_BlocksSent := blocksSent c; st_DataSent := dataSent c;
     st_DupBlksReceived := dupBlocksRecvd c; st_DupDataReceived := dupDataRecvd c;
     st_MessagesReceived := messagesRecvd c |}.
End bitswap.
Arguments Bitswap {CL} B Q SL.
End Bitswap.
