(* ===== verification/BitswapFacts.v ===== *)
(** * The node as a whole (src/bitswap.go, src/workers.go)

    What arrives from the network is stored, published and served only as far as
    some session wants it; the invariants of the engine and of the sessions hold
    over every run of the node; keys are announced in order. *)
From S2P Require Import Prelude Auth Wantlist Hex Proto Message Ledger ScoreLedger TaskMerger.
From S2P Require Import BlockstoreManager Engine EngineFacts EngineIndex EngineRun.
From S2P Require Import PeerWantManager PeerWantFacts PeerManager.
From S2P Require Import BlockPresence SessionInterest SessionManager SessionManagerFacts Bitswap.
From Stdlib Require Import SpecFloat.
Import Message.
Open Scope Z_scope.
Set Default Goal Selector "1".

Module BitswapFacts.
Import Bitswap.
Section facts.
Context {CL : CidLib} {GO : GoRuntime} {BL : BlockLib}.
Context {B : Type} {BS : Blockstore B}.
Context {Q : Type} {PTQ : PeerTaskQueue Q}.
Context {SL : Type} {SLI : ScoreLedger SL}.
Context (rand : nat → spec_float).
Implicit Types (bs : Bitswap B Q SL) (w : Want) (b : AuthBlock).

(** The blocks published to subscribers. *)
Definition published (es : list bs_event) : list AuthBlock :=
  omap (λ e, match e with EvPublish b => Some b | _ => None end) es.

Lemma published_app es es' : published (es ++ es') = published es ++ published es'.
Proof. apply omap_app. Qed.
Lemma published_PM (es : list pm_event) : published (EvPM <$> es) = [].
Proof. induction es as [|e es IH]; [done|]. cbn. apply IH. Qed.
Lemma published_Publish (l : list AuthBlock) : published (EvPublish <$> l) = l.
Proof. induction l as [|b l IH]; [done|]. cbn. f_equal. apply IH. Qed.

(** The calls on the peer manager do not touch the other components. *)
Lemma on_pm_all_frame smes bs :
  let r := on_pm_all smes bs in
  r.1 = set_pm (pm r.1) bs ∧ published r.2 = [].
Proof.
  cbn zeta. unfold on_pm_all. apply (foldl_inv_simple (λ r : Bitswap B Q SL * list bs_event, r.1 = set_pm (pm r.1) bs ∧ published r.2 = [])).
  { split; [by destruct bs|done]. }
  intros [x out] e _ [E1 E2]. cbn [fst snd] in *. destruct e as [ws]. cbn [on_pm].
  destruct (PM.SendCancels ws (pm x)) as [y es]. cbn [fst snd].
  rewrite published_app, E2, published_PM. split; [|done]. rewrite E1. done.
Qed.

(** What [provide_all] changes. *)
Lemma provide_all_frame dr blks bs bs' ok :
  provide_all dr blks bs = Some (bs', ok) →
  ∃ ks, bs' = set_newBlocks (newBlocks bs ++ ks) bs ∧ (ok = true → ks = AuthBlock_Cid <$> blks).
Proof.
  revert bs. induction blks as [|b blks IH]; intros bs; cbn [provide_all].
  { intros [= <- <-]. exists []. split; [rewrite app_nil_r; by destruct bs|done]. }
  destruct (closing bs && _); [intros [= <- <-]; exists []; split; [rewrite app_nil_r; by destruct bs|done]|].
  destruct (len (newBlocks bs) <? HasBlockBufferSize); [|done].
  intros (ks & -> & Hk)%IH. exists (AuthBlock_Cid b :: ks). cbn. split.
  - unfold set_newBlocks. cbn. by rewrite <- app_assoc.
  - intros Hok. by rewrite (Hk Hok).
Qed.

(** The blocks that are kept: all of a local call, the wanted ones of a message. *)
Definition kept (from : PeerID) (blks : list AuthBlock) bs : list AuthBlock :=
  if bool_decide (from ≠ "")
  then filter (λ b, SIM.wanted (SM.sessionInterestManager (sm bs)) (AuthBlock_Want b)) blks
  else blks.

Lemma receiveBlocksFrom_spec dr ds drop cerr from blks haves dontHaves bs bs' es err :
  closing bs = false →
  receiveBlocksFrom dr ds drop cerr from blks haves dontHaves bs = Some (bs', es, err) →
  let W := kept from blks bs in
  let '(store, perr) := if 0 <? len W then AuthedBlockstore.PutMany W (blockstore bs) else (blockstore bs, None) in
  match perr with
  | Some e => err = Some e ∧ es = [] ∧ bs' = set_blockstore store bs
  | None =>
      published es = W ∧
      engine bs' = Engine.ReceiveFrom from W (engine (set_blockstore store bs)) ∧
      (∃ smes, SM.ReceiveFrom dr ds from (AuthBlock_Want <$> blks) haves dontHaves (sm bs) = Some (sm bs', smes)) ∧
      collecting bs' = collecting bs ∧ provideKeys bs' = provideKeys bs ∧ providing bs' = providing bs ∧
      ∃ ks, newBlocks bs' = newBlocks bs ++ ks
  end.
Proof.
  intros Hcl. unfold receiveBlocksFrom. rewrite Hcl.
  assert ((if bool_decide (from ≠ "")
      then (SIM.SplitWantedUnwanted blks (SM.sessionInterestManager (sm bs))).1 else blks) = kept from blks bs) as ->.
  { unfold kept. case_bool_decide; [|done]. by rewrite SIM.SplitWantedUnwanted_eq. }
  set (W := kept from blks bs). cbn zeta.
  destruct (if 0 <? len W then _ else _) as [store [e|]]; [by intros [= <- <- <-]|].
  set (bs0 := set_blockstore store bs).
  destruct (SM.ReceiveFrom dr ds from (AuthBlock_Want <$> blks) haves dontHaves (sm bs0)) as [[m smes]|] eqn:Es; [|done].
  destruct (on_pm_all_frame smes (set_sm m bs0)) as [F1 F2].
  destruct (on_pm_all smes (set_sm m bs0)) as [bs1 es2]. cbn [fst snd] in F1, F2.
  set (es1 := if bool_decide (from ≠ "") then _ else _).
  assert (published (es1 ++ es2 ++ (EvPublish <$> W)) = W) as Hpub.
  { rewrite !published_app, F2, published_Publish. unfold es1. case_bool_decide; [by rewrite published_PM|done]. }
  set (bs2 := set_engine _ bs1).
  assert (engine bs2 = Engine.ReceiveFrom from W (engine bs0) ∧ sm bs2 = m ∧
    collecting bs2 = collecting bs ∧ provideKeys bs2 = provideKeys bs ∧ providing bs2 = providing bs ∧ newBlocks bs2 = newBlocks bs)
    as (G1 & G2 & G3 & G4 & G6 & G5).
  { unfold bs2. rewrite F1. done. }
  change (SM.ReceiveFrom dr ds from (AuthBlock_Want <$> blks) haves dontHaves (sm bs) = Some (m, smes)) in Es.
  clearbody bs2. destruct (provideEnabled bs2).
  - destruct (provide_all drop W bs2) as [[bs3 ok]|] eqn:Ep; [|done].
    apply provide_all_frame in Ep as (ks & -> & _).
    assert (∀ r, Some (set_newBlocks (newBlocks bs2 ++ ks) bs2, es1 ++ es2 ++ (EvPublish <$> W), r) = Some (bs', es, err) →
      published es = W ∧ engine bs' = Engine.ReceiveFrom from W (engine bs0) ∧
      (∃ smes, SM.ReceiveFrom dr ds from (AuthBlock_Want <$> blks) haves dontHaves (sm bs) = Some (sm bs', smes)) ∧
      collecting bs' = collecting bs ∧ provideKeys bs' = provideKeys bs ∧ providing bs' = providing bs ∧
      ∃ ks, newBlocks bs' = newBlocks bs ++ ks) as H.
    { intros r [= <- <- _]. cbn. rewrite G1, G2, G3, G4, G5, G6. split_and!; [done|done|by exists smes|done|done|done|by exists ks]. }
    destruct ok; apply H.
  - intros [= <- <- _]. rewrite G1, G2, G3, G4, G5, G6.
    split_and!; [done|done|by exists smes|done|done|done|]. exists []. by rewrite app_nil_r.
Qed.

(** What storing the kept blocks does to the blockstore. *)
Lemma kept_stored `{!BlockstoreLaws B} (W : list AuthBlock) (st st' : AuthedBlockstore.AuthedBlockstore B) :
  (if 0 <? len W then AuthedBlockstore.PutMany W st else (st, None)) = (st', None) →
  (∀ c, c ∉ AuthBlock_Cid <$> W →
     bs_Has (AuthedBlockstore.source st') c = bs_Has (AuthedBlockstore.source st) c ∧
     bs_Get (AuthedBlockstore.source st') c = bs_Get (AuthedBlockstore.source st) c) ∧
  (NoDup (AuthBlock_Cid <$> W) → ∀ b, b ∈ W →
     bs_Has (AuthedBlockstore.source st') (AuthBlock_Cid b) = Ok true ∧
     bs_Get (AuthedBlockstore.source st') (AuthBlock_Cid b) = Ok (AuthBlock_block b)).
Proof.
  assert (AuthBlock_Cid <$> W = Block_Cid <$> (AuthBlock_block <$> W)) as Ec by by rewrite <- list_fmap_compose.
  destruct (0 <? len W) eqn:El.
  - unfold AuthedBlockstore.PutMany, AuthedBlockstore.with_source.
    destruct (bs_PutMany _ _) as [s' r] eqn:Ep. cbn. intros [= <- ->]. cbn. rewrite Ec. split.
    + intros c Hc. by eapply bs_PutMany_frame.
    + intros Hn b Hb. eapply (bs_PutMany_Get _ _ _ (AuthBlock_block b)); [done|by apply list_elem_of_fmap_2|done].
  - intros [= <-]. split; [done|]. intros _ b Hb. destruct W; [by apply not_elem_of_nil in Hb|done].
Qed.

(** ** Runs of the node *)

(** The handlers of the network, local calls, sessions at work (which call the
    peer manager), the engine's workers, and other users of the blockstore. *)
Inductive step : relation (Bitswap B Q SL * gset Z) :=
| st_message f dr ds drop cerr p m bs bs' es rm :
    wf m → ReceiveMessage f dr ds drop cerr p m bs = Some (bs', es) → step (bs, rm) (bs', rm)
| st_block dr ds drop cerr b bs bs' es err rm :
    HasBlock dr ds drop cerr b bs = Some (bs', es, err) → step (bs, rm) (bs', rm)
| st_timeout dr ds p ws bs bs' es rm :
    onDontHaveTimeout dr ds p ws bs = Some (bs', es) → step (bs, rm) (bs', rm)
| st_connected p bs rm : step (bs, rm) ((PeerConnected p bs).1, rm)
| st_disconnected p bs rm : step (bs, rm) ((PeerDisconnected p bs).1, rm)
| st_sessions m' bs rm rm' : SMFacts.step rand (sm bs, rm) (m', rm') → step (bs, rm) (set_sm m' bs, rm')
| st_peers x bs rm : step (bs, rm) (set_pm x bs, rm)
| st_engine e' bs rm : EngineRun.step (engine bs) e' → step (bs, rm) (set_engine e' bs, rm)
| st_task ok env bs rm : step (bs, rm) (taskWorker_step ok env bs, rm)
| st_store x bs rm : step (bs, rm) (set_blockstore x bs, rm)
| st_collect bs bs' rm : collect_step bs = Some bs' → step (bs, rm) (bs', rm)
| st_offer bs bs' rm : offer_step bs = Some bs' → step (bs, rm) (bs', rm)
| st_take bs bs' rm : take_step bs = Some bs' → step (bs, rm) (bs', rm)
| st_announce k bs bs' rm : announce_step bs = Some (k, bs') → step (bs, rm) (bs', rm)
| st_done i bs bs' rm : done_step i bs = Some bs' → step (bs, rm) (bs', rm).

Record Inv bs rm : Prop := mkInv {
  node_engine : EngineIndex.Inv (engine bs);
  node_sessions : SMFacts.Inv (sm bs) rm;
}.

Lemma engine_store x bs : EngineIndex.Inv (engine bs) → EngineIndex.Inv (engine (set_blockstore x bs)).
Proof. destruct bs as [[]]. by intros []. Qed.

Lemma Inv_receiveBlocks dr ds drop cerr from blks haves dontHaves bs bs' es err rm :
  Inv bs rm → receiveBlocksFrom dr ds drop cerr from blks haves dontHaves bs = Some (bs', es, err) → Inv bs' rm.
Proof.
  intros [H1 H2] H. destruct (closing bs) eqn:Hcl.
  { unfold receiveBlocksFrom in H. rewrite Hcl in H. by simplify_eq. }
  pose proof (receiveBlocksFrom_spec _ _ _ _ _ _ _ _ _ _ _ _ Hcl H) as Hs. cbn zeta in Hs.
  destruct (if 0 <? len _ then _ else _) as [store [e|]].
  - destruct Hs as (_ & _ & ->). split; [by apply engine_store|done].
  - destruct Hs as (_ & He & (smes & Hsm) & _). split.
    + rewrite He. eapply EngineRun.Inv_step; [apply EngineRun.st_ReceiveFrom|]. by apply engine_store.
    + by eapply SMFacts.Inv_receive.
Qed.

Lemma Inv_counters blks bs rm : Inv bs rm → Inv (updateReceiveCounters blks bs) rm.
Proof. intros [H1 H2]. by split. Qed.

Lemma node_step s s' : step s s' → Inv s.1 s.2 → Inv s'.1 s'.2.
Proof.
  destruct 1 as [f dr ds drop cerr p m bs bs' es rm Hm H|dr ds drop cerr b bs bs' es err rm H
    |dr ds p ws bs bs' es rm H|p bs rm|p bs rm|m' bs rm rm' H|x bs rm|e' bs rm H|ok env bs rm|x bs rm
    |bs bs' rm H|bs bs' rm H|bs bs' rm H|k bs bs' rm H|i bs bs' rm H]; cbn [fst snd]; intros HI.
  - unfold ReceiveMessage in H. set (bs0 := set_engine _ _) in H.
    assert (Inv bs0 rm) as HI0.
    { destruct HI as [H1 H2]. split; [|done]. unfold bs0. cbn.
      eapply EngineRun.Inv_step; [by apply EngineRun.st_MessageReceived|done]. }
    clearbody bs0. set (bs1 := if 0 <? len (Blocks m) then _ else _) in H.
    assert (Inv bs1 rm) as HI1.
    { unfold bs1. destruct (0 <? len (Blocks m)); [|done]. by apply Inv_counters. }
    clearbody bs1. destruct (_ || _); [|by simplify_eq].
    destruct (receiveBlocksFrom _ _ _ _ _ _ _ _ _) as [[[bs2 es2] err]|] eqn:E; [|done]. simplify_eq.
    by eapply Inv_receiveBlocks.
  - by eapply Inv_receiveBlocks.
  - unfold onDontHaveTimeout in H. case_match; [|by simplify_eq].
    destruct (SM.ReceiveFrom _ _ _ _ _ _ _) as [[m smes]|] eqn:E; [|done].
    destruct (on_pm_all_frame smes (set_sm m bs)) as [F1 _]. injection H as H. rewrite H in F1. cbn [fst] in F1.
    rewrite F1. destruct HI as [H1 H2]. split; [done|]. cbn. by eapply SMFacts.Inv_receive.
  - unfold PeerConnected. destruct (PM.Connected _ _). destruct HI as [H1 H2]. split; [|done]. cbn.
    eapply EngineRun.Inv_step; [apply EngineRun.st_PeerConnected|done].
  - unfold PeerDisconnected. destruct (PM.Disconnected _ _). destruct HI as [H1 H2]. split; [|done]. cbn.
    eapply EngineRun.Inv_step; [apply EngineRun.st_PeerDisconnected|done].
  - destruct HI as [H1 H2]. split; [done|]. cbn. apply (SMFacts.manager_step rand _ _ H H2).
  - destruct HI. by split.
  - destruct HI as [H1 H2]. split; [|done]. cbn. by eapply EngineRun.Inv_step.
  - destruct HI as [H1 H2]. unfold taskWorker_step, sendBlocks.
    split; [|by destruct ok]. cbn. eapply EngineRun.Inv_step; [apply EngineRun.st_Sent|].
    destruct ok; cbn; (eapply EngineRun.Inv_step; [apply EngineRun.st_MessageSent|done]).
  - destruct HI as [H1 H2]. split; [by apply engine_store|done].
  - unfold collect_step in H. case_match; simplify_eq. destruct HI. by split.
  - unfold offer_step in H. repeat case_match; simplify_eq. destruct HI. by split.
  - unfold take_step in H. repeat case_match; simplify_eq. destruct HI. by split.
  - unfold announce_step in H. repeat case_match; simplify_eq. destruct HI. by split.
  - unfold done_step in H. case_match; simplify_eq. destruct HI. by split.
Qed.

Lemma node_reachable s s' : rtc step s s' → Inv s.1 s.2 → Inv s'.1 s'.2.
Proof. induction 1 as [|s1 s2 s3 Hs _ IH]; [done|]. intros HI. apply IH. by eapply node_step. Qed.

Lemma node_new self bstore sl q n dh provide simulate :
  Inv (New self bstore sl q n dh provide simulate) ∅.
Proof.
  split; [|apply SMFacts.manager_new]. cbn.
  eapply EngineRun.Inv_step; [apply EngineRun.st_SetSendDontHaves|]. apply EngineIndex.Inv_newEngine.
Qed.

(** ** Announcing keys in order *)

(** The keys on their way to the provider, oldest first. *)
Definition pipeline bs : list Cid :=
  option_list (held (providing bs)) ++ provideKeys bs ++ option_list (nextKey (collecting bs)) ++ toProvide (collecting bs) ++ newBlocks bs.

Definition collector_ok (c : collector) : Prop := nextKey c = None → toProvide c = [].

Lemma pipeline_collect bs bs' :
  collector_ok (collecting bs) → collect_step bs = Some bs' →
  collector_ok (collecting bs') ∧ pipeline bs' = pipeline bs.
Proof.
  unfold collect_step, pipeline. intros Hc H. destruct (newBlocks bs) as [|k rest] eqn:E; [done|].
  injection H as <-. cbn. unfold collector_receive. destruct (nextKey (collecting bs)) as [k'|] eqn:En; cbn.
  - split; [done|]. by rewrite <- !app_assoc.
  - rewrite (Hc En). split; [done|]. done.
Qed.

Lemma pipeline_offer bs bs' :
  offer_step bs = Some bs' → collector_ok (collecting bs') ∧ pipeline bs' = pipeline bs.
Proof.
  unfold offer_step, pipeline, collector_send. intros H.
  destruct (nextKey (collecting bs)) as [k|] eqn:En; [|done].
  destruct (toProvide (collecting bs)) as [|k' ks] eqn:Et; destruct (_ <? _); simplify_eq; cbn;
    (split; [done|]); rewrite <- ?app_assoc; done.
Qed.

Lemma pipeline_take bs bs' :
  take_step bs = Some bs' →
  pipeline bs' = pipeline bs ∧ collecting bs' = collecting bs ∧ running (providing bs') = running (providing bs).
Proof.
  unfold take_step, pipeline. destruct (held (providing bs)); [done|].
  destruct (provideKeys bs) as [|k' rest]; [done|]. by intros [= <-].
Qed.

Lemma pipeline_announce bs bs' k :
  announce_step bs = Some (k, bs') →
  pipeline bs = k :: pipeline bs' ∧ collecting bs' = collecting bs ∧
  len (running (providing bs')) ≤ provideWorkerMax.
Proof.
  unfold announce_step, pipeline. destruct (held (providing bs)) as [k'|]; [|done].
  destruct (Z.ltb_spec (len (running (providing bs))) provideWorkerMax); [|done]. intros [= -> <-]. cbn.
  split_and!; [done|done|]. unfold len in *. rewrite length_app. cbn. lia.
Qed.

Lemma pipeline_done i bs bs' :
  done_step i bs = Some bs' →
  pipeline bs' = pipeline bs ∧ collecting bs' = collecting bs ∧
  len (running (providing bs')) ≤ len (running (providing bs)).
Proof.
  unfold done_step, pipeline. destruct (running (providing bs) !! i) as [k|] eqn:E; [|done]. intros [= <-]. cbn.
  split_and!; [done|done|].
  unfold len. pose proof (length_delete (running (providing bs)) i (ex_intro _ k E)) as Hd.
  unfold delete in Hd. lia.
Qed.

(** Keys are handed over (the first list), moved along and announced (the
    second list); anything else the node does leaves the pipeline alone. *)
Inductive provide_run : relation (Bitswap B Q SL * list Cid * list Cid) :=
| pr_hand dr blks bs bs' ok ks inn out :
    provide_all dr blks bs = Some (bs', ok) → newBlocks bs' = newBlocks bs ++ ks →
    provide_run (bs, inn, out) (bs', inn ++ ks, out)
| pr_collect bs bs' inn out : collect_step bs = Some bs' → provide_run (bs, inn, out) (bs', inn, out)
| pr_offer bs bs' inn out : offer_step bs = Some bs' → provide_run (bs, inn, out) (bs', inn, out)
| pr_take bs bs' inn out : take_step bs = Some bs' → provide_run (bs, inn, out) (bs', inn, out)
| pr_announce k bs bs' inn out :
    announce_step bs = Some (k, bs') → provide_run (bs, inn, out) (bs', inn, out ++ [k])
| pr_done i bs bs' inn out : done_step i bs = Some bs' → provide_run (bs, inn, out) (bs', inn, out)
| pr_other bs bs' inn out :
    newBlocks bs' = newBlocks bs → collecting bs' = collecting bs → provideKeys bs' = provideKeys bs →
    providing bs' = providing bs → provide_run (bs, inn, out) (bs', inn, out).

Record in_order (x : Bitswap B Q SL * list Cid * list Cid) : Prop := mkInOrder {
  io_collector : collector_ok (collecting x.1.1);
  io_keys : x.1.2 = x.2 ++ pipeline x.1.1;
  io_limit : len (running (providing x.1.1)) ≤ provideWorkerMax;
}.

Lemma in_order_step x y : provide_run x y → in_order x → in_order y.
Proof.
  destruct 1 as [dr blks bs bs' ok ks inn out H E|bs bs' inn out H|bs bs' inn out H|bs bs' inn out H
    |k bs bs' inn out H|i bs bs' inn out H|bs bs' inn out E1 E2 E3 E4];
    intros [Hc Ho Hl]; cbn [fst snd] in *.
  - apply provide_all_frame in H as (ks' & -> & _). cbn in E. apply app_inv_head in E as ->.
    split; [done| |done]. cbn. rewrite Ho. unfold pipeline. cbn. by rewrite <- !app_assoc.
  - destruct (pipeline_collect _ _ Hc H) as [? E]. split; cbn; [done|by rewrite E|].
    unfold collect_step in H. by case_match; simplify_eq.
  - destruct (pipeline_offer _ _ H) as [? E]. split; cbn; [done|by rewrite E|].
    unfold offer_step in H. by repeat case_match; simplify_eq.
  - destruct (pipeline_take _ _ H) as (E & E1 & E2). split; cbn; [by rewrite E1|by rewrite E|by rewrite E2].
  - destruct (pipeline_announce _ _ _ H) as (E & E1 & E2).
    split; cbn; [by rewrite E1|by rewrite Ho, E, <- app_assoc|done].
  - destruct (pipeline_done _ _ _ H) as (E & E1 & E2). split; cbn; [by rewrite E1|by rewrite E|lia].
  - split; cbn; unfold pipeline in *; rewrite ?E1, ?E2, ?E3, ?E4; done.
Qed.

Lemma in_order_run x y : rtc provide_run x y → in_order x → in_order y.
Proof. induction 1 as [|x y z Hs _ IH]; [done|]. intros Hi. apply IH. by eapply in_order_step. Qed.

Lemma in_order_new self bstore sl q n dh provide simulate :
  in_order (New self bstore sl q n dh provide simulate, [], []).
Proof. by split. Qed.

(** Some goroutine can move while a key is on its way: the announcements under
    way, or a stage of the pipeline. *)
Lemma pipeline_moves bs :
  collector_ok (collecting bs) → pipeline bs ≠ [] →
  running (providing bs) ≠ [] ∨ is_Some (announce_step bs) ∨ is_Some (take_step bs) ∨
  is_Some (collect_step bs) ∨ is_Some (offer_step bs).
Proof.
  unfold pipeline, announce_step, take_step, collect_step, offer_step, collector_send, collector_ok. intros Hc Hne.
  destruct (running (providing bs)) as [|r rs]; [right|by left].
  destruct (held (providing bs)) as [k|]; [by left; eexists|right].
  destruct (provideKeys bs) as [|k ks]; [|by left; eexists]. cbn. right.
  destruct (newBlocks bs) as [|k ks]; [|by left; eexists].
  destruct (nextKey (collecting bs)) as [k|]; [by right; eexists|].
  by rewrite Hc in Hne.
Qed.
End facts.
End BitswapFacts.
