(* ===== verification/MessageQueue.v ===== *)
(** * The outgoing queue of one peer (src/internal/messagequeue/messagequeue.go)

    [MessageQueue] collects wants, broadcast wants and cancels for one peer and
    turns them into messages.  The calls on the network and on the DONT_HAVE
    timeout manager are events; the results of the network are arguments of the
    operations. *)
From S2P Require Import Prelude Auth Wantlist Proto Message.
Open Scope Z_scope.

Inductive mq_event `{CL : CidLib} :=
| EvDhtmStart
| EvAddPending (ks : list Want)
| EvCancelPending (ks : list Want)
| EvLatency (d : Duration)
| EvSend (m : Message.impl)
| EvCancelCtx
| EvDhtmShutdown
| EvResetSender.

(** ** Pending and sent wants *)

Module RWL.
Section rwl.
Context {CL : CidLib} {GO : GoRuntime}.

Record recallWantlist := mkRWL {
  pending : Wantlist;
  sent : Wantlist;
  sentAt : gmap Want Time;
}.
Implicit Types (r : recallWantlist) (c : Want) (e : Entry).

Definition newRecallWantList : recallWantlist :=
  {| pending := WL.New; sent := WL.New; sentAt := ∅ |}.

Definition Add c (priority : Z) (wtype : WantType) r : recallWantlist :=
  mkRWL (WL.Add c priority wtype (pending r)).2 (sent r) (sentAt r).

Definition Remove c r : recallWantlist :=
  mkRWL (WL.Remove c (pending r)).2 (WL.Remove c (sent r)).2 (delete c (sentAt r)).

Definition RemoveType c (wtype : WantType) r : recallWantlist :=
  let p := (WL.RemoveType c wtype (pending r)).2 in
  let s := (WL.RemoveType c wtype (sent r)).2 in
  mkRWL p s (match WL.Contains s c with Some _ => sentAt r | None => delete c (sentAt r) end).

Definition MarkSent e r : bool * recallWantlist :=
  let '(ok, p) := WL.RemoveType (Entry_Want e) (Entry_WantType e) (pending r) in
  if negb ok then (false, mkRWL p (sent r) (sentAt r))
  else (true, mkRWL p (WL.Add (Entry_Want e) (Entry_Priority e) (Entry_WantType e) (sent r)).2 (sentAt r)).

Definition SentAt c (at_ : Time) r : recallWantlist :=
  match WL.Contains (sent r) c with
  | Some _ =>
      match sentAt r !! c with
      | Some _ => r
      | None => mkRWL (pending r) (sent r) (<[c := at_]> (sentAt r))
      end
  | None => r
  end.

Definition ClearSentAt c r : recallWantlist := mkRWL (pending r) (sent r) (delete c (sentAt r)).
End rwl.
End RWL.

(** ** The queue *)

Module MQ.
Section mq.
Context {CL : CidLib} {GO : GoRuntime} {BL : BlockLib}.
(** [cid.NewCidV0(u.Hash([]byte("cid")))], from which [bsmsg.MaxEntrySize] is
    computed. *)
Context (sizeCid : Cid).

Definition MaxEntrySize : Z := Message.maxEntrySize sizeCid.

Definition defaultRebroadcastInterval : Duration := 30 * 10 ^ 9.
Definition maxPriority : Z := MaxInt32.
Definition sendMessageCutoff : Z := 256.
Definition sendMessageMaxDelay : Duration := 20 * 10 ^ 6.
Definition responsesCap : nat := 8.

(** A [clock.Timer]: idle, counting, or fired with its value still in the
    channel. *)
Inductive timer := TIdle | TRunning | TFired.

Record MessageQueue := mkMQ {
  bcstWants : RWL.recallWantlist;
  peerWants : RWL.recallWantlist;
  cancels : gset Want;
  priority : Z;
  outgoingWork : option Time;
  responses : list (list Want);
  msg : Message.impl;
  hasSender : bool;
  closed : bool;
  maxMessageSize : Z;
  maxValidLatency : Duration;
  rebroadcastInterval : Duration;
  rebroadcastTimer : option Duration;
  workScheduled : Time;
  scheduleWork : timer;
}.
Implicit Types (q : MessageQueue) (c : Want) (ks : list Want) (now : Time).

Definition set_lists (b p : RWL.recallWantlist) (cs : gset Want) (prio : Z) q : MessageQueue :=
  mkMQ b p cs prio (outgoingWork q) (responses q) (msg q) (hasSender q) (closed q)
       (maxMessageSize q) (maxValidLatency q) (rebroadcastInterval q) (rebroadcastTimer q)
       (workScheduled q) (scheduleWork q).
Definition set_outgoing (w : option Time) q : MessageQueue :=
  mkMQ (bcstWants q) (peerWants q) (cancels q) (priority q) w (responses q) (msg q) (hasSender q)
       (closed q) (maxMessageSize q) (maxValidLatency q) (rebroadcastInterval q) (rebroadcastTimer q)
       (workScheduled q) (scheduleWork q).
Definition set_responses (rs : list (list Want)) q : MessageQueue :=
  mkMQ (bcstWants q) (peerWants q) (cancels q) (priority q) (outgoingWork q) rs (msg q) (hasSender q)
       (closed q) (maxMessageSize q) (maxValidLatency q) (rebroadcastInterval q) (rebroadcastTimer q)
       (workScheduled q) (scheduleWork q).
Definition set_msg (m : Message.impl) q : MessageQueue :=
  mkMQ (bcstWants q) (peerWants q) (cancels q) (priority q) (outgoingWork q) (responses q) m
       (hasSender q) (closed q) (maxMessageSize q) (maxValidLatency q) (rebroadcastInterval q)
       (rebroadcastTimer q) (workScheduled q) (scheduleWork q).
Definition set_sender (s cl : bool) q : MessageQueue :=
  mkMQ (bcstWants q) (peerWants q) (cancels q) (priority q) (outgoingWork q) (responses q) (msg q)
       s cl (maxMessageSize q) (maxValidLatency q) (rebroadcastInterval q)
       (rebroadcastTimer q) (workScheduled q) (scheduleWork q).
Definition set_rebroadcast (d : Duration) (t : option Duration) q : MessageQueue :=
  mkMQ (bcstWants q) (peerWants q) (cancels q) (priority q) (outgoingWork q) (responses q) (msg q)
       (hasSender q) (closed q) (maxMessageSize q) (maxValidLatency q) d t
       (workScheduled q) (scheduleWork q).
Definition set_schedule (w : Time) (t : timer) q : MessageQueue :=
  mkMQ (bcstWants q) (peerWants q) (cancels q) (priority q) (outgoingWork q) (responses q) (msg q)
       (hasSender q) (closed q) (maxMessageSize q) (maxValidLatency q) (rebroadcastInterval q)
       (rebroadcastTimer q) w t.

Definition newMessageQueue (maxMsgSize : Z) (maxLatency : Duration) : MessageQueue :=
  {| bcstWants := RWL.newRecallWantList; peerWants := RWL.newRecallWantList;
     cancels := AuthSet.NewSet; priority := maxPriority; outgoingWork := None; responses := [];
     msg := Message.newMsg false; hasSender := false; closed := false;
     maxMessageSize := maxMsgSize; maxValidLatency := maxLatency;
     rebroadcastInterval := defaultRebroadcastInterval; rebroadcastTimer := None;
     workScheduled := Time_zero; scheduleWork := TIdle |}.

(** [select { case mq.outgoingWork <- now: default: }] on a channel of capacity 1. *)
Definition signalWorkReady now q : MessageQueue :=
  match outgoingWork q with
  | None => set_outgoing (Some now) q
  | Some _ => q
  end.

(** One iteration of the loops of [AddBroadcastWantHaves] and [AddWants]. *)
Definition addBroadcast q c : MessageQueue :=
  set_lists (RWL.Add c (priority q) WantType_Have (bcstWants q)) (peerWants q)
            (AuthSet.Remove c (cancels q)) (int32 (priority q - 1)) q.
Definition addPeerWant (t : WantType) q c : MessageQueue :=
  set_lists (bcstWants q) (RWL.Add c (priority q) t (peerWants q))
            (AuthSet.Remove c (cancels q)) (int32 (priority q - 1)) q.

Definition AddBroadcastWantHaves now (wantHaves : list Want) q : MessageQueue :=
  if len wantHaves =? 0 then q
  else signalWorkReady now (foldl addBroadcast q wantHaves).

Definition AddWants now (wantBlocks wantHaves : list Want) q : MessageQueue :=
  if (len wantBlocks =? 0) && (len wantHaves =? 0) then q
  else
    let q := foldl (addPeerWant WantType_Have) q wantHaves in
    let q := foldl (addPeerWant WantType_Block) q wantBlocks in
    signalWorkReady now q.

Definition addCancel (acc : MessageQueue * bool) c : MessageQueue * bool :=
  let '(q, workReady) := acc in
  let wasSentBcst := bool_decide (is_Some (WL.Contains (RWL.sent (bcstWants q)) c)) in
  let wasSentPeer := bool_decide (is_Some (WL.Contains (RWL.sent (peerWants q)) c)) in
  let b := RWL.Remove c (bcstWants q) in
  let p := RWL.Remove c (peerWants q) in
  if wasSentBcst || wasSentPeer
  then (set_lists b p (AuthSet.Add c (cancels q)) (priority q) q, true)
  else (set_lists b p (cancels q) (priority q) q, workReady).

Definition AddCancels now (cancelKs : list Want) q : MessageQueue * list mq_event :=
  if len cancelKs =? 0 then (q, [])
  else
    let '(q, workReady) := foldl addCancel (q, false) cancelKs in
    (if workReady then signalWorkReady now q else q, [EvCancelPending cancelKs]).

Definition ResponseReceived ks q : MessageQueue :=
  if len ks =? 0 then q
  else if (length (responses q) <? responsesCap)%nat then set_responses (responses q ++ [ks]) q
  else q.

Definition SetRebroadcastInterval (delay : Duration) q : MessageQueue :=
  set_rebroadcast delay (match rebroadcastTimer q with Some _ => Some delay | None => None end) q.

Definition Startup q : MessageQueue :=
  set_rebroadcast (rebroadcastInterval q) (Some (rebroadcastInterval q)) q.

Definition Shutdown q : MessageQueue * list mq_event :=
  (set_sender (hasSender q) true q, [EvCancelCtx]).

Definition onShutdown q : list mq_event :=
  EvDhtmShutdown :: if hasSender q then [EvResetSender] else [].

Definition pendingWorkCount q : Z :=
  WL.Len (RWL.pending (bcstWants q)) + WL.Len (RWL.pending (peerWants q)) + AuthSet.Len (cancels q).
Definition hasPendingWork q : bool := 0 <? pendingWorkCount q.

(** ** Extracting a message *)

(** The entries taken under the first lock. *)
Record snapshot := mkSnap {
  sn_peer : list Entry;
  sn_bcst : list Entry;
  sn_cancels : list Want;
}.

Definition dropHaves (acc : RWL.recallWantlist * list Entry) (e : Entry)
  : RWL.recallWantlist * list Entry :=
  if bool_decide (Entry_WantType e = WantType_Have)
  then (RWL.RemoveType (Entry_Want e) WantType_Have acc.1, acc.2)
  else (acc.1, acc.2 ++ [e]).

Definition extract_begin (supportsHave : bool) q : snapshot * MessageQueue :=
  let peerEntries := WL.Entries (RWL.pending (peerWants q)) in
  let bcstEntries := WL.Entries (RWL.pending (bcstWants q)) in
  let cs := AuthSet.Keys (cancels q) in
  if negb supportsHave then
    let '(p, filtered) := foldl dropHaves (peerWants q, []) peerEntries in
    (mkSnap filtered bcstEntries cs, set_lists (bcstWants q) p (cancels q) (priority q) q)
  else (mkSnap peerEntries bcstEntries cs, q).

(** A loop that adds elements to the message until the size limit is reached;
    the last component says whether it left through [goto FINISH]. *)
Fixpoint fill {A} (add : A → Message.impl → Z * Message.impl) (max : Z)
    (xs : list A) (size : Z) (m : Message.impl) (taken : nat) : Z * Message.impl * nat * bool :=
  match xs with
  | [] => (size, m, taken, false)
  | x :: xs' =>
      let '(n, m) := add x m in
      let size := size + n in
      if max <=? size then (size, m, S taken, true)
      else fill add max xs' size m (S taken)
  end.

(** The part between the locks: what was put in the message. *)
Record extraction := mkExtract {
  ex_peer : list Entry;
  ex_bcst : list Entry;
  ex_cancels : list Want;
}.

Definition addPeerEntry (e : Entry) (m : Message.impl) : Z * Message.impl :=
  Message.AddEntry (Entry_Want e) (Entry_Priority e) (Entry_WantType e) true m.
Definition addBcstEntry (supportsHave : bool) (e : Entry) (m : Message.impl) : Z * Message.impl :=
  let wantType := if negb supportsHave then WantType_Block else WantType_Have in
  Message.AddEntry (Entry_Want e) (Entry_Priority e) wantType false m.

Definition sortIfFull (size max : Z) (es : list Entry) : list Entry :=
  if max <? size + len es * MaxEntrySize then WL.SortEntries es else es.

Definition extract_build (supportsHave : bool) (sn : snapshot) (max : Z) (m : Message.impl)
  : extraction * Message.impl :=
  let '(size, m, nCancels, full) := fill Message.Cancel max (sn_cancels sn) 0 m 0 in
  let sentCancels := take nCancels (sn_cancels sn) in
  if (full : bool) then (mkExtract [] [] sentCancels, m)
  else
    let peerEntries := sortIfFull size max (sn_peer sn) in
    let '(size, m, nPeer, full) := fill addPeerEntry max peerEntries size m 0 in
    let sentPeer := take nPeer peerEntries in
    if (full : bool) then (mkExtract sentPeer [] sentCancels, m)
    else
      let bcstEntries := sortIfFull size max (sn_bcst sn) in
      let '(_, m, nBcst, _) := fill (addBcstEntry supportsHave) max bcstEntries size m 0 in
      (mkExtract sentPeer (take nBcst bcstEntries) sentCancels, m).

(** Marking an entry as sent, or taking it out of the message when it changed
    since the first lock; the list is what [onSent] will look at. *)
Definition markSent (acc : RWL.recallWantlist * Message.impl * list Entry) (e : Entry)
  : RWL.recallWantlist * Message.impl * list Entry :=
  let '(r, m, es) := acc in
  let '(ok, r) := RWL.MarkSent e r in
  if negb ok
  then (r, Message.Remove (Entry_Want e) m,
        es ++ [mkEntry _ Want_Undef (Entry_Priority e) (Entry_WantType e)])
  else (r, m, es ++ [e]).

Definition finishCancel (acc : gset Want * Message.impl) c : gset Want * Message.impl :=
  let '(cs, m) := acc in
  if negb (AuthSet.Has cs c) then (cs, Message.Remove c m)
  else (AuthSet.Remove c cs, m).

Definition extract_finish (ex : extraction) (m : Message.impl) q
  : list Entry * list Entry * MessageQueue :=
  let '(p, m, sentPeer) := foldl markSent (peerWants q, m, []) (ex_peer ex) in
  let '(b, m, sentBcst) := foldl markSent (bcstWants q, m, []) (ex_bcst ex) in
  let '(cs, m) := foldl finishCancel (cancels q, m) (ex_cancels ex) in
  (sentPeer, sentBcst, set_msg m (set_lists b p cs (priority q) q)).

(** [extractOutgoingMessage] when nothing happens between its two locks. *)
Definition extractOutgoingMessage (supportsHave : bool) q
  : list Entry * list Entry * MessageQueue :=
  let '(sn, q) := extract_begin supportsHave q in
  let '(ex, m) := extract_build supportsHave sn (maxMessageSize q) (msg q) in
  extract_finish ex m q.

Definition onSent now (sentPeer sentBcst : list Entry) q : MessageQueue :=
  let mark r es := foldl (λ r e, if Want_Defined (Entry_Want e)
                                 then RWL.SentAt (Entry_Want e) now r else r) r es in
  set_lists (mark (bcstWants q) sentBcst) (mark (peerWants q) sentPeer) (cancels q) (priority q) q.

(** ** Sending *)

Definition simulateDontHaveWithTimeout (wantlist : list Message.MEntry) q : list mq_event :=
  let wants := foldl (λ wants e,
      if bool_decide (Entry_WantType (Message.me_Entry e) = WantType_Block)
         && Message.me_SendDontHave e then
        let c := Entry_Want (Message.me_Entry e) in
        match WL.Contains (RWL.sent (peerWants q)) c with
        | Some _ => wants ++ [c]
        | None => wants
        end
      else wants) [] wantlist in
  [EvAddPending wants].

(** What the network answers: whether a sender can be opened, whether the remote
    protocol knows HAVE, whether the message goes out. *)
Record netres := mkNet {
  net_open : bool;
  net_supportsHave : bool;
  net_sent : bool;
}.

(** The part of [sendMessage] after the message has been extracted. *)
Definition send_extracted (net : netres) now (x : list Entry * list Entry * MessageQueue)
  : MessageQueue * list mq_event :=
  let '(sentPeer, sentBcst, q) := x in
  let reset q := set_msg (Message.Reset false (msg q)) q in
  if Message.Empty (msg q) then (reset q, [])
  else
    let wantlist := Message.Wantlist_ (msg q) in
    if negb (net_sent net) then
      let '(q, evs) := Shutdown q in (reset q, evs)
    else
      let ev := EvSend (msg q) in
      let q := onSent now sentPeer sentBcst q in
      let evs := simulateDontHaveWithTimeout wantlist q in
      let q := if hasPendingWork q then signalWorkReady now q else q in
      (reset q, ev :: evs).

Definition sendMessage (net : netres) now q : MessageQueue * list mq_event :=
  if negb (hasSender q) && negb (net_open net) then Shutdown q
  else
    let q := set_sender true (closed q) q in
    let '(q, evs) := send_extracted net now (extractOutgoingMessage (net_supportsHave net) q) in
    (q, EvDhtmStart :: evs).

Definition sendIfReady (net : netres) now q : MessageQueue * list mq_event :=
  if hasPendingWork q then sendMessage net now q else (q, []).

Definition transferRebroadcastWants q : bool * MessageQueue :=
  let b := bcstWants q in
  let p := peerWants q in
  if (WL.Len (RWL.sent b) =? 0) && (WL.Len (RWL.sent p) =? 0) then (false, q)
  else
    (true, set_lists (RWL.mkRWL (WL.Absorb (RWL.pending b) (RWL.sent b)) (RWL.sent b) (RWL.sentAt b))
                     (RWL.mkRWL (WL.Absorb (RWL.pending p) (RWL.sent p)) (RWL.sent p) (RWL.sentAt p))
                     (cancels q) (priority q) q).

Definition rebroadcastWantlist (net : netres) now q : MessageQueue * list mq_event :=
  let q := set_rebroadcast (rebroadcastInterval q) (Some (rebroadcastInterval q)) q in
  let '(moved, q) := transferRebroadcastWants q in
  if (moved : bool) then sendMessage net now q else (q, []).

(** ** Responses *)

(** Looking at one [sentAt] map: the earliest valid request so far, and the map
    without the key. *)
Definition latencyOf now (maxLatency : Duration) c (earliest : Time) (r : RWL.recallWantlist)
  : Time * RWL.recallWantlist :=
  match RWL.sentAt r !! c with
  | Some at_ =>
      ((if (Time_IsZero earliest || Time_Before at_ earliest) && (Time_Sub now at_ <? maxLatency)
        then at_ else earliest),
       RWL.ClearSentAt c r)
  | None => (earliest, r)
  end.

Definition handleResponse now ks q : MessageQueue * list mq_event :=
  let '(earliest, q) := foldl (λ acc c,
      let '(earliest, q) := acc in
      let '(earliest, b) := latencyOf now (maxValidLatency q) c earliest (bcstWants q) in
      let '(earliest, p) := latencyOf now (maxValidLatency q) c earliest (peerWants q) in
      (earliest, set_lists b p (cancels q) (priority q) q)) (Time_zero, q) ks in
  (q, if negb (Time_IsZero earliest) then [EvLatency (Time_Sub now earliest)] else []).

(** ** The cases of the select loop [runQueue]

    [None] means that the goroutine blocks for ever on the timer's channel. *)

Definition timer_Stop (t : timer) : bool := match t with TRunning => true | _ => false end.
(** [<-t.C]. *)
Definition timer_drain (t : timer) : option timer := match t with TFired => Some TIdle | _ => None end.

Definition onOutgoingWork (net : netres) now (when : Time) q : option (MessageQueue * list mq_event) :=
  let q := set_outgoing None q in
  let r :=
    if Time_IsZero (workScheduled q) then Some (set_schedule when (scheduleWork q) q)
    else if timer_Stop (scheduleWork q) then Some (set_schedule (workScheduled q) TIdle q)
    else match timer_drain (scheduleWork q) with
         | Some t => Some (set_schedule (workScheduled q) t q)
         | None => None
         end in
  match r with
  | None => None
  | Some q =>
      if (sendMessageCutoff <? pendingWorkCount q)
         || (sendMessageMaxDelay <=? Time_Sub now (workScheduled q)) then
        let '(q, evs) := sendIfReady net now q in
        Some (set_schedule Time_zero (scheduleWork q) q, evs)
      else Some (set_schedule (workScheduled q) TRunning q, [])
  end.

Definition onScheduleTimer (net : netres) now q : MessageQueue * list mq_event :=
  sendIfReady net now (set_schedule Time_zero TIdle q).
End mq.
End MQ.
