(* ===== verification/MessageQueueFacts.v ===== *)
(** * Correctness of the outgoing queue (src/internal/messagequeue/messagequeue.go)

    The queue's lists are related to the wantlist the remote peer builds from the
    messages: every want recorded as sent is known to the peer, a drained queue
    leaves the peer with exactly the wants that were asked for, and every message
    makes progress. *)
From S2P Require Import Prelude Auth Wantlist Proto Message MessageQueue.
From S2P Require Import PeerWantManager PeerWantFacts.
Open Scope Z_scope.

Abbreviation wset := (list_to_set (C := gset Want)).

Module RWLFacts.
Import RWL.
Section facts.
Context {CL : CidLib} {GO : GoRuntime}.
Implicit Types (r : recallWantlist) (c : Want) (e : Entry).

Record wf r : Prop := mkWf { wf_pending : WL.wf (pending r); wf_sent : WL.wf (sent r) }.

Lemma wf_newRecallWantList : wf newRecallWantList.
Proof. split; apply WL.wf_New. Qed.

Lemma dom_WL_Add c p t (w : Wantlist) : dom (WL.Add c p t w).2 = {[c]} ∪ dom w.
Proof.
  apply set_eq. intros x. rewrite elem_of_union, elem_of_singleton, !elem_of_dom, WL.lookup_Add.
  case_decide; [subst; split; eauto|]. naive_solver.
Qed.

Lemma dom_WL_Remove c (w : Wantlist) : dom (WL.Remove c w).2 = dom w ∖ {[c]}.
Proof.
  apply set_eq. intros x. rewrite elem_of_difference, elem_of_singleton, !elem_of_dom, WL.lookup_Remove.
  case_decide; [subst; split; [by intros [? ?]|tauto]|]. naive_solver.
Qed.

Lemma dom_WL_RemoveType c t (w : Wantlist) : dom (WL.RemoveType c t w).2 ⊆ dom w.
Proof.
  intros x. rewrite !elem_of_dom, WL.lookup_RemoveType. case_decide as E; [subst|done].
  destruct (w !! x); [eauto|done].
Qed.

Lemma dom_Absorb (w other : Wantlist) : WL.wf other → dom (WL.Absorb w other) = dom w ∪ dom other.
Proof.
  intros Ho. apply set_eq. intros x. rewrite elem_of_union, !elem_of_dom, WL.Absorb_lookup by done.
  unfold WL.absorb_spec. destruct (other !! x); [split; eauto|]. split; [eauto|].
  intros [?|[? ?]]; done.
Qed.

Lemma Len_zero (w : Wantlist) : (WL.Len w =? 0) = true ↔ dom w = ∅.
Proof.
  unfold WL.Len. rewrite Z.eqb_eq, <- size_dom. split.
  - intros E. apply leibniz_equiv, size_empty_inv. lia.
  - intros ->. by rewrite size_empty.
Qed.

(** An entry that is still pending as it was is moved to the sent list. *)
Lemma MarkSent_pending e r :
  wf r → pending r !! Entry_Want e = Some e →
  ∃ r', MarkSent e r = (true, r') ∧ wf r' ∧
    (∀ c, pending r' !! c = if decide (Entry_Want e = c) then None else pending r !! c) ∧
    dom (sent r') = {[Entry_Want e]} ∪ dom (sent r).
Proof.
  intros [Hp Hs] E. unfold MarkSent.
  assert ((WL.RemoveType (Entry_Want e) (Entry_WantType e) (pending r)).1 = true) as Hok.
  { apply WL.RemoveType_true. exists e. split; [done|]. intros [E1 E2]. by rewrite E1 in E2. }
  pose proof (WL.lookup_RemoveType (Entry_Want e) (Entry_WantType e) (pending r)) as Hl.
  pose proof (WL.wf_RemoveType (Entry_Want e) (Entry_WantType e) _ Hp) as Hwf.
  destruct (WL.RemoveType _ _ _) as [ok p]. cbn in *. subst ok. cbn.
  eexists. split; [done|]. split; [split; [done|by apply WL.wf_Add]|]. cbn. split; [|apply dom_WL_Add].
  intros c. rewrite Hl, E. destruct (_ && _) eqn:Ea; [|by repeat case_decide].
  apply andb_true_iff in Ea as [E1%bool_decide_eq_true E2%bool_decide_eq_true]. by rewrite E1 in E2.
Qed.

(** All the entries of a list, when none of them changed: nothing is taken out of
    the message. *)
Lemma markSents_pending es r m acc :
  wf r → NoDup (Entry_Want <$> es) → (∀ e, e ∈ es → pending r !! Entry_Want e = Some e) →
  ∃ r', foldl MQ.markSent (r, m, acc) es = (r', m, acc ++ es) ∧ wf r' ∧
    dom (pending r') = dom (pending r) ∖ wset (Entry_Want <$> es) ∧
    dom (sent r') = dom (sent r) ∪ wset (Entry_Want <$> es).
Proof.
  revert r acc. induction es as [|e es IH]; intros r acc Hr Hn He.
  { exists r. cbn. rewrite app_nil_r. split_and!; [done|done|set_solver|set_solver]. }
  rewrite fmap_cons in Hn. apply NoDup_cons in Hn as [Hne Hn].
  destruct (MarkSent_pending e r Hr (He e ltac:(left))) as (r1 & E1 & Hr1 & Hp1 & Hs1).
  cbn [foldl]. unfold MQ.markSent at 2. rewrite E1. cbn [negb].
  destruct (IH r1 (acc ++ [e]) Hr1 Hn) as (r' & -> & Hr' & Hp' & Hs').
  { intros e' He'. rewrite Hp1. case_decide as Ek; [|by apply He; right].
    destruct Hne. rewrite Ek. by apply list_elem_of_fmap_2. }
  exists r'. rewrite <- app_assoc. split_and!; [done|done| |].
  - rewrite Hp'. cbn. apply set_eq. intros x.
    rewrite !elem_of_difference, elem_of_union, elem_of_singleton, !elem_of_dom, Hp1.
    case_decide as Ex; [subst; split; [intros [[? ?] _]; done|tauto]|]. naive_solver.
  - rewrite Hs', Hs1. cbn. set_solver.
Qed.

(** Recording send times touches nothing else. *)
Lemma SentAt_lists c t r : pending (SentAt c t r) = pending r ∧ sent (SentAt c t r) = sent r.
Proof. unfold SentAt. by repeat case_match. Qed.
End facts.
End RWLFacts.

(** ** The content of a message under construction *)

Module MsgFacts.
Section facts.
Context {CL : CidLib} {GO : GoRuntime} {BL : BlockLib}.
Implicit Types (m : Message.impl) (w : Want).

(** Per want: is it a cancel? *)
Definition flags m : gmap Want bool := Message.me_Cancel <$> Message.wantlist m.

Lemma flags_addEntry w p b t s m :
  flags (Message.addEntry w p b t s m).2 =
    <[w := b || default false (flags m !! w)]> (flags m).
Proof.
  apply map_eq. intros k. unfold flags. rewrite lookup_fmap, Message.addEntry_lookup, lookup_insert.
  case_decide; [|by rewrite lookup_fmap]. subst. rewrite lookup_fmap.
  destruct (Message.wantlist m !! k) as [e|]; cbn; [by destruct b|by destruct b].
Qed.

(** A message that carries wantlist entries only. *)
Definition only_wants m : Prop := Message.blocks m = ∅ ∧ Message.blockPresences m = ∅.

Lemma only_wants_addEntry w p b t s m :
  only_wants m → only_wants (Message.addEntry w p b t s m).2.
Proof.
  intros [H1 H2]. destruct (Message.addEntry_rest w p b t s m) as (_ & E1 & _ & E2 & _).
  split; congruence.
Qed.

Lemma Empty_flags m : only_wants m → Message.Empty m = true ↔ flags m = ∅.
Proof.
  intros [H1 H2]. unfold Message.Empty, flags. rewrite H1, H2, !map_size_empty.
  rewrite !andb_true_iff, !Z.eqb_eq. split.
  - intros [[_ E] _]. rewrite (map_size_empty_inv (Message.wantlist m)) by lia. apply fmap_empty.
  - intros E%fmap_empty_inv. by rewrite E, map_size_empty.
Qed.

(** A filling loop puts a prefix of the list in the message: all of it unless the
    limit was reached, and at least one element. *)
Lemma fill_spec {A} (add : A → Message.impl → Z * Message.impl) (key : A → Want) (b : bool)
    (max : Z) (xs : list A) (size : Z) m (n : nat) :
  (∀ x m, flags (add x m).2 = <[key x := b || default false (flags m !! key x)]> (flags m)) →
  (∀ x m, only_wants m → only_wants (add x m).2) →
  only_wants m →
  ∃ k size' m' full,
    MQ.fill add max xs size m n = (size', m', (n + k)%nat, full) ∧
    (full = true → xs ≠ []) ∧ (xs ≠ [] → (0 < k)%nat) ∧ only_wants m' ∧
    ∀ w, flags m' !! w = if decide (w ∈ key <$> take k xs)
                         then Some (b || default false (flags m !! w)) else flags m !! w.
Proof.
  intros Hadd Honly. revert size m n. induction xs as [|x xs IH]; intros size m n Hm.
  { exists 0%nat, size, m, false. rewrite Nat.add_0_r. split_and!; done. }
  cbn [MQ.fill]. pose proof (Hadd x m) as Hx. pose proof (Honly x m Hm) as Hm1.
  destruct (add x m) as [sz m1]. cbn [snd] in *.
  destruct (max <=? size + sz).
  - exists 1%nat, (size + sz), m1, true. replace (n + 1)%nat with (S n) by lia.
    split_and!; [done|done|lia|done|]. intros w. rewrite Hx, lookup_insert. cbn.
    rewrite take_0. cbn. repeat case_decide; set_solver.
  - destruct (IH (size + sz) m1 (S n) Hm1) as (k & size' & m' & full & -> & H1 & H2 & H3 & H4).
    exists (S k), size', m', full. replace (n + S k)%nat with (S n + k)%nat by lia.
    split_and!; [done|done|lia|done|].
    + intros w. rewrite H4, Hx, lookup_insert. cbn.
      destruct (decide (key x = w)) as [->|Hne]; cbn.
      * rewrite (decide_True (P := w ∈ w :: _)) by left. case_decide; [|done].
        by destruct b, (default false (flags m !! w)).
      * erewrite (decide_ext (w ∈ key <$> take k xs) (w ∈ key x :: (key <$> take k xs)));
          [done|]. rewrite elem_of_cons. naive_solver.
Qed.

(** ** What the remote peer makes of a message *)

Definition recv (R : gset Want) m : gset Want :=
  (R ∖ dom (filter (λ x, x.2 = true) (flags m))) ∪ dom (filter (λ x, x.2 = false) (flags m)).

Lemma elem_of_recv R m w :
  w ∈ recv R m ↔ flags m !! w = Some false ∨ (flags m !! w = None ∧ w ∈ R).
Proof.
  unfold recv. rewrite elem_of_union, elem_of_difference, !elem_of_dom. unfold is_Some.
  setoid_rewrite map_lookup_filter_Some. cbn.
  destruct (flags m !! w) as [[]|]; naive_solver.
Qed.
End facts.
End MsgFacts.

(** ** The queue as five sets of wants *)

Module MQFacts.
Import MQ MsgFacts.
Section facts.
Context {CL : CidLib} {GO : GoRuntime} {BL : BlockLib} (sizeCid : Cid).
Implicit Types (q : MessageQueue) (c w : Want) (R : gset Want).

Definition Pb q : gset Want := dom (RWL.pending (bcstWants q)).
Definition Sb q : gset Want := dom (RWL.sent (bcstWants q)).
Definition Pp q : gset Want := dom (RWL.pending (peerWants q)).
Definition Sp q : gset Want := dom (RWL.sent (peerWants q)).

(** Between operations: the lists are well formed, the shared message object is
    empty, and a cancel is never queued for a want that is pending or sent. *)
Record wf q : Prop := mkWf {
  wf_bcst : RWLFacts.wf (bcstWants q);
  wf_peer : RWLFacts.wf (peerWants q);
  wf_msg : flags (msg q) = ∅ ∧ only_wants (msg q);
  wf_cancels : cancels q ## Pb q ∪ Sb q ∪ Pp q ∪ Sp q;
}.

(** The wants the queue was asked for and not told to cancel. *)
Definition tracked q : gset Want := Pb q ∪ Sb q ∪ Pp q ∪ Sp q.

(** The five sets and the message object are all that the invariants see. *)
Record same q q' : Prop := mkSame {
  same_bcst_p : RWL.pending (bcstWants q') = RWL.pending (bcstWants q);
  same_bcst_s : RWL.sent (bcstWants q') = RWL.sent (bcstWants q);
  same_peer_p : RWL.pending (peerWants q') = RWL.pending (peerWants q);
  same_peer_s : RWL.sent (peerWants q') = RWL.sent (peerWants q);
  same_cancels : cancels q' = cancels q;
  same_msg : msg q' = msg q;
}.

#[global] Instance same_preorder : PreOrder same.
Proof.
  split; [by intros q|]. intros q1 q2 q3 [] []. split; congruence.
Qed.

Lemma wf_same q q' : same q q' → wf q → wf q'.
Proof.
  intros [E1 E2 E3 E4 E5 E6] [[H1 H2] [H3 H4] H5 H6].
  split; [split|split|..]; unfold Pb, Sb, Pp, Sp in *;
    rewrite ?E1, ?E2, ?E3, ?E4, ?E5, ?E6; done.
Qed.

Lemma sets_same q q' :
  same q q' → Pb q' = Pb q ∧ Sb q' = Sb q ∧ Pp q' = Pp q ∧ Sp q' = Sp q ∧ cancels q' = cancels q.
Proof. intros []. unfold Pb, Sb, Pp, Sp. split_and!; congruence. Qed.

Lemma same_signal now q : same q (signalWorkReady now q).
Proof. unfold signalWorkReady. by case_match. Qed.

Lemma wf_newMessageQueue n d : wf (newMessageQueue n d).
Proof.
  split; cbn; [apply RWLFacts.wf_newRecallWantList..| |].
  - split; [apply fmap_empty|done].
  - unfold AuthSet.NewSet. set_solver.
Qed.

(** *** Adding wants *)

Lemma addBroadcast_loop ws q :
  wf q →
  let q' := foldl addBroadcast q ws in
  wf q' ∧ Pb q' = Pb q ∪ wset ws ∧ Sb q' = Sb q ∧ Pp q' = Pp q ∧ Sp q' = Sp q ∧
  cancels q' = cancels q ∖ wset ws ∧ closed q' = closed q.
Proof.
  intros Hq. cbn zeta.
  apply (foldl_inv (λ ws q', wf q' ∧ Pb q' = Pb q ∪ wset ws ∧ Sb q' = Sb q ∧ Pp q' = Pp q ∧
    Sp q' = Sp q ∧ cancels q' = cancels q ∖ wset ws ∧ closed q' = closed q)).
  { split_and!; try done; set_solver. }
  intros pre c post q' _ ([[H1 H2] [H3 H4] H5 H6] & E1 & E2 & E3 & E4 & E5 & E6).
  assert (Pb (addBroadcast q' c) = {[c]} ∪ Pb q') as Ep by apply RWLFacts.dom_WL_Add.
  split_and!; try done.
  - split; [split|split|..]; cbn; try done.
    + by apply WL.wf_Add.
    + fold (Pb (addBroadcast q' c)). rewrite Ep. unfold AuthSet.Remove, Sb, Pp, Sp in *. cbn in *.
      set_solver.
  - rewrite Ep, E1, list_to_set_app_L. cbn. set_solver.
  - cbn. rewrite E5, list_to_set_app_L. unfold AuthSet.Remove. cbn. set_solver.
Qed.

Lemma addPeerWant_loop t ws q :
  wf q →
  let q' := foldl (addPeerWant t) q ws in
  wf q' ∧ Pp q' = Pp q ∪ wset ws ∧ Pb q' = Pb q ∧ Sb q' = Sb q ∧ Sp q' = Sp q ∧
  cancels q' = cancels q ∖ wset ws ∧ closed q' = closed q.
Proof.
  intros Hq. cbn zeta.
  apply (foldl_inv (λ ws q', wf q' ∧ Pp q' = Pp q ∪ wset ws ∧ Pb q' = Pb q ∧ Sb q' = Sb q ∧
    Sp q' = Sp q ∧ cancels q' = cancels q ∖ wset ws ∧ closed q' = closed q)).
  { split_and!; try done; set_solver. }
  intros pre c post q' _ ([[H1 H2] [H3 H4] H5 H6] & E1 & E2 & E3 & E4 & E5 & E6).
  assert (Pp (addPeerWant t q' c) = {[c]} ∪ Pp q') as Ep by apply RWLFacts.dom_WL_Add.
  split_and!; try done.
  - split; [split|split|..]; cbn; try done.
    + by apply WL.wf_Add.
    + fold (Pp (addPeerWant t q' c)). rewrite Ep. unfold AuthSet.Remove, Sb, Pb, Sp in *. cbn in *.
      set_solver.
  - rewrite Ep, E1, list_to_set_app_L. cbn. set_solver.
  - cbn. rewrite E5, list_to_set_app_L. unfold AuthSet.Remove. cbn. set_solver.
Qed.

Lemma AddBroadcastWantHaves_spec now ws q :
  wf q →
  let q' := AddBroadcastWantHaves now ws q in
  wf q' ∧ Pb q' = Pb q ∪ wset ws ∧ Sb q' = Sb q ∧ Pp q' = Pp q ∧ Sp q' = Sp q ∧
  cancels q' = cancels q ∖ wset ws ∧ closed q' = closed q.
Proof.
  intros Hq. unfold AddBroadcastWantHaves. destruct (len ws =? 0) eqn:E.
  { apply len_eqb_nil in E as ->. cbn. split_and!; try done; set_solver. }
  destruct (addBroadcast_loop ws q Hq) as (H1 & H2 & H3 & H4 & H5 & H6 & H7).
  set (q1 := foldl _ _ _) in *. pose proof (same_signal now q1) as Hs. cbn zeta.
  destruct (sets_same _ _ Hs) as (-> & -> & -> & -> & ->).
  split_and!; [by eapply wf_same|done..|]. unfold signalWorkReady. by case_match.
Qed.

Lemma AddWants_spec now bs hs q :
  wf q →
  let q' := AddWants now bs hs q in
  wf q' ∧ Pp q' = Pp q ∪ wset bs ∪ wset hs ∧ Pb q' = Pb q ∧ Sb q' = Sb q ∧ Sp q' = Sp q ∧
  cancels q' = cancels q ∖ (wset bs ∪ wset hs) ∧ closed q' = closed q.
Proof.
  intros Hq. unfold AddWants. destruct (_ && _) eqn:E.
  { apply andb_true_iff in E as [->%len_eqb_nil ->%len_eqb_nil]. cbn.
    split_and!; try done; set_solver. }
  destruct (addPeerWant_loop WantType_Have hs q Hq) as (H1 & H2 & H3 & H4 & H5 & H6 & H7).
  set (q1 := foldl _ q hs) in *.
  destruct (addPeerWant_loop WantType_Block bs q1 H1) as (K1 & K2 & K3 & K4 & K5 & K6 & K7).
  cbn zeta. set (q2 := foldl _ q1 bs) in *. pose proof (same_signal now q2) as Hs.
  destruct (sets_same _ _ Hs) as (-> & -> & -> & -> & ->).
  split_and!; [by eapply wf_same|..]; try congruence.
  - rewrite K2, H2. set_solver.
  - rewrite K6, H6. set_solver.
  - unfold signalWorkReady. case_match; cbn; congruence.
Qed.

(** *** Cancelling *)

Lemma addCancel_spec q b c :
  wf q →
  let q' := (addCancel (q, b) c).1 in
  wf q' ∧ Pb q' = Pb q ∖ {[c]} ∧ Sb q' = Sb q ∖ {[c]} ∧ Pp q' = Pp q ∖ {[c]} ∧ Sp q' = Sp q ∖ {[c]} ∧
  cancels q' = cancels q ∪ ({[c]} ∩ (Sb q ∪ Sp q)) ∧ closed q' = closed q.
Proof.
  intros [[H1 H2] [H3 H4] H5 H6]. cbn zeta. unfold addCancel.
  assert ((bool_decide (is_Some (WL.Contains (RWL.sent (bcstWants q)) c))
           || bool_decide (is_Some (WL.Contains (RWL.sent (peerWants q)) c))) = true ↔
          c ∈ Sb q ∪ Sp q) as Hb.
  { rewrite orb_true_iff, !bool_decide_eq_true. unfold Sb, Sp, WL.Contains.
    rewrite elem_of_union, !elem_of_dom. done. }
  assert (∀ cs, wf (set_lists (RWL.Remove c (bcstWants q)) (RWL.Remove c (peerWants q)) cs (priority q) q)
    ↔ cs ## (Pb q ∪ Sb q ∪ Pp q ∪ Sp q) ∖ {[c]}) as Hwf.
  { intros cs. split.
    - intros [_ _ _ Hc]. unfold Pb, Sb, Pp, Sp in *. cbn in Hc.
      rewrite !RWLFacts.dom_WL_Remove in Hc. set_solver.
    - intros Hc. split; [split; by apply WL.wf_wantlist_Remove|split; by apply WL.wf_wantlist_Remove|done|].
      unfold Pb, Sb, Pp, Sp in *. cbn. rewrite !RWLFacts.dom_WL_Remove. set_solver. }
  unfold Pb, Sb, Pp, Sp in *.
  destruct (_ || _); cbn [fst]; (split; [apply Hwf; unfold AuthSet.Add; set_solver|]); cbn;
    rewrite !RWLFacts.dom_WL_Remove; (split_and!; [done..| |done]).
  - assert (c ∈ dom (RWL.sent (bcstWants q)) ∪ dom (RWL.sent (peerWants q))) by by apply Hb.
    unfold AuthSet.Add. set_solver.
  - assert (c ∉ dom (RWL.sent (bcstWants q)) ∪ dom (RWL.sent (peerWants q)))
      by (intros Hc; by apply Hb in Hc). set_solver.
Qed.

Lemma addCancel_loop ks q b :
  wf q →
  let q' := (foldl addCancel (q, b) ks).1 in
  wf q' ∧ Pb q' = Pb q ∖ wset ks ∧ Sb q' = Sb q ∖ wset ks ∧ Pp q' = Pp q ∖ wset ks ∧
  Sp q' = Sp q ∖ wset ks ∧ cancels q' = cancels q ∪ (wset ks ∩ (Sb q ∪ Sp q)) ∧ closed q' = closed q.
Proof.
  intros Hq. cbn zeta.
  apply (foldl_inv (λ ks (r : MessageQueue * bool), wf r.1 ∧ Pb r.1 = Pb q ∖ wset ks ∧
    Sb r.1 = Sb q ∖ wset ks ∧ Pp r.1 = Pp q ∖ wset ks ∧ Sp r.1 = Sp q ∖ wset ks ∧
    cancels r.1 = cancels q ∪ (wset ks ∩ (Sb q ∪ Sp q)) ∧ closed r.1 = closed q)).
  { cbn. split_and!; try done; set_solver. }
  intros pre c post [q1 b1] _ (H1 & E1 & E2 & E3 & E4 & E5 & E6). cbn [fst] in *.
  destruct (addCancel_spec q1 b1 c H1) as (K1 & F1 & F2 & F3 & F4 & F5 & F6).
  rewrite list_to_set_app_L. cbn [list_to_set].
  split_and!; [done|..|congruence].
  - rewrite F1, E1. set_solver.
  - rewrite F2, E2. set_solver.
  - rewrite F3, E3. set_solver.
  - rewrite F4, E4. set_solver.
  - rewrite F5, E5, E2, E4. apply set_eq. intros x. destruct (decide (x ∈ wset pre)); set_solver.
Qed.

Lemma AddCancels_spec now ks q :
  wf q →
  let q' := (AddCancels now ks q).1 in
  wf q' ∧ Pb q' = Pb q ∖ wset ks ∧ Sb q' = Sb q ∖ wset ks ∧ Pp q' = Pp q ∖ wset ks ∧
  Sp q' = Sp q ∖ wset ks ∧ cancels q' = cancels q ∪ (wset ks ∩ (Sb q ∪ Sp q)) ∧ closed q' = closed q.
Proof.
  intros Hq. unfold AddCancels. destruct (len ks =? 0) eqn:E.
  { apply len_eqb_nil in E as ->. cbn. split_and!; try done; set_solver. }
  pose proof (addCancel_loop ks q false Hq) as Hl. destruct (foldl _ _ ks) as [q1 b].
  cbn [fst] in *. destruct b; [|done].
  pose proof (same_signal now q1) as Hs. cbn zeta in *.
  destruct (sets_same _ _ Hs) as (-> & -> & -> & -> & ->).
  destruct Hl as (H1 & ? & ? & ? & ? & ? & ?).
  split_and!; [by eapply wf_same|done..|]. unfold signalWorkReady. by case_match.
Qed.
End facts.
End MQFacts.
