(* ===== verification/MessageQueueRun.v ===== *)
(** * Runs of the outgoing queue (src/internal/messagequeue/messagequeue.go)

    Extraction of messages, and the relation between the queue and the wantlist
    the remote peer builds, over whole runs. *)
From S2P Require Import Prelude Auth Wantlist Proto Message MessageQueue MessageQueueFacts.
From S2P Require Import PeerWantManager PeerWantFacts.
Open Scope Z_scope.

Module MQRun.
Import MQ MsgFacts MQFacts.
Section facts.
Context {CL : CidLib} {GO : GoRuntime} {BL : BlockLib} (sizeCid : Cid).
Implicit Types (q : MessageQueue) (c w : Want) (R : gset Want).

(** ** The first lock *)

(** The entries [es] are exactly the pending ones of [r]. *)
Record snap_of (r : RWL.recallWantlist) (es : list Entry) : Prop := {
  snap_NoDup : NoDup (Entry_Want <$> es);
  snap_pending : ∀ e, e ∈ es → RWL.pending r !! Entry_Want e = Some e;
  snap_dom : dom (RWL.pending r) = wset (Entry_Want <$> es);
}.

Lemma snap_Entries r : RWLFacts.wf r → snap_of r (WL.Entries (RWL.pending r)).
Proof.
  intros [Hp _]. split.
  - by apply WL.NoDup_Entries_wants.
  - intros e. by apply WL.elem_of_Entries.
  - rewrite WL.Entries_wants by done. apply set_eq. intros w.
    rewrite elem_of_dom, elem_of_list_to_set, list_elem_of_fmap. split.
    + intros [e He]. exists (w, e). by rewrite elem_of_range.
    + intros ([w' e] & -> & He%elem_of_range). eauto.
Qed.

Abbreviation is_have e := (Entry_WantType e = WantType_Have).

Record Dropped r (done : list Entry) (acc : RWL.recallWantlist * list Entry) : Prop := {
  dr_wf : RWLFacts.wf acc.1;
  dr_flt : acc.2 = filter (λ e, ¬ is_have e) done;
  dr_pending : ∀ c, RWL.pending acc.1 !! c =
    if decide (c ∈ Entry_Want <$> filter (λ e, is_have e) done) then None else RWL.pending r !! c;
  dr_sent : dom (RWL.sent acc.1) ⊆ dom (RWL.sent r);
}.

Lemma dropHaves_loop r es :
  RWLFacts.wf r → NoDup (Entry_Want <$> es) →
  (∀ e, e ∈ es → RWL.pending r !! Entry_Want e = Some e) →
  Dropped r es (foldl dropHaves (r, []) es).
Proof.
  intros Hr Hn He. apply foldl_inv.
  { split; cbn; [done|done| |done]. intros c. by rewrite decide_False by apply not_elem_of_nil. }
  intros pre e post [r' flt] Ees [[H1 H1'] H2 H3 H4]. cbn [fst snd] in *. subst flt.
  assert (Entry_Want e ∉ Entry_Want <$> pre) as Hfresh.
  { rewrite Ees, fmap_app in Hn. apply NoDup_app in Hn as (_ & Hd & _). intros Hi.
    apply (Hd _ Hi). left. }
  assert (RWL.pending r' !! Entry_Want e = Some e) as Hpe.
  { rewrite H3, decide_False; [apply He; rewrite Ees; set_solver|].
    intros (e' & E & [_ Hi]%list_elem_of_filter)%list_elem_of_fmap. apply Hfresh. rewrite E.
    by apply list_elem_of_fmap_2. }
  assert (∀ c, c ∈ Entry_Want <$> filter (λ e, is_have e) (pre ++ [e]) ↔
    c ∈ Entry_Want <$> filter (λ e, is_have e) pre ∨
    (if decide (is_have e) then c = Entry_Want e else False)) as Hsnoc.
  { intros c. rewrite filter_app, fmap_app, elem_of_app, filter_cons, filter_nil.
    case_decide; cbn; rewrite ?list_elem_of_singleton, ?elem_of_nil; done. }
  unfold dropHaves. cbn [fst snd].
  case_bool_decide as Eh; (split; cbn [fst snd]).
  - split; by apply WL.wf_RemoveType.
  - rewrite filter_app, filter_cons_False, app_nil_r by tauto. done.
  - intros c. cbn [RWL.pending RWL.RemoveType]. rewrite WL.lookup_RemoveType, Hpe, H3.
    rewrite (bool_decide_eq_false_2 (Entry_WantType e = WantType_Block)) by (rewrite Eh; done).
    cbn [andb]. specialize (Hsnoc c). rewrite decide_True in Hsnoc by done.
    repeat case_decide; first [done|exfalso; rewrite Hsnoc in *; intuition congruence].
  - cbn. etrans; [apply RWLFacts.dom_WL_RemoveType|done].
  - done.
  - rewrite filter_app, filter_cons_True by done. done.
  - intros c. rewrite H3. specialize (Hsnoc c). rewrite decide_False in Hsnoc by done.
    repeat case_decide; tauto || done.
  - done.
Qed.

Record Begun (supportsHave : bool) q (sn : snapshot) q1 : Prop := {
  bg_wf : wf q1;
  bg_all : supportsHave = true → q1 = q;
  bg_Pb : Pb q1 = Pb q;
  bg_Sb : Sb q1 = Sb q;
  bg_Pp : Pp q1 ⊆ Pp q;
  bg_Sp : Sp q1 ⊆ Sp q;
  bg_cancels : cancels q1 = cancels q;
  bg_msg : msg q1 = msg q;
  bg_closed : closed q1 = closed q;
  bg_max : maxMessageSize q1 = maxMessageSize q;
  bg_peer : snap_of (peerWants q1) (sn_peer sn);
  bg_bcst : snap_of (bcstWants q1) (sn_bcst sn);
  bg_cancel_NoDup : NoDup (sn_cancels sn);
  bg_cancel_set : wset (sn_cancels sn) = cancels q1;
}.

Lemma wset_Keys (s : gset Want) : wset (AuthSet.Keys s) = s.
Proof. apply set_eq. intros x. rewrite elem_of_list_to_set. apply elem_of_keys. Qed.

Lemma extract_begin_spec supportsHave q :
  wf q → Begun supportsHave q (extract_begin supportsHave q).1 (extract_begin supportsHave q).2.
Proof.
  intros Hq. destruct Hq as [Hb Hp Hm Hc]. unfold extract_begin. destruct supportsHave; cbn [negb].
  - split; cbn; try done; [by apply snap_Entries..|apply NoDup_keys|apply wset_Keys].
  - pose proof (snap_Entries _ Hp) as [S1 S2 S3].
    pose proof (dropHaves_loop _ _ Hp S1 S2) as [D1 D2 D3 D4].
    destruct (foldl dropHaves _ _) as [p flt]. cbn [fst snd] in *. subst flt.
    assert (dom (RWL.pending p) ⊆ dom (RWL.pending (peerWants q))) as Hsub.
    { intros w. rewrite !elem_of_dom, D3. case_decide; [by intros [? ?]|done]. }
    split; cbn; try done.
    + split; cbn; [done|done|done|]. unfold Pb, Sb, Pp, Sp in *. cbn. set_solver.
    + split.
      * eapply sublist_NoDup; [apply S1|]. apply fmap_sublist, sublist_filter.
      * intros e [Hne Hin]%list_elem_of_filter. rewrite D3, decide_False; [by apply S2|].
        intros (e' & E & [Hh Hin']%list_elem_of_filter)%list_elem_of_fmap.
        pose proof (S2 _ Hin). pose proof (S2 _ Hin'). rewrite E in *. simplify_eq.
      * apply set_eq. intros w. rewrite elem_of_dom, elem_of_list_to_set, list_elem_of_fmap.
        setoid_rewrite list_elem_of_filter. rewrite D3. split.
        -- case_decide as Hd; [by intros [? ?]|]. intros Hw.
           assert (w ∈ dom (RWL.pending (peerWants q))) as Hw' by by apply elem_of_dom.
           rewrite S3 in Hw'. apply elem_of_list_to_set, list_elem_of_fmap in Hw' as (e & -> & Hin).
           exists e. split_and!; [done| |done]. intros Hh. apply Hd, list_elem_of_fmap.
           exists e. by rewrite list_elem_of_filter.
        -- intros (e & -> & Hne & Hin). rewrite decide_False; [by rewrite S2|].
           intros (e' & E & [Hh Hin']%list_elem_of_filter)%list_elem_of_fmap.
           pose proof (S2 _ Hin). pose proof (S2 _ Hin'). rewrite E in *. simplify_eq.
    + by apply snap_Entries.
    + apply NoDup_keys.
    + apply wset_Keys.
Qed.

(** ** Between the locks *)

Lemma sortIfFull_perm size max es : sortIfFull sizeCid size max es ≡ₚ es.
Proof. unfold sortIfFull. case_match; [apply WL.SortEntries_perm|done]. Qed.

(** The message holds exactly the extracted elements, cancels marked as such, and
    at least one of them if there was any. *)
Record Built (sn : snapshot) (ex : extraction) (m : Message.impl) : Prop := {
  bu_peer : ∃ rest, sn_peer sn ≡ₚ ex_peer ex ++ rest;
  bu_bcst : ∃ rest, sn_bcst sn ≡ₚ ex_bcst ex ++ rest;
  bu_cancels : ∃ rest, sn_cancels sn = ex_cancels ex ++ rest;
  bu_only : only_wants m;
  bu_flags : ∀ w, flags m !! w =
    if decide (w ∈ ex_cancels ex) then Some true
    else if decide (w ∈ Entry_Want <$> ex_peer ex ++ ex_bcst ex) then Some false else None;
  bu_progress : ex_peer ex = [] → ex_bcst ex = [] → ex_cancels ex = [] →
    sn_peer sn = [] ∧ sn_bcst sn = [] ∧ sn_cancels sn = [];
}.

(** One filling loop, over a permutation of the snapshot's list. *)
Lemma fill_taken {A} (k : nat) (l l' : list A) (full : bool) :
  l' ≡ₚ l → (full = true → l ≠ []) → (l ≠ [] → (0 < k)%nat) →
  (∃ rest, l' ≡ₚ take k l ++ rest) ∧
  (take k l = [] → l' = []) ∧ (take k l = [] → full = false).
Proof.
  intros Hp Hf Hk. split; [exists (drop k l); by rewrite take_drop|].
  assert (take k l = [] → l = []) as Ht.
  { destruct l as [|x l]; [done|]. destruct k; [by specialize (Hk ltac:(done)); lia|done]. }
  split; intros E; specialize (Ht E); subst l.
  - by apply Permutation_nil.
  - destruct full; [by destruct (Hf eq_refl)|done].
Qed.

Lemma extract_build_spec supportsHave sn max m :
  flags m = ∅ → only_wants m →
  (∀ w, w ∈ sn_cancels sn → w ∉ Entry_Want <$> sn_peer sn ∧ w ∉ Entry_Want <$> sn_bcst sn) →
  Built sn (extract_build sizeCid supportsHave sn max m).1 (extract_build sizeCid supportsHave sn max m).2.
Proof.
  intros Hm Ho Hd. unfold extract_build.
  destruct (fill_spec Message.Cancel (λ c, c) true max (sn_cancels sn) 0 m 0)
    as (kc & size1 & m1 & full1 & -> & Hc1 & Hc2 & Hc3 & Hc4);
    [intros; apply flags_addEntry|intros; by apply only_wants_addEntry|done|].
  rewrite Nat.add_0_l.
  assert (∀ w, flags m1 !! w =
    if decide (w ∈ take kc (sn_cancels sn)) then Some true else None) as F1.
  { intros w. rewrite Hc4, Hm, lookup_empty. repeat case_decide; rewrite list_fmap_id in *; done. }
  destruct (fill_taken kc (sn_cancels sn) (sn_cancels sn) full1) as (_ & Tc1 & Tc2); [done..|].
  set (tc := take kc (sn_cancels sn)) in *.
  assert (sn_cancels sn = tc ++ drop kc (sn_cancels sn)) as Ec by (unfold tc; by rewrite take_drop).
  assert (∀ w, w ∈ tc → w ∈ sn_cancels sn) as Hsubc by (rewrite Ec; set_solver).
  destruct full1.
  { split; cbn; [by exists (sn_peer sn)|by exists (sn_bcst sn)|by eexists|done|done|].
    intros _ _ Ht. by specialize (Tc2 Ht). }
  set (pe := sortIfFull _ _ _ (sn_peer sn)).
  destruct (fill_spec addPeerEntry Entry_Want false max pe size1 m1 0)
    as (kp & size2 & m2 & full2 & -> & Hp1 & Hp2 & Hp3 & Hp4);
    [intros; apply flags_addEntry|intros; by apply only_wants_addEntry|done|].
  rewrite Nat.add_0_l.
  destruct (fill_taken kp pe (sn_peer sn) full2) as ([rp Rp] & Tp1 & Tp2);
    [symmetry; apply sortIfFull_perm|done..|]. set (tp := take kp pe) in *.
  assert (∀ w, flags m2 !! w = if decide (w ∈ tc) then Some true
    else if decide (w ∈ Entry_Want <$> tp) then Some false else None) as F2.
  { intros w. rewrite Hp4, F1.
    assert (w ∈ tc → w ∉ Entry_Want <$> tp) as Hdis.
    { intros [Hx _]%Hsubc%Hd Hw. apply Hx. rewrite Rp, fmap_app. set_solver. }
    destruct (decide (w ∈ tc)), (decide (w ∈ Entry_Want <$> tp)); tauto || done. }
  destruct full2.
  { split; cbn; [by exists rp|by exists (sn_bcst sn)|by eexists|done| |].
    - intros w. by rewrite F2, app_nil_r.
    - intros Ht. by specialize (Tp2 Ht). }
  set (be := sortIfFull _ _ _ (sn_bcst sn)).
  destruct (fill_spec (addBcstEntry supportsHave) Entry_Want false max be size2 m2 0)
    as (kb & size3 & m3 & full3 & -> & Hb1 & Hb2 & Hb3 & Hb4);
    [intros; apply flags_addEntry|intros; by apply only_wants_addEntry|done|].
  rewrite Nat.add_0_l.
  destruct (fill_taken kb be (sn_bcst sn) full3) as ([rb Rb] & Tb1 & _);
    [symmetry; apply sortIfFull_perm|done..|]. set (tb := take kb be) in *.
  split; cbn; [by exists rp|by exists rb|by eexists|done| |].
  - intros w. rewrite Hb4, F2.
    assert (w ∈ tc → w ∉ Entry_Want <$> tb) as Hdis.
    { intros [_ Hx]%Hsubc%Hd Hw. apply Hx. rewrite Rb, fmap_app. set_solver. }
    rewrite fmap_app. destruct (decide (w ∈ tc)), (decide (w ∈ Entry_Want <$> tp)),
      (decide (w ∈ Entry_Want <$> tb)), (decide (w ∈ (Entry_Want <$> tp) ++ (Entry_Want <$> tb))) as [Hi|Hi];
      rewrite elem_of_app in Hi; tauto || done.
  - intros. split_and!; auto.
Qed.

(** ** The second lock *)

Lemma finishCancels cs m l :
  NoDup l → wset l ⊆ cs → foldl finishCancel (cs, m) l = (cs ∖ wset l, m).
Proof.
  intros Hn. revert cs. induction Hn as [|c l Hc Hn IH]; intros cs Hs; cbn [foldl].
  { f_equal. set_solver. }
  unfold finishCancel at 2. rewrite (proj2 (AuthSet.set_Has_spec cs c)) by set_solver. cbn [negb].
  rewrite IH by (unfold AuthSet.Remove; set_solver). unfold AuthSet.Remove. f_equal. set_solver.
Qed.

(** Part of a snapshot is still pending. *)
Lemma snap_part r es es' rest :
  snap_of r es → es ≡ₚ es' ++ rest →
  NoDup (Entry_Want <$> es') ∧ (∀ e, e ∈ es' → RWL.pending r !! Entry_Want e = Some e) ∧
  wset (Entry_Want <$> es') ⊆ dom (RWL.pending r).
Proof.
  intros [H1 H2 H3] Hp. rewrite Hp, fmap_app in H1. apply NoDup_app in H1 as (H1 & _ & _).
  split; [done|]. split.
  - intros e He. apply H2. rewrite Hp. set_solver.
  - rewrite H3. intros w. rewrite !elem_of_list_to_set, Hp, fmap_app. set_solver.
Qed.

(** The whole extraction, without interference: the wants [tp] and [tb] move from
    the pending to the sent lists, the cancels [tc] leave the queue, and the
    message says exactly that. *)
Record Extracted (supportsHave : bool) q (tp tb tc : gset Want)
    (x : list Entry * list Entry * MessageQueue) : Prop := {
  et_wf : RWLFacts.wf (bcstWants x.2) ∧ RWLFacts.wf (peerWants x.2);
  et_Pb : Pb x.2 = Pb q ∖ tb;
  et_Sb : Sb x.2 = Sb q ∪ tb;
  et_Pp : Pp x.2 ⊆ Pp q ∖ tp;
  et_Sp : Sp x.2 ⊆ Sp q ∪ tp;
  et_all : supportsHave = true → Pp x.2 = Pp q ∖ tp ∧ Sp x.2 = Sp q ∪ tp;
  et_cancels : cancels x.2 = cancels q ∖ tc;
  et_sub : tb ⊆ Pb q ∧ tp ⊆ Pp q ∧ tc ⊆ cancels q;
  et_flags : ∀ w, flags (msg x.2) !! w =
    if decide (w ∈ tc) then Some true else if decide (w ∈ tp ∪ tb) then Some false else None;
  et_only : only_wants (msg x.2);
  et_closed : closed x.2 = closed q;
  et_progress : tp ∪ tb ∪ tc = ∅ → Pb x.2 = ∅ ∧ Pp x.2 = ∅ ∧ cancels x.2 = ∅;
}.

Lemma wset_nil (l : list Want) : wset l = ∅ → l = [].
Proof. destruct l; [done|]. cbn. set_solver. Qed.

Lemma extractOutgoingMessage_spec supportsHave q :
  wf q →
  ∃ tp tb tc, Extracted supportsHave q tp tb tc (extractOutgoingMessage sizeCid supportsHave q).
Proof.
  intros Hq. unfold extractOutgoingMessage.
  pose proof (extract_begin_spec supportsHave q Hq) as HB.
  destruct (extract_begin supportsHave q) as [sn q1]. cbn [fst snd] in HB.
  destruct HB as [Hq1 Hall E1 E2 E3 E4 E5 E6 E7 E8 Sp1 Sb1 Nc Cc].
  destruct (wf_msg _ Hq1) as [Hm Ho].
  assert (∀ w, w ∈ sn_cancels sn → w ∉ Entry_Want <$> sn_peer sn ∧ w ∉ Entry_Want <$> sn_bcst sn) as Hd.
  { intros w Hw. pose proof (wf_cancels _ Hq1) as Hdis.
    assert (w ∈ cancels q1) as Hwc by (rewrite <- Cc; by apply elem_of_list_to_set).
    unfold Pb, Pp in Hdis. rewrite (snap_dom _ _ Sp1), (snap_dom _ _ Sb1) in Hdis. set_solver. }
  pose proof (extract_build_spec supportsHave sn (maxMessageSize q1) (msg q1) Hm Ho Hd) as HU.
  destruct (extract_build _ _ _ _ _) as [ex m]. cbn [fst snd] in HU.
  destruct HU as [[rp Rp] [rb Rb] [rc Rc] Honly Hfl Hpr].
  destruct (snap_part _ _ _ _ Sp1 Rp) as (Np & Pe & Sp').
  destruct (snap_part _ _ _ _ Sb1 Rb) as (Nb & Be & Sb').
  unfold extract_finish.
  destruct (RWLFacts.markSents_pending _ _ m [] (wf_peer _ Hq1) Np Pe) as (p' & -> & Wp & Dp & Tp).
  destruct (RWLFacts.markSents_pending _ _ m [] (wf_bcst _ Hq1) Nb Be) as (b' & -> & Wb & Db & Tb).
  rewrite finishCancels.
  2: { rewrite Rc in Nc. by apply NoDup_app in Nc as (? & _ & _). }
  2: { rewrite <- Cc, Rc, list_to_set_app_L. set_solver. }
  exists (wset (Entry_Want <$> ex_peer ex)), (wset (Entry_Want <$> ex_bcst ex)), (wset (ex_cancels ex)).
  unfold Pb, Sb, Pp, Sp in *.
  split; unfold Pb, Sb, Pp, Sp; cbn; [done|by rewrite Db, E1|by rewrite Tb, E2|set_solver|set_solver| |by rewrite E5| | |done|done|].
  - intros Hs. by rewrite Dp, Tp, (Hall Hs).
  - rewrite <- E1, <- E5, <- Cc, Rc, list_to_set_app_L. set_solver.
  - intros w. rewrite Hfl. rewrite fmap_app.
    repeat case_decide; rewrite ?elem_of_union, ?elem_of_list_to_set, ?elem_of_app in *; tauto || done.
  - intros Hem. rewrite <- Cc. rewrite Db, Dp, (snap_dom _ _ Sp1), (snap_dom _ _ Sb1).
    destruct Hpr as (-> & -> & ->); [..|cbn; set_solver].
    + apply (fmap_nil_inv Entry_Want), wset_nil. set_solver.
    + apply (fmap_nil_inv Entry_Want), wset_nil. set_solver.
    + apply wset_nil. set_solver.
Qed.
End facts.
End MQRun.
