(* ===== verification/MessageQueueWire.v ===== *)
(** * The queue and the remote peer's wantlist (src/internal/messagequeue/messagequeue.go)

    Whole runs of one queue: the calls of the peer manager, the cases of the
    select loop and the messages on the wire. *)
From S2P Require Import Prelude Auth Wantlist Proto Message MessageQueue MessageQueueFacts.
From S2P Require Import MessageQueueRun.
From S2P Require Import PeerWantManager PeerWantFacts.
Open Scope Z_scope.

Module MQWire.
Import MQ MsgFacts MQFacts MQRun.
Section facts.
Context {CL : CidLib} {GO : GoRuntime} {BL : BlockLib} (sizeCid : Cid).
Implicit Types (q : MessageQueue) (w : Want) (R : gset Want) (net : netres).

(** The remote peer's wantlist after the messages among the events. *)
Definition remote R (evs : list mq_event) : gset Want :=
  foldl (λ R e, match e with EvSend m => recv R m | _ => R end) R evs.

(** What one turn of the run loop does to the sets: the wants [t] were sent and
    the cancels [tc] were sent.  A turn that fails on the network closes the
    queue, and nothing is claimed about a closed queue. *)
Record Turn (supportsHave : bool) q R (t tc : gset Want) q' R' : Prop := mkTurn {
  tn_closed : closed q' = closed q;
  tn_cancels : cancels q' = cancels q ∖ tc;
  tn_tc : tc ⊆ cancels q;
  tn_t : t ⊆ tracked q;
  tn_remote : R' = (R ∖ tc) ∪ t;
  tn_sent : Sb q' ∪ Sp q' ⊆ Sb q ∪ Sp q ∪ t;
  tn_all : supportsHave = true → Sb q' ∪ Sp q' = Sb q ∪ Sp q ∪ t ∧ tracked q' = tracked q;
}.

Definition Eff (supportsHave : bool) q R q' R' : Prop :=
  wf q' ∧ (closed q' = true ∨ ∃ t tc, Turn supportsHave q R t tc q' R').

Lemma Turn_same sH q0 q1 q2 q3 R R' t tc :
  same q0 q1 → closed q1 = closed q0 → same q2 q3 → closed q3 = closed q2 →
  Turn sH q1 R t tc q2 R' → Turn sH q0 R t tc q3 R'.
Proof.
  intros Hs1 Ec1 Hs2 Ec2 [T1 T2 T3 T4 T5 T6 T7].
  destruct (sets_same _ _ Hs1) as (A1 & A2 & A3 & A4 & A5).
  destruct (sets_same _ _ Hs2) as (B1 & B2 & B3 & B4 & B5).
  unfold tracked in *. rewrite A1, A2, A3, A4 in *.
  split; rewrite ?B1, ?B2, ?B3, ?B4, ?B5, ?Ec2, <- ?A5, <- ?Ec1; try done.
  unfold tracked. rewrite B1, B2, B3, B4. done.
Qed.

Lemma Eff_same sH q0 q1 q2 q3 R R' :
  same q0 q1 → closed q1 = closed q0 → same q2 q3 → closed q3 = closed q2 →
  Eff sH q1 R q2 R' → Eff sH q0 R q3 R'.
Proof.
  intros Hs1 Ec1 Hs2 Ec2 [Hw [Hc|(t & tc & HT)]]; (split; [by eapply wf_same|]).
  - left. congruence.
  - right. exists t, tc. by eapply Turn_same.
Qed.

Lemma Eff_refl sH q R : wf q → Eff sH q R q R.
Proof.
  intros Hq. split; [done|]. right. exists ∅, ∅. split; try done; set_solver.
Qed.

Lemma onSent_same now sp sb q : same q (onSent now sp sb q).
Proof.
  assert (∀ es r, RWL.pending (foldl (λ r e, if Want_Defined (Entry_Want e)
      then RWL.SentAt (Entry_Want e) now r else r) r es) = RWL.pending r ∧
    RWL.sent (foldl (λ r e, if Want_Defined (Entry_Want e)
      then RWL.SentAt (Entry_Want e) now r else r) r es) = RWL.sent r) as E.
  { intros es. induction es as [|e es IH]; intros r; [done|]. cbn [foldl].
    destruct (IH (if Want_Defined (Entry_Want e) then RWL.SentAt (Entry_Want e) now r else r)) as [-> ->].
    case_match; [|done]. apply RWLFacts.SentAt_lists. }
  unfold onSent. split; cbn; try done; apply E.
Qed.

Lemma wf_extracted sH q tp tb tc x m :
  wf q → Extracted sH q tp tb tc x → wf (set_msg (Message.Reset false m) x.2).
Proof.
  intros [_ _ _ Hc] [[H1 H2] E1 E2 E3 E4 _ E5 [S1 [S2 S3]] _ _ _ _].
  split; [done|done|split; [apply fmap_empty|done]|].
  unfold Pb, Sb, Pp, Sp in *. cbn in *. rewrite E5, E1, E2. clear -Hc E3 E4 S1 S2 S3.
  intros w Hw. apply elem_of_difference in Hw as [Hw _]. specialize (Hc w Hw). set_solver.
Qed.

Lemma Turn_extracted sH q R tp tb tc x q' R' :
  Extracted sH q tp tb tc x → same x.2 (set_msg (msg x.2) q') → closed q' = closed x.2 →
  R' = (R ∖ tc) ∪ (tp ∪ tb) → Turn sH q R (tp ∪ tb) tc q' R'.
Proof.
  intros [_ E1 E2 E3 E4 Ea E5 [S1 [S2 S3]] _ _ Ec _] [B1 B2 B3 B4 B5 _] Hc HR.
  assert (Pb q' = Pb x.2) as F1 by (unfold Pb; cbn in B1; congruence).
  assert (Sb q' = Sb x.2) as F2 by (unfold Sb; cbn in B2; congruence).
  assert (Pp q' = Pp x.2) as F3 by (unfold Pp; cbn in B3; congruence).
  assert (Sp q' = Sp x.2) as F4 by (unfold Sp; cbn in B4; congruence).
  cbn in B5. split.
  - congruence.
  - congruence.
  - done.
  - unfold tracked. clear -S1 S2. set_solver.
  - done.
  - rewrite F2, F4, E2. clear -E4. set_solver.
  - intros Hs. destruct (Ea Hs) as [Ea1 Ea2]. unfold tracked. rewrite F1, F2, F3, F4, E1, E2, Ea1, Ea2.
    clear -S1 S2. split; [set_solver|]. apply set_eq. intros w.
    rewrite !elem_of_union, !elem_of_difference.
    destruct (decide (w ∈ tb)), (decide (w ∈ tp)); set_solver.
Qed.

Lemma recv_extracted sH q R tp tb tc x :
  wf q → Extracted sH q tp tb tc x → recv R (msg x.2) = (R ∖ tc) ∪ (tp ∪ tb).
Proof.
  intros [_ _ _ Hc] [_ _ _ _ _ _ _ [S1 [S2 S3]] Hf _ _ _]. unfold Pb, Sb, Pp, Sp in *.
  assert (∀ w, w ∈ tc → w ∉ tp ∪ tb) as Hd.
  { intros w Hw Ht%elem_of_union. apply (Hc w (S3 w Hw)). rewrite !elem_of_union.
    destruct Ht as [Ht|Ht]; [specialize (S2 w Ht)|specialize (S1 w Ht)]; tauto. }
  apply set_eq. intros w. rewrite elem_of_recv, elem_of_union, elem_of_difference, Hf.
  repeat case_decide; naive_solver.
Qed.

Lemma send_extracted_Eff sH q R tp tb tc x net now :
  wf q → Extracted sH q tp tb tc x →
  let r := send_extracted net now x in Eff sH q R r.1 (remote R r.2).
Proof.
  intros Hq HE. cbn zeta. pose proof (wf_extracted _ _ _ _ _ _ (msg x.2) Hq HE) as Hw.
  pose proof (recv_extracted _ _ R _ _ _ _ Hq HE) as Hr.
  destruct x as [[sp sb] q1]. cbn [snd] in *. unfold send_extracted.
  destruct (Message.Empty (msg q1)) eqn:Em.
  - split; [done|]. right. exists (tp ∪ tb), tc.
    apply (Empty_flags _ (et_only _ _ _ _ _ _ HE)) in Em. cbn [snd] in Em.
    eapply (Turn_extracted _ _ _ _ _ _ (sp, sb, q1)); [done|by split|done|].
    assert (∀ w, w ∉ tc ∧ w ∉ tp ∪ tb) as Hn.
    { intros w. pose proof (et_flags _ _ _ _ _ _ HE w) as Hf. cbn [snd] in Hf.
      rewrite Em, lookup_empty in Hf. repeat case_decide; done. }
    cbn. clear -Hn. set_solver.
  - destruct (net_sent net); cbn [negb].
    + set (q2 := onSent now sp sb q1).
      set (q3 := if hasPendingWork q2 then signalWorkReady now q2 else q2).
      assert (same q1 q3) as Hs.
      { etrans; [apply (onSent_same now sp sb)|]. fold q2. unfold q3.
        case_match; [apply same_signal|done]. }
      assert (closed q3 = closed q1) as Hcl
        by (unfold q3, signalWorkReady; repeat case_match; done).
      cbn [fst snd]. split.
      * eapply wf_same; [|apply Hw]. destruct Hs as [A1 A2 A3 A4 A5 A6]. split; cbn; try done.
        by rewrite A6.
      * right. exists (tp ∪ tb), tc.
        eapply (Turn_extracted _ _ _ _ _ _ (sp, sb, q1)); [done| |done|].
        -- destruct Hs. by split.
        -- cbn. done.
    + cbn [fst snd]. split; [|by left].
      eapply wf_same; [|apply Hw]. by split.
Qed.

Lemma sendMessage_Eff net now q R :
  wf q → let r := sendMessage sizeCid net now q in
         Eff (net_supportsHave net) q R r.1 (remote R r.2).
Proof.
  intros Hq. cbn zeta. unfold sendMessage. destruct (_ && _).
  { split; [|by left]. eapply wf_same; [|done]. by split. }
  set (q0 := set_sender true (closed q) q).
  assert (wf q0) as Hq0 by (eapply wf_same; [|done]; by split).
  destruct (extractOutgoingMessage_spec sizeCid (net_supportsHave net) q0 Hq0) as (tp & tb & tc & HE).
  pose proof (send_extracted_Eff _ _ R _ _ _ _ net now Hq0 HE) as Hr. cbn zeta in Hr.
  destruct (send_extracted net now _) as [q' evs]. cbn [fst snd] in *.
  eapply (Eff_same _ q q0 q' q'); [by split|done|done|done|done].
Qed.

Lemma transfer_spec q :
  wf q →
  let q' := (transferRebroadcastWants q).2 in
  wf q' ∧ tracked q' = tracked q ∧ Sb q' = Sb q ∧ Sp q' = Sp q ∧ cancels q' = cancels q ∧
  closed q' = closed q.
Proof.
  intros Hq. cbn zeta. unfold transferRebroadcastWants. destruct (_ && _); [done|]. cbn [snd].
  destruct Hq as [[H1 H2] [H3 H4] H5 H6].
  unfold tracked, Pb, Sb, Pp, Sp in *. cbn. rewrite !RWLFacts.dom_Absorb by done.
  split_and!; [|set_solver|done..].
  split; cbn; [split; [by apply WL.wf_Absorb|done]..|done|].
  unfold Pb, Sb, Pp, Sp. cbn. rewrite !RWLFacts.dom_Absorb by done. clear -H6. set_solver.
Qed.

Lemma rebroadcast_Eff net now q R :
  wf q → let r := rebroadcastWantlist sizeCid net now q in
         Eff (net_supportsHave net) q R r.1 (remote R r.2).
Proof.
  intros Hq. cbn zeta. unfold rebroadcastWantlist.
  set (q0 := set_rebroadcast _ _ q).
  assert (wf q0) as Hq0 by (eapply wf_same; [|done]; by split).
  destruct (transfer_spec q0 Hq0) as (H1 & H2 & H3 & H4 & H5 & H6).
  destruct (transferRebroadcastWants q0) as [[] q1]; cbn [snd] in *.
  - destruct (sendMessage_Eff net now q1 R H1) as [Hw [Hc|(t & tc & [T1 T2 T3 T4 T5 T6 T7])]];
      (split; [done|]); [by left|right]. exists t, tc.
    change (tracked q0) with (tracked q) in *. change (Sb q0) with (Sb q) in *.
    change (Sp q0) with (Sp q) in *. change (cancels q0) with (cancels q) in *.
    change (closed q0) with (closed q) in *.
    split; rewrite <- ?H2, <- ?H3, <- ?H4, <- ?H5, <- ?H6; done.
  - split; [done|]. right. exists ∅, ∅.
    change (tracked q0) with (tracked q) in *. change (Sb q0) with (Sb q) in *.
    change (Sp q0) with (Sp q) in *. change (cancels q0) with (cancels q) in *.
    change (closed q0) with (closed q) in *.
    cbn [fst snd]. split; rewrite ?H2, ?H3, ?H4, ?H5; cbn; try done; set_solver.
Qed.

Lemma sendIfReady_Eff net now q R :
  wf q → let r := sendIfReady sizeCid net now q in
         Eff (net_supportsHave net) q R r.1 (remote R r.2).
Proof.
  intros Hq. unfold sendIfReady. case_match; [by apply sendMessage_Eff|by apply Eff_refl].
Qed.

Lemma handleResponse_same now ks q :
  same q (handleResponse now ks q).1 ∧ closed (handleResponse now ks q).1 = closed q ∧
  ∀ R, remote R (handleResponse now ks q).2 = R.
Proof.
  unfold handleResponse.
  match goal with |- context [foldl ?f (Time_zero, q) ks] => set (body := f) end.
  assert (same q (foldl body (Time_zero, q) ks).2 ∧
          closed (foldl body (Time_zero, q) ks).2 = closed q) as [H1 H2].
  { apply (foldl_inv_simple (λ acc : Time * MessageQueue, same q acc.2 ∧ closed acc.2 = closed q));
      [done|].
    intros [t q'] c _ [Hs Hc]. unfold body, latencyOf. cbn [snd] in *.
    destruct (RWL.sentAt (bcstWants q') !! c), (RWL.sentAt (peerWants q') !! c); cbn;
      (split; [|done]); destruct Hs; by split. }
  destruct (foldl body (Time_zero, q) ks) as [t q']. cbn [fst snd] in *.
  split_and!; [done|done|]. intros R. by case_match.
Qed.

(** ** Runs

    The calls of the peer manager, the cases of the select loop, and the firing
    of the debounce timer. *)
Inductive act :=
| ACall (now : Time) (c : qcall)
| AResponse (ks : list Want)
| AOutgoing (net : netres) (now : Time)
| ASchedule (net : netres) (now : Time)
| ARebroadcast (net : netres) (now : Time)
| AHandle (now : Time)
| AFire.

Definition call now (c : qcall) q : MessageQueue * list mq_event :=
  match c with
  | QBroadcast _ ws => (AddBroadcastWantHaves now ws q, [])
  | QWants _ bs hs => (AddWants now bs hs q, [])
  | QCancels _ ks => AddCancels now ks q
  end.

(** [None]: the case is not enabled, or the goroutine is stuck. *)
Definition run_act (a : act) q : option (MessageQueue * list mq_event) :=
  match a with
  | ACall now c => Some (call now c q)
  | AResponse ks => Some (ResponseReceived ks q, [])
  | AOutgoing net now =>
      match outgoingWork q with
      | Some when => onOutgoingWork sizeCid net now when q
      | None => None
      end
  | ASchedule net now =>
      match scheduleWork q with
      | TFired => Some (onScheduleTimer sizeCid net now q)
      | _ => None
      end
  | ARebroadcast net now => Some (rebroadcastWantlist sizeCid net now q)
  | AHandle now =>
      match responses q with
      | ks :: rs => Some (handleResponse now ks (set_responses rs q))
      | [] => None
      end
  | AFire =>
      match scheduleWork q with
      | TRunning => Some (set_schedule (workScheduled q) TFired q, [])
      | _ => None
      end
  end.

Definition act_have (a : act) : bool :=
  match a with
  | AOutgoing net _ | ASchedule net _ | ARebroadcast net _ => net_supportsHave net
  | _ => true
  end.

Definition act_calls (a : act) : list qcall := match a with ACall _ c => [c] | _ => [] end.

Lemma onOutgoingWork_Eff net now when q R r :
  wf q → onOutgoingWork sizeCid net now when q = Some r →
  Eff (net_supportsHave net) q R r.1 (remote R r.2).
Proof.
  intros Hq. unfold onOutgoingWork. set (q0 := set_outgoing None q).
  match goal with |- context [match ?X with Some q => _ | None => None end] => set (r0 := X) end.
  assert (∀ q1, r0 = Some q1 → same q q1 ∧ closed q1 = closed q) as Hr0.
  { intros q1. unfold r0. destruct (Time_IsZero _); [intros [= <-]; by repeat split|].
    destruct (timer_Stop _); [intros [= <-]; by repeat split|].
    destruct (timer_drain _); [intros [= <-]; by repeat split|done]. }
  destruct r0 as [q1|]; [|done]. destruct (Hr0 q1 eq_refl) as [Hs Hc].
  assert (wf q1) as Hq1 by by eapply wf_same.
  destruct (_ || _).
  - pose proof (sendIfReady_Eff net now q1 R Hq1) as HE. cbn zeta in HE.
    destruct (sendIfReady sizeCid net now q1) as [q2 evs]. intros [= <-]. cbn [fst snd] in *.
    eapply Eff_same; [done|done| | |done]; by try split.
  - intros [= <-]. cbn [fst snd remote foldl].
    eapply Eff_same; [done|done| | |by apply Eff_refl]; by try split.
Qed.

(** Every turn of the loop. *)
Lemma loop_Eff a q R r :
  wf q → (∀ now c, a ≠ ACall now c) → run_act a q = Some r →
  Eff (act_have a) q R r.1 (remote R r.2).
Proof.
  intros Hq Hn. destruct a as [now c|ks|net now|net now|net now|now|]; cbn.
  - by destruct (Hn now c).
  - intros [= <-]. cbn [fst snd remote foldl]. eapply Eff_same;
      [done|done| | |by apply Eff_refl]; unfold ResponseReceived; by repeat case_match; try split.
  - destruct (outgoingWork q); [|done]. by apply onOutgoingWork_Eff.
  - destruct (scheduleWork q); [done..|]. intros [= <-].
    eapply Eff_same; [| | | |apply sendIfReady_Eff; eapply wf_same; [|done]]; by try split.
  - intros [= <-]. by apply rebroadcast_Eff.
  - destruct (responses q) as [|ks rs]; [done|]. intros [= <-].
    destruct (handleResponse_same now ks (set_responses rs q)) as (H1 & H2 & ->).
    eapply Eff_same; [done|done| | |by apply Eff_refl].
    + etrans; [|done]. by split.
    + done.
  - destruct (scheduleWork q); [done| |done]. intros [= <-]. cbn [fst snd remote foldl].
    eapply Eff_same; [done|done| | |by apply Eff_refl]; by try split.
Qed.

(** A run of the queue [id]: its state, the remote wantlist, the calls so far. *)
Inductive step (id : qref) : relation (MessageQueue * gset Want * list qcall) :=
| step_call now c q R tr :
    PWMFacts.queue_of c = id →
    step id (q, R, tr) ((call now c q).1, remote R (call now c q).2, tr ++ [c])
| step_loop a q R tr r :
    closed q = false → (∀ now c, a ≠ ACall now c) → run_act a q = Some r →
    step id (q, R, tr) (r.1, remote R r.2, tr).

(** No want comes back while its cancel is still queued. *)
Definition call_clean (c : qcall) q : Prop :=
  match c with
  | QBroadcast _ ws => cancels q ## wset ws
  | QWants _ bs hs => cancels q ## wset bs ∪ wset hs
  | QCancels _ _ => True
  end.

(** The steps after which the remote wantlist stays exact: the peer speaks HAVE,
    and the calls are clean. *)
Inductive clean_step (id : qref) : relation (MessageQueue * gset Want * list qcall) :=
| clean_call now c q R tr :
    PWMFacts.queue_of c = id →
    call_clean c q →
    clean_step id (q, R, tr) ((call now c q).1, remote R (call now c q).2, tr ++ [c])
| clean_loop a q R tr r :
    closed q = false → (∀ now c, a ≠ ACall now c) → act_have a = true → run_act a q = Some r →
    clean_step id (q, R, tr) (r.1, remote R r.2, tr).

Lemma remote_call now c q R : remote R (call now c q).2 = R.
Proof.
  destruct c; cbn; [done|done|]. unfold AddCancels. case_match; [done|].
  by destruct (foldl _ _ _) as [? []].
Qed.

Lemma call_spec now c q :
  wf q →
  let q' := (call now c q).1 in
  wf q' ∧ closed q' = closed q ∧
  match c with
  | QBroadcast _ ws => tracked q' = tracked q ∪ wset ws ∧ Sb q' = Sb q ∧ Sp q' = Sp q ∧
                       cancels q' = cancels q ∖ wset ws
  | QWants _ bs hs => tracked q' = tracked q ∪ wset bs ∪ wset hs ∧ Sb q' = Sb q ∧ Sp q' = Sp q ∧
                      cancels q' = cancels q ∖ (wset bs ∪ wset hs)
  | QCancels _ ks => tracked q' = tracked q ∖ wset ks ∧ Sb q' = Sb q ∖ wset ks ∧
                     Sp q' = Sp q ∖ wset ks ∧ cancels q' = cancels q ∪ (wset ks ∩ (Sb q ∪ Sp q))
  end.
Proof.
  intros Hq. cbn zeta. unfold tracked. destruct c as [id ws|id bs hs|id ks]; cbn [call fst].
  - destruct (AddBroadcastWantHaves_spec now ws q Hq) as (H1 & -> & -> & -> & -> & -> & ->).
    split_and!; try done. set_solver.
  - destruct (AddWants_spec now bs hs q Hq) as (H1 & -> & -> & -> & -> & -> & ->).
    split_and!; try done. set_solver.
  - destruct (AddCancels_spec now ks q Hq) as (H1 & -> & -> & -> & -> & -> & ->).
    split_and!; try done. set_solver.
Qed.

(** Safety: what the queue believes to be sent, or still has to cancel, is on the
    remote wantlist. *)
Definition Known (x : MessageQueue * gset Want * list qcall) : Prop :=
  wf x.1.1 ∧ (closed x.1.1 = true ∨ Sb x.1.1 ∪ Sp x.1.1 ∪ cancels x.1.1 ⊆ x.1.2).

Lemma Known_step id x y : step id x y → Known x → Known y.
Proof.
  destruct 1 as [now c q R tr Hid|a q R tr r Hcl Hn Hr]; unfold Known; cbn [fst snd]; intros [Hq Hk].
  - rewrite remote_call. destruct (call_spec now c q Hq) as (H1 & H2 & H3).
    split; [done|]. rewrite H2. destruct Hk as [?|Hk]; [by left|right].
    destruct c; destruct H3 as (_ & -> & -> & ->); clear -Hk; set_solver.
  - destruct (loop_Eff a q R r Hq Hn Hr) as [Hw [Hc|(t & tc & [T1 T2 T3 T4 T5 T6 T7])]];
      (split; [done|]); [by left|right].
    destruct Hk as [?|Hk]; [congruence|].
    rewrite T5, T2. pose proof (wf_cancels _ Hq) as Hd. clear -Hd Hk T3 T6.
    intros w. rewrite !elem_of_union, !elem_of_difference. intros [Hw|[Hw Hn]].
    + assert (w ∈ Sb q ∪ Sp q ∪ t) as Hw' by (apply T6; by rewrite elem_of_union).
      apply elem_of_union in Hw' as [Hw'|?]; [left|by right].
      split; [apply Hk; set_solver|]. intros Htc. apply (Hd w (T3 w Htc)). set_solver.
    + left. split; [apply Hk; set_solver|done].
Qed.

(** Exactness, and agreement with what the peer manager asked for. *)
Definition Agrees (id : qref) (x : MessageQueue * gset Want * list qcall) : Prop :=
  wf x.1.1 ∧
  (closed x.1.1 = true ∨
   (x.1.2 = Sb x.1.1 ∪ Sp x.1.1 ∪ cancels x.1.1 ∧ tracked x.1.1 = PWMFacts.replay id x.2)).

Lemma Agrees_step id x y : clean_step id x y → Agrees id x → Agrees id y.
Proof.
  destruct 1 as [now c q R tr Hid Hok|a q R tr r Hcl Hn Hh Hr]; unfold Agrees; cbn [fst snd];
    intros [Hq Hk].
  - rewrite remote_call. destruct (call_spec now c q Hq) as (H1 & H2 & H3).
    split; [done|]. rewrite H2. destruct Hk as [?|[HR Ht]]; [by left|right].
    unfold PWMFacts.replay in *. rewrite foldl_app. cbn [foldl]. rewrite <- Ht.
    destruct c; cbn in Hid, Hok; destruct H3 as (-> & -> & -> & ->); cbn [PWMFacts.outstanding];
      rewrite decide_True by done; (split; [|done]); subst R; [clear -Hok; set_solver..|].
    apply set_eq. intros w. rewrite !elem_of_union, !elem_of_difference, elem_of_intersection, elem_of_union.
    destruct (decide (w ∈ wset ws)); tauto.
  - destruct (loop_Eff a q R r Hq Hn Hr) as [Hw [Hc|(t & tc & [T1 T2 T3 T4 T5 T6 T7])]];
      (split; [done|]); [by left|right].
    destruct Hk as [?|[HR Ht]]; [congruence|]. destruct (T7 Hh) as [E1 E2].
    split; [|congruence]. rewrite T5, E1, T2, HR.
    pose proof (wf_cancels _ Hq) as Hd. clear -Hd T3. apply set_eq. intros w.
    rewrite !elem_of_union, !elem_of_difference, !elem_of_union.
    destruct (decide (w ∈ tc)) as [Htc|]; [|tauto].
    specialize (Hd w (T3 w Htc)). rewrite !elem_of_union in Hd. tauto.
Qed.

Lemma Known_reachable id x y : rtc (step id) x y → Known x → Known y.
Proof. induction 1 as [|x y z Hs _ IH]; [done|]. intros HI. apply IH. by eapply Known_step. Qed.

Lemma Agrees_reachable id x y : rtc (clean_step id) x y → Agrees id x → Agrees id y.
Proof. induction 1 as [|x y z Hs _ IH]; [done|]. intros HI. apply IH. by eapply Agrees_step. Qed.

Lemma Known_new n d : Known (newMessageQueue n d, ∅, []).
Proof. split; [apply wf_newMessageQueue|]. right. cbn. unfold Sb, Sp, AuthSet.NewSet. cbn. set_solver. Qed.

Lemma Agrees_new id n d : Agrees id (newMessageQueue n d, ∅, []).
Proof.
  split; [apply wf_newMessageQueue|]. right. cbn. unfold tracked, Pb, Pp, Sb, Sp, AuthSet.NewSet. cbn.
  split; set_solver.
Qed.

(** ** Progress *)

Lemma pendingWorkCount_sets q :
  pendingWorkCount q = Z.of_nat (size (Pb q) + size (Pp q) + size (cancels q)).
Proof.
  unfold pendingWorkCount, WL.Len, AuthSet.Len, Pb, Pp. rewrite !size_dom. lia.
Qed.

Lemma size_diff_sub (X Y : gset Want) : Y ⊆ X → size (X ∖ Y) = (size X - size Y)%nat.
Proof. intros H. by rewrite size_difference. Qed.

(** A message that goes out leaves strictly less work, or none. *)
Lemma sendMessage_progress net now q :
  wf q → net_open net = true → net_sent net = true → closed q = false →
  let q' := (sendMessage sizeCid net now q).1 in
  wf q' ∧ closed q' = false ∧
  (pendingWorkCount q' = 0 ∨ pendingWorkCount q' < pendingWorkCount q).
Proof.
  intros Hq Ho Hs Hcl. cbn zeta.
  pose proof (sendMessage_Eff net now q ∅ Hq) as [Hw _]. split; [done|]. revert Hw.
  unfold sendMessage. rewrite Ho, andb_false_r.
  set (q0 := set_sender true (closed q) q).
  assert (wf q0) as Hq0 by (eapply wf_same; [|done]; by split).
  destruct (extractOutgoingMessage_spec sizeCid (net_supportsHave net) q0 Hq0) as (tp & tb & tc & HE).
  destruct (extractOutgoingMessage _ _ q0) as [[sp sb] q1].
  assert (∃ evs q2, send_extracted net now (sp, sb, q1) = (q2, evs) ∧ closed q2 = closed q1 ∧
    Pb q2 = Pb q1 ∧ Pp q2 = Pp q1 ∧ cancels q2 = cancels q1) as (evs & q2 & -> & E0 & E1 & E2 & E3).
  { unfold send_extracted. rewrite Hs. cbn [negb].
    destruct (Message.Empty _); [by do 2 eexists|].
    do 2 eexists. split; [done|]. destruct (onSent_same now sp sb q1) as [A1 A2 A3 A4 A5 A6].
    destruct (hasPendingWork _); unfold signalWorkReady; try case_match;
      unfold Pb, Pp; cbn; rewrite <- ?A1, <- ?A3; done. }
  intros _. cbn [fst].
  destruct HE as [_ F1 _ F3 _ _ F5 [S1 [S2 S3]] _ _ Fc Fp]. cbn [snd] in *.
  split; [by rewrite E0, Fc|]. rewrite !pendingWorkCount_sets, E1, E2, E3.
  destruct (decide (tp ∪ tb ∪ tc = ∅)) as [Hem|Hne].
  - destruct (Fp Hem) as (-> & -> & ->). left. by rewrite !size_empty.
  - right. rewrite F1, F5.
    change (Pb q0) with (Pb q) in *. change (Pp q0) with (Pp q) in *.
    change (cancels q0) with (cancels q) in *.
    pose proof (subseteq_size _ _ F3) as L1. pose proof (subseteq_size _ _ S1) as L2.
    pose proof (subseteq_size _ _ S2) as L3. pose proof (subseteq_size _ _ S3) as L4.
    rewrite size_diff_sub in L1 by done. rewrite !size_diff_sub by done.
    assert (0 < size tp + size tb + size tc)%nat; [|lia].
    destruct (size tp) eqn:Z1; [|lia]. destruct (size tb) eqn:Z2; [|lia].
    destruct (size tc) eqn:Z3; [|lia]. exfalso. apply Hne.
    apply size_empty_inv in Z1, Z2, Z3. set_solver.
Qed.

(** Sending again and again empties the queue, however small the messages. *)
Fixpoint drain (net : netres) (n : nat) now q : MessageQueue :=
  match n with
  | O => q
  | S n' => drain net n' now (sendMessage sizeCid net now q).1
  end.

Lemma drain_empties net now n q :
  wf q → net_open net = true → net_sent net = true → closed q = false →
  pendingWorkCount q ≤ Z.of_nat n → pendingWorkCount (drain net n now q) = 0.
Proof.
  intros Hq Ho Hs. revert q Hq. induction n as [|n IH]; intros q Hq Hcl Hn; cbn [drain].
  - rewrite pendingWorkCount_sets in *. lia.
  - destruct (sendMessage_progress net now q Hq Ho Hs Hcl) as (H1 & H2 & H3).
    apply IH; [done..|]. lia.
Qed.

(** ** The debounce timer *)

(** Work is scheduled exactly while the timer is running or has a value to be
    read. *)
Definition sched_ok q : Prop :=
  if Time_IsZero (workScheduled q) then scheduleWork q = TIdle else scheduleWork q ≠ TIdle.

(** Extracting and sending do not touch the run loop's variables. *)
Definition ctl q : Time * timer * bool := (workScheduled q, scheduleWork q, hasSender q).

Lemma extract_ctl sH q : ctl (extractOutgoingMessage sizeCid sH q).2 = ctl q.
Proof.
  unfold extractOutgoingMessage.
  assert (ctl (extract_begin sH q).2 = ctl q) as <-.
  { unfold extract_begin. destruct sH; cbn [negb]; [done|]. by destruct (foldl dropHaves _ _). }
  destruct (extract_begin sH q) as [sn q1]. cbn [snd].
  destruct (extract_build sizeCid sH sn (maxMessageSize q1) (msg q1)) as [ex m].
  unfold extract_finish. destruct (foldl markSent _ (ex_peer ex)) as [[p m1] sp].
  destruct (foldl markSent _ (ex_bcst ex)) as [[b m2] sb].
  by destruct (foldl finishCancel _ (ex_cancels ex)) as [cs m3].
Qed.

Lemma send_extracted_ctl net now x : ctl (send_extracted net now x).1 = ctl x.2.
Proof.
  destruct x as [[sp sb] q]. unfold send_extracted.
  destruct (Message.Empty _); [done|]. destruct (net_sent net); cbn [negb]; [|done].
  cbn [fst snd]. unfold signalWorkReady. by repeat case_match.
Qed.

Lemma sendMessage_sched net now q :
  workScheduled (sendMessage sizeCid net now q).1 = workScheduled q ∧
  scheduleWork (sendMessage sizeCid net now q).1 = scheduleWork q.
Proof.
  unfold sendMessage. destruct (_ && _); [done|].
  pose proof (extract_ctl (net_supportsHave net) (set_sender true (closed q) q)) as E1.
  pose proof (send_extracted_ctl net now
    (extractOutgoingMessage sizeCid (net_supportsHave net) (set_sender true (closed q) q))) as E2.
  destruct (send_extracted net now _) as [q' evs]. cbn [fst] in *. rewrite E1 in E2.
  unfold ctl in E2. cbn in E2. by simplify_eq.
Qed.

Lemma onOutgoingWork_total net now when q :
  sched_ok q → when ≠ 0 →
  ∃ r, onOutgoingWork sizeCid net now when q = Some r ∧ sched_ok r.1.
Proof.
  intros Hs Hw. unfold onOutgoingWork. set (q0 := set_outgoing None q).
  match goal with |- context [match ?X with Some q => _ | None => None end] => set (r0 := X) end.
  assert (∃ q1, r0 = Some q1 ∧ scheduleWork q1 = TIdle ∧ workScheduled q1 ≠ 0) as (q1 & -> & Ht & Hz).
  { unfold r0, sched_ok, Time_IsZero in *. cbn. destruct (workScheduled q =? 0) eqn:Ez.
    - eexists. split; [done|]. cbn. done.
    - apply Z.eqb_neq in Ez. destruct (scheduleWork q); [done|..]; eexists; (split; [done|]); done. }
  destruct (_ || _).
  - assert (workScheduled (sendIfReady sizeCid net now q1).1 = workScheduled q1 ∧
            scheduleWork (sendIfReady sizeCid net now q1).1 = scheduleWork q1) as [E1 E2].
    { unfold sendIfReady. case_match; [|done]. split; apply sendMessage_sched. }
    destruct (sendIfReady sizeCid net now q1) as [q2 evs]. eexists. split; [done|].
    unfold sched_ok. cbn in *. congruence.
  - eexists. split; [done|]. unfold sched_ok, Time_IsZero. cbn.
    apply Z.eqb_neq in Hz. by rewrite Hz.
Qed.

Lemma onScheduleTimer_sched net now q : sched_ok (onScheduleTimer sizeCid net now q).1.
Proof.
  unfold onScheduleTimer, sendIfReady. case_match; [|done].
  unfold sched_ok. destruct (sendMessage_sched net now (set_schedule Time_zero TIdle q)) as [-> ->].
  done.
Qed.

(** ** Runs as functions of the schedule *)

(** The steps [acts], if every one of them is enabled. *)
Fixpoint run_acts (acts : list act) (x : MessageQueue * gset Want * list qcall)
  : option (MessageQueue * gset Want * list qcall) :=
  match acts with
  | [] => Some x
  | a :: acts =>
      match run_act a x.1.1 with
      | Some r => run_acts acts (r.1, remote x.1.2 r.2, x.2 ++ act_calls a)
      | None => None
      end
  end.

(** The side conditions of [step] and [clean_step] on one action. *)
Definition act_ok (id : qref) (a : act) q : bool :=
  match a with
  | ACall _ c => bool_decide (PWMFacts.queue_of c = id)
  | _ => negb (closed q)
  end.
Definition act_clean (a : act) q : bool :=
  match a with
  | ACall _ (QBroadcast _ ws) => bool_decide (cancels q ∩ wset ws = ∅)
  | ACall _ (QWants _ bs hs) => bool_decide (cancels q ∩ (wset bs ∪ wset hs) = ∅)
  | ACall _ (QCancels _ _) => true
  | _ => act_have a
  end.

Fixpoint acts_ok (ok : act → MessageQueue → bool) (acts : list act) q : bool :=
  match acts with
  | [] => true
  | a :: acts =>
      ok a q && match run_act a q with Some r => acts_ok ok acts r.1 | None => true end
  end.

Lemma act_cases a :
  (∃ now c, a = ACall now c) ∨
  ((∀ now c, a ≠ ACall now c) ∧ act_calls a = [] ∧
   ∀ q id, act_ok id a q = negb (closed q) ∧ act_clean a q = act_have a).
Proof. destruct a; [by left; eauto|right; by split_and!..]. Qed.

Lemma act_clean_call now c q : act_clean (ACall now c) q = true → call_clean c q.
Proof. destruct c; cbn; try done; intros H%bool_decide_eq_true; set_solver. Qed.

Lemma run_acts_steps id acts x y :
  acts_ok (act_ok id) acts x.1.1 = true → run_acts acts x = Some y → rtc (step id) x y.
Proof.
  revert x. induction acts as [|a acts IH]; intros [[q R] tr]; cbn [acts_ok run_acts fst snd].
  { by intros _ [= <-]. }
  destruct (run_act a q) as [[q' evs]|] eqn:E; [|done]. cbn [fst snd].
  intros [Ha Hok]%andb_true_iff Hr.
  eapply rtc_l; [|by apply (IH (q', remote R evs, tr ++ act_calls a) Hok Hr)].
  destruct (act_cases a) as [(now & c & ->)|(Hn & Hc & Hb)].
  - apply bool_decide_eq_true in Ha. pose proof (step_call id now c q R tr Ha) as Hs.
    replace (call now c q) with (q', evs) in Hs by (cbn in E; congruence). exact Hs.
  - rewrite Hc, app_nil_r. destruct (Hb q id) as [Hb1 _]. rewrite Hb1 in Ha. apply negb_true_iff in Ha.
    by apply (step_loop id a q R tr (q', evs)).
Qed.

Lemma run_acts_clean_steps id acts x y :
  acts_ok (λ a q, act_ok id a q && act_clean a q) acts x.1.1 = true →
  run_acts acts x = Some y → rtc (clean_step id) x y.
Proof.
  revert x. induction acts as [|a acts IH]; intros [[q R] tr]; cbn [acts_ok run_acts fst snd].
  { by intros _ [= <-]. }
  destruct (run_act a q) as [[q' evs]|] eqn:E; [|done]. cbn [fst snd].
  intros [[Ha Hcl]%andb_true_iff Hok]%andb_true_iff Hr.
  eapply rtc_l; [|by apply (IH (q', remote R evs, tr ++ act_calls a) Hok Hr)].
  destruct (act_cases a) as [(now & c & ->)|(Hn & Hc & Hb)].
  - apply bool_decide_eq_true in Ha.
    pose proof (act_clean_call now c q Hcl) as Hd.
    pose proof (clean_call id now c q R tr Ha Hd) as Hs.
    replace (call now c q) with (q', evs) in Hs by (cbn in E; congruence). exact Hs.
  - rewrite Hc, app_nil_r. destruct (Hb q id) as [Hb1 Hb2]. rewrite Hb1 in Ha. rewrite Hb2 in Hcl.
    apply negb_true_iff in Ha. by apply (clean_loop id a q R tr (q', evs)).
Qed.

(** ** The run loop is never stuck *)

(** The clock has left the zero time. *)
Definition act_time (a : act) : Prop :=
  match a with
  | ACall now _ | AOutgoing _ now | ASchedule _ now | ARebroadcast _ now | AHandle now => now ≠ Time_zero
  | AResponse _ | AFire => True
  end.

Definition Ready q : Prop := sched_ok q ∧ ∀ when, outgoingWork q = Some when → when ≠ Time_zero.

(** The work channel holds an old value or the current time. *)
Definition out_from now q q' : Prop :=
  ∀ when, outgoingWork q' = Some when → outgoingWork q = Some when ∨ when = now.

Lemma out_signal now q q' : outgoingWork q' = outgoingWork q → out_from now q (signalWorkReady now q').
Proof.
  intros E when. unfold signalWorkReady. rewrite <- E. destruct (outgoingWork q') eqn:E'.
  - rewrite E'. by left.
  - cbn. intros [= <-]. by right.
Qed.

Lemma extract_out sH q : outgoingWork (extractOutgoingMessage sizeCid sH q).2 = outgoingWork q.
Proof.
  unfold extractOutgoingMessage.
  assert (outgoingWork (extract_begin sH q).2 = outgoingWork q) as <-.
  { unfold extract_begin. destruct sH; cbn [negb]; [done|]. by destruct (foldl dropHaves _ _). }
  destruct (extract_begin sH q) as [sn q1]. cbn [snd].
  destruct (extract_build sizeCid sH sn (maxMessageSize q1) (msg q1)) as [ex m].
  unfold extract_finish. destruct (foldl markSent _ (ex_peer ex)) as [[p m1] sp].
  destruct (foldl markSent _ (ex_bcst ex)) as [[b m2] sb].
  by destruct (foldl finishCancel _ (ex_cancels ex)) as [cs m3].
Qed.

Lemma sendMessage_out net now q : out_from now q (sendMessage sizeCid net now q).1.
Proof.
  unfold sendMessage. destruct (_ && _); [intros when; by left|].
  pose proof (extract_out (net_supportsHave net) (set_sender true (closed q) q)) as E.
  destruct (extractOutgoingMessage _ _ _) as [[sp sb] q1]. cbn [snd] in E. unfold send_extracted.
  change (outgoingWork (set_sender true (closed q) q)) with (outgoingWork q) in E.
  assert (∀ q', outgoingWork q' = outgoingWork q → out_from now q q') as Hsame
    by (intros q' E' when ?; left; congruence).
  destruct (Message.Empty _); [by apply Hsame|]. destruct (net_sent net); cbn [negb fst]; [|by apply Hsame].
  destruct (hasPendingWork _); [|by apply Hsame].
  by apply out_signal.
Qed.

Lemma call_frame now c q : ctl (call now c q).1 = ctl q ∧ out_from now q (call now c q).1.
Proof.
  assert (∀ q', outgoingWork q' = outgoingWork q → out_from now q q') as Hsame
    by (intros q' E' when ?; left; congruence).
  set (P := λ q', ctl q' = ctl q ∧ outgoingWork q' = outgoingWork q).
  assert (P q) as H0 by done.
  assert (∀ q', P q' → ctl (signalWorkReady now q') = ctl q ∧ out_from now q (signalWorkReady now q')) as Hsig.
  { intros q' [E1 E2]. split; [|by apply out_signal]. rewrite <- E1. unfold signalWorkReady. by case_match. }
  destruct c as [id ws|id bs hs|id ks]; cbn [call fst].
  - unfold AddBroadcastWantHaves. destruct (_ =? 0); [split; [done|by apply Hsame]|].
    apply Hsig. apply (foldl_inv_simple P); [done|]. by intros q' w _ [].
  - unfold AddWants. destruct (_ && _); [split; [done|by apply Hsame]|].
    apply Hsig. apply (foldl_inv_simple P); [|by intros q' w _ []].
    apply (foldl_inv_simple P); [done|]. by intros q' w _ [].
  - unfold AddCancels. destruct (_ =? 0); [split; [done|by apply Hsame]|].
    assert (P (foldl addCancel (q, false) ks).1) as HP.
    { apply (foldl_inv_simple (λ acc : MessageQueue * bool, P acc.1)); [done|].
      intros [q' b] w _ []. unfold addCancel. by case_match. }
    destruct (foldl addCancel (q, false) ks) as [q' []]; cbn [fst] in *; [by apply Hsig|].
    destruct HP. split; [done|by apply Hsame].
Qed.

Lemma sched_ctl q q' : ctl q' = ctl q → sched_ok q → sched_ok q'.
Proof. unfold ctl, sched_ok. intros [= -> -> _]. done. Qed.

Lemma Ready_run_act a q r : act_time a → Ready q → run_act a q = Some r → Ready r.1.
Proof.
  assert (∀ now q', now ≠ Time_zero → Ready q → sched_ok q' → out_from now q q' → Ready q') as Hout.
  { intros now q' Hn [_ Hw] Hs Ho. split; [done|]. intros when [E| ->]%Ho; [by eapply Hw|done]. }
  destruct a as [now c|ks|net now|net now|net now|now|]; cbn; intros Ht HR.
  - intros [= <-]. destruct (call_frame now c q). eapply Hout; eauto. eapply sched_ctl; [done|apply HR].
  - intros [= <-]. unfold ResponseReceived. by repeat case_match.
  - destruct (outgoingWork q) as [when|] eqn:Ew; [|done]. intros Hr. pose proof HR as [Hs Hw].
    destruct (onOutgoingWork_total net now when q Hs (Hw _ Ew)) as (r' & Hr' & Hs').
    simplify_eq. eapply Hout; [done|done|done|]. clear -Hr. revert Hr. unfold onOutgoingWork.
    match goal with |- context [match ?X with Some q => _ | None => None end] => set (r0 := X) end.
    assert (∀ q1, r0 = Some q1 → outgoingWork q1 = None) as Hr0.
    { intros q1. unfold r0. repeat case_match; intros; by simplify_eq. }
    destruct r0 as [q1|]; [|done]. specialize (Hr0 q1 eq_refl).
    destruct (_ || _).
    + assert (out_from now q1 (sendIfReady sizeCid net now q1).1) as Ho
        by (unfold sendIfReady; case_match; [apply sendMessage_out|by left]).
      destruct (sendIfReady _ _ _ _) as [q2 evs]. intros [= <-] w E.
      right. destruct (Ho w E); congruence.
    + intros [= <-] w E. cbn in E. congruence.
  - destruct (scheduleWork q); [done..|]. intros [= <-].
    eapply Hout; [done|done|apply onScheduleTimer_sched|].
    unfold onScheduleTimer, sendIfReady. case_match; [|by left].
    intros w E. destruct (sendMessage_out _ _ _ w E); [by left|by right].
  - intros [= <-]. unfold rebroadcastWantlist.
    set (q0 := set_rebroadcast _ _ q).
    assert (ctl (transferRebroadcastWants q0).2 = ctl q ∧
      outgoingWork (transferRebroadcastWants q0).2 = outgoingWork q) as [E1 E2]
      by (unfold transferRebroadcastWants; by case_match).
    destruct (transferRebroadcastWants q0) as [[] q1]; cbn [snd] in *.
    + eapply Hout; [done|done| |].
      * destruct (sendMessage_sched net now q1) as [F1 F2]. unfold sched_ok. rewrite F1, F2.
        by apply (sched_ctl q q1), HR.
      * intros w E. destruct (sendMessage_out net now q1 w E); [left; congruence|by right].
    + eapply Hout; [done|done|by apply (sched_ctl q q1), HR|]. intros w E. left. cbn in E. congruence.
  - destruct (responses q) as [|ks rs]; [done|]. intros [= <-].
    assert (∀ q', ctl q' = ctl q → outgoingWork q' = outgoingWork q → Ready q') as Hsame.
    { intros q' E1 E2. destruct HR as [H1 H2]. split; [by eapply sched_ctl|]. by rewrite E2. }
    unfold handleResponse.
    match goal with |- context [foldl ?f (Time_zero, ?x) ks] => set (body := f); set (q0 := x) end.
    assert (ctl (foldl body (Time_zero, q0) ks).2 = ctl q ∧
            outgoingWork (foldl body (Time_zero, q0) ks).2 = outgoingWork q) as [E1 E2].
    { apply (foldl_inv_simple (λ acc : Time * MessageQueue,
        ctl acc.2 = ctl q ∧ outgoingWork acc.2 = outgoingWork q)); [done|].
      intros [t q'] c _ [F1 F2]. unfold body, latencyOf. cbn [snd] in *.
      by destruct (RWL.sentAt (bcstWants q') !! c), (RWL.sentAt (peerWants q') !! c). }
    destruct (foldl body (Time_zero, q0) ks) as [t q']. by apply Hsame.
  - destruct (scheduleWork q) eqn:E; [done| |done]. intros [= <-]. destruct HR as [H1 H2]. split; [|done].
    unfold sched_ok in *. rewrite E in H1. cbn. by destruct (Time_IsZero _).
Qed.

Lemma Ready_run_acts acts x y :
  Forall act_time acts → Ready x.1.1 → run_acts acts x = Some y → Ready y.1.1.
Proof.
  intros Ha. revert x. induction Ha as [|a acts Ha _ IH]; intros x HR; cbn [run_acts]; [by intros [= <-]|].
  destruct (run_act a x.1.1) as [r|] eqn:E; [|done]. apply IH. by eapply Ready_run_act.
Qed.

Lemma Ready_new n d : Ready (newMessageQueue n d).
Proof. done. Qed.
End facts.
End MQWire.
