(* ===== verification/DontHaveTimeout.v ===== *)
(** * Simulated DONT_HAVEs (src/internal/messagequeue/donthavetimeoutmgr.go)

    A peer that does not answer a want-block in time is treated as if it had
    answered DONT_HAVE.  The manager keeps the active wants in a map and all wants
    in a queue ordered by age; both hold pointers to the same [pendingWant]
    objects, so the objects live in a store here.  Times are arguments; the
    callbacks started with [go] are returned. *)
From S2P Require Import Prelude Auth Float64.
From Stdlib Require Import SpecFloat.
From stdpp Require Import options.
Set Default Goal Selector "1".
Open Scope Z_scope.

(** A reference to a [pendingWant]. *)
Abbreviation pref := nat.

Module DHTM.
Section dhtm.
Context {CL : CidLib}.

Definition second : Duration := 10 ^ 9.
Definition dontHaveTimeout : Duration := 5 * second.
Definition maxExpectedWantProcessTime_ : Duration := 2 * second.
Definition maxTimeout_ : Duration := dontHaveTimeout + maxExpectedWantProcessTime_.
Definition pingLatencyMultiplier_ : Z := 3.
Definition messageLatencyAlpha : spec_float := F64.const 1 2.
Definition messageLatencyMultiplier_ : Z := 2.

Record pendingWant := mkPending {
  pw_c : Want;
  pw_active : bool;
  pw_sent : Time;
}.

Record latencyEwma := mkEwma {
  alpha : spec_float;
  samples : Z;
  latency : Duration;
}.

Definition ewma_update (elapsed : Duration) (le : latencyEwma) : latencyEwma :=
  let samples := uint64 (samples le + 1) in
  let a := F64.div (F64.of_Z 1) (F64.of_Z samples) in
  let a := if F64.gtb (alpha le) a then alpha le else a in
  mkEwma (alpha le) samples
    (F64.to_int (F64.add (F64.mul (F64.of_Z elapsed) a)
                         (F64.mul (F64.sub (F64.of_Z 1) a) (F64.of_Z (latency le))))).

Record dontHaveTimeoutMgr := mkDhtm {
  defaultTimeout : Duration;
  maxTimeout : Duration;
  pingLatencyMultiplier : Z;
  messageLatencyMultiplier : Z;
  maxExpectedWantProcessTime : Duration;
  started : bool;
  activeWants : gmap Want pref;
  wantQueue : list pref;
  timeout : Duration;
  messageLatency : latencyEwma;
  (** the deadline of [checkForTimeoutsTimer] while it is running *)
  timer : option Time;
  (** the timer's value was sent and [consumeTimeouts] has not run yet *)
  due : bool;
  (** the context is cancelled *)
  closed : bool;
  heap : gmap pref pendingWant;
  next : pref;
}.
Implicit Types (d : dontHaveTimeoutMgr) (w : Want) (ks : list Want) (now : Time).

Definition set_wants (aw : gmap Want pref) (wq : list pref) (h : gmap pref pendingWant) (n : pref) d
  : dontHaveTimeoutMgr :=
  mkDhtm (defaultTimeout d) (maxTimeout d) (pingLatencyMultiplier d) (messageLatencyMultiplier d)
    (maxExpectedWantProcessTime d) (started d) aw wq (timeout d) (messageLatency d) (timer d) (due d)
    (closed d) h n.
Definition set_timeout (t : Duration) (le : latencyEwma) (st : bool) d : dontHaveTimeoutMgr :=
  mkDhtm (defaultTimeout d) (maxTimeout d) (pingLatencyMultiplier d) (messageLatencyMultiplier d)
    (maxExpectedWantProcessTime d) st (activeWants d) (wantQueue d) t le (timer d) (due d)
    (closed d) (heap d) (next d).
Definition set_timer (t : option Time) (du cl : bool) d : dontHaveTimeoutMgr :=
  mkDhtm (defaultTimeout d) (maxTimeout d) (pingLatencyMultiplier d) (messageLatencyMultiplier d)
    (maxExpectedWantProcessTime d) (started d) (activeWants d) (wantQueue d) (timeout d)
    (messageLatency d) t du cl (heap d) (next d).

Definition newDontHaveTimeoutMgrWithParams (defaultTimeout maxTimeout : Duration)
    (pingMult msgMult : Z) (maxProcess : Duration) : dontHaveTimeoutMgr :=
  mkDhtm defaultTimeout maxTimeout pingMult msgMult maxProcess false ∅ [] defaultTimeout
    (mkEwma messageLatencyAlpha 0 0) None false false ∅ 0.

Definition newDontHaveTimeoutMgr : dontHaveTimeoutMgr :=
  newDontHaveTimeoutMgrWithParams dontHaveTimeout maxTimeout_ pingLatencyMultiplier_
    messageLatencyMultiplier_ maxExpectedWantProcessTime_.

(** ** Timeouts from latencies *)

Definition calculateTimeoutFromPingLatency (lat : Duration) d : Duration :=
  let t := int64 (maxExpectedWantProcessTime d + int64 (pingLatencyMultiplier d * lat)) in
  if maxTimeout d <? t then maxTimeout d else t.

Definition calculateTimeoutFromMessageLatency d : Duration :=
  let t := int64 (latency (messageLatency d) * messageLatencyMultiplier d) in
  if maxTimeout d <? t then maxTimeout d else t.

(** ** Checking *)

(** The loop of [checkForTimeouts]: the expired wants, the active wants and the
    rest of the queue. *)
Fixpoint expire now (tmo : Duration) (h : gmap pref pendingWant)
    (queue : list pref) (expired : list Want) (active : gmap Want pref)
  : list Want * gmap Want pref * list pref :=
  match queue with
  | [] => (expired, active, [])
  | i :: queue' =>
      match h !! i with
      | Some pw =>
          if pw_active pw then
            if Time_Sub now (pw_sent pw) <? tmo then (expired, active, queue)
            else expire now tmo h queue' (expired ++ [pw_c pw]) (delete (pw_c pw) active)
          else expire now tmo h queue' expired active
      | None => expire now tmo h queue' expired active
      end
  end.

(** The second result is the argument of [go fireTimeout], if it is started. *)
Definition checkForTimeouts now d : dontHaveTimeoutMgr * option (list Want) :=
  if len (wantQueue d) =? 0 then (d, None)
  else
    let '(expired, active, queue) :=
      expire now (timeout d) (heap d) (wantQueue d) [] (activeWants d) in
    let d := set_wants active queue (heap d) (next d) d in
    let fire := if 0 <? len expired then Some expired else None in
    match queue with
    | [] => (d, fire)
    | i :: _ =>
        if closed d then (d, fire)
        else
          let oldestStart := match heap d !! i with Some pw => pw_sent pw | None => Time_zero end in
          let until := Time_Sub (Time_Add oldestStart (timeout d)) now in
          (set_timer (Some (Time_Add now until)) (due d) (closed d) d, fire)
    end.

Definition fireTimeout (pending : list Want) d : list (list Want) :=
  if closed d then [] else [pending].

(** The timer's channel receives its value. *)
Definition timerFires now d : dontHaveTimeoutMgr :=
  match timer d with
  | Some t => if t <=? now then set_timer None true (closed d) d else d
  | None => d
  end.

(** One turn of [consumeTimeouts]. *)
Definition consumeTimeouts now d : dontHaveTimeoutMgr * option (list Want) :=
  if closed d || negb (due d) then (d, None)
  else checkForTimeouts now (set_timer (timer d) false (closed d) d).

(** ** Operations *)

Definition Shutdown d : dontHaveTimeoutMgr := set_timer None (due d) true d.

(** [lat] is [peerConn.Latency()]; the boolean says whether [measurePingLatency]
    is started. *)
Definition Start (lat : Duration) d : dontHaveTimeoutMgr * bool :=
  if started d then (d, false)
  else
    let d := set_timeout (timeout d) (messageLatency d) true d in
    if 0 <? lat
    then (set_timeout (calculateTimeoutFromPingLatency lat d) (messageLatency d) true d, false)
    else (d, true).

Definition UpdateMessageLatency now (elapsed : Duration) d : dontHaveTimeoutMgr * option (list Want) :=
  let d := set_timeout (timeout d) (ewma_update elapsed (messageLatency d)) (started d) d in
  let oldTimeout := timeout d in
  let d := set_timeout (calculateTimeoutFromMessageLatency d) (messageLatency d) (started d) d in
  if timeout d <? oldTimeout then checkForTimeouts now d else (d, None).

(** [pingErr] and [lat] are the results of the ping and of [Latency()]. *)
Definition measurePingLatency now (pingErr : bool) (lat : Duration) d
  : dontHaveTimeoutMgr * option (list Want) :=
  if pingErr then (d, None)
  else if 0 <? samples (messageLatency d) then (d, None)
  else
    checkForTimeouts now
      (set_timeout (calculateTimeoutFromPingLatency lat d) (messageLatency d) (started d) d).

Definition addWant (start : Time) d w : dontHaveTimeoutMgr :=
  match activeWants d !! w with
  | Some _ => d
  | None =>
      set_wants (<[w := next d]> (activeWants d)) (wantQueue d ++ [next d])
        (<[next d := mkPending w true start]> (heap d)) (S (next d)) d
  end.

(** [start] is read before the lock is taken, [now] is the time of the check. *)
Definition AddPending (start now : Time) ks d : dontHaveTimeoutMgr * option (list Want) :=
  if len ks =? 0 then (d, None)
  else
    let queueWasEmpty := (size (activeWants d) =? 0)%nat in
    let d := foldl (addWant start) d ks in
    if queueWasEmpty then checkForTimeouts now d else (d, None).

Definition cancelWant d w : dontHaveTimeoutMgr :=
  match activeWants d !! w with
  | Some i =>
      set_wants (delete w (activeWants d)) (wantQueue d)
        (alter (λ pw, mkPending (pw_c pw) false (pw_sent pw)) i (heap d)) (next d) d
  | None => d
  end.

Definition CancelPending ks d : dontHaveTimeoutMgr := foldl cancelWant d ks.
End dhtm.
End DHTM.
