(* ===== verification/DontHaveTimeoutFacts.v ===== *)
(** * Correctness of the timeout manager
      (src/internal/messagequeue/donthavetimeoutmgr.go)

    The queue is ordered by age, so one scan from its front finds exactly the
    wants that are overdue; and while a want is active a check is always
    scheduled in time for it. *)
From S2P Require Import Prelude Auth Float64 DontHaveTimeout.
Open Scope Z_scope.

Module DHTMFacts.
Import DHTM.
Section facts.
Context {CL : CidLib}.
Implicit Types (d : dontHaveTimeoutMgr) (w : Want) (ks : list Want) (now clk : Time).

Definition sentOf (h : gmap pref pendingWant) (i : pref) : Time :=
  match h !! i with Some pw => pw_sent pw | None => Time_zero end.

(** [clk] is the latest time the manager has seen. *)
Record Inv clk d : Prop := mkInv {
  inv_active : ∀ w i, activeWants d !! w = Some i →
    i ∈ wantQueue d ∧ ∃ t, heap d !! i = Some (mkPending w true t);
  inv_queue : ∀ i, i ∈ wantQueue d → (i < next d)%nat ∧
    ∃ pw, heap d !! i = Some pw ∧ pw_sent pw ≤ clk ∧
          (pw_active pw = true → activeWants d !! pw_c pw = Some i);
  inv_sorted : StronglySorted (λ i j, sentOf (heap d) i ≤ sentOf (heap d) j) (wantQueue d);
  inv_NoDup : NoDup (wantQueue d);
  inv_started : started d = false → wantQueue d = [];
}.

(** A check is scheduled, at the latest when the oldest active want is due. *)
Definition scheduled clk d : Prop :=
  closed d = false → activeWants d ≠ ∅ →
  due d = true ∨
  ∃ t, timer d = Some t ∧
       ∀ w i, activeWants d !! w = Some i → t ≤ Z.max clk (sentOf (heap d) i + timeout d).

Lemma Time_Sub_antitone now t u : t ≤ u → Time_Sub now u ≤ Time_Sub now t.
Proof. unfold Time_Sub. lia. Qed.

(** ** The scan *)

(** The wants of the active objects among [is]. *)
Definition active_of (h : gmap pref pendingWant) (ids : list pref) : list Want :=
  omap (λ i, match h !! i with
             | Some pw => if pw_active pw then Some (pw_c pw) else None
             | None => None
             end) ids.

Lemma active_of_cons h i ids :
  active_of h (i :: ids) =
    match h !! i with
    | Some pw => if pw_active pw then pw_c pw :: active_of h ids else active_of h ids
    | None => active_of h ids
    end.
Proof. unfold active_of. cbn. by repeat case_match; simplify_eq. Qed.

Lemma elem_of_active_of h ids w :
  w ∈ active_of h ids ↔ ∃ i pw, i ∈ ids ∧ h !! i = Some pw ∧ pw_active pw = true ∧ pw_c pw = w.
Proof.
  unfold active_of. rewrite list_elem_of_omap. split.
  - intros (i & Hi & E). destruct (h !! i) as [pw|] eqn:Eh; [|done].
    destruct (pw_active pw) eqn:Ea; simplify_eq. eauto 10.
  - intros (i & pw & Hi & Eh & Ea & <-). exists i. by rewrite Eh, Ea.
Qed.

Lemma expire_spec now tmo h queue expired active :
  ∃ pre post,
    queue = pre ++ post ∧
    expire now tmo h queue expired active =
      (expired ++ active_of h pre, foldl (λ m w, delete w m) active (active_of h pre), post) ∧
    (∀ i pw, i ∈ pre → h !! i = Some pw → pw_active pw = true → tmo ≤ Time_Sub now (pw_sent pw)) ∧
    (∀ i, head post = Some i →
       ∃ pw, h !! i = Some pw ∧ pw_active pw = true ∧ Time_Sub now (pw_sent pw) < tmo).
Proof.
  revert expired active. induction queue as [|i queue IH]; intros expired active; cbn [expire].
  { exists [], []. split_and!; [done|cbn; by rewrite app_nil_r|by intros ? ? ?%elem_of_nil|done]. }
  destruct (h !! i) as [pw|] eqn:E; [destruct (pw_active pw) eqn:Ea|].
  - destruct (Time_Sub now (pw_sent pw) <? tmo) eqn:Et.
    + exists [], (i :: queue). split_and!; [done|cbn; by rewrite app_nil_r|by intros ? ? ?%elem_of_nil|].
      intros j [= <-]. exists pw. split_and!; [done|done|lia].
    + destruct (IH (expired ++ [pw_c pw]) (delete (pw_c pw) active)) as (pre & post & -> & -> & H1 & H2).
      exists (i :: pre), post. rewrite active_of_cons, E, Ea, <- app_assoc.
      split_and!; [done|done| |done].
      intros j pw' [->|Hj]%elem_of_cons E' Ea'; [|eauto]. simplify_eq. lia.
  - destruct (IH expired active) as (pre & post & -> & -> & H1 & H2).
    exists (i :: pre), post. rewrite active_of_cons, E, Ea.
    split_and!; [done|done| |done].
    intros j pw' [->|Hj]%elem_of_cons E' Ea'; [|eauto]. congruence.
  - destruct (IH expired active) as (pre & post & -> & -> & H1 & H2).
    exists (i :: pre), post. rewrite active_of_cons, E.
    split_and!; [done|done| |done].
    intros j pw' [->|Hj]%elem_of_cons E' Ea'; [|eauto]. congruence.
Qed.

(** The overdue wants. *)
Definition overdue now d w : Prop :=
  ∃ i t, activeWants d !! w = Some i ∧ heap d !! i = Some (mkPending w true t) ∧
         timeout d ≤ Time_Sub now t.

Lemma NoDup_active_of h ids :
  (∀ i j pi pj, i ∈ ids → j ∈ ids → h !! i = Some pi → h !! j = Some pj →
     pw_active pi = true → pw_active pj = true → pw_c pi = pw_c pj → i = j) →
  NoDup ids → NoDup (active_of h ids).
Proof.
  intros Hinj Hn. induction Hn as [|i ids Hi Hn IH]; [constructor|].
  rewrite active_of_cons. destruct (h !! i) as [pw|] eqn:E; [destruct (pw_active pw) eqn:Ea|].
  - constructor; [|apply IH; intros; eapply Hinj; try done; by right].
    rewrite elem_of_active_of. intros (j & pj & Hj & Ej & Eaj & Ec). apply Hi.
    rewrite (Hinj i j pw pj); try done; [by left|by right].
  - apply IH. intros; eapply Hinj; try done; by right.
  - apply IH. intros; eapply Hinj; try done; by right.
Qed.

(** What a check leaves: the expired wants [ex] are exactly the overdue ones, and
    they are no longer active. *)
Record Checked now d (ex : list Want) d' : Prop := {
  ck_expired : ∀ w, w ∈ ex ↔ overdue now d w;
  ck_NoDup : NoDup ex;
  ck_active : ∀ w, activeWants d' !! w = if decide (w ∈ ex) then None else activeWants d !! w;
  ck_heap : heap d' = heap d;
  ck_timeout : timeout d' = timeout d;
  ck_closed : closed d' = closed d;
}.

Lemma scan clk now d ex act post :
  Inv clk d → expire now (timeout d) (heap d) (wantQueue d) [] (activeWants d) = (ex, act, post) →
  (∃ pre, wantQueue d = pre ++ post) ∧
  (∀ w, w ∈ ex ↔ overdue now d w) ∧ NoDup ex ∧
  (∀ w, act !! w = if decide (w ∈ ex) then None else activeWants d !! w) ∧
  (∀ w i, act !! w = Some i → i ∈ post) ∧
  (∀ i, i ∈ post → ∀ pw, heap d !! i = Some pw → pw_active pw = true → act !! pw_c pw = Some i).
Proof.
  intros [I1 I2 I3 I4 _] E.
  destruct (expire_spec now (timeout d) (heap d) (wantQueue d) [] (activeWants d))
    as (pre & post' & Eq & E' & H1 & H2).
  rewrite E' in E. cbn in E. simplify_eq.
  assert (∀ i pw, i ∈ post → heap d !! i = Some pw → Time_Sub now (pw_sent pw) < timeout d) as Hpost.
  { intros i pw Hi Ei. destruct post as [|j post]; [by apply elem_of_nil in Hi|].
    destruct (H2 j eq_refl) as (pj & Ej & _ & Hj). apply elem_of_cons in Hi as [->|Hi]; [by simplify_eq|].
    rewrite Eq in I3. apply StronglySorted_app in I3 as (_ & _ & I3).
    apply StronglySorted_inv in I3 as [_ I3]. rewrite Forall_forall in I3. specialize (I3 i Hi).
    unfold sentOf in I3. rewrite Ei, Ej in I3.
    pose proof (Time_Sub_antitone now _ _ I3). lia. }
  assert (∀ w, w ∈ active_of (heap d) pre ↔ overdue now d w) as Hex.
  { intros w. rewrite elem_of_active_of. unfold overdue. split.
    - intros (i & pw & Hi & Ei & Ea & <-).
      destruct (I2 i) as (_ & pw' & Ei' & _ & Hact); [rewrite Eq; set_solver|]. simplify_eq.
      exists i, (pw_sent pw). split_and!; [by apply Hact| |by eapply H1].
      rewrite Ei. destruct pw. cbn in *. by rewrite Ea.
    - intros (i & t & Ew & Ei & Ht). destruct (I1 _ _ Ew) as [Hi _].
      rewrite Eq, elem_of_app in Hi. destruct Hi as [Hi|Hi]; [eauto 10|].
      specialize (Hpost i _ Hi Ei). cbn in Hpost. lia. }
  split_and!.
  - eauto.
  - done.
  - apply NoDup_active_of; [|rewrite Eq in I4; by apply NoDup_app in I4 as (? & _ & _)].
    intros i j pi pj Hi Hj Ei Ej Eai Eaj Ec.
    destruct (I2 i) as (_ & ? & ? & _ & A1); [rewrite Eq; set_solver|].
    destruct (I2 j) as (_ & ? & ? & _ & A2); [rewrite Eq; set_solver|]. simplify_eq.
    specialize (A1 Eai). specialize (A2 Eaj). rewrite Ec in A1. congruence.
  - intros w. rewrite (lookup_foldl_delete (λ w, w)). by rewrite list_fmap_id.
  - intros w i. rewrite (lookup_foldl_delete (λ w, w)), list_fmap_id. case_decide as Hd; [done|].
    intros Ew. destruct (I1 _ _ Ew) as [Hi (t & Ei)]. rewrite Eq, elem_of_app in Hi.
    destruct Hi as [Hi|Hi]; [|done]. destruct Hd. apply elem_of_active_of. eauto 10.
  - intros i Hi pw Ei Ea. rewrite (lookup_foldl_delete (λ w, w)), list_fmap_id.
    destruct (I2 i) as (_ & pw' & Ei' & _ & Hact); [rewrite Eq; set_solver|]. simplify_eq.
    rewrite decide_False; [by apply Hact|]. rewrite Hex. intros (j & t & Ew & Ej & Ht).
    pose proof (Hpost _ _ Hi Ei) as Hlt. rewrite (Hact Ea) in Ew. injection Ew as <-.
    rewrite Ei in Ej. apply (f_equal (option_map pw_sent)) in Ej. cbn in Ej. injection Ej as Ej.
    rewrite Ej in Hlt. lia.
Qed.

(** ** Preservation *)

Lemma sorted_ext {A} (P Q : relation A) (l : list A) :
  (∀ x y, x ∈ l → y ∈ l → P x y → Q x y) → StronglySorted P l → StronglySorted Q l.
Proof.
  intros HPQ Hl. induction Hl as [|x l Hl IH Hx]; constructor.
  - apply IH. intros y z Hy Hz. apply HPQ; by right.
  - rewrite Forall_forall in *. intros y Hy. apply HPQ; [by left|by right|auto].
Qed.

Lemma Inv_ext clk now d d' :
  clk ≤ now → activeWants d' = activeWants d → wantQueue d' = wantQueue d → heap d' = heap d →
  next d' = next d → (started d' = false → started d = false) → Inv clk d → Inv now d'.
Proof.
  intros Hc E1 E2 E3 E4 E5 [I1 I2 I3 I4 I5].
  split; rewrite ?E1, ?E2, ?E3, ?E4; try done; [|by auto].
  intros i Hi. destruct (I2 i Hi) as (? & pw & ? & ? & ?). split; [done|]. exists pw.
  split_and!; [done|lia|done].
Qed.

(** The state differs only in fields the invariant does not mention. *)
Ltac inv_ext :=
  match goal with H : Inv ?c ?d |- Inv _ _ => solve [apply (Inv_ext c _ d); [lia|done..]] end.

Lemma scheduled_ext clk now d d' :
  clk ≤ now → activeWants d' = activeWants d → heap d' = heap d → timer d' = timer d →
  due d' = due d → closed d' = closed d → timeout d ≤ timeout d' → scheduled clk d → scheduled now d'.
Proof.
  unfold scheduled. intros Hc -> -> -> -> -> Ht Hs H1 H2.
  destruct (Hs H1 H2) as [?|(t & E & Hb)]; [by left|right]. exists t. split; [done|].
  intros w i Hw. specialize (Hb w i Hw). lia.
Qed.

Lemma empty_queue clk d : Inv clk d → wantQueue d = [] → activeWants d = ∅.
Proof.
  intros HI E. apply map_eq. intros w. rewrite lookup_empty.
  destruct (activeWants d !! w) as [i|] eqn:Ew; [|done].
  destruct (inv_active _ _ HI _ _ Ew) as [Hi _]. rewrite E in Hi. by apply elem_of_nil in Hi.
Qed.

Lemma checkForTimeouts_spec clk now d :
  clk ≤ now → Inv clk d →
  let r := checkForTimeouts now d in
  Inv now r.1 ∧ scheduled now r.1 ∧ Checked now d (default [] r.2) r.1.
Proof.
  intros Hc HI. cbn zeta. unfold checkForTimeouts.
  destruct (len (wantQueue d) =? 0) eqn:El.
  { apply len_eqb_nil in El. pose proof (empty_queue _ _ HI El) as Ea. cbn. split_and!.
    - inv_ext.
    - intros _ Hn. by rewrite Ea in Hn.
    - split; [| | |done..]; [|constructor|].
      + intros w. rewrite elem_of_nil. split; [done|]. intros (i & t & Hw & _).
        rewrite Ea in Hw. by rewrite lookup_empty in Hw.
      + intros w. by rewrite decide_False by apply not_elem_of_nil. }
  destruct (expire _ _ _ _ _ _) as [[ex act] post] eqn:Ee.
  destruct (scan clk now d ex act post HI Ee) as ((pre & Eq) & S1 & S2 & S3 & S4 & S5).
  set (d1 := set_wants act post (heap d) (next d) d).
  assert (Inv now d1) as HI1.
  { destruct HI as [I1 I2 I3 I4 I5]. split; cbn.
    - intros w i Hw. split; [by eapply S4|]. rewrite S3 in Hw. case_decide; [done|]. by apply I1.
    - intros i Hi. destruct (I2 i) as (? & pw & Ei & ? & ?); [rewrite Eq; set_solver|].
      split; [done|]. exists pw. split_and!; [done|lia|]. intros Ha. by eapply S5.
    - rewrite Eq in I3. by apply StronglySorted_app in I3 as (_ & _ & ?).
    - rewrite Eq in I4. by apply NoDup_app in I4 as (_ & _ & ?).
    - intros Hs. specialize (I5 Hs). rewrite Eq in I5. by apply app_eq_nil in I5 as [_ ->]. }
  assert (Checked now d (default [] (if 0 <? len ex then Some ex else None)) d1) as HC.
  { replace (default [] (if 0 <? len ex then Some ex else None)) with ex; [by split|].
    destruct (0 <? len ex) eqn:E0; [done|]. cbn. apply dec_stable. intros ?%len_pos. congruence. }
  destruct post as [|i post]; [|destruct (closed d1) eqn:Ecl].
  - cbn [fst snd]. split_and!; [done| |done]. intros _ Hn. by rewrite (empty_queue _ _ HI1) in Hn.
  - cbn [fst snd]. split_and!; [done| |done]. intros Hcl. congruence.
  - cbn [fst snd]. split_and!; [apply (Inv_ext now now d1); [lia|done..]| |by destruct HC].
    intros _ _. right. eexists. split; [done|]. cbn. intros w j Hw.
    fold (sentOf (heap d) i). pose proof (S4 w j Hw) as Hj.
    assert (sentOf (heap d) i ≤ sentOf (heap d) j) as Hle.
    { pose proof (inv_sorted _ _ HI1) as I3. cbn in I3. apply elem_of_cons in Hj as [->|Hj]; [done|].
      apply StronglySorted_inv in I3 as [_ I3]. rewrite Forall_forall in I3. by apply I3. }
    unfold Time_Add, Time_Sub. lia.
Qed.

(** Adding a want at a time no earlier than any before. *)
Lemma Inv_addWant clk start d w :
  clk ≤ start → started d = true → Inv clk d → Inv start (addWant start d w).
Proof.
  intros Hc Hst HI. unfold addWant. destruct (activeWants d !! w) as [i|] eqn:Ew.
  { inv_ext. }
  destruct HI as [I1 I2 I3 I4 I5].
  assert (∀ i, i ∈ wantQueue d → next d ≠ i) as Hne.
  { intros i Hi <-. destruct (I2 _ Hi). lia. }
  split; cbn.
  - intros w' i. rewrite lookup_insert. case_decide as E.
    + intros [= <-]. subst. split; [set_solver|]. rewrite lookup_insert_eq. eauto.
    + intros Hw. destruct (I1 _ _ Hw) as [Hi (t & Ei)]. split; [set_solver|].
      rewrite lookup_insert_ne by auto. eauto.
  - intros i [Hi| ->]%elem_of_snoc.
    + destruct (I2 i Hi) as (Hlt & pw & Ei & Hs & Ha). split; [lia|]. exists pw.
      rewrite lookup_insert_ne by auto. split_and!; [done|lia|]. intros Hact. specialize (Ha Hact).
      rewrite lookup_insert_ne; [done|]. congruence.
    + split; [lia|]. exists (mkPending w true start). rewrite lookup_insert_eq. cbn.
      split_and!; [done|lia|]. intros _. by rewrite lookup_insert_eq.
  - apply StronglySorted_app. split_and!.
    + intros i j Hi ->%list_elem_of_singleton. unfold sentOf.
      rewrite lookup_insert_eq, lookup_insert_ne by auto. cbn.
      destruct (I2 i Hi) as (_ & pw & -> & Hs & _). lia.
    + eapply sorted_ext; [|apply I3]. cbn. intros i j Hi Hj. unfold sentOf.
      by rewrite !lookup_insert_ne by auto.
    + repeat constructor.
  - apply NoDup_app. split_and!; [done| |apply NoDup_singleton].
    intros i Hi ->%list_elem_of_singleton. by destruct (Hne _ Hi).
  - congruence.
Qed.

(** The fields [addWant] leaves alone, and what it adds. *)
Lemma addWants_frame start ks d :
  let d' := foldl (addWant start) d ks in
  started d' = started d ∧ timer d' = timer d ∧ due d' = due d ∧ closed d' = closed d ∧
  timeout d' = timeout d.
Proof.
  cbn zeta. apply (foldl_inv_simple (λ d', started d' = started d ∧ timer d' = timer d ∧
    due d' = due d ∧ closed d' = closed d ∧ timeout d' = timeout d)); [done|].
  intros d' w _ H. unfold addWant. by case_match.
Qed.

Lemma Inv_addWants clk start ks d :
  clk ≤ start → started d = true → Inv clk d → Inv start (foldl (addWant start) d ks).
Proof.
  intros Hc Hs HI.
  apply (foldl_inv_simple (λ d', started d' = true ∧ Inv start d')); [split; [done|inv_ext]|].
  intros d' w _ [Hs' HI']. split; [unfold addWant; by case_match|]. by apply (Inv_addWant start).
Qed.

(** An active want is an old one or was sent just now. *)
Lemma addWants_active start ks d clk w i :
  Inv clk d → activeWants (foldl (addWant start) d ks) !! w = Some i →
  activeWants d !! w = Some i ∧ sentOf (heap (foldl (addWant start) d ks)) i = sentOf (heap d) i ∨
  sentOf (heap (foldl (addWant start) d ks)) i = start.
Proof.
  intros HI.
  set (P := λ d', (next d ≤ next d')%nat ∧
    (∀ i, (i < next d)%nat → heap d' !! i = heap d !! i) ∧
    (∀ i, (next d ≤ i < next d')%nat → sentOf (heap d') i = start) ∧
    ∀ w i, activeWants d' !! w = Some i →
      activeWants d !! w = Some i ∨ (next d ≤ i < next d')%nat).
  assert (P (foldl (addWant start) d ks)) as (_ & P2 & P3 & P4).
  { apply foldl_inv_simple; [by split_and!; auto; lia|].
    intros d' k _ (H1 & H2 & H3 & H4). unfold addWant. destruct (activeWants d' !! k); [done|].
    split_and!; cbn.
    - lia.
    - intros j Hj. rewrite lookup_insert_ne by lia. by apply H2.
    - intros j Hj. unfold sentOf. rewrite lookup_insert. case_decide; [done|]. apply H3. lia.
    - intros k' j. rewrite lookup_insert. case_decide; [intros [= <-]; right; lia|].
      intros Hk. destruct (H4 _ _ Hk); [by left|right; lia]. }
  intros Hw. destruct (P4 _ _ Hw) as [Hold|Hnew]; [left|right; by apply P3].
  split; [done|]. unfold sentOf. rewrite P2; [done|].
  destruct (inv_active _ _ HI _ _ Hold) as [Hi _]. by destruct (inv_queue _ _ HI i Hi).
Qed.

Lemma Inv_cancelWant clk d w : Inv clk d → Inv clk (cancelWant d w).
Proof.
  intros HI. unfold cancelWant. destruct (activeWants d !! w) as [i|] eqn:Ew; [|done].
  destruct HI as [I1 I2 I3 I4 I5]. destruct (I1 _ _ Ew) as [Hi (t & Ei)].
  assert (∀ j, sentOf (alter (λ pw, mkPending (pw_c pw) false (pw_sent pw)) i (heap d)) j =
               sentOf (heap d) j) as Hsent.
  { intros j. unfold sentOf. rewrite lookup_alter. case_decide; [|done]. subst. by rewrite Ei. }
  split; cbn; [| | |done|done].
  - intros w' j. rewrite lookup_delete. case_decide; [done|]. intros Hw.
    destruct (I1 _ _ Hw) as [Hj (t' & Ej)]. split; [done|]. rewrite lookup_alter_ne; [eauto|].
    congruence.
  - intros j Hj. destruct (I2 j Hj) as (Hlt & pw & Ej & Hs & Ha). split; [done|].
    rewrite lookup_alter. case_decide as Eij.
    + subst j. rewrite Ei. cbn. eexists. split; [done|]. cbn. rewrite Ei in Ej. by simplify_eq.
    + exists pw. split_and!; [done|done|]. intros Hact. rewrite lookup_delete_ne; [auto|].
      intros ->. specialize (Ha Hact). congruence.
  - eapply sorted_ext; [|apply I3]. cbn. intros j k _ _. by rewrite !Hsent.
Qed.

Lemma scheduled_cancelWant clk d w : Inv clk d → scheduled clk d → scheduled clk (cancelWant d w).
Proof.
  intros HI Hs. unfold cancelWant. destruct (activeWants d !! w) as [i|] eqn:Ew; [|done].
  destruct (inv_active _ _ HI _ _ Ew) as [_ (t & Ei)].
  intros H1 H2. cbn in *. destruct (Hs H1) as [?|(tm & E & Hb)]; [|by left|right].
  { intros E. rewrite E in Ew. by rewrite lookup_empty in Ew. }
  exists tm. split; [done|]. intros w' j. rewrite lookup_delete. case_decide; [done|]. intros Hw.
  specialize (Hb _ _ Hw). unfold sentOf in *. rewrite lookup_alter. case_decide; [|done].
  subst. by rewrite Ei in *.
Qed.

(** ** Runs

    The manager with the latest time it has seen.  [MessageQueue.sendMessage]
    calls [Start] before the first [AddPending]. *)
Inductive step : relation (Time * dontHaveTimeoutMgr) :=
| st_AddPending clk start now ks d :
    clk ≤ start → start ≤ now → started d = true →
    step (clk, d) (now, (AddPending start now ks d).1)
| st_CancelPending clk ks d : step (clk, d) (clk, CancelPending ks d)
| st_UpdateMessageLatency clk now el d :
    clk ≤ now → step (clk, d) (now, (UpdateMessageLatency now el d).1)
| st_measurePing clk now err lat d :
    clk ≤ now → step (clk, d) (now, (measurePingLatency now err lat d).1)
| st_Start clk lat d : step (clk, d) (clk, (Start lat d).1)
| st_timerFires clk now d : clk ≤ now → step (clk, d) (now, timerFires now d)
| st_consume clk now d : clk ≤ now → step (clk, d) (now, (consumeTimeouts now d).1)
| st_Shutdown clk d : step (clk, d) (clk, Shutdown d).

Lemma AddPending_good clk start now ks d :
  clk ≤ start → start ≤ now → started d = true → Inv clk d → scheduled clk d →
  Inv now (AddPending start now ks d).1 ∧ scheduled now (AddPending start now ks d).1.
Proof.
  intros H1 H2 Hst HI Hs. unfold AddPending. destruct (len ks =? 0) eqn:El.
  { split; [inv_ext|]. eapply (scheduled_ext clk); done || lia. }
  pose proof (Inv_addWants clk start ks d H1 Hst HI) as HI'.
  destruct (addWants_frame start ks d) as (F1 & F2 & F3 & F4 & F5).
  destruct (size (activeWants d) =? 0)%nat eqn:Es.
  { destruct (checkForTimeouts_spec start now _ H2 HI') as (C1 & C2 & _). done. }
  cbn [fst]. split; [inv_ext|]. intros Hcl Hne.
  assert (activeWants d ≠ ∅) as (w0 & i0 & Hw0)%map_choose.
  { intros E. by rewrite E, map_size_empty in Es. }
  destruct Hs as [Hd|(t & Et & Hb)]; [congruence| |left; congruence|right].
  { intros E. rewrite E in Hw0. by rewrite lookup_empty in Hw0. }
  exists t. split; [congruence|]. intros w i Hw. rewrite F5.
  destruct (addWants_active start ks d clk w i HI Hw) as [[Hold ->]| ->].
  - specialize (Hb _ _ Hold). lia.
  - specialize (Hb _ _ Hw0). destruct (inv_active _ _ HI _ _ Hw0) as [Hi0 _].
    destruct (inv_queue _ _ HI i0 Hi0) as (_ & pw & E0 & Hle & _). unfold sentOf in Hb.
    rewrite E0 in Hb. lia.
Qed.

Lemma step_good x y :
  step x y → Inv x.1 x.2 → scheduled x.1 x.2 → Inv y.1 y.2 ∧ scheduled y.1 y.2.
Proof.
  destruct 1 as [clk start now ks d H1 H2 H3|clk ks d|clk now el d H|clk now err lat d H|clk lat d
                |clk now d H|clk now d H|clk d]; cbn [fst snd]; intros HI Hs.
  - by eapply AddPending_good.
  - unfold CancelPending. apply (foldl_inv_simple (λ d, Inv clk d ∧ scheduled clk d)); [done|].
    intros d' w _ [? ?]. split; [by apply Inv_cancelWant|by apply scheduled_cancelWant].
  - unfold UpdateMessageLatency. set (d1 := set_timeout (timeout d) _ _ d).
    set (d2 := set_timeout (calculateTimeoutFromMessageLatency d1) _ _ d1).
    assert (Inv clk d2) as HI2 by inv_ext.
    destruct (timeout d2 <? timeout d1) eqn:El.
    + by destruct (checkForTimeouts_spec clk now d2 H HI2) as (? & ? & _).
    + split; [inv_ext|]. apply Z.ltb_ge in El. by apply (scheduled_ext clk now d d2).
  - unfold measurePingLatency.
    assert (Inv now d ∧ scheduled now d) as Hd
      by (split; [inv_ext|eapply (scheduled_ext clk); done || lia]).
    destruct err; [done|]. destruct (0 <? _); [done|].
    match goal with |- context [checkForTimeouts now ?d1] =>
      destruct (checkForTimeouts_spec clk now d1) as (? & ? & _); [done|inv_ext|done] end.
  - unfold Start. destruct (started d) eqn:E; [done|].
    pose proof (empty_queue _ _ HI (inv_started _ _ HI E)) as Ea.
    destruct (0 <? lat); (split; [inv_ext|]); intros _ Hn; cbn in Hn; by rewrite Ea in Hn.
  - unfold timerFires. destruct (timer d) as [t|] eqn:Et.
    + destruct (t <=? now); (split; [inv_ext|]).
      * intros _ _. by left.
      * eapply (scheduled_ext clk); done || lia.
    + split; [inv_ext|eapply (scheduled_ext clk); done || lia].
  - unfold consumeTimeouts. destruct (_ || _).
    + split; [inv_ext|eapply (scheduled_ext clk); done || lia].
    + match goal with |- context [checkForTimeouts now ?d1] =>
      destruct (checkForTimeouts_spec clk now d1) as (? & ? & _); [done|inv_ext|done] end.
  - split; [inv_ext|]. intros Hc. by cbn in Hc.
Qed.

Lemma timeouts_reachable_good x y :
  rtc step x y → Inv x.1 x.2 → scheduled x.1 x.2 → Inv y.1 y.2 ∧ scheduled y.1 y.2.
Proof.
  induction 1 as [|x y z Hst _ IH]; [done|]. intros HI Hs.
  destruct (step_good _ _ Hst HI Hs). by apply IH.
Qed.

Lemma new_good clk a b m n t :
  Inv clk (newDontHaveTimeoutMgrWithParams a b m n t) ∧
  scheduled clk (newDontHaveTimeoutMgrWithParams a b m n t).
Proof.
  split; [|by intros _ Hn].
  split; cbn; [intros w i; by rewrite lookup_empty|by intros i ?%elem_of_nil|constructor|constructor|done].
Qed.

(** Timeouts never exceed the configured maximum. *)
Lemma calculateTimeout_max lat d :
  calculateTimeoutFromPingLatency lat d ≤ maxTimeout d ∧
  calculateTimeoutFromMessageLatency d ≤ maxTimeout d.
Proof.
  unfold calculateTimeoutFromPingLatency, calculateTimeoutFromMessageLatency.
  split; case_match; lia.
Qed.
End facts.
End DHTMFacts.
