(* ===== verification/ProviderQuery.v ===== *)
(** * Searching for providers
      (src/internal/providerquerymanager/providerquerymanager.go)

    [ProviderQueryManager] answers [FindProvidersAsync]: it joins callers that
    search for the same cid, runs at most six searches at a time and hands each
    caller the providers that could be connected.  Its run loop handles messages;
    a buffer worker queues requests; six workers search; and each caller has a
    goroutine ([receiveProviders]) that queues what it is told.

    A listener channel is a number; [closedChans] holds the closed ones.  The
    channel is unbuffered, so a send is a rendezvous with the caller's goroutine:
    [send] is [None] when the send would panic (closed channel) or when no
    goroutine would ever take the value; [close_chan] is [None] when closing would
    panic.  The other unbuffered channels are handed over to a goroutine that is
    always ready, and are part of the step that sends.  What the network answers
    (the providers found, whether connecting works, the end of a search) and when
    a session is cancelled are inputs of the steps.  [findProviderCtx] and its
    timeout only tell the network to stop, so of a request's context only its
    cancellation is kept.  The model covers the time until the manager's own
    context is cancelled, and [cleanupInProcessRequests] at that moment. *)
From S2P Require Import Prelude Auth.
From stdpp Require Import options.
Set Default Goal Selector "1".

Module PQM.
Section pqm.
Context {CL : CidLib} {GO : GoRuntime}.

Definition maxInProcessRequests : nat := 6.
Definition messagesBufferSize : Z := 16.

Record inProgressRequestStatus := mkStatus {
  st_ctx : nat;
  providersSoFar : list PeerID;
  listeners : gset nat;
}.

Record findProviderRequest := mkRequest {
  fpr_k : Cid;
  fpr_ctx : nat;
}.

Inductive providerQueryMessage :=
| receivedProviderMessage (k : Cid) (p : PeerID)
| finishedProviderQueryMessage (k : Cid)
| newProvideQueryMessage (k : Cid)
| cancelRequestMessage (incomingProviders : nat) (k : Cid).

(** The goroutine of [receiveProviders]: in its loop, in
    [cancelProviderRequest] (the flag says whether the message is sent), or
    returned. *)
Inductive rmode := Running | Cancelling (sent : bool) | Returned.
#[global] Instance rmode_eq_dec : EqDecision rmode.
Proof. solve_decision. Defined.

Record receiver := mkReceiver {
  rc_k : Cid;
  receivedProviders : list PeerID;
  incomingOpen : bool;                 (* [incomingProviders != nil] *)
  mode : rmode;
  returned : list PeerID;              (* what the caller has read *)
}.

(** A [findProviderWorker] at work: the request, the providers it is connecting
    to, and whether the network's channel is still open. *)
Record search := mkSearch {
  sr_req : findProviderRequest;
  connecting : list PeerID;
  searching : bool;
}.

Record ProviderQueryManager := mkPQM {
  providerQueryMessages : list providerQueryMessage;
  statuses : gmap Cid inProgressRequestStatus;
  requestBuffer : list findProviderRequest;
  workers : list (option search);
  receivers : gmap nat receiver;
  closedChans : gset nat;
  cancelled : gset nat;                (* contexts *)
  fresh : nat;                         (* the next channel and context *)
}.
Implicit Types (s : ProviderQueryManager) (k : Cid) (p : PeerID) (l : nat).

Definition New : ProviderQueryManager :=
  {| providerQueryMessages := []; statuses := ∅; requestBuffer := [];
     workers := repeat None maxInProcessRequests; receivers := ∅; closedChans := ∅;
     cancelled := ∅; fresh := 0 |}.

Definition set_messages x s := mkPQM x (statuses s) (requestBuffer s) (workers s) (receivers s)
  (closedChans s) (cancelled s) (fresh s).
Definition set_statuses x s := mkPQM (providerQueryMessages s) x (requestBuffer s) (workers s) (receivers s)
  (closedChans s) (cancelled s) (fresh s).
Definition set_buffer x s := mkPQM (providerQueryMessages s) (statuses s) x (workers s) (receivers s)
  (closedChans s) (cancelled s) (fresh s).
Definition set_workers x s := mkPQM (providerQueryMessages s) (statuses s) (requestBuffer s) x (receivers s)
  (closedChans s) (cancelled s) (fresh s).
Definition set_receivers x s := mkPQM (providerQueryMessages s) (statuses s) (requestBuffer s) (workers s) x
  (closedChans s) (cancelled s) (fresh s).
Definition set_closed x s := mkPQM (providerQueryMessages s) (statuses s) (requestBuffer s) (workers s)
  (receivers s) x (cancelled s) (fresh s).
Definition set_cancelled x s := mkPQM (providerQueryMessages s) (statuses s) (requestBuffer s) (workers s)
  (receivers s) (closedChans s) x (fresh s).
Definition set_fresh x s := mkPQM (providerQueryMessages s) (statuses s) (requestBuffer s) (workers s)
  (receivers s) (closedChans s) (cancelled s) x.

(** ** Channels *)

Definition room s : bool := (len (providerQueryMessages s) <? messagesBufferSize)%Z.
Definition post (m : providerQueryMessage) s : option ProviderQueryManager :=
  if room s then Some (set_messages (providerQueryMessages s ++ [m]) s) else None.

(** What a caller's goroutine does with a value it receives. *)
Definition receive p (r : receiver) : option receiver :=
  match mode r with
  | Running =>
      if incomingOpen r
      then Some (mkReceiver (rc_k r) (receivedProviders r ++ [p]) (incomingOpen r) Running (returned r))
      else None
  | Cancelling _ => Some r
  | Returned => None
  end.

Definition send p s l : option ProviderQueryManager :=
  if decide (l ∈ closedChans s) then None
  else r ← receivers s !! l; r' ← receive p r; Some (set_receivers (<[l := r']> (receivers s)) s).

Definition close_chan s l : option ProviderQueryManager :=
  if decide (l ∈ closedChans s) then None else Some (set_closed ({[l]} ∪ closedChans s) s).

Definition each (f : ProviderQueryManager → nat → option ProviderQueryManager) (ls : list nat) s
  : option ProviderQueryManager :=
  foldl (λ o l, s ← o; f s l) (Some s) ls.

Definition cancelFn (ctx : nat) s : ProviderQueryManager := set_cancelled ({[ctx]} ∪ cancelled s) s.

(** ** The handlers of the run loop *)

Definition handle_received k p s : option ProviderQueryManager :=
  match statuses s !! k with
  | None => Some s
  | Some st =>
      let st := mkStatus (st_ctx st) (providersSoFar st ++ [p]) (listeners st) in
      let s := set_statuses (<[k := st]> (statuses s)) s in
      each (send p) (keys (listeners st)) s
  end.

Definition handle_finished k s : option ProviderQueryManager :=
  match statuses s !! k with
  | None => Some s
  | Some st =>
      s ← each close_chan (keys (listeners st)) s;
      Some (cancelFn (st_ctx st) (set_statuses (delete k (statuses s)) s))
  end.

(** The request goes to the buffer worker, and the new listener to the waiting
    caller, who starts its goroutine. *)
Definition add_listener k (st : inProgressRequestStatus) s : ProviderQueryManager :=
  let l := fresh s in
  let s := set_fresh (S l) s in
  let s := set_statuses (<[k := mkStatus (st_ctx st) (providersSoFar st) ({[l]} ∪ listeners st)]> (statuses s)) s in
  set_receivers (<[l := mkReceiver k (providersSoFar st) true Running []]> (receivers s)) s.

Definition handle_new k s : option ProviderQueryManager :=
  match statuses s !! k with
  | Some st => Some (add_listener k st s)
  | None =>
      let ctx := fresh s in
      let s := set_fresh (S ctx) s in
      let s := set_buffer (requestBuffer s ++ [mkRequest k ctx]) s in
      Some (add_listener k (mkStatus ctx [] ∅) s)
  end.

Definition handle_cancel l k s : option ProviderQueryManager :=
  match statuses s !! k with
  | None => Some s
  | Some st =>
      if decide (l ∈ listeners st) then
        let ls := listeners st ∖ {[l]} in
        s ← close_chan s l;
        let s := set_statuses (<[k := mkStatus (st_ctx st) (providersSoFar st) ls]> (statuses s)) s in
        if decide (ls = ∅) then Some (cancelFn (st_ctx st) (set_statuses (delete k (statuses s)) s)) else Some s
      else Some s
  end.

Definition handle (m : providerQueryMessage) s : option ProviderQueryManager :=
  match m with
  | receivedProviderMessage k p => handle_received k p s
  | finishedProviderQueryMessage k => handle_finished k s
  | newProvideQueryMessage k => handle_new k s
  | cancelRequestMessage l k => handle_cancel l k s
  end.

(** One iteration of [run] that takes a message; [None] when there is none, or
    when the handler panics or never returns. *)
Definition run_message s : option ProviderQueryManager :=
  match providerQueryMessages s with
  | [] => None
  | m :: rest => handle m (set_messages rest s)
  end.

(** The last act of [run]. *)
Definition cleanupInProcessRequests s : option ProviderQueryManager :=
  foldl (λ o x, s ← o; s ← each close_chan (keys (listeners x.2)) s; Some (cancelFn (st_ctx x.2) s))
    (Some s) (range (statuses s)).

(** ** Callers *)

(** The first half of [FindProvidersAsync]. *)
Definition FindProvidersAsync k s : option ProviderQueryManager := post (newProvideQueryMessage k) s.

Definition with_receiver l (f : receiver → option receiver) s : option ProviderQueryManager :=
  r ← receivers s !! l; r' ← f r; Some (set_receivers (<[l := r']> (receivers s)) s).

(** The loop ends when nothing is queued and the channel is gone. *)
Definition loop_end (r : receiver) : receiver :=
  match receivedProviders r, incomingOpen r with
  | [], false => mkReceiver (rc_k r) [] false Returned (returned r)
  | _, _ => r
  end.

(** The caller reads the next provider. *)
Definition read_provider l s : option ProviderQueryManager :=
  with_receiver l (λ r,
    match mode r, receivedProviders r with
    | Running, p :: ps => Some (loop_end (mkReceiver (rc_k r) ps (incomingOpen r) Running (returned r ++ [p])))
    | _, _ => None
    end) s.

(** The goroutine sees that its channel is closed. *)
Definition see_closed l s : option ProviderQueryManager :=
  if decide (l ∈ closedChans s) then
    with_receiver l (λ r,
      match mode r with
      | Running =>
          if incomingOpen r
          then Some (loop_end (mkReceiver (rc_k r) (receivedProviders r) false Running (returned r)))
          else None
      | Cancelling sent => Some (mkReceiver (rc_k r) (receivedProviders r) (incomingOpen r) Returned (returned r))
      | Returned => None
      end) s
  else None.

(** The session is cancelled. *)
Definition session_done l s : option ProviderQueryManager :=
  with_receiver l (λ r,
    match mode r with
    | Running => Some (mkReceiver (rc_k r) (receivedProviders r) (incomingOpen r)
                         (if incomingOpen r then Cancelling false else Returned) (returned r))
    | _ => None
    end) s.

(** [cancelProviderRequest] sends its message. *)
Definition cancelProviderRequest l s : option ProviderQueryManager :=
  r ← receivers s !! l;
  match mode r with
  | Cancelling false =>
      s ← post (cancelRequestMessage l (rc_k r)) s;
      Some (set_receivers (<[l := mkReceiver (rc_k r) (receivedProviders r) (incomingOpen r)
                                    (Cancelling true) (returned r)]> (receivers s)) s)
  | _ => None
  end.

(** ** Workers *)

(** The buffer worker hands its oldest request to an idle worker. *)
Definition dispatch (i : nat) s : option ProviderQueryManager :=
  match requestBuffer s, workers s !! i with
  | r :: rest, Some None => Some (set_workers (<[i := Some (mkSearch r [] true)]> (workers s)) (set_buffer rest s))
  | _, _ => None
  end.

Definition with_search (i : nat) (f : search → option (option search * list providerQueryMessage)) s
  : option ProviderQueryManager :=
  match workers s !! i with
  | Some (Some w) =>
      '(w', ms) ← f w;
      let s := set_workers (<[i := w']> (workers s)) s in
      match ms with [] => Some s | m :: _ => post m s end
  | _ => None
  end.

(** The network finds a provider; connecting to it ends (with or without an
    error); the search ends; the worker reports and is idle again. *)
Definition provider_found (i : nat) p s : option ProviderQueryManager :=
  with_search i (λ w, if searching w then Some (Some (mkSearch (sr_req w) (connecting w ++ [p]) true), []) else None) s.
Definition connect_done (i j : nat) (ok : bool) s : option ProviderQueryManager :=
  with_search i (λ w,
    p ← connecting w !! j;
    Some (Some (mkSearch (sr_req w) (list_delete j (connecting w)) (searching w)),
          if ok then [receivedProviderMessage (fpr_k (sr_req w)) p] else [])) s.
Definition search_ended (i : nat) s : option ProviderQueryManager :=
  with_search i (λ w, if searching w then Some (Some (mkSearch (sr_req w) (connecting w) false), []) else None) s.
Definition search_finished (i : nat) s : option ProviderQueryManager :=
  with_search i (λ w,
    if searching w then None
    else match connecting w with
         | [] => Some (None, [finishedProviderQueryMessage (fpr_k (sr_req w))])
         | _ => None
         end) s.
End pqm.
End PQM.
