(* ===== verification/ProviderQueryFacts.v ===== *)
(** * Correctness of the provider search
      (src/internal/providerquerymanager/providerquerymanager.go)

    The manager as a state machine: no handler panics or blocks, every caller is
    told the same providers in the same order, only connected providers are
    handed out, and nobody waits for a search that is not under way. *)
From S2P Require Import Prelude Auth ProviderQuery.
From stdpp Require Import options.
Set Default Goal Selector "1".

Module PQMFacts.
Import PQM.
Section facts.
Context {CL : CidLib} {GO : GoRuntime}.
Implicit Types (s : ProviderQueryManager) (k : Cid) (p : PeerID) (l : nat).
Abbreviation history := (list (Cid * PeerID)).

(** ** Loops over listeners *)

Lemma each_cons f l ls s : each f (l :: ls) s = f s l ≫= each f ls.
Proof.
  unfold each. cbn. destruct (f s l) as [s'|]; [done|]. cbn. induction ls as [|l' ls IH]; [done|]. by cbn.
Qed.

Lemma send_ok p s l r r' :
  l ∉ closedChans s → receivers s !! l = Some r → receive p r = Some r' →
  send p s l = Some (set_receivers (<[l := r']> (receivers s)) s).
Proof. intros Hc Er Er'. unfold send. rewrite decide_False by done. rewrite Er. cbn. by rewrite Er'. Qed.

Lemma each_send p ls s :
  NoDup ls →
  (∀ l, l ∈ ls → l ∉ closedChans s ∧ ∃ r, receivers s !! l = Some r ∧ is_Some (receive p r)) →
  ∃ R, each (send p) ls s = Some (set_receivers R s) ∧
    ∀ l, R !! l = if decide (l ∈ ls) then receivers s !! l ≫= receive p else receivers s !! l.
Proof.
  revert s. induction ls as [|l ls IH]; intros s Hnd Hok.
  { exists (receivers s). split; [by destruct s|]. intros l. case_decide as Hin; [by apply not_elem_of_nil in Hin|done]. }
  apply NoDup_cons in Hnd as [Hl Hnd]. destruct (Hok l) as (Hc & r & Er & r' & Er'); [left|].
  rewrite each_cons, (send_ok p s l r r') by done. cbn [option_bind mbind option_bind].
  set (s1 := set_receivers _ s). destruct (IH s1) as (R & ER & HR).
  - done.
  - intros l' Hl'. destruct (Hok l') as (Hc' & r1 & E1 & H1); [by right|]. split; [done|].
    exists r1. split; [|done]. unfold s1. cbn. rewrite lookup_insert_ne; [done|]. by intros ->.
  - exists R. split; [done|]. intros l'. rewrite HR. unfold s1. cbn.
    destruct (decide (l' = l)) as [->|Hne].
    + rewrite decide_False by done. rewrite (decide_True (P := l ∈ l :: ls)) by left.
      by rewrite lookup_insert_eq, Er.
    + rewrite lookup_insert_ne by done. destruct (decide (l' ∈ ls)) as [?|?].
      * by rewrite decide_True by by right.
      * rewrite decide_False; [done|]. intros [?|?]%elem_of_cons; done.
Qed.

Lemma each_close ls s :
  NoDup ls → (∀ l, l ∈ ls → l ∉ closedChans s) →
  each close_chan ls s = Some (set_closed (list_to_set ls ∪ closedChans s) s).
Proof.
  revert s. induction ls as [|l ls IH]; intros s Hnd Hok.
  { cbn. rewrite union_empty_l_L. by destruct s. }
  apply NoDup_cons in Hnd as [Hl Hnd]. rewrite each_cons.
  assert (close_chan s l = Some (set_closed ({[l]} ∪ closedChans s) s)) as ->.
  { unfold close_chan. rewrite decide_False; [done|]. apply Hok. left. }
  cbn. rewrite IH; [|done|].
  - unfold set_closed. cbn. do 2 f_equal. set_solver.
  - intros l' Hl'. cbn. pose proof (Hok l' (list_elem_of_further _ _ _ Hl')). set_solver.
Qed.

(** ** The state machine *)

(** The history lists the providers that were found and connected. *)
Inductive step : relation (ProviderQueryManager * history) :=
| st_find k s s' h : FindProvidersAsync k s = Some s' → step (s, h) (s', h)
| st_message s s' h : run_message s = Some s' → step (s, h) (s', h)
| st_read l s s' h : read_provider l s = Some s' → step (s, h) (s', h)
| st_see_closed l s s' h : see_closed l s = Some s' → step (s, h) (s', h)
| st_session_done l s s' h : session_done l s = Some s' → step (s, h) (s', h)
| st_cancel l s s' h : cancelProviderRequest l s = Some s' → step (s, h) (s', h)
| st_dispatch i s s' h : dispatch i s = Some s' → step (s, h) (s', h)
| st_found i p s s' h : provider_found i p s = Some s' → step (s, h) (s', h)
| st_connected i j w p s s' h :
    workers s !! i = Some (Some w) → connecting w !! j = Some p →
    connect_done i j true s = Some s' → step (s, h) (s', h ++ [(fpr_k (sr_req w), p)])
| st_failed i j s s' h : connect_done i j false s = Some s' → step (s, h) (s', h)
| st_ended i s s' h : search_ended i s = Some s' → step (s, h) (s', h)
| st_finished i s s' h : search_finished i s = Some s' → step (s, h) (s', h).

(** ** The invariant *)

(** A search for [k] is queued, running, or about to be reported. *)
Definition outstanding s k : Prop :=
  (∃ r, r ∈ requestBuffer s ∧ fpr_k r = k) ∨
  (∃ i w, workers s !! i = Some (Some w) ∧ fpr_k (sr_req w) = k) ∨
  finishedProviderQueryMessage k ∈ providerQueryMessages s.

(** The goroutine behind a listener of a request with these providers so far. *)
Record attends k (ps : list PeerID) (r : receiver) : Prop := mkAttends {
  at_key : rc_k r = k;
  at_open : incomingOpen r = true;
  at_mode : mode r ≠ Returned;
  at_all : mode r = Running → returned r ++ receivedProviders r = ps;
}.

(** Nothing more will come. *)
Definition waiting (r : receiver) : Prop := mode r ≠ Returned ∧ incomingOpen r = true.

Record Inv s (h : history) : Prop := mkInv {
  inv_listeners : ∀ k st l, statuses s !! k = Some st → l ∈ listeners st →
    l ∉ closedChans s ∧ ∃ r, receivers s !! l = Some r ∧ attends k (providersSoFar st) r;
  inv_nonempty : ∀ k st, statuses s !! k = Some st → listeners st ≠ ∅;
  inv_waiting : ∀ l r, receivers s !! l = Some r → waiting r →
    l ∈ closedChans s ∨ ∃ st, statuses s !! rc_k r = Some st ∧ l ∈ listeners st;
  inv_fresh : ∀ l, is_Some (receivers s !! l) ∨ l ∈ closedChans s → l < fresh s;
  inv_request : ∀ k, is_Some (statuses s !! k) → outstanding s k;
  inv_status : ∀ k st p, statuses s !! k = Some st → p ∈ providersSoFar st → (k, p) ∈ h;
  inv_receiver : ∀ l r p, receivers s !! l = Some r → p ∈ returned r ++ receivedProviders r → (rc_k r, p) ∈ h;
  inv_message : ∀ k p, receivedProviderMessage k p ∈ providerQueryMessages s → (k, p) ∈ h;
  inv_workers : length (workers s) = maxInProcessRequests;
}.

Lemma Inv_pqm_new : Inv New [].
Proof.
  split; cbn.
  - intros k st l. by rewrite lookup_empty.
  - intros k st. by rewrite lookup_empty.
  - intros l r. by rewrite lookup_empty.
  - intros l [[r E]|?]; [by rewrite lookup_empty in E|set_solver].
  - intros k [st E]. by rewrite lookup_empty in E.
  - intros k st p. by rewrite lookup_empty.
  - intros l r p. by rewrite lookup_empty.
  - set_solver.
  - done.
Qed.

(** Steps that leave statuses, receivers and channels alone. *)
Lemma Inv_outside s s' h h' :
  Inv s h → (statuses s', receivers s', closedChans s', fresh s') = (statuses s, receivers s, closedChans s, fresh s) →
  (∀ x, x ∈ h → x ∈ h') → (∀ k, outstanding s k → outstanding s' k) →
  (∀ k p, receivedProviderMessage k p ∈ providerQueryMessages s' →
     receivedProviderMessage k p ∈ providerQueryMessages s ∨ (k, p) ∈ h') →
  length (workers s') = length (workers s) → Inv s' h'.
Proof.
  intros [H1 H2 H3 H4 H5 H6 H7 H8 H9] [= E1 E2 E3 E4] Hh Ho Hm Hw.
  split; rewrite ?E1, ?E2, ?E3, ?E4; try done.
  - intros k Hk. by apply Ho, H5.
  - intros k st p ? ?. eapply Hh, H6; done.
  - intros l r p ? ?. eapply Hh, H7; done.
  - intros k p [?|?]%Hm; [by apply Hh, H8|done].
  - by rewrite Hw.
Qed.

Lemma Inv_post m s s' h :
  Inv s h → post m s = Some s' →
  (∀ k p, m = receivedProviderMessage k p → (k, p) ∈ h) → Inv s' h.
Proof.
  unfold post. destruct (room s); [|done]. intros HI [= <-] Hm.
  eapply Inv_outside; [exact HI|done|done| |cbn|done].
  - intros k [?|[?|?]]; [by left|by right; left|right; right]. cbn. set_solver.
  - intros k p. rewrite elem_of_app, list_elem_of_singleton. intros [?|?]; [by left|right]. by eapply Hm.
Qed.

(** Steps of one caller's goroutine that keep what it was told. *)
Lemma Inv_goroutine l r r' s h :
  Inv s h → receivers s !! l = Some r → rc_k r' = rc_k r → incomingOpen r' = incomingOpen r →
  (mode r = Returned → mode r' = Returned) →
  (mode r' = Returned → l ∈ closedChans s ∨ incomingOpen r = false) →
  (∀ p, p ∈ returned r' ++ receivedProviders r' → p ∈ returned r ++ receivedProviders r) →
  (mode r' = Running → mode r = Running ∧ returned r' ++ receivedProviders r' = returned r ++ receivedProviders r) →
  Inv (set_receivers (<[l := r']> (receivers s)) s) h.
Proof.
  intros [H1 H2 H3 H4 H5 H6 H7 H8 H9] Er Ek Eo Hmono Hret Hsub Hrun.
  assert (∀ l' r1, <[l:=r']> (receivers s) !! l' = Some r1 →
    (l' = l ∧ r1 = r') ∨ (l' ≠ l ∧ receivers s !! l' = Some r1)) as Hlook.
  { intros l' r1. rewrite lookup_insert_Some. naive_solver. }
  split; cbn; try done.
  - intros k st l' Es Hl'. destruct (H1 k st l' Es Hl') as (Hc & r1 & E1 & [A1 A2 A3 A4]). split; [done|].
    destruct (decide (l' = l)) as [->|Hne]; [|exists r1; by rewrite lookup_insert_ne].
    simplify_eq. exists r'. rewrite lookup_insert_eq. split; [done|]. split; [congruence|congruence| |].
    + intros Hm. destruct (Hret Hm); [done|congruence].
    + intros Hm. destruct (Hrun Hm) as [? ->]. by apply A4.
  - intros l' r1 [[-> ->]|[? E]]%Hlook [Hw1 Hw2]; [|by apply H3].
    rewrite Ek. apply H3; [done|]. split; [|congruence]. intros ?. by apply Hw1, Hmono.
  - intros l' [[r1 E]|?]; apply H4; [left|by right]. apply Hlook in E as [[-> _]|[_ E]]; eauto.
  - intros l' r1 p [[-> ->]|[? E]]%Hlook Hp; [|by eapply H7]. rewrite Ek. eapply H7; [done|by apply Hsub].
Qed.

(** ** The handlers *)

Lemma receive_attends k ps p r :
  attends k ps r → ∃ r', receive p r = Some r' ∧ attends k (ps ++ [p]) r' ∧ rc_k r' = rc_k r ∧
    (waiting r' → waiting r) ∧
    (∀ q, q ∈ returned r' ++ receivedProviders r' → q ∈ returned r ++ receivedProviders r ∨ q = p).
Proof.
  intros [A1 A2 A3 A4]. unfold receive. destruct (mode r) as [|sent|] eqn:Em; [|clear A4|done].
  - rewrite A2. eexists. split; [done|]. split_and!; [|done|intros _; split; [by rewrite Em|done]|cbn; set_solver].
    split; cbn; [done..|]. intros _. by rewrite app_assoc, A4.
  - exists r. split; [done|]. split_and!; [split|done|done|by left]; [done|done|congruence|congruence].
Qed.

Lemma handle_received_ok k p s h :
  Inv s h → (k, p) ∈ h → ∃ s', handle_received k p s = Some s' ∧ Inv s' h.
Proof.
  intros HI Hkp. unfold handle_received. destruct (statuses s !! k) as [st|] eqn:Es; [|by exists s].
  set (st' := mkStatus _ _ _). set (s0 := set_statuses _ s).
  destruct HI as [H1 H2 H3 H4 H5 H6 H7 H8 H9].
  destruct (each_send p (keys (listeners st')) s0) as (R & ER & HR); [apply NoDup_keys| |].
  { intros l Hl%elem_of_keys. destruct (H1 k st l Es Hl) as (Hc & r & Er & Ha). split; [done|].
    exists r. split; [done|]. destruct (receive_attends _ _ p _ Ha) as (r' & -> & _). eauto. }
  exists (set_receivers R s0). split; [done|].
  assert (∀ l, l ∈ listeners st → ∃ r r', receivers s !! l = Some r ∧ receive p r = Some r' ∧ R !! l = Some r' ∧
    attends k (providersSoFar st) r) as Hin.
  { intros l Hl. destruct (H1 k st l Es Hl) as (_ & r & Er & Ha).
    destruct (receive_attends _ _ p _ Ha) as (r' & Er' & _). exists r, r'. split_and!; [done|done| |done].
    rewrite HR, decide_True by by apply elem_of_keys. cbn. by rewrite Er. }
  assert (∀ l, l ∉ listeners st → R !! l = receivers s !! l) as Hout.
  { intros l Hl. rewrite HR, decide_False; [done|]. by intros ?%elem_of_keys. }
  assert (∀ l r', R !! l = Some r' → ∃ r, receivers s !! l = Some r ∧ rc_k r' = rc_k r ∧ (waiting r' → waiting r) ∧
    (∀ q, q ∈ returned r' ++ receivedProviders r' → q ∈ returned r ++ receivedProviders r ∨ (q = p ∧ rc_k r = k))) as Hback.
  { intros l r' Er'. destruct (decide (l ∈ listeners st)) as [Hl|Hl].
    - destruct (Hin l Hl) as (r & r1 & Er & Er1 & El & Ha). simplify_eq.
      destruct (receive_attends _ _ p _ Ha) as (r2 & E2 & _ & G1 & G2 & G3). simplify_eq.
      exists r. split_and!; [done|done|done|]. intros q [?|?]%G3; [by left|right]. split; [done|apply Ha].
    - rewrite Hout in Er' by done. exists r'. split_and!; [done..|]. by left. }
  split; cbn; try done.
  - intros k' st1 l E Hl. apply lookup_insert_Some in E as [[<- <-]|[Hne E]].
    + destruct (H1 k st l Es Hl) as (Hc & _). split; [done|]. destruct (Hin l Hl) as (r & r' & _ & Er & El & Ha).
      exists r'. split; [done|]. destruct (receive_attends _ _ p _ Ha) as (r2 & E2 & ? & _). by simplify_eq.
    + destruct (H1 k' st1 l E Hl) as (Hc & r & Er & Ha). split; [done|]. exists r. split; [|done].
      rewrite Hout; [done|]. intros Hl'. destruct (H1 k st l Es Hl') as (_ & r1 & E1 & Ha1).
      apply Hne. simplify_eq. by rewrite <- (at_key _ _ _ Ha), <- (at_key _ _ _ Ha1).
  - intros k' st1 E. apply lookup_insert_Some in E as [[<- <-]|[_ E]]; [exact (H2 k st Es)|by eapply H2].
  - intros l r' Er' Hw. destruct (Hback l r' Er') as (r & Er & -> & Hw' & _).
    destruct (H3 l r Er (Hw' Hw)) as [?|(st1 & E1 & Hl)]; [by left|right].
    destruct (decide (rc_k r = k)) as [Ek|Ek].
    + rewrite Ek in *. simplify_eq. exists st'. by rewrite lookup_insert_eq.
    + exists st1. by rewrite lookup_insert_ne by done.
  - intros l [[r' Er']|?]; apply H4; [left|by right]. destruct (Hback l r' Er') as (r & ? & _). eauto.
  - intros k' [st1 E]. apply H5. apply lookup_insert_Some in E as [[<- _]|[_ E]]; eauto.
  - intros k' st1 q E Hq. apply lookup_insert_Some in E as [[<- <-]|[_ E]]; [|by eapply H6].
    apply elem_of_app in Hq as [?| ->%list_elem_of_singleton]; [by eapply H6|done].
  - intros l r' q Er' Hq. destruct (Hback l r' Er') as (r & Er & -> & _ & Hq').
    destruct (Hq' q Hq) as [?|[Eq Ek]]; [by eapply H7|by rewrite Eq, Ek].
Qed.

(** Forgetting a request whose channels are closed. *)
Lemma Inv_forget k st s h C :
  Inv s h → statuses s !! k = Some st →
  (∀ l, l ∈ C ↔ l ∈ listeners st ∨ l ∈ closedChans s) →
  ∀ ms, (∀ k', k' ≠ k → finishedProviderQueryMessage k' ∈ providerQueryMessages s → finishedProviderQueryMessage k' ∈ ms) →
  (∀ k' q, receivedProviderMessage k' q ∈ ms → receivedProviderMessage k' q ∈ providerQueryMessages s) →
  Inv (cancelFn (st_ctx st) (set_statuses (delete k (statuses s)) (set_closed C (set_messages ms s)))) h.
Proof.
  intros [H1 H2 H3 H4 H5 H6 H7 H8 H9] Es HC ms Hf Hm. split; cbn; try done.
  - intros k' st1 l [Hne E]%lookup_delete_Some Hl. destruct (H1 k' st1 l E Hl) as (Hc & r & Er & Ha). split; [|by exists r].
    rewrite HC. intros [Hl'|?]; [|done]. destruct (H1 k st l Es Hl') as (_ & r1 & E1 & Ha1).
    apply Hne. simplify_eq. by rewrite <- (at_key _ _ _ Ha), <- (at_key _ _ _ Ha1).
  - intros k' st1 [_ E]%lookup_delete_Some. by eapply H2.
  - intros l r Er Hw. rewrite HC. destruct (H3 l r Er Hw) as [?|(st1 & E1 & Hl)]; [by left; right|].
    destruct (decide (rc_k r = k)) as [Ek|Ek].
    + rewrite Ek in E1. simplify_eq. by left; left.
    + right. exists st1. by rewrite lookup_delete_ne by done.
  - intros l [?|Hl]; [apply H4; by left|]. apply HC in Hl as [Hl|?]; [|apply H4; by right].
    destruct (H1 k st l Es Hl) as (_ & r & Er & _). apply H4. left. eauto.
  - intros k' [st1 [Hne E]%lookup_delete_Some]. destruct (H5 k') as [?|[?|?]]; [by eexists|by left|by right; left|].
    right; right. cbn. apply Hf; [congruence|done].
  - intros k' st1 q [_ E]%lookup_delete_Some. by eapply H6.
  - intros k' q ?%Hm. by apply H8.
Qed.

Lemma handle_finished_ok k rest s h :
  Inv s h → providerQueryMessages s = finishedProviderQueryMessage k :: rest →
  ∃ s', handle_finished k (set_messages rest s) = Some s' ∧ Inv s' h.
Proof.
  intros HI Em. unfold handle_finished. cbn [statuses set_messages]. destruct (statuses s !! k) as [st|] eqn:Es.
  - rewrite each_close; [|apply NoDup_keys|].
    + cbn. eexists. split; [done|].
      apply (Inv_forget k st s h (list_to_set (keys (listeners st)) ∪ closedChans s) HI Es).
      * intros l. rewrite elem_of_union, elem_of_list_to_set, elem_of_keys. done.
      * intros k' Hne. rewrite Em, elem_of_cons. intros [[= ->]|?]; done.
      * intros k' q Hq. rewrite Em. by right.
    + intros l Hl%elem_of_keys. by apply (inv_listeners _ _ HI k st).
  - eexists. split; [done|]. destruct HI as [H1 H2 H3 H4 H5 H6 H7 H8 H9]. split; cbn; try done.
    + intros k' Hk'. destruct (H5 k' Hk') as [?|[?|Hf]]; [by left|by right; left|right; right].
      rewrite Em in Hf. apply elem_of_cons in Hf as [[= ->]|?]; [|done]. rewrite Es in Hk'. by destruct Hk'.
    + intros k' q Hq. apply H8. rewrite Em. by right.
Qed.

(** Joining a request that exists, or has just been queued. *)
Lemma Inv_join k st s h :
  Inv s h →
  (statuses s !! k = Some st ∨ listeners st = ∅ ∧ providersSoFar st = [] ∧ statuses s !! k = None ∧ outstanding s k) →
  Inv (add_listener k st s) h.
Proof.
  intros [H1 H2 H3 H4 H5 H6 H7 H8 H9] Hst.
  unfold add_listener. set (l0 := fresh s). set (st' := mkStatus _ _ _). set (r0 := mkReceiver _ _ _ _ _).
  assert (receivers s !! l0 = None) as Hnew.
  { destruct (receivers s !! l0) eqn:E; [|done]. pose proof (H4 l0 (or_introl (ex_intro _ _ E))). unfold l0 in *. lia. }
  assert (l0 ∉ closedChans s) as Hncl by (intros Hc; pose proof (H4 l0 (or_intror Hc)); unfold l0 in *; lia).
  assert (∀ l r, <[l0:=r0]> (receivers s) !! l = Some r → (l = l0 ∧ r = r0) ∨ (l ≠ l0 ∧ receivers s !! l = Some r)) as Hlook.
  { intros l r. rewrite lookup_insert_Some. naive_solver. }
  assert (∀ k' st1, <[k := st']> (statuses s) !! k' = Some st1 → (k' = k ∧ st1 = st') ∨ (k' ≠ k ∧ statuses s !! k' = Some st1)) as Hst1.
  { intros k' st1. rewrite lookup_insert_Some. naive_solver. }
  split; cbn; try done.
  - intros k' st1 l [[-> ->]|[Hne E]]%Hst1 Hl.
    + apply elem_of_union in Hl as [->%elem_of_singleton|Hl].
      { split; [done|]. exists r0. rewrite lookup_insert_eq. done. }
      destruct Hst as [Es|(El & _)]; [|rewrite El in Hl; set_solver].
      destruct (H1 k st l Es Hl) as (Hc & r & Er & Ha). split; [done|]. exists r.
      rewrite lookup_insert_ne; [done|]. congruence.
    + destruct (H1 k' st1 l E Hl) as (Hc & r & Er & Ha). split; [done|]. exists r.
      rewrite lookup_insert_ne; [done|]. congruence.
  - intros k' st1 [[-> ->]|[_ E]]%Hst1; [cbn; set_solver|by eapply H2].
  - intros l r [[-> ->]|[Hne E]]%Hlook Hw.
    + right. exists st'. cbn. rewrite lookup_insert_eq. split; [done|cbn; set_solver].
    + destruct (H3 l r E Hw) as [?|(st1 & E1 & Hl)]; [by left|right].
      destruct (decide (rc_k r = k)) as [Ek|Ek]; [|exists st1; by rewrite lookup_insert_ne by done].
      rewrite Ek in *. exists st'. rewrite lookup_insert_eq. split; [done|].
      destruct Hst as [Es|(_ & _ & Es & _)]; [|congruence]. simplify_eq. cbn. set_solver.
  - intros l [[r [[-> _]|[_ E]]%Hlook]|Hl]; [lia| |].
    + pose proof (H4 l (or_introl (ex_intro _ _ E))). unfold l0. lia.
    + pose proof (H4 l (or_intror Hl)). unfold l0. lia.
  - intros k' [st1 [[-> _]|[_ E]]%Hst1]; [|by apply H5; eauto].
    destruct Hst as [Es|(_ & _ & _ & ?)]; [apply H5; eauto|done].
  - intros k' st1 q [[-> ->]|[_ E]]%Hst1 Hq; [|by eapply H6].
    destruct Hst as [Es|(_ & Ep & _)]; [by eapply H6|]. cbn in Hq. rewrite Ep in Hq. by apply not_elem_of_nil in Hq.
  - intros l r q [[-> ->]|[_ E]]%Hlook Hq; [|by eapply H7]. cbn in *.
    destruct Hst as [Es|(_ & Ep & _)]; [by eapply H6|]. rewrite Ep in Hq. by apply not_elem_of_nil in Hq.
Qed.

Lemma handle_new_ok k s h : Inv s h → ∃ s', handle_new k s = Some s' ∧ Inv s' h.
Proof.
  intros HI. unfold handle_new. destruct (statuses s !! k) as [st|] eqn:Es.
  { eexists. split; [done|]. apply Inv_join; [done|by left]. }
  set (s1 := set_buffer _ _). eexists. split; [done|].
  assert (Inv s1 h) as HI1.
  { destruct HI as [H1 H2 H3 H4 H5 H6 H7 H8 H9]. split; cbn; try done.
    - intros l Hl. pose proof (H4 l Hl). lia.
    - intros k' Hk'. destruct (H5 k' Hk') as [(r & ? & ?)|[?|?]]; [left|by right; left|by right; right].
      exists r. cbn. set_solver. }
  apply Inv_join; [done|]. right. split_and!; [done|done|done|]. left. exists (mkRequest k (fresh s)). cbn. set_solver.
Qed.

Lemma handle_cancel_ok l k s h : Inv s h → ∃ s', handle_cancel l k s = Some s' ∧ Inv s' h.
Proof.
  intros HI. unfold handle_cancel. destruct (statuses s !! k) as [st|] eqn:Es; [|by exists s].
  destruct (decide (l ∈ listeners st)) as [Hl|]; [|by exists s].
  unfold close_chan. rewrite decide_False by by apply (inv_listeners _ _ HI k st). cbn.
  destruct (decide (listeners st ∖ {[l]} = ∅)) as [He|He].
  - eexists. split; [done|]. cbn. rewrite delete_insert_eq.
    apply (Inv_forget k st s h ({[l]} ∪ closedChans s) HI Es) with (ms := providerQueryMessages s); [|done|done].
    intros l'. assert (l' ∈ listeners st ↔ l' = l) as ->; [|set_solver]. split; [|by intros ->].
    intros Hl'. destruct (decide (l' = l)); [done|]. set_solver.
  - eexists. split; [done|]. destruct HI as [H1 H2 H3 H4 H5 H6 H7 H8 H9]. set (st' := mkStatus _ _ _).
    assert (∀ k' st1, <[k := st']> (statuses s) !! k' = Some st1 → (k' = k ∧ st1 = st') ∨ (k' ≠ k ∧ statuses s !! k' = Some st1)) as Hst1.
    { intros k' st1. rewrite lookup_insert_Some. naive_solver. }
    split; cbn; try done.
    + intros k' st1 l' [[-> ->]|[Hne E]]%Hst1 Hl'.
      * cbn in Hl'. destruct (H1 k st l' Es ltac:(set_solver)) as (Hc & r & Er & Ha). split; [set_solver|by exists r].
      * destruct (H1 k' st1 l' E Hl') as (Hc & r & Er & Ha). split; [|by exists r].
        intros [->%elem_of_singleton|?]%elem_of_union; [|done]. destruct (H1 k st l Es Hl) as (_ & r1 & E1 & Ha1).
        apply Hne. simplify_eq. by rewrite <- (at_key _ _ _ Ha), <- (at_key _ _ _ Ha1).
    + intros k' st1 [[-> ->]|[_ E]]%Hst1; [done|by eapply H2].
    + intros l' r Er Hw. destruct (H3 l' r Er Hw) as [?|(st1 & E1 & Hl')]; [left; set_solver|].
      destruct (decide (l' = l)) as [->|Hll]; [left; set_solver|right].
      destruct (decide (rc_k r = k)) as [Ek|Ek]; [|exists st1; by rewrite lookup_insert_ne by done].
      rewrite Ek in *. simplify_eq. exists st'. rewrite lookup_insert_eq. split; [done|cbn; set_solver].
    + intros l' [?|Hl']; [apply H4; by left|]. apply elem_of_union in Hl' as [->%elem_of_singleton|?]; [|apply H4; by right].
      destruct (H1 k st l Es Hl) as (_ & r & Er & _). apply H4. left. eauto.
    + intros k' [st1 [[-> _]|[_ E]]%Hst1]; apply H5; eauto.
    + intros k' st1 q [[-> ->]|[_ E]]%Hst1 Hq; [by eapply H6|by eapply H6].
Qed.

(** Every message can be handled: no panic, no send that nobody takes. *)
Lemma run_message_ok s h :
  Inv s h → providerQueryMessages s ≠ [] → ∃ s', run_message s = Some s' ∧ Inv s' h.
Proof.
  intros HI Hne. unfold run_message. destruct (providerQueryMessages s) as [|m rest] eqn:Em; [done|].
  assert ((∀ k, m ≠ finishedProviderQueryMessage k) → Inv (set_messages rest s) h) as Hpop.
  { intros Hm. eapply Inv_outside; [exact HI|done|done| | |done].
    - intros k [?|[?|Hf]]; [by left|by right; left|right; right]. cbn.
      rewrite Em in Hf. apply elem_of_cons in Hf as [Hf|?]; [by destruct (Hm k)|done].
    - intros k q Hq. left. rewrite Em. by right. }
  destruct m as [k q|k|k|l k]; cbn [handle].
  - apply handle_received_ok; [by apply Hpop|]. apply (inv_message _ _ HI). rewrite Em. left.
  - by apply handle_finished_ok.
  - apply handle_new_ok. by apply Hpop.
  - apply handle_cancel_ok. by apply Hpop.
Qed.

(** ** Workers *)

Lemma with_search_Some i f s s' :
  with_search i f s = Some s' →
  ∃ w w' ms s1, workers s !! i = Some (Some w) ∧ f w = Some (w', ms) ∧
    s1 = set_workers (<[i := w']> (workers s)) s ∧
    ((ms = [] ∧ s' = s1) ∨ ∃ m ms', ms = m :: ms' ∧ post m s1 = Some s').
Proof.
  unfold with_search. destruct (workers s !! i) as [[w|]|]; [|done|done].
  destruct (f w) as [[w' ms]|] eqn:Ef; [cbn|done]. intros H. eexists w, w', ms, _. split_and!; [done|done|done|].
  destruct ms as [|m ms]; [left; by simplify_eq|right; eauto].
Qed.

(** A worker that keeps its request. *)
Lemma Inv_worker i w w' s h :
  Inv s h → workers s !! i = Some (Some w) → sr_req w' = sr_req w →
  Inv (set_workers (<[i := Some w']> (workers s)) s) h.
Proof.
  intros HI Ew Er. eapply Inv_outside; [exact HI|done|done| |by left|cbn; by rewrite length_insert].
  intros k [?|[(j & v & Ev & Ek)|?]]; [by left| |by right; right].
  right; left. destruct (decide (j = i)) as [->|Hne].
  - simplify_eq. exists i, w'. cbn. rewrite list_lookup_insert_eq by (by eapply lookup_lt_Some). by rewrite Er.
  - exists j, v. cbn. by rewrite list_lookup_insert_ne.
Qed.

Lemma Inv_history s h h' : Inv s h → (∀ x, x ∈ h → x ∈ h') → Inv s h'.
Proof. intros HI Hh. eapply Inv_outside; [exact HI|done|done|done|by left|done]. Qed.

Lemma Inv_dispatch i s s' h : Inv s h → dispatch i s = Some s' → Inv s' h.
Proof.
  unfold dispatch. intros HI. destruct (requestBuffer s) as [|r rest] eqn:Eb; [done|].
  destruct (workers s !! i) as [[w|]|] eqn:Ew; [done| |done]. intros [= <-].
  eapply Inv_outside; [exact HI|done|done| |by left|cbn; by rewrite length_insert].
  intros k [(r' & Hr' & Ek)|[(j & v & Ev & Ek)|?]]; [| |by right; right].
  - rewrite Eb in Hr'. apply elem_of_cons in Hr' as [->|?]; [right; left|by left; exists r'].
    exists i, (mkSearch r [] true). cbn. by rewrite list_lookup_insert_eq by (by eapply lookup_lt_Some).
  - right; left. exists j, v. cbn. rewrite list_lookup_insert_ne; [done|]. congruence.
Qed.

(** The end of a search is reported to the run loop. *)
Lemma Inv_finished i s s' h : Inv s h → search_finished i s = Some s' → Inv s' h.
Proof.
  intros HI (w & w' & ms & s1 & Ew & Ef & -> & Hp)%with_search_Some.
  destruct (searching w); [done|]. destruct (connecting w); [|done]. injection Ef as <- <-.
  destruct Hp as [[? _]|(m & ms' & [= <- <-] & Hp)]; [done|].
  unfold post in Hp. destruct (room _); [|done]. injection Hp as <-.
  eapply Inv_outside; [exact HI|done|done| |cbn|cbn; by rewrite length_insert].
  - intros k [?|[(j & v & Ev & Ek)|?]]; [by left| |right; right; cbn; set_solver].
    destruct (decide (j = i)) as [->|Hne].
    + simplify_eq. right; right. cbn. set_solver.
    + right; left. exists j, v. cbn. by rewrite list_lookup_insert_ne.
  - intros k q. rewrite elem_of_app, list_elem_of_singleton. intros [?|?]; [by left|done].
Qed.

(** ** Callers *)

Lemma with_receiver_Some l f s s' :
  with_receiver l f s = Some s' →
  ∃ r r', receivers s !! l = Some r ∧ f r = Some r' ∧ s' = set_receivers (<[l := r']> (receivers s)) s.
Proof.
  unfold with_receiver. destruct (receivers s !! l) as [r|] eqn:Er; [cbn|done].
  destruct (f r) as [r'|] eqn:Ef; [cbn|done]. intros [= <-]. eauto.
Qed.

Lemma Inv_read l s s' h : Inv s h → read_provider l s = Some s' → Inv s' h.
Proof.
  intros HI (r & r' & Er & Ef & ->)%with_receiver_Some. destruct (mode r) eqn:Em; [|done|done].
  destruct (receivedProviders r) as [|q ps] eqn:Eq; [done|]. injection Ef as <-.
  unfold loop_end. cbn.
  assert (returned r ++ q :: ps = (returned r ++ [q]) ++ ps) as Ea by by rewrite <- app_assoc.
  assert (∀ m, (m = Running ∨ incomingOpen r = false ∧ m = Returned) →
    Inv (set_receivers (<[l := mkReceiver (rc_k r) ps (incomingOpen r) m (returned r ++ [q])]> (receivers s)) s) h) as Hm.
  { intros m Hm. apply (Inv_goroutine l r _ s h HI Er); cbn; [done|done|congruence| | |].
    - intros ->. right. by destruct Hm as [?|[? _]].
    - intros p. by rewrite Eq, Ea.
    - intros _. by rewrite Eq, Ea. }
  destruct ps as [|q' ps]; [destruct (incomingOpen r) eqn:Eo|]; apply Hm; [by left|by right|by left].
Qed.

(** A goroutine whose channel is closed is nobody's listener. *)
Lemma Inv_deaf l r r' s h :
  Inv s h → l ∈ closedChans s → receivers s !! l = Some r → rc_k r' = rc_k r →
  returned r' ++ receivedProviders r' = returned r ++ receivedProviders r →
  Inv (set_receivers (<[l := r']> (receivers s)) s) h.
Proof.
  intros [H1 H2 H3 H4 H5 H6 H7 H8 H9] Hc Er Ek Et.
  assert (∀ l' r1, <[l:=r']> (receivers s) !! l' = Some r1 →
    (l' = l ∧ r1 = r') ∨ (l' ≠ l ∧ receivers s !! l' = Some r1)) as Hlook.
  { intros l' r1. rewrite lookup_insert_Some. naive_solver. }
  split; cbn; try done.
  - intros k st l' Es Hl'. destruct (H1 k st l' Es Hl') as (Hc' & r1 & E1 & Ha). split; [done|].
    exists r1. rewrite lookup_insert_ne; [done|]. by intros ->.
  - intros l' r1 [[-> ->]|[? E]]%Hlook Hw; [by left|by apply H3].
  - intros l' [[r1 E]|?]; apply H4; [left|by right]. apply Hlook in E as [[-> _]|[_ E]]; eauto.
  - intros l' r1 q [[-> ->]|[? E]]%Hlook Hq; [|by eapply H7]. rewrite Ek. eapply H7; [done|by rewrite <- Et].
Qed.

Lemma loop_end_told r :
  rc_k (loop_end r) = rc_k r ∧
  returned (loop_end r) ++ receivedProviders (loop_end r) = returned r ++ receivedProviders r.
Proof.
  unfold loop_end. destruct (receivedProviders r) as [|q ps] eqn:E; [|by rewrite E].
  destruct (incomingOpen r); cbn; by rewrite ?E.
Qed.

Lemma Inv_see_closed l s s' h : Inv s h → see_closed l s = Some s' → Inv s' h.
Proof.
  unfold see_closed. intros HI. destruct (decide (l ∈ closedChans s)) as [Hc|]; [|done].
  intros (r & r' & Er & Ef & ->)%with_receiver_Some. apply (Inv_deaf l r _ s h HI Hc Er).
  - destruct (mode r); [destruct (incomingOpen r)| |]; simplify_eq; [etransitivity; [apply (proj1 (loop_end_told _))|done]|done].
  - destruct (mode r); [destruct (incomingOpen r)| |]; simplify_eq; [etransitivity; [apply (proj2 (loop_end_told _))|done]|done].
Qed.

Lemma Inv_session_done l s s' h : Inv s h → session_done l s = Some s' → Inv s' h.
Proof.
  intros HI (r & r' & Er & Ef & ->)%with_receiver_Some. destruct (mode r) eqn:Em; [|done|done]. injection Ef as <-.
  apply (Inv_goroutine l r _ s h HI Er); cbn; [done|done|congruence| |done|].
  - destruct (incomingOpen r); [done|by right].
  - by destruct (incomingOpen r).
Qed.

Lemma Inv_cancel_request l s s' h : Inv s h → cancelProviderRequest l s = Some s' → Inv s' h.
Proof.
  unfold cancelProviderRequest. intros HI. destruct (receivers s !! l) as [r|] eqn:Er; [cbn|done].
  destruct (mode r) as [|[]|] eqn:Em; [done|done| |done].
  destruct (post _ s) as [s1|] eqn:Ep; [cbn|done]. intros [= <-].
  pose proof (Inv_post _ _ _ _ HI Ep ltac:(done)) as HI1.
  assert (receivers s1 = receivers s) as E1 by (unfold post in Ep; case_match; by simplify_eq).
  apply (Inv_goroutine l r _ s1 h HI1); cbn; [by rewrite E1|done|done|congruence|done|done|done].
Qed.

(** ** Runs *)

Lemma pqm_step x y : step x y → Inv x.1 x.2 → Inv y.1 y.2.
Proof.
  destruct 1 as [k s s' h H|s s' h H|l s s' h H|l s s' h H|l s s' h H|l s s' h H|i s s' h H|i p s s' h H
    |i j w p s s' h Ew Ep H|i j s s' h H|i s s' h H|i s s' h H]; cbn [fst snd]; intros HI.
  - by eapply Inv_post.
  - assert (providerQueryMessages s ≠ []) as Hne by (unfold run_message in H; by destruct (providerQueryMessages s)).
    destruct (run_message_ok s h HI Hne) as (s1 & E & ?). by simplify_eq.
  - by eapply Inv_read.
  - by eapply Inv_see_closed.
  - by eapply Inv_session_done.
  - by eapply Inv_cancel_request.
  - by eapply Inv_dispatch.
  - apply with_search_Some in H as (w & w' & ms & s1 & Ew & Ef & -> & Hp).
    destruct (searching w); [|done]. injection Ef as <- <-. destruct Hp as [[_ ->]|(? & ? & ? & _)]; [|done].
    by eapply Inv_worker.
  - apply with_search_Some in H as (w0 & w' & ms & s1 & Ew0 & Ef & -> & Hp). simplify_eq.
    rewrite Ep in Ef. cbn in Ef. injection Ef as <- <-.
    destruct Hp as [[? _]|(m & ms' & [= <- <-] & Hp)]; [done|].
    eapply Inv_post; [|exact Hp|].
    + eapply Inv_worker; [|exact Ew|done]. eapply Inv_history; [exact HI|]. set_solver.
    + intros k q [= <- <-]. set_solver.
  - apply with_search_Some in H as (w & w' & ms & s1 & Ew & Ef & -> & Hp).
    destruct (connecting w !! j) as [p|]; [cbn in Ef|done]. injection Ef as <- <-.
    destruct Hp as [[_ ->]|(? & ? & ? & _)]; [|done]. by eapply Inv_worker.
  - apply with_search_Some in H as (w & w' & ms & s1 & Ew & Ef & -> & Hp).
    destruct (searching w); [|done]. injection Ef as <- <-. destruct Hp as [[_ ->]|(? & ? & ? & _)]; [|done].
    by eapply Inv_worker.
  - by eapply Inv_finished.
Qed.

Lemma pqm_reachable x y : rtc step x y → Inv x.1 x.2 → Inv y.1 y.2.
Proof. induction 1 as [|x y z Hs _ IH]; [done|]. intros HI. apply IH. by eapply pqm_step. Qed.

(** Shutting down closes every open listener once. *)
Lemma cleanup_loop (owner : nat → option Cid) (xs : list (Cid * inProgressRequestStatus)) s :
  NoDup xs.*1 → (∀ x l, x ∈ xs → l ∈ listeners x.2 → owner l = Some x.1 ∧ l ∉ closedChans s) →
  is_Some (foldl (λ o x, s ← o; s ← each close_chan (keys (listeners x.2)) s; Some (cancelFn (st_ctx x.2) s)) (Some s) xs).
Proof.
  revert s. induction xs as [|[k st] xs IH]; intros s Hnd Hx; [by eexists|].
  cbn in Hnd. apply NoDup_cons in Hnd as [Hk Hnd]. cbn [foldl]. cbn [mbind option_bind].
  rewrite each_close; [|apply NoDup_keys|].
  - cbn [mbind option_bind]. apply IH; [done|]. intros x l Hin Hl. destruct (Hx x l) as [Ho Hc]; [by right|done|].
    split; [done|]. cbn. intros [Hl'%elem_of_list_to_set%elem_of_keys|?]%elem_of_union; [|done].
    destruct (Hx (k, st) l) as [Ho' _]; [left|done|]. cbn in Ho'. apply Hk. rewrite Ho in Ho'. injection Ho' as <-.
    by apply list_elem_of_fmap_2.
  - intros l Hl%elem_of_keys. apply (Hx (k, st) l); [left|done].
Qed.

Lemma cleanup_ok s h : Inv s h → is_Some (cleanupInProcessRequests s).
Proof.
  intros HI. unfold cleanupInProcessRequests.
  apply (cleanup_loop (λ l, rc_k <$> receivers s !! l)); [apply NoDup_range_keys|].
  intros [k st] l Hin%elem_of_range Hl. destruct (inv_listeners _ _ HI k st l Hin Hl) as (Hc & r & Er & Ha).
  split; [|done]. rewrite Er. cbn. by rewrite (at_key _ _ _ Ha).
Qed.
End facts.
End PQMFacts.
