(* ===== verification/Delivery.v ===== *)
(** * Handing blocks to clients
      (src/internal/notifications/notifications.go, src/internal/getter/getter.go)

    A client that asks for blocks subscribes to their cids ([Subscribe]); when the
    node publishes a block, the pub/sub library puts it in the subscription's
    channel [valuesCh], a goroutine forwards it to [blocksCh], and another one
    ([handleIncoming]) hands it to the client on an unbuffered channel, keeps
    track of the cids that are missing, and finally calls the cancel function with
    them.  A request holds the state of both goroutines and their channels.

    The library (cskr/pubsub) is a class: its operations return what they do to
    the channels.  The client's and the session's contexts are flags of the
    request; where several cases of a [select] are ready each is a step. *)
From S2P Require Import Prelude Auth.
From stdpp Require Import options.
Set Default Goal Selector "1".

(** ** The pub/sub library *)

Inductive chan_effect `{CL : CidLib} :=
| Send (ch : nat) (b : AuthBlock)
| Close (ch : nat).

Class PubSubLib `{CL : CidLib} (P : Type) := {
  ps_New : P;
  ps_Pub : AuthBlock → bytes → P → P * list chan_effect;
  ps_AddSubOnceEach : nat → list bytes → P → P;
  ps_Unsub : nat → P → P * list chan_effect;
  ps_Shutdown : P → P * list chan_effect;
}.

Definition target `{CL : CidLib} (e : chan_effect) : nat := match e with Send ch _ => ch | Close ch => ch end.
(** What happens to one channel. *)
Definition on `{CL : CidLib} (ch : nat) (es : list chan_effect) : list chan_effect :=
  filter (λ e, target e = ch) es.

(** [subscribed p ch t]: the next message on topic [t] goes to channel [ch].  A
    published message goes once to every channel subscribed to its topic, which
    ends that subscription, and a channel is closed with its last subscription. *)
Class PubSubLaws `{CL : CidLib} (P : Type) `{PS : !PubSubLib P} := {
  subscribed : P → nat → bytes → Prop;
  subscribed_dec :: ∀ p ch t, Decision (subscribed p ch t);
  sub_New : ∀ ch t, ¬ subscribed ps_New ch t;
  sub_Add : ∀ ch ts p ch' t,
    subscribed (ps_AddSubOnceEach ch ts p) ch' t ↔ subscribed p ch' t ∨ (ch' = ch ∧ t ∈ ts);
  sub_Pub : ∀ b t p ch t', subscribed (ps_Pub b t p).1 ch t' ↔ subscribed p ch t' ∧ t' ≠ t;
  eff_Pub_other : ∀ b t p ch, ¬ subscribed p ch t → on ch (ps_Pub b t p).2 = [];
  eff_Pub_last : ∀ b t p ch, subscribed p ch t → (∀ t', subscribed p ch t' → t' = t) →
    on ch (ps_Pub b t p).2 = [Send ch b; Close ch];
  eff_Pub_more : ∀ b t p ch t', subscribed p ch t → subscribed p ch t' → t' ≠ t →
    on ch (ps_Pub b t p).2 = [Send ch b];
  sub_Unsub : ∀ ch p ch' t, subscribed (ps_Unsub ch p).1 ch' t ↔ ch' ≠ ch ∧ subscribed p ch' t;
  eff_Unsub_other : ∀ ch p ch', ch' ≠ ch → on ch' (ps_Unsub ch p).2 = [];
  eff_Unsub_none : ∀ ch p, (∀ t, ¬ subscribed p ch t) → on ch (ps_Unsub ch p).2 = [];
  eff_Unsub_some : ∀ ch p t, subscribed p ch t → on ch (ps_Unsub ch p).2 = [Close ch];
  sub_Shutdown : ∀ p ch t, ¬ subscribed (ps_Shutdown p).1 ch t;
  eff_Shutdown_none : ∀ p ch, (∀ t, ¬ subscribed p ch t) → on ch (ps_Shutdown p).2 = [];
  eff_Shutdown_some : ∀ p ch t, subscribed p ch t → on ch (ps_Shutdown p).2 = [Close ch];
}.

Module Delivery.
Section delivery.
Context {CL : CidLib} {GO : GoRuntime} {P : Type} {PS : PubSubLib P}.

Record request := mkReq {
  rq_cids : list Cid;                (* the keys of the subscription *)
  valuesCh : list AuthBlock;
  valuesClosed : bool;
  blocksCh : list AuthBlock;
  blocksClosed : bool;
  forwarding : bool;                 (* the goroutine of [Subscribe] runs *)
  remaining : gset Cid;
  held : option AuthBlock;           (* offered to the client on [out] *)
  out : list AuthBlock;              (* what the client has read *)
  handling : bool;                   (* the goroutine of [handleIncoming] runs *)
  ctxDone : bool;
  sessDone : bool;
}.

Record delivery := mkDelivery {
  wrapped : P;
  closed : bool;
  requests : gmap nat request;
  next : nat;
}.
Implicit Types (d : delivery) (r : request) (i : nat) (b : AuthBlock).

(** Calls of the callbacks that a session passes to [AsyncGetBlocks]. *)
Inductive get_event :=
| EvWant (i : nat) (ws : list Want)
| EvCancel (i : nat) (cs : list Cid).

Definition New : delivery := mkDelivery ps_New false ∅ 0.

Definition set_wrapped x d := mkDelivery x (closed d) (requests d) (next d).
Definition set_requests x d := mkDelivery (wrapped d) (closed d) x (next d).

Definition set_values vs c r := mkReq (rq_cids r) vs c (blocksCh r) (blocksClosed r) (forwarding r)
  (remaining r) (held r) (out r) (handling r) (ctxDone r) (sessDone r).
Definition set_blocks bs c f r := mkReq (rq_cids r) (valuesCh r) (valuesClosed r) bs c f
  (remaining r) (held r) (out r) (handling r) (ctxDone r) (sessDone r).
Definition set_incoming bs rem h o r := mkReq (rq_cids r) (valuesCh r) (valuesClosed r) bs (blocksClosed r)
  (forwarding r) rem h o (handling r) (ctxDone r) (sessDone r).
Definition set_handling x r := mkReq (rq_cids r) (valuesCh r) (valuesClosed r) (blocksCh r) (blocksClosed r)
  (forwarding r) (remaining r) (held r) (out r) x (ctxDone r) (sessDone r).
Definition set_done c s r := mkReq (rq_cids r) (valuesCh r) (valuesClosed r) (blocksCh r) (blocksClosed r)
  (forwarding r) (remaining r) (held r) (out r) (handling r) c s.

(** The channels are made with room for one block per key. *)
Definition room r (ch : list AuthBlock) : bool := (len ch <? len (rq_cids r))%Z.

(** A channel operation of the library; [None] when it panics (the channel is
    closed) or blocks (it is full). *)
Definition run_effect (e : chan_effect) r : option request :=
  match e with
  | Send _ b => if negb (valuesClosed r) && room r (valuesCh r)
                then Some (set_values (valuesCh r ++ [b]) false r) else None
  | Close _ => if negb (valuesClosed r) then Some (set_values (valuesCh r) true r) else None
  end.

Definition run_effects (es : list chan_effect) d : option delivery :=
  foldl (λ o e, d ← o;
    match requests d !! target e with
    | Some r => r ← run_effect e r; Some (set_requests (<[target e := r]> (requests d)) d)
    | None => None
    end) (Some d) es.

(** ** notifications.go *)

Definition Publish b d : option delivery :=
  if closed d then Some d
  else let '(p, es) := ps_Pub b (Cid_KeyString (AuthBlock_Cid b)) (wrapped d) in
       run_effects es (set_wrapped p d).

Definition Shutdown d : option delivery :=
  if closed d then Some d
  else let '(p, es) := ps_Shutdown (wrapped d) in
       run_effects es (mkDelivery p true (requests d) (next d)).

Definition toStrings (ks : list Cid) : list bytes := Cid_KeyString <$> ks.

(** Without keys, or when the pub/sub is closed, the channel is closed at once. *)
Definition Subscribe (keys : list Cid) (rem : gset Cid) d : delivery :=
  let i := next d in
  let live := negb (len keys =? 0)%Z && negb (closed d) in
  let r := mkReq keys [] false [] (negb live) live rem None [] true false false in
  mkDelivery (if live then ps_AddSubOnceEach i (toStrings keys) (wrapped d) else wrapped d)
    (closed d) (<[i := r]> (requests d)) (S i).

Definition with_request i (f : request → option request) d : option delivery :=
  r ← requests d !! i; r ← f r; Some (set_requests (<[i := r]> (requests d)) d).

(** The goroutine takes a block and forwards it. *)
Definition forward i d : option delivery :=
  with_request i (λ r,
    match forwarding r, valuesCh r with
    | true, b :: rest => if room r (blocksCh r)
                         then Some (set_blocks (blocksCh r ++ [b]) false true (set_values rest (valuesClosed r) r))
                         else None
    | _, _ => None
    end) d.

(** After [Shutdown] the second [select] may drop the block instead. *)
Definition forward_drop i d : option delivery :=
  if closed d then
    with_request i (λ r,
      match forwarding r, valuesCh r with
      | true, b :: rest => Some (set_values rest (valuesClosed r) r)
      | _, _ => None
      end) d
  else None.

(** The goroutine returns: [valuesCh] is closed and empty, or the context is
    done; the deferred function closes [blocksCh] and unsubscribes. *)
Definition forward_end i d : option delivery :=
  r ← requests d !! i;
  if forwarding r && (ctxDone r || (valuesClosed r && (len (valuesCh r) =? 0)%Z)) then
    let d := set_requests (<[i := set_blocks (blocksCh r) true false r]> (requests d)) d in
    if closed d then Some d
    else let '(p, es) := ps_Unsub i (wrapped d) in run_effects es (set_wrapped p d)
  else None.

(** ** getter.go *)

Definition AsyncGetBlocks (wants : list Want) d : delivery * list get_event :=
  if (len wants =? 0)%Z then (d, [])
  else
    let cids := Want_Cid <$> wants in
    let remaining := foldl (λ S w, {[Want_Cid w]} ∪ S) ∅ wants in
    (Subscribe cids remaining d, [EvWant (next d) wants]).

(** [handleIncoming]: a block is taken, then read by the client. *)
Definition incoming i d : option delivery :=
  with_request i (λ r,
    match handling r, held r, blocksCh r with
    | true, None, b :: rest => Some (set_incoming rest (remaining r ∖ {[AuthBlock_Cid b]}) (Some b) (out r) r)
    | _, _, _ => None
    end) d.
Definition client_reads i d : option delivery :=
  with_request i (λ r,
    match handling r, held r with
    | true, Some b => Some (set_incoming (blocksCh r) (remaining r) None (out r ++ [b]) r)
    | _, _ => None
    end) d.

(** It returns when the channel is closed and empty, or one of the contexts is
    done, and then cancels what is missing. *)
Definition handle_end i d : option (delivery * list get_event) :=
  r ← requests d !! i;
  if handling r && (ctxDone r || sessDone r ||
       (match held r with None => true | Some _ => false end && blocksClosed r && (len (blocksCh r) =? 0)%Z)) then
    Some (set_requests (<[i := set_handling false r]> (requests d)) d, [EvCancel i (keys (remaining r))])
  else None.

(** The contexts end. *)
Definition cancel_ctx i d : option delivery := with_request i (λ r, Some (set_done true (sessDone r) r)) d.
Definition cancel_session i d : option delivery := with_request i (λ r, Some (set_done (ctxDone r) true r)) d.

(** What [SyncGetBlock] waits for. *)
Inductive sync_event :=
| GotBlock (b : AuthBlock)
| PromiseClosed (ctxErr : option error)
| ParentDone (err : error).

Definition SyncGetBlock (w : Want) (gb : option error) (ev : sync_event) : result error AuthBlock :=
  if negb (Cid_Defined (Want_Cid w)) then Err ErrNotFound
  else match gb with
       | Some err => Err err
       | None =>
           match ev with
           | GotBlock b => Ok b
           | PromiseClosed (Some err) => Err err
           | PromiseClosed None => Err (ErrOther "promise channel was closed")
           | ParentDone err => Err err
           end
       end.
End delivery.
Arguments delivery {CL} P.
End Delivery.
