(* ===== verification/DeliveryFacts.v ===== *)
(** * Delivery of blocks to clients
      (src/internal/notifications/notifications.go, src/internal/getter/getter.go)

    Publishing never blocks, each requested block reaches the client once, and
    what is cancelled is what is missing. *)
From S2P Require Import Prelude Auth Delivery.
Set Default Goal Selector "1".

Module DeliveryFacts.
Import Delivery.
Section facts.
Context {CL : CidLib} {GO : GoRuntime} {P : Type} {PS : PubSubLib P} {PL : PubSubLaws P}.
Context {KI : Inj (=) (=) Cid_KeyString}.
Implicit Types (d : delivery P) (r : request) (i : nat) (b : AuthBlock).

Abbreviation cids bs := (AuthBlock_Cid <$> bs).

(** ** Effects on channels *)

Definition run_list (es : list chan_effect) r : option request :=
  foldl (λ o e, r ← o; run_effect e r) (Some r) es.

Lemma run_list_cons e es r : run_list (e :: es) r = run_effect e r ≫= run_list es.
Proof.
  unfold run_list. cbn. destruct (run_effect e r) as [r'|]; [done|]. cbn. induction es as [|e' es IH]; [done|]. by cbn.
Qed.

Lemma run_effects_cons e es d :
  run_effects (e :: es) d =
    match requests d !! target e with
    | Some r => r ← run_effect e r; run_effects es (set_requests (<[target e := r]> (requests d)) d)
    | None => None
    end.
Proof.
  assert (∀ l, foldl (λ (o : option (delivery P)) e, d ← o;
    match requests d !! target e with
    | Some r => r ← run_effect e r; Some (set_requests (<[target e := r]> (requests d)) d)
    | None => None end) None l = None) as Hn by (intros l; by induction l).
  unfold run_effects. cbn. destruct (requests d !! target e) as [r|]; [|apply Hn].
  destruct (run_effect e r) as [r'|]; [done|apply Hn].
Qed.

(** Channels are independent of each other. *)
Lemma run_effects_spec es d :
  (∀ ch, on ch es ≠ [] → ∃ r, requests d !! ch = Some r ∧ is_Some (run_list (on ch es) r)) →
  ∃ R, run_effects es d = Some (set_requests R d) ∧
    ∀ ch, R !! ch = requests d !! ch ≫= run_list (on ch es).
Proof.
  revert d. induction es as [|e es IH]; intros d Hok.
  { exists (requests d). split; [by destruct d|]. intros ch. cbn. by destruct (requests d !! ch). }
  assert (on (target e) (e :: es) = e :: on (target e) es) as Eon by (unfold on; by rewrite filter_cons_True).
  destruct (Hok (target e)) as (r & Er & r2 & Hr); [by rewrite Eon|].
  rewrite Eon, run_list_cons in Hr. destruct (run_effect e r) as [r1|] eqn:E1; [cbn in Hr|done].
  rewrite run_effects_cons, Er, E1. cbn [mbind option_bind]. set (d1 := set_requests _ d).
  assert (∀ ch, ch ≠ target e → on ch (e :: es) = on ch es) as Hne
    by (intros ch Hch; unfold on; by rewrite filter_cons_False).
  destruct (IH d1) as (R & ER & HR).
  { intros ch Hch. unfold d1. cbn. destruct (decide (ch = target e)) as [->|Hc].
    - rewrite lookup_insert_eq. eauto.
    - rewrite lookup_insert_ne by done. rewrite <- Hne in Hch |- * by done. by apply Hok. }
  exists R. split; [done|]. intros ch. rewrite HR. unfold d1. cbn [requests set_requests].
  destruct (decide (ch = target e)) as [->|Hc].
  - rewrite lookup_insert_eq, Er, Eon. cbn [mbind option_bind]. by rewrite run_list_cons, E1.
  - by rewrite lookup_insert_ne, Hne by done.
Qed.

(** ** The invariant *)

(** The blocks a request was given, oldest first. *)
Definition seen r : list AuthBlock := out r ++ option_list (held r) ++ blocksCh r ++ valuesCh r.

Definition topic_of r (t : bytes) : Prop :=
  ∃ c, c ∈ rq_cids r ∧ t = Cid_KeyString c ∧ c ∉ cids (seen r).

(** [C]: the pub/sub is closed; [sub]: the topics the library still has for the
    request; [h]: the blocks published so far. *)
Record ReqInv (C : bool) (sub : bytes → Prop) (h : list AuthBlock) r : Prop := mkReqInv {
  ri_once : NoDup (cids (seen r));
  ri_asked : ∀ b, b ∈ seen r → AuthBlock_Cid b ∈ rq_cids r ∧ b ∈ h;
  ri_remaining : remaining r =
    list_to_set (rq_cids r) ∖ list_to_set (cids (out r ++ option_list (held r)));
  ri_sub : ∀ t, sub t → topic_of r t ∧ valuesClosed r = false;
  ri_all : C = false → forwarding r = true → ∀ t, topic_of r t → sub t;
  ri_open : C = false → forwarding r = true → valuesClosed r = false → ∃ t, sub t;
  ri_closed : blocksClosed r = negb (forwarding r);
  ri_forwarded : C = false → forwarding r = false → ctxDone r = false →
    valuesCh r = [] ∧ ∀ c, c ∈ rq_cids r → c ∈ cids (seen r);
  ri_handled : handling r = false → ctxDone r = false → sessDone r = false →
    forwarding r = false ∧ held r = None ∧ blocksCh r = [];
}.

Record Inv d (h : list AuthBlock) : Prop := mkInv {
  inv_requests : ∀ i r, requests d !! i = Some r → ReqInv (closed d) (subscribed (wrapped d) i) h r;
  inv_none : ∀ i t, requests d !! i = None → ¬ subscribed (wrapped d) i t;
  inv_next : ∀ i, is_Some (requests d !! i) → i < next d;
  inv_off : closed d = true → ∀ i t, ¬ subscribed (wrapped d) i t;
}.

Lemma Inv_delivery_new : Inv New [].
Proof.
  split; cbn.
  - intros i r. by rewrite lookup_empty.
  - intros i t _. apply sub_New.
  - intros i [r E]. by rewrite lookup_empty in E.
  - done.
Qed.

(** A request never holds more blocks than it asked for. *)
Lemma seen_bound C sub h r : ReqInv C sub h r → length (seen r) ≤ length (rq_cids r).
Proof.
  intros [H1 H2 _ _ _ _ _ _ _]. rewrite <- (length_fmap AuthBlock_Cid (seen r)).
  apply submseteq_length, NoDup_submseteq; [done|]. intros c (b & -> & Hb)%list_elem_of_fmap. by apply H2.
Qed.

(** A change of one request that the library does not notice. *)
Lemma Inv_local i r r' d h :
  Inv d h → requests d !! i = Some r →
  (ReqInv (closed d) (subscribed (wrapped d) i) h r → ReqInv (closed d) (subscribed (wrapped d) i) h r') →
  Inv (set_requests (<[i := r']> (requests d)) d) h.
Proof.
  intros [H1 H2 H3 H4] Er Hr. split; cbn.
  - intros j r1 [[<- <-]|[_ E]]%lookup_insert_Some; [by apply Hr, H1|by apply H1].
  - intros j t [E _]%lookup_insert_None. by apply H2.
  - intros j [r1 [[<- _]|[_ E]]%lookup_insert_Some]; apply H3; eauto.
  - done.
Qed.

(** ** Calls of the library *)

(** A call that changes every request by what it does to its channel. *)
Lemma Inv_effects d h p C es h' :
  Inv d h →
  (∀ i r, requests d !! i = Some r → ReqInv (closed d) (subscribed (wrapped d) i) h r →
     ∃ r', run_list (on i es) r = Some r' ∧ ReqInv C (subscribed p i) h' r') →
  (∀ i, requests d !! i = None → on i es = [] ∧ ∀ t, ¬ subscribed p i t) →
  (C = true → ∀ i t, ¬ subscribed p i t) →
  ∃ d', run_effects es (mkDelivery p C (requests d) (next d)) = Some d' ∧ Inv d' h' ∧
    ∀ i, requests d' !! i = requests d !! i ≫= run_list (on i es).
Proof.
  intros [H1 H2 H3 H4] Hr Hn Hoff.
  destruct (run_effects_spec es (mkDelivery p C (requests d) (next d))) as (R & -> & HR).
  { intros ch Hch. cbn. destruct (requests d !! ch) as [r|] eqn:Er.
    - exists r. split; [done|]. destruct (Hr ch r Er (H1 _ _ Er)) as (r' & -> & _). eauto.
    - by destruct Hch, (Hn ch Er). }
  eexists. split; [done|]. cbn in HR. split; [|done]. split; cbn; [| | |done].
  - intros i r'. rewrite HR. destruct (requests d !! i) as [r|] eqn:Er; [cbn|done]. intros E.
    destruct (Hr i r Er (H1 _ _ Er)) as (r1 & E1 & ?). by simplify_eq.
  - intros i t. rewrite HR. destruct (requests d !! i) as [r|] eqn:Er; cbn.
    + destruct (Hr i r Er (H1 _ _ Er)) as (r1 & -> & _). done.
    + intros _. by apply Hn.
  - intros i [r' E]. rewrite HR in E. apply H3. destruct (requests d !! i); [by eexists|done].
Qed.

Lemma ReqInv_more C sub sub' h h' r :
  ReqInv C sub h r → (∀ b, b ∈ h → b ∈ h') → (∀ t, sub' t ↔ sub t) → ReqInv C sub' h' r.
Proof.
  intros [H1 H2 H3 H4 H5 H6 H7 H8 H9] Hh Hs. split; try done.
  - intros b Hb. destruct (H2 b Hb). split; [done|by apply Hh].
  - intros t Ht%Hs. by apply H4.
  - intros HC Hf t Ht. by apply Hs, H5.
  - intros HC Hf Hv. destruct (H6 HC Hf Hv) as [t Ht%Hs]. eauto.
Qed.

(** A block arrives on the channel of a request that waits for it. *)
Lemma ReqInv_send (sub sub' : bytes → Prop) h h' r b c :
  ReqInv false sub h r → sub (Cid_KeyString (AuthBlock_Cid b)) → (∀ b, b ∈ h → b ∈ h') → b ∈ h' →
  (∀ t, sub' t ↔ sub t ∧ t ≠ Cid_KeyString (AuthBlock_Cid b)) →
  (if (c : bool) then ∀ t, ¬ sub' t else ∃ t, sub' t) →
  room r (valuesCh r) = true ∧ ReqInv false sub' h' (set_values (valuesCh r ++ [b]) c r).
Proof.
  intros HR Hb Hh Hbh Hs Hc. destruct (ri_sub _ _ _ _ HR _ Hb) as [(k & Hk & Ek%(inj Cid_KeyString) & Hns) Hv].
  subst k. set (r' := set_values _ _ _).
  assert (seen r' = seen r ++ [b]) as Es by (unfold seen, r'; cbn; by rewrite <- !app_assoc).
  assert (∀ t, topic_of r' t ↔ topic_of r t ∧ t ≠ Cid_KeyString (AuthBlock_Cid b)) as Ht.
  { intros t. unfold topic_of. rewrite Es, fmap_app. cbn. setoid_rewrite not_elem_of_app.
    setoid_rewrite list_elem_of_singleton. split.
    - intros (k & ? & -> & ? & ?). split; [by exists k|]. by intros ?%(inj Cid_KeyString).
    - intros [(k & ? & -> & ?) Hne]. exists k. split_and!; [done|done|done|]. congruence. }
  destruct HR as [H1 H2 H3 H4 H5 H6 H7 H8 H9].
  assert (ReqInv false sub' h' r') as HR'.
  { split; [| |done| | | |done| |done].
    - rewrite Es, fmap_app. apply NoDup_app. split_and!; [done| |apply NoDup_singleton].
      intros x Hx ->%list_elem_of_singleton. done.
    - intros b' Hb'. rewrite Es in Hb'. apply elem_of_app in Hb' as [Hb'| ->%list_elem_of_singleton]; [|done].
      destruct (H2 b' Hb'). split; [done|by apply Hh].
    - intros t [Hst Hne]%Hs. split; [apply Ht; split; [by apply H4|done]|].
      destruct c; [|done]. exfalso. apply (Hc t), Hs. done.
    - intros _ Hf t [? ?]%Ht. apply Hs. split; [by apply H5|done].
    - intros _ Hf Hcl. destruct c; done.
    - intros _ Hf Hd. destruct (H8 eq_refl Hf Hd) as [_ Hall]. by destruct (Hns (Hall _ Hk)). }
  split; [|done]. pose proof (seen_bound _ _ _ _ HR') as Hle. rewrite Es in Hle.
  unfold room, len. unfold seen in Hle. rewrite !length_app in Hle. cbn in Hle. apply Z.ltb_lt. unfold r' in Hle. cbn in Hle. lia.
Qed.

(** What a publication does to one request. *)
Lemma publish_request b d h i r :
  Inv d h → closed d = false → requests d !! i = Some r →
  let t := Cid_KeyString (AuthBlock_Cid b) in
  let x := ps_Pub b t (wrapped d) in
  ∃ r', run_list (on i x.2) r = Some r' ∧ ReqInv false (subscribed x.1 i) (h ++ [b]) r' ∧
    (subscribed (wrapped d) i t → ∃ c, r' = set_values (valuesCh r ++ [b]) c r).
Proof.
  intros HI HC Er t x. pose proof (inv_requests _ _ HI i r Er) as HR. rewrite HC in HR.
  assert (∀ t', subscribed x.1 i t' ↔ subscribed (wrapped d) i t' ∧ t' ≠ t) as Hsub by (intros t'; apply sub_Pub).
  destruct (decide (subscribed (wrapped d) i t)) as [Hs|Hs].
  - assert (∃ c : bool, on i x.2 = Send i b :: (if c then [Close i] else []) ∧
      if c then ∀ t', ¬ subscribed x.1 i t' else ∃ t', subscribed x.1 i t') as (c & Eo & Hc).
    { destruct (decide (Exists (λ k, subscribed (wrapped d) i (Cid_KeyString k) ∧ k ≠ AuthBlock_Cid b) (rq_cids r))) as [He|He].
      - apply Exists_exists in He as (k & _ & Hk & Hne). exists false.
        assert (Cid_KeyString k ≠ t) by by intros ?%(inj Cid_KeyString).
        split; [by eapply eff_Pub_more|exists (Cid_KeyString k); by apply Hsub].
      - assert (∀ t', subscribed (wrapped d) i t' → t' = t) as Hall.
        { intros t' Ht'. destruct (ri_sub _ _ _ _ HR t' Ht') as [(k & Hk & -> & _) _].
          destruct (decide (k = AuthBlock_Cid b)) as [->|]; [done|]. destruct He. apply Exists_exists. eauto. }
        exists true. split; [by apply eff_Pub_last|]. intros t' [Ht' Hne]%Hsub. by destruct Hne, (Hall t' Ht'). }
    destruct (ReqInv_send _ (subscribed x.1 i) h (h ++ [b]) r b c HR Hs ltac:(set_solver) ltac:(set_solver) Hsub Hc) as [Hroom HR'].
    eexists. split; [|split; [exact HR'|eauto]]. rewrite Eo, run_list_cons. cbn.
    destruct (ri_sub _ _ _ _ HR t Hs) as [_ ->]. rewrite Hroom. cbn. by destruct c.
  - exists r. assert (on i x.2 = []) as -> by by apply eff_Pub_other. split_and!; [done| |done].
    eapply ReqInv_more; [done|set_solver|]. intros t'. rewrite Hsub. split; [tauto|].
    intros ?. split; [done|]. by intros ->.
Qed.

Lemma Publish_ok b d h :
  Inv d h → ∃ d', Publish b d = Some d' ∧ Inv d' (h ++ [b]) ∧
    (closed d = false → ∀ i, requests d' !! i =
       requests d !! i ≫= run_list (on i (ps_Pub b (Cid_KeyString (AuthBlock_Cid b)) (wrapped d)).2)).
Proof.
  intros HI. unfold Publish. destruct (closed d) eqn:HC.
  { exists d. split; [done|]. split; [|done]. destruct HI as [H1 H2 H3 H4]. split; [|done..].
    intros i r Er. eapply ReqInv_more; [exact (H1 i r Er)|set_solver|done]. }
  set (t := Cid_KeyString (AuthBlock_Cid b)).
  pose proof (λ i r, publish_request b d h i r HI HC) as Hreq. cbn zeta in Hreq. fold t in Hreq.
  assert (∀ i t', subscribed (ps_Pub b t (wrapped d)).1 i t' ↔ subscribed (wrapped d) i t' ∧ t' ≠ t) as Hsub
    by (intros; apply sub_Pub).
  pose proof (λ ch, eff_Pub_other b t (wrapped d) ch) as Hoth.
  destruct (ps_Pub b t (wrapped d)) as [p es]. cbn [fst snd] in *.
  assert (set_wrapped p d = mkDelivery p false (requests d) (next d)) as -> by (unfold set_wrapped; by rewrite HC).
  destruct (Inv_effects d h p false es (h ++ [b])) as (d' & E1 & E2 & E3); [done| | |done|].
  - intros i r Er _. destruct (Hreq i r Er) as (r' & ? & ? & _). eauto.
  - intros i Er. pose proof (inv_none _ _ HI i) as Hn. split; [by apply Hoth, Hn|].
    intros t' [? _]%Hsub. by eapply Hn.
  - exists d'. done.
Qed.

(** A block that a request waits for is taken over by it. *)
Lemma Publish_reaches b d d' h i r :
  Inv d h → closed d = false → requests d !! i = Some r → forwarding r = true →
  AuthBlock_Cid b ∈ rq_cids r → AuthBlock_Cid b ∉ cids (seen r) → Publish b d = Some d' →
  ∃ c, requests d' !! i = Some (set_values (valuesCh r ++ [b]) c r).
Proof.
  intros HI HC Er Hf Hin Hns Hp. destruct (Publish_ok b d h HI) as (d1 & E & _ & HR). simplify_eq.
  specialize (HR HC i). rewrite Er in HR. cbn [mbind option_bind] in HR.
  destruct (publish_request b d h i r HI HC Er) as (r' & E1 & _ & Hs). cbn zeta in *.
  destruct Hs as [c ->]; [|exists c; by rewrite HR].
  pose proof (inv_requests _ _ HI i r Er) as HRi. rewrite HC in HRi.
  apply (ri_all _ _ _ _ HRi); [done|done|]. by exists (AuthBlock_Cid b).
Qed.

Lemma seen_arrived b c r : seen (set_values (valuesCh r ++ [b]) c r) = seen r ++ [b].
Proof. unfold seen. cbn. by rewrite <- !app_assoc. Qed.

(** The library lets go of a request, and closes its channel if it had not. *)
Lemma ReqInv_release C C' sub sub' h r c :
  ReqInv C sub h r → (C' = false → C = false ∧ forwarding r = false) → (∀ t, ¬ sub' t) →
  ReqInv C' sub' h (set_values (valuesCh r) c r).
Proof.
  intros [H1 H2 H3 H4 H5 H6 H7 H8 H9] HC Hs. split; try done.
  - intros t Ht. by destruct (Hs t).
  - intros [_ Hf]%HC Hf'. cbn in Hf'. congruence.
  - intros [_ Hf]%HC Hf'. cbn in Hf'. congruence.
  - intros [E _]%HC. by apply H8.
Qed.

Lemma set_values_eta r : set_values (valuesCh r) (valuesClosed r) r = r.
Proof. by destruct r. Qed.

Lemma run_close i sub C h r es t :
  ReqInv C sub h r → sub t → es = [Close i] → run_list es r = Some (set_values (valuesCh r) true r).
Proof. intros HR Ht ->. cbn. by destruct (ri_sub _ _ _ _ HR t Ht) as [_ ->]. Qed.

(** Whether the library still has something for a request. *)
Lemma sub_cases p i C h r :
  ReqInv C (subscribed p i) h r → (∃ t, subscribed p i t) ∨ ∀ t, ¬ subscribed p i t.
Proof.
  intros HR. destruct (decide (Exists (λ k, subscribed p i (Cid_KeyString k)) (rq_cids r))) as [He|He].
  - apply Exists_exists in He as (k & _ & ?). eauto.
  - right. intros t Ht. destruct (ri_sub _ _ _ _ HR t Ht) as [(k & Hk & -> & _) _].
    apply He, Exists_exists. eauto.
Qed.

Lemma Shutdown_ok d h : Inv d h → ∃ d', Shutdown d = Some d' ∧ Inv d' h.
Proof.
  intros HI. unfold Shutdown. destruct (closed d) eqn:HC; [by exists d|].
  destruct (ps_Shutdown (wrapped d)) as [p es] eqn:Ep.
  assert (es = (ps_Shutdown (wrapped d)).2) as Ees by by rewrite Ep.
  assert (∀ j t, ¬ subscribed p j t) as Hno.
  { intros j t. pose proof (sub_Shutdown (wrapped d) j t) as H. by rewrite Ep in H. }
  destruct (Inv_effects d h p true es h) as (d' & ? & ? & _); [done| | |done|by exists d'].
  - intros i r Er HR. destruct (sub_cases _ _ _ _ _ HR) as [[t Ht]|Hn].
    + exists (set_values (valuesCh r) true r). split; [|by eapply ReqInv_release].
      eapply run_close; [done|done|]. rewrite Ees. by eapply eff_Shutdown_some.
    + exists r. rewrite Ees, eff_Shutdown_none by done. split; [done|].
      rewrite <- (set_values_eta r). by eapply ReqInv_release.
  - intros i Er. split; [|done]. rewrite Ees. apply eff_Shutdown_none. intros t. by apply (inv_none _ _ HI).
Qed.

(** ** New requests *)

Lemma remaining_loop (wants : list Want) (S : gset Cid) :
  foldl (λ S w, {[Want_Cid w]} ∪ S) S wants = list_to_set (Want_Cid <$> wants) ∪ S.
Proof. revert S. induction wants as [|w ws IH]; intros S; cbn; [set_solver|]. rewrite IH. set_solver. Qed.

Lemma Inv_AsyncGetBlocks wants d h : Inv d h → Inv (AsyncGetBlocks wants d).1 h.
Proof.
  intros HI. unfold AsyncGetBlocks. destruct (Z.eqb_spec (len wants) 0) as [|Hlen]; [done|]. cbn [fst].
  set (ks := Want_Cid <$> wants). rewrite remaining_loop, union_empty_r_L. fold ks. unfold Subscribe.
  assert (∃ k ks', ks = k :: ks') as (k0 & ks' & Eks) by (destruct wants; [done|by eexists _, _]).
  assert ((len ks =? 0)%Z = false) as -> by by rewrite Eks. cbn [negb andb].
  destruct HI as [H1 H2 H3 H4].
  assert (requests d !! next d = None) as Hnew.
  { destruct (requests d !! next d) eqn:E; [|done]. pose proof (H3 _ (ex_intro _ _ E)). lia. }
  set (p := if negb (closed d) then _ else _). set (r := mkReq _ _ _ _ _ _ _ _ _ _ _ _).
  assert (∀ i t, subscribed p i t ↔ subscribed (wrapped d) i t ∨ (closed d = false ∧ i = next d ∧ t ∈ toStrings ks)) as Hs.
  { intros i t. unfold p. destruct (closed d); cbn; [naive_solver|]. rewrite sub_Add. naive_solver. }
  split; cbn.
  - intros i r1 [[<- <-]|[Hne E]]%lookup_insert_Some.
    + assert (∀ t, topic_of r t ↔ t ∈ toStrings ks) as Ht.
      { intros t. unfold topic_of, toStrings. rewrite list_elem_of_fmap. cbn. split.
        - intros (k & ? & -> & _). eauto.
        - intros (k & -> & ?). exists k. split_and!; [done|done|apply not_elem_of_nil]. }
      split; [apply NoDup_nil_2|intros b Hb; by apply not_elem_of_nil in Hb|cbn; set_solver| | | | | |done].
      * intros t [Hsb|(_ & _ & ?)]%Hs; [by destruct (H2 _ t Hnew)|]. split; [by apply Ht|done].
      * intros HC _ t ?%Ht. apply Hs. by right.
      * intros HC _ _. exists (Cid_KeyString k0). apply Hs. right. split_and!; [done|done|].
        apply list_elem_of_fmap_2. rewrite Eks. left.
      * done.
      * intros HC. cbn. by rewrite HC.
    + eapply ReqInv_more; [by apply H1|done|]. intros t. rewrite Hs. split; [|by left].
      intros [?|(_ & -> & _)]; [done|]. congruence.
  - intros i t [E Hne]%lookup_insert_None. rewrite Hs. intros [?|(_ & -> & _)]; [by eapply H2|done].
  - intros i [r1 [[<- _]|[_ E]]%lookup_insert_Some]; [lia|]. pose proof (H3 i (ex_intro _ _ E)). lia.
  - intros HC i t. rewrite Hs, HC. intros [?|[? _]]; [by eapply H4|done].
Qed.

(** ** The two goroutines *)

Lemma with_request_Some i f d d' :
  with_request i f d = Some d' →
  ∃ r r', requests d !! i = Some r ∧ f r = Some r' ∧ d' = set_requests (<[i := r']> (requests d)) d.
Proof.
  unfold with_request. destruct (requests d !! i) as [r|]; [cbn|done].
  destruct (f r) as [r'|] eqn:E; [cbn|done]. intros [= <-]. eauto.
Qed.

(** A request that only moves its blocks along. *)
Lemma ReqInv_move C sub h r r' :
  ReqInv C sub h r → seen r' = seen r →
  (rq_cids r', valuesClosed r', blocksClosed r', forwarding r', ctxDone r', sessDone r', handling r') =
  (rq_cids r, valuesClosed r, blocksClosed r, forwarding r, ctxDone r, sessDone r, handling r) →
  remaining r' = list_to_set (rq_cids r) ∖ list_to_set (cids (out r' ++ option_list (held r'))) →
  (forwarding r = false → valuesCh r = [] → valuesCh r' = []) →
  (handling r = false → forwarding r = false → held r = None ∧ blocksCh r = [] → held r' = None ∧ blocksCh r' = []) →
  ReqInv C sub h r'.
Proof.
  intros [H1 H2 H3 H4 H5 H6 H7 H8 H9] Es [= E1 E2 E3 E4 E5 E6 E7] Er Ev Eh.
  assert (∀ t, topic_of r' t ↔ topic_of r t) as Ht by (intros t; unfold topic_of; by rewrite Es, E1).
  split; rewrite ?Es, ?E1, ?E2, ?E3, ?E4, ?E5, ?E6, ?E7; try done.
  - intros t. rewrite Ht. by apply H4.
  - intros HC Hf t. rewrite Ht. by apply H5.
  - intros HC Hf Hd. destruct (H8 HC Hf Hd) as [? ?]. split; [by apply Ev|done].
  - intros Hh Hd Hd'. destruct (H9 Hh Hd Hd') as [? ?]. split; [done|by apply Eh].
Qed.

Lemma Inv_forward i d d' h : Inv d h → forward i d = Some d' → Inv d' h.
Proof.
  intros HI (r & r' & Er & Ef & ->)%with_request_Some.
  destruct (forwarding r) eqn:Efw; [|done]. destruct (valuesCh r) as [|b rest] eqn:Ev; [done|].
  destruct (room r (blocksCh r)); [|done]. injection Ef as <-. eapply Inv_local; [done|done|]. intros HR.
  pose proof (ri_closed _ _ _ _ HR) as Ec. rewrite Efw in Ec.
  eapply ReqInv_move; [exact HR| | |exact (ri_remaining _ _ _ _ HR)|by rewrite Efw|by rewrite Efw].
  - unfold seen. cbn. by rewrite Ev, <- !app_assoc.
  - cbn. by rewrite Ec, Efw.
Qed.

(** After a shutdown a block may be lost on its way. *)
Lemma Inv_forward_drop i d d' h : Inv d h → forward_drop i d = Some d' → Inv d' h.
Proof.
  unfold forward_drop. intros HI. destruct (closed d) eqn:HC; [|done].
  intros (r & r' & Er & Ef & ->)%with_request_Some.
  destruct (forwarding r) eqn:Efw; [|done]. destruct (valuesCh r) as [|b rest] eqn:Ev; [done|]. injection Ef as <-.
  eapply Inv_local; [done|done|]. rewrite HC. intros [H1 H2 H3 H4 H5 H6 H7 H8 H9].
  assert (seen r = out r ++ option_list (held r) ++ blocksCh r ++ b :: rest) as Es by (unfold seen; by rewrite Ev).
  set (r' := set_values _ _ _).
  assert (seen r' `sublist_of` seen r) as Hsub.
  { rewrite Es. unfold seen, r'. cbn. do 3 (apply sublist_app; [done|]). by apply sublist_cons. }
  split; try done.
  - eapply sublist_NoDup; [exact H1|]. by apply fmap_sublist.
  - intros b' Hb'. apply H2. by eapply sublist_subseteq.
  - intros t Ht. by destruct (inv_off _ _ HI HC i t).
Qed.

Lemma Inv_incoming i d d' h : Inv d h → incoming i d = Some d' → Inv d' h.
Proof.
  intros HI (r & r' & Er & Ef & ->)%with_request_Some.
  destruct (handling r) eqn:Eh; [|done]. destruct (held r) eqn:Ehd; [done|].
  destruct (blocksCh r) as [|b rest] eqn:Eb; [done|]. injection Ef as <-. eapply Inv_local; [done|done|]. intros HR.
  eapply ReqInv_move; [exact HR| |done| |done|by rewrite Eh].
  - unfold seen. cbn. by rewrite Ehd, Eb.
  - cbn. rewrite (ri_remaining _ _ _ _ HR), Ehd. cbn. rewrite app_nil_r, fmap_app. set_solver.
Qed.

Lemma Inv_client_reads i d d' h : Inv d h → client_reads i d = Some d' → Inv d' h.
Proof.
  intros HI (r & r' & Er & Ef & ->)%with_request_Some.
  destruct (handling r) eqn:Eh; [|done]. destruct (held r) as [b|] eqn:Ehd; [|done]. injection Ef as <-.
  eapply Inv_local; [done|done|]. intros HR.
  eapply ReqInv_move; [exact HR| |done| |done|by rewrite Eh].
  - unfold seen. cbn. by rewrite Ehd, <- app_assoc.
  - cbn. by rewrite (ri_remaining _ _ _ _ HR), Ehd, app_nil_r.
Qed.

Lemma Inv_done i d d' h : Inv d h → cancel_ctx i d = Some d' ∨ cancel_session i d = Some d' → Inv d' h.
Proof.
  intros HI [H|H]; apply with_request_Some in H as (r & r' & Er & [= <-] & ->);
    (eapply Inv_local; [done|done|]); intros [H1 H2 H3 H4 H5 H6 H7 H8 H9]; by split.
Qed.

Lemma Inv_handle_end i d d' h es : Inv d h → handle_end i d = Some (d', es) → Inv d' h.
Proof.
  unfold handle_end. intros HI. destruct (requests d !! i) as [r|] eqn:Er; [cbn|done].
  destruct (handling r && _) eqn:Hc; [|done]. intros [= <- _]. eapply Inv_local; [done|done|].
  intros [H1 H2 H3 H4 H5 H6 H7 H8 H9]. split; try done. cbn. intros _ Hd Hd'.
  apply andb_true_iff in Hc as [_ Hc]. rewrite Hd, Hd' in Hc. cbn in Hc.
  apply andb_true_iff in Hc as [[Hh Hb]%andb_true_iff Hl%Z.eqb_eq]. destruct (held r); [done|].
  rewrite H7 in Hb. apply negb_true_iff in Hb. split_and!; [done|done|]. by apply len_eqb_nil, Z.eqb_eq.
Qed.

(** The goroutine of [Subscribe] returns. *)
Lemma ReqInv_end C sub h r :
  ReqInv C sub h r → forwarding r = true →
  (ctxDone r = false → valuesClosed r = true ∧ valuesCh r = []) →
  ReqInv C sub h (set_blocks (blocksCh r) true false r) .
Proof.
  intros [H1 H2 H3 H4 H5 H6 H7 H8 H9] Hf Hd. split; try done.
  - intros HC _ Hctx. destruct (Hd Hctx) as [Hv Hvs]. split; [done|]. intros c Hc.
    destruct (decide (c ∈ cids (seen r))) as [?|Hn]; [done|]. exfalso.
    destruct (H4 (Cid_KeyString c)) as [_ ?]; [|congruence]. apply H5; [done|done|]. exists c. done.
  - intros Hh Hctx Hs. destruct (H9 Hh Hctx Hs) as [? _]. congruence.
Qed.

Lemma Inv_forward_end i d h :
  Inv d h → (∃ r, requests d !! i = Some r ∧ forwarding r = true ∧
    (ctxDone r = true ∨ (valuesClosed r = true ∧ valuesCh r = []))) →
  ∃ d', forward_end i d = Some d' ∧ Inv d' h.
Proof.
  intros HI (r & Er & Hf & Hor). unfold forward_end. rewrite Er. cbn [mbind option_bind].
  assert (forwarding r && (ctxDone r || valuesClosed r && (len (valuesCh r) =? 0)%Z) = true) as ->.
  { rewrite Hf. destruct Hor as [->|[-> ->]]; [done|]. cbn. by rewrite orb_true_r. }
  set (r1 := set_blocks _ _ _ _). set (d1 := set_requests _ d).
  assert (Inv d1 h) as HI1.
  { eapply Inv_local; [done|done|]. intros HR. apply ReqInv_end; [done|done|]. intros E. by destruct Hor as [?|?]; [congruence|]. }
  assert (requests d1 !! i = Some r1) as Er1 by (unfold d1; cbn; by rewrite lookup_insert_eq).
  assert (forwarding r1 = false) as Ef1 by done. clearbody d1 r1.
  destruct (closed d1) eqn:HC; [by exists d1|].
  destruct (ps_Unsub i (wrapped d1)) as [p es] eqn:Ep.
  assert (es = (ps_Unsub i (wrapped d1)).2) as Ees by by rewrite Ep.
  assert (∀ j t, subscribed p j t ↔ j ≠ i ∧ subscribed (wrapped d1) j t) as Hsub.
  { intros j t. pose proof (sub_Unsub i (wrapped d1) j t) as H. by rewrite Ep in H. }
  assert (set_wrapped p d1 = mkDelivery p false (requests d1) (next d1)) as -> by (unfold set_wrapped; by rewrite HC).
  destruct (Inv_effects d1 h p false es h) as (d' & ? & ? & _); [done| | |done|by exists d'].
  - intros j r2 Er2 HR. destruct (decide (j = i)) as [->|Hne].
    + assert (r2 = r1) as -> by congruence. assert (∀ t, ¬ subscribed p i t) as Hno by (intros t [? _]%Hsub; done).
      destruct (sub_cases _ _ _ _ _ HR) as [[t Ht]|Hn].
      * eexists. split; [eapply run_close; [done|exact Ht|rewrite Ees; by eapply eff_Unsub_some]|].
        by eapply ReqInv_release.
      * exists r1. rewrite Ees, eff_Unsub_none by done. split; [done|].
        rewrite <- (set_values_eta r1). by eapply ReqInv_release.
    + exists r2. rewrite Ees, eff_Unsub_other by done. split; [done|]. rewrite HC in HR.
      eapply ReqInv_more; [done|done|]. intros t. rewrite Hsub. tauto.
  - intros j Ej. assert (j ≠ i) by congruence. split; [rewrite Ees; by apply eff_Unsub_other|].
    intros t [_ ?]%Hsub. by eapply (inv_none _ _ HI1).
Qed.

(** ** Runs *)

(** Publications (recorded), shutdown, requests, the goroutines of a request and
    its contexts. *)
Inductive step : relation (delivery P * list AuthBlock) :=
| st_publish b d d' h : Publish b d = Some d' → step (d, h) (d', h ++ [b])
| st_shutdown d d' h : Shutdown d = Some d' → step (d, h) (d', h)
| st_get wants d h : step (d, h) ((AsyncGetBlocks wants d).1, h)
| st_forward i d d' h : forward i d = Some d' → step (d, h) (d', h)
| st_drop i d d' h : forward_drop i d = Some d' → step (d, h) (d', h)
| st_forward_end i d d' h : forward_end i d = Some d' → step (d, h) (d', h)
| st_incoming i d d' h : incoming i d = Some d' → step (d, h) (d', h)
| st_reads i d d' h : client_reads i d = Some d' → step (d, h) (d', h)
| st_handle_end i d d' es h : handle_end i d = Some (d', es) → step (d, h) (d', h)
| st_ctx i d d' h : cancel_ctx i d = Some d' → step (d, h) (d', h)
| st_session i d d' h : cancel_session i d = Some d' → step (d, h) (d', h).

Lemma delivery_step x y : step x y → Inv x.1 x.2 → Inv y.1 y.2.
Proof.
  destruct 1 as [b d d' h H|d d' h H|wants d h|i d d' h H|i d d' h H|i d d' h H|i d d' h H|i d d' h H
    |i d d' es h H|i d d' h H|i d d' h H]; cbn [fst snd]; intros HI.
  - destruct (Publish_ok b d h HI) as (d1 & E & ? & _). by simplify_eq.
  - destruct (Shutdown_ok d h HI) as (d1 & E & ?). by simplify_eq.
  - by apply Inv_AsyncGetBlocks.
  - by eapply Inv_forward.
  - by eapply Inv_forward_drop.
  - destruct (Inv_forward_end i d h HI) as (d1 & E & ?); [|by simplify_eq].
    unfold forward_end in H. destruct (requests d !! i) as [r|] eqn:Er; [cbn in H|done]. exists r. split; [done|].
    destruct (forwarding r); [|done]. split; [done|]. destruct (ctxDone r); [by left|right]. cbn in H.
    destruct (valuesClosed r); [|done]. cbn in H. destruct (Z.eqb_spec (len (valuesCh r)) 0); [|done].
    split; [done|by apply len_eqb_nil, Z.eqb_eq].
  - by eapply Inv_incoming.
  - by eapply Inv_client_reads.
  - by eapply Inv_handle_end.
  - eapply Inv_done; [done|by left].
  - eapply Inv_done; [done|by right].
Qed.

Lemma delivery_reachable x y : rtc step x y → Inv x.1 x.2 → Inv y.1 y.2.
Proof. induction 1 as [|x y z Hs _ IH]; [done|]. intros HI. apply IH. by eapply delivery_step. Qed.

(** A block on its way to the client can be moved. *)
Lemma delivery_moves d h i r :
  Inv d h → requests d !! i = Some r → handling r = true → seen r ≠ out r →
  (forwarding r = true ∨ valuesCh r = []) →
  is_Some (client_reads i d) ∨ is_Some (incoming i d) ∨ is_Some (forward i d).
Proof.
  intros HI Er Hh Hne Hor. unfold client_reads, incoming, forward, with_request. rewrite Er. cbn. rewrite Hh.
  destruct (held r) as [b|] eqn:Ehd; [left; by eexists|right].
  destruct (blocksCh r) as [|b bs] eqn:Eb; [right|left; by eexists].
  pose proof (seen_bound _ _ _ _ (inv_requests _ _ HI i r Er)) as Hb. unfold seen in Hb, Hne. rewrite Ehd, Eb in *. cbn in *.
  destruct (valuesCh r) as [|v vs] eqn:Ev; [by rewrite app_nil_r in Hne|].
  destruct Hor as [->|?]; [|done]. rewrite length_app in Hb. cbn in Hb.
  assert (room r [] = true) as ->; [|by eexists]. unfold room, len. apply Z.ltb_lt. cbn. lia.
Qed.
End facts.
End DeliveryFacts.
