(* ===== verification/Wire.v ===== *)
(** * The bytes of a message (src/message/pb/message.pb.go, cid.go)

    [MarshalTo] writes a protobuf struct into a buffer and [Unmarshal] reads one
    from a slice, field by field, for the five structs of [Proto].

    A writer takes the buffer and the index and returns them; it is [None] when an
    index is out of range.  A reader keeps the slice and the index [iNdEx] of the
    code and returns [None] when the code would panic (an index out of range, or
    [panic("unreachable")]) or when its loop has not ended within the fuel; the Go
    error of a malformed message is an [Err].  [int] is a 64-bit integer, and the
    repeated bodies of the generated code (reading a varint, reading a length with
    its checks, the loop over the fields, skipping an unknown field) are one
    definition each. *)
From S2P Require Import Prelude Auth Wantlist Proto.
From stdpp Require Import options.
Set Default Goal Selector "1".
Open Scope Z_scope.

(** What is used of [cid.Cast]: it reads back the binary form of a cid. *)
Class CidCast `{CL : CidLib} := {
  Cid_Cast : bytes → result error Cid;
  Cid_Cast_KeyString : ∀ c, Cid_Defined c = true → Cid_Cast (Cid_KeyString c) = Ok c;
}.

(** [uint8(z)], and a byte as a number. *)
Definition uint8 (z : Z) : Byte.byte := default Byte.x00 (Byte.of_N (Z.to_N (z `mod` 256))).
Definition byte_Z (b : Byte.byte) : Z := Z.of_N (Byte.to_N b).

Module Wire.

(** ** Errors *)

Inductive pb_error :=
| ErrIntOverflowMessage
| ErrInvalidLengthMessage
| ErrUnexpectedEOF
| ErrWrongWireType (wireType : Z) (field : string)
| ErrEndGroup (msg : string)
| ErrIllegalTag (msg : string) (fieldNum wire : Z)
| ErrIllegalWireType (wireType : Z)
| ErrCast (e : error).

Abbreviation go A := (option (result pb_error A)).
Definition ret {A} (a : A) : go A := Some (Ok a).
Definition throw {A} (e : pb_error) : go A := Some (Err e).
Definition bind {A B} (r : go A) (k : A → go B) : go B :=
  match r with
  | Some (Ok a) => k a
  | Some (Err e) => Some (Err e)
  | None => None
  end.
Notation "'let!' x := r 'in' k" := (bind r (λ x, k))
  (at level 10, x pattern, r at level 100, k at level 200,
   format "'[v' 'let!'  x  :=  r  'in' '/' k ']'") : go_scope.

(** ** Writing *)

Definition writer : Type := bytes * Z → option (bytes * Z).

(** [dAtA[i] = b; i++]. *)
Definition put (b : Byte.byte) : writer := λ '(dAtA, i),
  if (0 <=? i) && (i <? len dAtA) then Some (<[Z.to_nat i := b]> dAtA, i + 1) else None.
(** [i += copy(dAtA[i:], bs)]. *)
Definition copy (bs : bytes) : writer := λ '(dAtA, i),
  if (0 <=? i) && (i <=? len dAtA) then
    let n := Nat.min (length bs) (length dAtA - Z.to_nat i) in
    Some (take (Z.to_nat i) dAtA ++ take n bs ++ drop (Z.to_nat i + n) dAtA, i + Z.of_nat n)
  else None.
Definition skip : writer := Some.
Definition seq (f g : writer) : writer := λ x, x ← f x; g x.
Infix ">>" := seq (at level 55, right associativity) : go_scope.
(** A loop over the elements of a slice. *)
Definition each {A} (f : A → writer) (xs : list A) : writer := foldr (λ x w, f x >> w) skip xs.
(** [n, err := msg.MarshalTo(dAtA[i:]); i += n]: the slice shares the buffer. *)
Definition sub (MarshalTo : bytes → option (bytes * Z)) : writer := λ '(dAtA, i),
  if (0 <=? i) && (i <=? len dAtA) then
    '(d, n) ← MarshalTo (drop (Z.to_nat i) dAtA); Some (take (Z.to_nat i) dAtA ++ d, i + n)
  else None.

(** A [uint64] has at most ten groups of seven bits. *)
Fixpoint encodeVarint_loop (fuel : nat) (v : Z) : writer :=
  match fuel with
  | O => λ _, None
  | S fuel =>
      if 128 <=? v
      then put (uint8 (Z.lor (Z.land v 127) 128)) >> encodeVarint_loop fuel (Z.shiftr v 7)
      else put (uint8 v)
  end.
Definition encodeVarintMessage (v : Z) : writer := encodeVarint_loop 10 v.

(** A [bool] field that is set. *)
Definition put_bool (b : bool) : writer := put (if b then Byte.x01 else Byte.x00).

(** A [bytes] field, absent when empty. *)
Definition put_bytes (tag : Byte.byte) (b : bytes) : writer :=
  if 0 <? len b then put tag >> encodeVarintMessage (uint64 (len b)) >> copy b else skip.

Section marshal.
Context {CL : CidLib}.

(** [data[:c.Size()]] panics when the slice is too short. *)
Definition Cid_MarshalTo (c : Cid) (data : bytes) : option (bytes * Z) :=
  if Cid_Size c <=? len data then copy (Cid_KeyString c) (data, 0) else None.

Definition Entry_MarshalTo (m : pb_Entry) (dAtA : bytes) : option (bytes * Z) :=
  (put Byte.x0a >> encodeVarintMessage (uint64 (Cid_Size (pbe_Block m))) >> sub (Cid_MarshalTo (pbe_Block m)) >>
   (if negb (pbe_Priority m =? 0) then put Byte.x10 >> encodeVarintMessage (uint64 (pbe_Priority m)) else skip) >>
   (if pbe_Cancel m then put Byte.x18 >> put_bool (pbe_Cancel m) else skip) >>
   (if negb (pbe_WantType m =? 0) then put Byte.x20 >> encodeVarintMessage (uint64 (pbe_WantType m)) else skip) >>
   (if pbe_SendDontHave m then put Byte.x28 >> put_bool (pbe_SendDontHave m) else skip) >>
   put_bytes Byte.x32 (pbe_Auth m)) (dAtA, 0).

Definition Wantlist_MarshalTo (m : pb_Wantlist) (dAtA : bytes) : option (bytes * Z) :=
  (each (λ msg, put Byte.x0a >> encodeVarintMessage (uint64 (pb_Entry_Size msg)) >> sub (Entry_MarshalTo msg))
     (pbw_Entries m) >>
   (if pbw_Full m then put Byte.x10 >> put_bool (pbw_Full m) else skip)) (dAtA, 0).

Definition Block_MarshalTo (m : pb_Block) (dAtA : bytes) : option (bytes * Z) :=
  (put_bytes Byte.x0a (pbb_Prefix m) >> put_bytes Byte.x12 (pbb_Data m) >> put_bytes Byte.x1a (pbb_Auth m)) (dAtA, 0).

Definition BlockPresence_MarshalTo (m : pb_BlockPresence) (dAtA : bytes) : option (bytes * Z) :=
  (put Byte.x0a >> encodeVarintMessage (uint64 (Cid_Size (pbp_Cid m))) >> sub (Cid_MarshalTo (pbp_Cid m)) >>
   (if negb (pbp_Type m =? 0) then put Byte.x10 >> encodeVarintMessage (uint64 (pbp_Type m)) else skip) >>
   put_bytes Byte.x1a (pbp_Auth m)) (dAtA, 0).

Definition Message_MarshalTo (m : pb_Message) (dAtA : bytes) : option (bytes * Z) :=
  (put Byte.x0a >> encodeVarintMessage (uint64 (pb_Wantlist_Size (pbm_Wantlist m))) >>
   sub (Wantlist_MarshalTo (pbm_Wantlist m)) >>
   each (λ b, put Byte.x12 >> encodeVarintMessage (uint64 (len b)) >> copy b) (pbm_Blocks m) >>
   each (λ msg, put Byte.x1a >> encodeVarintMessage (uint64 (pb_Block_Size msg)) >> sub (Block_MarshalTo msg))
     (pbm_Payload m) >>
   each (λ msg, put Byte.x22 >> encodeVarintMessage (uint64 (pb_BlockPresence_Size msg)) >>
                sub (BlockPresence_MarshalTo msg)) (pbm_BlockPresences m) >>
   (if negb (pbm_PendingBytes m =? 0) then put Byte.x28 >> encodeVarintMessage (uint64 (pbm_PendingBytes m))
    else skip)) (dAtA, 0).

(** [Marshal] allocates a buffer of [Size] zero bytes. *)
Definition Message_Marshal (m : pb_Message) : option bytes :=
  '(dAtA, n) ← Message_MarshalTo m (replicate (Z.to_nat (pb_Message_Size m)) Byte.x00);
  Some (take (Z.to_nat n) dAtA).
End marshal.

(** ** Reading *)

(** The loop that reads a varint into a variable whose type has the wrap-around
    [wrap]; it returns the value and the next index.  The fuel is one more than the
    ten iterations after which the shift is too large. *)
Fixpoint readVarint_loop (wrap : Z → Z) (fuel : nat) (dAtA : bytes) (shift acc iNdEx : Z) : go (Z * Z) :=
  match fuel with
  | O => None
  | S fuel =>
      if 64 <=? shift then throw ErrIntOverflowMessage
      else if len dAtA <=? iNdEx then throw ErrUnexpectedEOF
      else
        b ← dAtA !! Z.to_nat iNdEx;
        let acc := Z.lor acc (wrap (Z.shiftl (Z.land (byte_Z b) 127) shift)) in
        if byte_Z b <? 128 then ret (acc, iNdEx + 1)
        else readVarint_loop wrap fuel dAtA (shift + 7) acc (iNdEx + 1)
  end.
Definition readVarint (wrap : Z → Z) (dAtA : bytes) (iNdEx : Z) : go (Z * Z) :=
  readVarint_loop wrap 11 dAtA 0 0 iNdEx.

(** [dAtA[i:j]]. *)
Definition slice (dAtA : bytes) (i j : Z) : bytes := take (Z.to_nat (j - i)) (drop (Z.to_nat i) dAtA).

(** A length with its checks: the index of the payload and [postIndex]. *)
Definition readLength (dAtA : bytes) (iNdEx : Z) : go (Z * Z) :=
  let! (n, iNdEx) := readVarint int64 dAtA iNdEx in
  if n <? 0 then throw ErrInvalidLengthMessage
  else
    let postIndex := int64 (iNdEx + n) in
    if postIndex <? 0 then throw ErrInvalidLengthMessage
    else if len dAtA <? postIndex then throw ErrUnexpectedEOF
    else ret (iNdEx, postIndex).

(** The size of the first field of [dAtA], whatever it is; [skipGroup] is the loop
    of wire type 3, whose fields end with a tag of wire type 4. *)
Fixpoint skipMessage (fuel : nat) (dAtA : bytes) {struct fuel} : go Z :=
  match fuel with
  | O => None
  | S fuel =>
      if len dAtA <=? 0 then None
      else
        let! (wire, iNdEx) := readVarint uint64 dAtA 0 in
        let wireType := Z.land wire 7 in
        if wireType =? 0 then let! (_, iNdEx) := readVarint uint64 dAtA iNdEx in ret iNdEx
        else if wireType =? 1 then ret (int64 (iNdEx + 8))
        else if wireType =? 2 then
          let! (length, iNdEx) := readVarint int64 dAtA iNdEx in
          if length <? 0 then throw ErrInvalidLengthMessage
          else
            let iNdEx := int64 (iNdEx + length) in
            if iNdEx <? 0 then throw ErrInvalidLengthMessage else ret iNdEx
        else if wireType =? 3 then skipGroup fuel dAtA iNdEx
        else if wireType =? 4 then ret iNdEx
        else if wireType =? 5 then ret (int64 (iNdEx + 4))
        else throw (ErrIllegalWireType wireType)
  end
with skipGroup (fuel : nat) (dAtA : bytes) (start : Z) {struct fuel} : go Z :=
  match fuel with
  | O => None
  | S fuel =>
      let! (innerWire, iNdEx) := readVarint uint64 dAtA start in
      if Z.land innerWire 7 =? 4 then ret iNdEx
      else
        let! next := skipMessage fuel (drop (Z.to_nat start) dAtA) in
        let iNdEx := int64 (start + next) in
        if iNdEx <? 0 then throw ErrInvalidLengthMessage else skipGroup fuel dAtA iNdEx
  end.

(** The default case of a [switch]: the field that starts at [preIndex] is
    skipped.  Each call of [skipMessage] or turn of its loop is on fewer bytes, or
    the first of the two on as many. *)
Definition skip_field (dAtA : bytes) (preIndex : Z) : go Z :=
  let rest := drop (Z.to_nat preIndex) dAtA in
  let! skippy := skipMessage (2 * length rest + 2) rest in
  if skippy <? 0 then throw ErrInvalidLengthMessage
  else if int64 (preIndex + skippy) <? 0 then throw ErrInvalidLengthMessage
  else if len dAtA <? int64 (preIndex + skippy) then throw ErrUnexpectedEOF
  else ret (int64 (preIndex + skippy)).

(** The loop over the fields; [field] is the [switch], which gets the slice, the
    field number, the wire type, the index and the struct, and is [None] in the
    default case.  Every iteration reads at least one byte. *)
Fixpoint fields {M : Type} (name : string) (field : bytes → Z → Z → Z → M → option (go (M * Z)))
    (fuel : nat) (dAtA : bytes) (iNdEx : Z) (m : M) : go M :=
  if iNdEx <? len dAtA then
    match fuel with
    | O => None
    | S fuel =>
        let preIndex := iNdEx in
        let! (wire, iNdEx) := readVarint uint64 dAtA iNdEx in
        let fieldNum := int32 (Z.shiftr wire 3) in
        let wireType := Z.land wire 7 in
        if wireType =? 4 then throw (ErrEndGroup name)
        else if fieldNum <=? 0 then throw (ErrIllegalTag name fieldNum wire)
        else
          let! (m, iNdEx) :=
            match field dAtA fieldNum wireType iNdEx m with
            | Some r => r
            | None => let! iNdEx := skip_field dAtA preIndex in ret (m, iNdEx)
            end in
          fields name field fuel dAtA iNdEx m
    end
  else if len dAtA <? iNdEx then throw ErrUnexpectedEOF
  else ret m.

(** The two kinds of cases of the [switch]es: a varint that is stored in a
    variable with wrap-around [wrap], and a length-delimited payload. *)
Definition varint_case {M : Type} (name : string) (wrap : Z → Z) (set : Z → M)
    (dAtA : bytes) (wireType iNdEx : Z) : option (go (M * Z)) :=
  Some (if negb (wireType =? 0) then throw (ErrWrongWireType wireType name)
        else let! (v, iNdEx) := readVarint wrap dAtA iNdEx in ret (set v, iNdEx)).
Definition length_case {M : Type} (name : string) (set : bytes → go M)
    (dAtA : bytes) (wireType iNdEx : Z) : option (go (M * Z)) :=
  Some (if negb (wireType =? 2) then throw (ErrWrongWireType wireType name)
        else
          let! (iNdEx, postIndex) := readLength dAtA iNdEx in
          let! m := set (slice dAtA iNdEx postIndex) in
          ret (m, postIndex)).

Section unmarshal.
Context {CL : CidLib} {CC : CidCast}.

(** The zero values of the structs. *)
Definition Entry_zero : pb_Entry := mk_pb_Entry Cid_Undef 0 false 0 false [].
Definition Wantlist_zero : pb_Wantlist := mk_pb_Wantlist [] false.
Definition Block_zero : pb_Block := mk_pb_Block [] [] [].
Definition BlockPresence_zero : pb_BlockPresence := mk_pb_BlockPresence Cid_Undef 0 [].
Definition Message_zero : pb_Message := mk_pb_Message Wantlist_zero [] [] [] 0.

Definition Cid_Unmarshal (data : bytes) : go Cid :=
  match Cid_Cast data with Ok c => ret c | Err e => throw (ErrCast e) end.

Definition Entry_field (dAtA : bytes) (fieldNum wireType iNdEx : Z) (m : pb_Entry)
  : option (go (pb_Entry * Z)) :=
  let '(mk_pb_Entry block priority cancel wantType sendDontHave auth) := m in
  match fieldNum with
  | 1 => length_case "Block"
           (λ b, let! c := Cid_Unmarshal b in ret (mk_pb_Entry c priority cancel wantType sendDontHave auth))
           dAtA wireType iNdEx
  | 2 => varint_case "Priority" int32 (λ v, mk_pb_Entry block v cancel wantType sendDontHave auth)
           dAtA wireType iNdEx
  | 3 => varint_case "Cancel" int64 (λ v, mk_pb_Entry block priority (negb (v =? 0)) wantType sendDontHave auth)
           dAtA wireType iNdEx
  | 4 => varint_case "WantType" int32 (λ v, mk_pb_Entry block priority cancel v sendDontHave auth)
           dAtA wireType iNdEx
  | 5 => varint_case "SendDontHave" int64 (λ v, mk_pb_Entry block priority cancel wantType (negb (v =? 0)) auth)
           dAtA wireType iNdEx
  | 6 => length_case "Auth" (λ b, ret (mk_pb_Entry block priority cancel wantType sendDontHave b))
           dAtA wireType iNdEx
  | _ => None
  end.
Definition Entry_Unmarshal (dAtA : bytes) (m : pb_Entry) : go pb_Entry :=
  fields "Entry" Entry_field (length dAtA) dAtA 0 m.

Definition Wantlist_field (dAtA : bytes) (fieldNum wireType iNdEx : Z) (m : pb_Wantlist)
  : option (go (pb_Wantlist * Z)) :=
  let '(mk_pb_Wantlist entries full) := m in
  match fieldNum with
  | 1 => length_case "Entries"
           (λ b, let! e := Entry_Unmarshal b Entry_zero in ret (mk_pb_Wantlist (entries ++ [e]) full))
           dAtA wireType iNdEx
  | 2 => varint_case "Full" int64 (λ v, mk_pb_Wantlist entries (negb (v =? 0))) dAtA wireType iNdEx
  | _ => None
  end.
Definition Wantlist_Unmarshal (dAtA : bytes) (m : pb_Wantlist) : go pb_Wantlist :=
  fields "Wantlist" Wantlist_field (length dAtA) dAtA 0 m.

Definition Block_field (dAtA : bytes) (fieldNum wireType iNdEx : Z) (m : pb_Block)
  : option (go (pb_Block * Z)) :=
  let '(mk_pb_Block prefix data auth) := m in
  match fieldNum with
  | 1 => length_case "Prefix" (λ b, ret (mk_pb_Block b data auth)) dAtA wireType iNdEx
  | 2 => length_case "Data" (λ b, ret (mk_pb_Block prefix b auth)) dAtA wireType iNdEx
  | 3 => length_case "Auth" (λ b, ret (mk_pb_Block prefix data b)) dAtA wireType iNdEx
  | _ => None
  end.
Definition Block_Unmarshal (dAtA : bytes) (m : pb_Block) : go pb_Block :=
  fields "Block" Block_field (length dAtA) dAtA 0 m.

Definition BlockPresence_field (dAtA : bytes) (fieldNum wireType iNdEx : Z) (m : pb_BlockPresence)
  : option (go (pb_BlockPresence * Z)) :=
  let '(mk_pb_BlockPresence cid type auth) := m in
  match fieldNum with
  | 1 => length_case "Cid" (λ b, let! c := Cid_Unmarshal b in ret (mk_pb_BlockPresence c type auth))
           dAtA wireType iNdEx
  | 2 => varint_case "Type" int32 (λ v, mk_pb_BlockPresence cid v auth) dAtA wireType iNdEx
  | 3 => length_case "Auth" (λ b, ret (mk_pb_BlockPresence cid type b)) dAtA wireType iNdEx
  | _ => None
  end.
Definition BlockPresence_Unmarshal (dAtA : bytes) (m : pb_BlockPresence) : go pb_BlockPresence :=
  fields "BlockPresence" BlockPresence_field (length dAtA) dAtA 0 m.

Definition Message_field (dAtA : bytes) (fieldNum wireType iNdEx : Z) (m : pb_Message)
  : option (go (pb_Message * Z)) :=
  let '(mk_pb_Message wantlist blocks payload presences pending) := m in
  match fieldNum with
  | 1 => length_case "Wantlist"
           (λ b, let! w := Wantlist_Unmarshal b wantlist in ret (mk_pb_Message w blocks payload presences pending))
           dAtA wireType iNdEx
  | 2 => length_case "Blocks" (λ b, ret (mk_pb_Message wantlist (blocks ++ [b]) payload presences pending))
           dAtA wireType iNdEx
  | 3 => length_case "Payload"
           (λ b, let! x := Block_Unmarshal b Block_zero in
                 ret (mk_pb_Message wantlist blocks (payload ++ [x]) presences pending))
           dAtA wireType iNdEx
  | 4 => length_case "BlockPresences"
           (λ b, let! x := BlockPresence_Unmarshal b BlockPresence_zero in
                 ret (mk_pb_Message wantlist blocks payload (presences ++ [x]) pending))
           dAtA wireType iNdEx
  | 5 => varint_case "PendingBytes" int32 (λ v, mk_pb_Message wantlist blocks payload presences v)
           dAtA wireType iNdEx
  | _ => None
  end.
Definition Message_Unmarshal (dAtA : bytes) (m : pb_Message) : go pb_Message :=
  fields "Message" Message_field (length dAtA) dAtA 0 m.
End unmarshal.
End Wire.
