(* ===== verification/WireFacts.v ===== *)
(** * Correctness of the wire format (src/message/pb/message.pb.go)

    [encode] functions describe the bytes of each struct; [MarshalTo] writes
    exactly them, as many as [Size] says, and [Unmarshal] reads them back; on any
    input [Unmarshal] returns. *)
From S2P Require Import Prelude Auth Wantlist Proto Wire.
From stdpp Require Import options.
Set Default Goal Selector "1".
Open Scope Z_scope.

Module WireFacts.
Import Wire.

(** ** Bytes and bits *)

Lemma byte_Z_range b : 0 ≤ byte_Z b < 256.
Proof. unfold byte_Z. pose proof (Byte.to_N_bounded b). lia. Qed.

Lemma byte_Z_uint8 z : byte_Z (uint8 z) = z `mod` 256.
Proof.
  unfold byte_Z, uint8. pose proof (Z.mod_pos_bound z 256 ltac:(lia)) as Hb.
  destruct (Byte.of_N (Z.to_N (z `mod` 256))) as [b|] eqn:E; cbn.
  - apply Byte.to_of_N in E. rewrite E. lia.
  - apply Byte.of_N_None_iff in E. lia.
Qed.

Lemma wrap_s_mod w a b : 0 < w → a `mod` 2 ^ w = b `mod` 2 ^ w → wrap_s w a = wrap_s w b.
Proof. intros Hw E. unfold wrap_s. by rewrite (Z.add_mod a), E, <- Z.add_mod by lia. Qed.

Lemma mod_wrap_s w a : 0 < w → wrap_s w a `mod` 2 ^ w = a `mod` 2 ^ w.
Proof.
  intros Hw. unfold wrap_s. rewrite Zminus_mod_idemp_l. f_equal. lia.
Qed.

Lemma signed_range_iff w a : 0 < w →
  - 2 ^ (w - 1) ≤ a < 2 ^ (w - 1) ↔ Z.shiftr a (w - 1) = 0 ∨ Z.shiftr a (w - 1) = -1.
Proof.
  intros Hw. rewrite Z.shiftr_div_pow2 by lia. assert (0 < 2 ^ (w - 1)) as Hp by (apply Z.pow_pos_nonneg; lia).
  pose proof (Z.div_mod a (2 ^ (w - 1)) ltac:(lia)). pose proof (Z.mod_pos_bound a (2 ^ (w - 1)) Hp).
  split; [|intros [E|E]; rewrite E in *; lia].
  intros Ha. assert (-1 ≤ a / 2 ^ (w - 1) < 1); [|lia]. split; [apply Z.div_le_lower_bound|apply Z.div_lt_upper_bound]; lia.
Qed.

Lemma mod_lor w a b : 0 < w → Z.lor a b `mod` 2 ^ w = Z.lor (a `mod` 2 ^ w) (b `mod` 2 ^ w).
Proof. intros Hw. by rewrite <- !Z.land_ones, Z.land_lor_distr_l by lia. Qed.

(** Wrapping commutes with [|]: the type of the variable does not matter until the
    end of the loop. *)
Class WrapLor (wrap : Z → Z) : Prop := {
  wrap_lor : ∀ a b, Z.lor (wrap a) (wrap b) = wrap (Z.lor a b);
  wrap_0 : wrap 0 = 0;
}.

Lemma signed_range_lor w a b : 0 < w →
  - 2 ^ (w - 1) ≤ a < 2 ^ (w - 1) → - 2 ^ (w - 1) ≤ b < 2 ^ (w - 1) →
  - 2 ^ (w - 1) ≤ Z.lor a b < 2 ^ (w - 1).
Proof.
  intros Hw. rewrite !signed_range_iff by done. rewrite Z.shiftr_lor.
  intros [-> | ->] [-> | ->]; vm_compute; auto.
Qed.

Lemma wrap_s_lor w a b : 0 < w → Z.lor (wrap_s w a) (wrap_s w b) = wrap_s w (Z.lor a b).
Proof.
  intros Hw. transitivity (wrap_s w (Z.lor (wrap_s w a) (wrap_s w b))).
  - symmetry. apply wrap_s_id; [done|]. by apply signed_range_lor; try apply wrap_s_range.
  - apply wrap_s_mod; [done|]. by rewrite !mod_lor, !mod_wrap_s by done.
Qed.

#[global] Instance int64_lor : WrapLor int64.
Proof. split; [|done]. intros a b. by apply wrap_s_lor. Qed.
#[global] Instance int32_lor : WrapLor int32.
Proof. split; [|done]. intros a b. by apply wrap_s_lor. Qed.
#[global] Instance uint64_lor : WrapLor uint64.
Proof. split; [|done]. intros a b. unfold uint64, wrap_u. by rewrite mod_lor. Qed.

(** A value sent as a [uint64] and read as an [int32] or [int64]. *)
Lemma int32_uint64 v : MinInt32 ≤ v ≤ MaxInt32 → int32 (uint64 v) = v.
Proof.
  intros Hv. transitivity (int32 v); [|by apply int32_id]. apply wrap_s_mod; [done|].
  unfold uint64, wrap_u. apply Z.mod_mod_divide. by exists (2 ^ 32).
Qed.

Lemma split7 v : 0 ≤ v → Z.lor (Z.land v 127) (Z.shiftl (Z.shiftr v 7) 7) = v.
Proof.
  intros Hv. apply Z.bits_inj'. intros n Hn.
  rewrite Z.lor_spec, Z.land_spec, Z.shiftl_spec by done. change 127 with (Z.ones 7). rewrite Z.testbit_ones_nonneg by lia.
  destruct (decide (n < 7)).
  - rewrite (proj2 (Z.ltb_lt n 7)), (Z.testbit_neg_r _ (n - 7)), andb_true_r, orb_false_r by lia. done.
  - rewrite (proj2 (Z.ltb_ge n 7)), andb_false_r, Z.shiftr_spec by lia. cbn. f_equal. lia.
Qed.

(** ** Varints *)

Fixpoint varint_loop (fuel : nat) (v : Z) : bytes :=
  match fuel with
  | O => []
  | S fuel => if 128 <=? v then uint8 (Z.lor (Z.land v 127) 128) :: varint_loop fuel (Z.shiftr v 7) else [uint8 v]
  end.
Definition varint (v : Z) : bytes := varint_loop 10 v.

Lemma more_byte v : 0 ≤ v → byte_Z (uint8 (Z.lor (Z.land v 127) 128)) = 128 + Z.land v 127.
Proof.
  intros Hv. change 127 with (Z.ones 7). rewrite byte_Z_uint8, Z.land_ones by lia.
  pose proof (Z.mod_pos_bound v (2 ^ 7) ltac:(lia)) as Hb. set (r := v `mod` 2 ^ 7) in *.
  pose proof (Z.add_lor_land r 128) as E.
  assert (Z.land r 128 = 0) as E0; [|rewrite Z.mod_small; lia].
  apply Z.bits_inj'. intros n Hn. rewrite Z.land_spec, Z.bits_0. change 128 with (2 ^ 7). rewrite Z.pow2_bits_eqb by lia.
  destruct (Z.eqb_spec 7 n) as [<-|]; [|by rewrite andb_false_r]. rewrite andb_true_r. apply Z.bits_above_log2; [lia|].
  destruct (decide (r = 0)) as [->|]; [done|]. apply Z.log2_lt_pow2; lia.
Qed.

Lemma land_128 r : 0 ≤ r < 128 → Z.land (128 + r) 127 = r.
Proof.
  intros Hr. change 127 with (Z.ones 7). rewrite Z.land_ones by lia.
  change (128 + r) with (1 * 2 ^ 7 + r). rewrite Z.add_comm, Z_mod_plus_full. by rewrite Z.mod_small.
Qed.

Lemma land_127_range v : 0 ≤ Z.land v 127 < 128.
Proof. change 127 with (Z.ones 7). rewrite Z.land_ones by lia. by apply Z.mod_pos_bound. Qed.

(** The suffix of the slice at an index. *)
Definition At (dAtA : bytes) (i : Z) (rest : bytes) : Prop :=
  0 ≤ i ∧ i + len rest = len dAtA ∧ drop (Z.to_nat i) dAtA = rest.

Lemma At_app dAtA i xs rest : At dAtA i (xs ++ rest) → At dAtA (i + len xs) rest.
Proof.
  unfold At, len. rewrite length_app. intros (Hi & Hl & Hd). split_and!; [lia|lia|].
  replace (Z.to_nat (i + Z.of_nat (length xs))) with (Z.to_nat i + length xs)%nat by lia.
  by rewrite <- drop_drop, Hd, drop_app_length.
Qed.

Lemma At_cons dAtA i b rest : At dAtA i (b :: rest) → i < len dAtA ∧ dAtA !! Z.to_nat i = Some b ∧ At dAtA (i + 1) rest.
Proof.
  intros H. split_and!; [| |apply (At_app _ _ [b] _ H)]; destruct H as (Hi & Hl & Hd).
  - unfold len in *. cbn in Hl. lia.
  - pose proof (lookup_drop dAtA (Z.to_nat i) 0) as E. rewrite Nat.add_0_r in E. by rewrite <- E, Hd.
Qed.

Lemma At_nil dAtA : At dAtA 0 dAtA.
Proof. split_and!; [done|lia|done]. Qed.

Lemma shiftr7_range n v : 0 ≤ v < 2 ^ (7 * Z.of_nat (S n)) → 0 ≤ Z.shiftr v 7 < 2 ^ (7 * Z.of_nat n).
Proof.
  intros Hv. rewrite Z.shiftr_div_pow2 by lia. split; [apply Z.div_pos; lia|]. apply Z.div_lt_upper_bound; [lia|].
  rewrite <- Z.pow_add_r by lia. replace (7 + 7 * Z.of_nat n) with (7 * Z.of_nat (S n)) by lia. lia.
Qed.

Lemma readVarint_loop_enc wrap `{!WrapLor wrap} n fuel dAtA i shift a v rest :
  At dAtA i (varint_loop n v ++ rest) → (0 < n ≤ fuel)%nat → 0 ≤ v < 2 ^ (7 * Z.of_nat n) →
  0 ≤ shift → shift + 7 * Z.of_nat n ≤ 70 →
  readVarint_loop wrap fuel dAtA shift (wrap a) i
    = ret (wrap (Z.lor a (Z.shiftl v shift)), i + len (varint_loop n v)).
Proof.
  revert fuel i shift a v. induction n as [|n IH]; intros fuel i shift a v HA Hf Hv Hs Hn.
  { lia. }
  destruct fuel as [|fuel]; [lia|]. cbn [readVarint_loop]. rewrite (proj2 (Z.leb_gt 64 shift)) by lia.
  cbn [varint_loop] in *. destruct (Z.leb_spec 128 v) as [Hge|Hlt].
  - change ((?b :: ?l) ++ rest) with (b :: (l ++ rest)) in HA. apply At_cons in HA as (Hi & El & HA).
    rewrite (proj2 (Z.leb_gt _ _)) by done. rewrite El. cbn [mbind option_bind].
    pose proof (land_127_range v) as Hr. rewrite (more_byte v), land_128 by lia.
    rewrite (proj2 (Z.ltb_ge (128 + _) 128)) by lia. rewrite wrap_lor.
    assert (n ≠ 0%nat) by (intros ->; cbn in Hv; lia). rewrite (IH fuel (i + 1) (shift + 7) _ (Z.shiftr v 7)); [|done|lia| |lia|lia].
    + f_equal. f_equal; [|unfold len; cbn; lia]. f_equal. rewrite <- Z.lor_assoc. f_equal.
      rewrite <- (split7 v) at 3 by lia. rewrite Z.shiftl_lor, Z.shiftl_shiftl by lia. do 2 f_equal. lia.
    + by apply shiftr7_range.
  - apply At_cons in HA as (Hi & El & HA). rewrite (proj2 (Z.leb_gt _ _)) by done. rewrite El. cbn [mbind option_bind].
    rewrite byte_Z_uint8, Z.mod_small by lia. rewrite (proj2 (Z.ltb_lt _ _)) by lia. rewrite wrap_lor.
    do 2 f_equal. do 3 f_equal. change 127 with (Z.ones 7). rewrite Z.land_ones by lia. apply Z.mod_small. lia.
Qed.

Lemma readVarint_enc wrap `{!WrapLor wrap} dAtA i v rest :
  At dAtA i (varint v ++ rest) → 0 ≤ v < 2 ^ 64 →
  readVarint wrap dAtA i = ret (wrap v, i + len (varint v)).
Proof.
  intros HA Hv. pose proof (readVarint_loop_enc wrap 10 11 dAtA i 0 0 v rest HA ltac:(lia)) as E.
  rewrite wrap_0, Z.lor_0_l, Z.shiftl_0_r in E. apply E; [cbn; lia|done|done].
Qed.

Lemma sovMessage_step v : 128 ≤ v → sovMessage v = 1 + sovMessage (Z.shiftr v 7).
Proof.
  intros Hv. assert (∀ x, 0 ≤ x → Len64 (Z.lor x 1) = Z.max (Z.log2 x) 0 + 1) as HL.
  { intros x Hx. unfold Len64. rewrite Z.log2_lor by lia. rewrite (proj2 (Z.eqb_neq _ _)); [done|].
    intros E%Z.lor_eq_0_iff. lia. }
  pose proof (Z.log2_le_mono 128 v Hv) as Hl. change (Z.log2 128) with 7 in Hl.
  unfold sovMessage. rewrite !HL by (rewrite ?Z.shiftr_nonneg; lia). rewrite Z.log2_shiftr by lia.
  replace (Z.max (Z.max 0 (Z.log2 v - 7)) 0) with (Z.log2 v - 7) by lia. rewrite Z.max_l by lia. replace (Z.log2 v + 1 + 6) with (1 * 7 + (Z.log2 v - 7 + 1 + 6)) by lia.
  rewrite Z.div_add_l by lia. lia.
Qed.

Lemma sovMessage_small v : 0 ≤ v < 128 → sovMessage v = 1.
Proof.
  intros Hv. unfold sovMessage, Len64. rewrite (proj2 (Z.eqb_neq _ _)) by (intros E%Z.lor_eq_0_iff; lia).
  rewrite Z.log2_lor by lia. change (Z.log2 1) with 0.
  assert (Z.log2 v < 7). { destruct (decide (v = 0)) as [->|]; [done|]. apply Z.log2_lt_pow2; lia. }
  pose proof (Z.log2_nonneg v). symmetry. apply Z.div_unique with (Z.log2 v); lia.
Qed.

Lemma varint_loop_len n v : (0 < n)%nat → 0 ≤ v < 2 ^ (7 * Z.of_nat n) → len (varint_loop n v) = sovMessage v.
Proof.
  revert v. induction n as [|n IH]; intros v Hn Hv; [lia|]. cbn [varint_loop].
  destruct (Z.leb_spec 128 v) as [Hge|Hlt]; [|by rewrite sovMessage_small by lia].
  assert (n ≠ 0%nat) by (intros ->; cbn in Hv; lia).
  rewrite sovMessage_step by done. rewrite <- IH; [unfold len; cbn; lia|lia|].
  by apply shiftr7_range.
Qed.

(** [encodeVarintMessage] writes as many bytes as [sovMessage] says. *)
Lemma varint_len v : 0 ≤ v < 2 ^ 64 → len (varint v) = sovMessage v.
Proof. intros Hv. apply varint_loop_len; [lia|]. cbn. lia. Qed.

(** ** Writers *)

(** [w] writes the bytes [e] at the index, when there is room for them. *)
Definition Writes (w : writer) (e : bytes) : Prop :=
  ∀ dAtA i, 0 ≤ i → i + len e ≤ len dAtA →
    w (dAtA, i) = Some (take (Z.to_nat i) dAtA ++ e ++ drop (Z.to_nat (i + len e)) dAtA, i + len e).
(** The same for a [MarshalTo]. *)
Definition Marshals (f : bytes → option (bytes * Z)) (e : bytes) : Prop :=
  ∀ dAtA, len e ≤ len dAtA → f dAtA = Some (e ++ drop (length e) dAtA, len e).

Lemma Writes_skip : Writes skip [].
Proof.
  intros dAtA i Hi Hl. unfold skip. change (len []) with 0. rewrite !Z.add_0_r. cbn. by rewrite take_drop.
Qed.

Lemma Writes_put b : Writes (put b) [b].
Proof.
  intros dAtA i Hi Hl. unfold put, len in *. cbn in Hl |- *.
  rewrite (proj2 (Z.leb_le 0 i)), (proj2 (Z.ltb_lt i _)) by lia. cbn. do 2 f_equal.
  rewrite insert_take_drop by lia. do 3 f_equal. lia.
Qed.

Lemma Writes_copy bs : Writes (copy bs) bs.
Proof.
  intros dAtA i Hi Hl. unfold copy, len in *. rewrite (proj2 (Z.leb_le 0 i)), (proj2 (Z.leb_le i _)) by lia. cbn.
  rewrite Nat.min_l by lia. do 2 f_equal. rewrite (take_ge bs) by lia. do 3 f_equal. lia.
Qed.

Lemma Writes_seq f g e1 e2 : Writes f e1 → Writes g e2 → Writes (f >> g) (e1 ++ e2).
Proof.
  intros Hf Hg dAtA i Hi Hl. unfold len in *. rewrite length_app in Hl. unfold seq. rewrite Hf by (unfold len; lia).
  cbn [mbind option_bind]. unfold len. rewrite Hg; unfold len.
  - do 2 f_equal; [|rewrite length_app; lia].
    assert (length (take (Z.to_nat i) dAtA) = Z.to_nat i) as Et by (rewrite length_take; lia).
    replace (Z.to_nat (i + Z.of_nat (length e1))) with (Z.to_nat i + length e1)%nat by lia.
    rewrite (take_app_add' _ _ (Z.to_nat i) (length e1)) by done.
    rewrite take_app_length, <- !app_assoc. do 3 f_equal.
    replace (Z.to_nat (i + Z.of_nat (length e1) + Z.of_nat (length e2)))
      with (Z.to_nat i + (length e1 + length e2))%nat by lia.
    rewrite (drop_app_add' _ _ (Z.to_nat i) _) by done.
    rewrite (drop_app_add' e1 _ (length e1) _) by done. rewrite drop_drop. f_equal. rewrite length_app. lia.
  - lia.
  - rewrite !length_app, length_take, length_drop. lia.
Qed.

Lemma Writes_each {A} (f : A → writer) (e : A → bytes) xs :
  (∀ x, x ∈ xs → Writes (f x) (e x)) → Writes (each f xs) (concat (map e xs)).
Proof.
  induction xs as [|x xs IH]; intros H; [apply Writes_skip|]. cbn.
  apply Writes_seq; [apply H; left|]. apply IH. intros y Hy. apply H. by right.
Qed.

Lemma Writes_sub f e : Marshals f e → Writes (sub f) e.
Proof.
  intros Hf dAtA i Hi Hl. pose proof (len_nonneg e). unfold sub.
  rewrite (proj2 (Z.leb_le 0 i)), (proj2 (Z.leb_le i _)) by lia. cbn [andb].
  rewrite Hf by (unfold len in *; rewrite length_drop; lia). cbn. do 4 f_equal.
  rewrite drop_drop. f_equal. unfold len. lia.
Qed.

Lemma Marshals_writes w e : Writes w e → Marshals (λ dAtA, w (dAtA, 0)) e.
Proof. intros Hw dAtA Hl. rewrite Hw by lia. cbn [Z.to_nat take app]. unfold len. by rewrite Z.add_0_l, Nat2Z.id. Qed.

Lemma Writes_varint_loop n v :
  (0 < n)%nat → 0 ≤ v < 2 ^ (7 * Z.of_nat n) → Writes (encodeVarint_loop n v) (varint_loop n v).
Proof.
  revert v. induction n as [|n IH]; intros v Hn Hv; [lia|]. cbn [varint_loop encodeVarint_loop].
  destruct (Z.leb_spec 128 v) as [Hge|Hlt]; [|apply Writes_put].
  assert (n ≠ 0%nat) by (intros ->; cbn in Hv; lia).
  apply (Writes_seq _ _ [_]); [apply Writes_put|]. apply IH; [lia|].
  by apply shiftr7_range.
Qed.

Lemma Writes_varint v : Writes (encodeVarintMessage (uint64 v)) (varint (uint64 v)).
Proof. pose proof (uint64_range v). apply Writes_varint_loop; [lia|]. cbn. lia. Qed.

Lemma Writes_if (b : bool) w e : Writes w e → Writes (if b then w else skip) (if b then e else []).
Proof. destruct b; [done|]. intros _. apply Writes_skip. Qed.

(** ** The bytes of each struct *)

Definition enc_len (tag : Byte.byte) (b : bytes) : bytes := tag :: varint (uint64 (len b)) ++ b.
Definition enc_bytes (tag : Byte.byte) (b : bytes) : bytes := if 0 <? len b then enc_len tag b else [].
Definition enc_int (tag : Byte.byte) (v : Z) : bytes := if negb (v =? 0) then tag :: varint (uint64 v) else [].
Definition enc_bool (tag : Byte.byte) (b : bool) : bytes := if b then [tag; Byte.x01] else [].

Lemma len_app {A} (xs ys : list A) : len (xs ++ ys) = len xs + len ys.
Proof. unfold len. rewrite length_app. lia. Qed.
Lemma len_cons {A} (x : A) xs : len (x :: xs) = 1 + len xs.
Proof. unfold len. cbn. lia. Qed.

Lemma enc_len_size tag b : len (enc_len tag b) = field_size (len b).
Proof. unfold enc_len, field_size. rewrite len_cons, len_app, varint_len by apply uint64_range. lia. Qed.
Lemma enc_bytes_size tag b : len (enc_bytes tag b) = bytes_size b.
Proof. unfold enc_bytes, bytes_size. case_match; [apply enc_len_size|done]. Qed.
Lemma enc_int_size tag v : len (enc_int tag v) = if negb (v =? 0) then 1 + sovMessage (uint64 v) else 0.
Proof. unfold enc_int. case_match; [|done]. by rewrite len_cons, varint_len by apply uint64_range. Qed.
Lemma enc_bool_size tag b : len (enc_bool tag b) = if b then 2 else 0.
Proof. by destruct b. Qed.
Lemma enc_all_size {A} (e : A → bytes) (f : A → Z) xs :
  (∀ x, len (e x) = f x) → len (concat (map e xs)) = Zsum_with f xs.
Proof. intros H. induction xs as [|x xs IH]; [done|]. cbn. by rewrite len_app, H, IH. Qed.

Lemma Writes_bytes tag b : Writes (put_bytes tag b) (enc_bytes tag b).
Proof.
  unfold put_bytes, enc_bytes. apply Writes_if. apply (Writes_seq _ _ [tag]); [apply Writes_put|].
  apply Writes_seq; [apply Writes_varint|apply Writes_copy].
Qed.
Lemma Writes_int tag v :
  Writes (if negb (v =? 0) then put tag >> encodeVarintMessage (uint64 v) else skip) (enc_int tag v).
Proof. apply Writes_if. apply (Writes_seq _ _ [tag]); [apply Writes_put|apply Writes_varint]. Qed.
Lemma Writes_bool tag (b : bool) : Writes (if b then put tag >> put_bool b else skip) (enc_bool tag b).
Proof. destruct b; [|apply Writes_skip]. apply (Writes_seq _ _ [tag] [Byte.x01]); apply Writes_put. Qed.
Lemma Writes_len tag n w e :
  n = len e → Writes w e → Writes (put tag >> encodeVarintMessage (uint64 n) >> w) (enc_len tag e).
Proof.
  intros -> Hw. apply (Writes_seq _ _ [tag]); [apply Writes_put|]. apply Writes_seq; [apply Writes_varint|done].
Qed.
(** Three writers in a row are associated to the right. *)
Lemma Writes_len_seq tag n w e g e' :
  n = len e → Writes w e → Writes g e' →
  Writes (put tag >> encodeVarintMessage (uint64 n) >> w >> g) (enc_len tag e ++ e').
Proof.
  intros Hn Hw Hg dAtA i Hi Hl.
  pose proof (Writes_seq _ _ _ _ (Writes_len tag n w e Hn Hw) Hg dAtA i Hi Hl) as E. rewrite <- E.
  unfold seq. destruct (put tag (dAtA, i)) as [x|]; [|done]. cbn [mbind option_bind]. by destruct (encodeVarintMessage (uint64 n) x).
Qed.

#[local] Create HintDb wire.
Create Rewrite HintDb wire.
#[local] Hint Resolve Writes_skip Writes_put Writes_copy Writes_seq Writes_sub Writes_bytes Writes_int Writes_bool
  Writes_len Writes_len_seq Marshals_writes : wire.
#[local] Hint Rewrite @len_app enc_len_size enc_bytes_size enc_int_size enc_bool_size : wire.

Section structs.
Context {CL : CidLib}.

Definition enc_Entry (m : pb_Entry) : bytes :=
  enc_len Byte.x0a (Cid_KeyString (pbe_Block m)) ++ enc_int Byte.x10 (pbe_Priority m) ++
  enc_bool Byte.x18 (pbe_Cancel m) ++ enc_int Byte.x20 (pbe_WantType m) ++
  enc_bool Byte.x28 (pbe_SendDontHave m) ++ enc_bytes Byte.x32 (pbe_Auth m).
Definition enc_Wantlist (m : pb_Wantlist) : bytes :=
  concat (map (λ e, enc_len Byte.x0a (enc_Entry e)) (pbw_Entries m)) ++ enc_bool Byte.x10 (pbw_Full m).
Definition enc_Block (m : pb_Block) : bytes :=
  enc_bytes Byte.x0a (pbb_Prefix m) ++ enc_bytes Byte.x12 (pbb_Data m) ++ enc_bytes Byte.x1a (pbb_Auth m).
Definition enc_BlockPresence (m : pb_BlockPresence) : bytes :=
  enc_len Byte.x0a (Cid_KeyString (pbp_Cid m)) ++ enc_int Byte.x10 (pbp_Type m) ++ enc_bytes Byte.x1a (pbp_Auth m).
Definition enc_Message (m : pb_Message) : bytes :=
  enc_len Byte.x0a (enc_Wantlist (pbm_Wantlist m)) ++
  concat (map (enc_len Byte.x12) (pbm_Blocks m)) ++
  concat (map (λ b, enc_len Byte.x1a (enc_Block b)) (pbm_Payload m)) ++
  concat (map (λ b, enc_len Byte.x22 (enc_BlockPresence b)) (pbm_BlockPresences m)) ++
  enc_int Byte.x28 (pbm_PendingBytes m).

Lemma Entry_size m : pb_Entry_Size m = len (enc_Entry m).
Proof. unfold enc_Entry, pb_Entry_Size, Cid_Size. autorewrite with wire. lia. Qed.
Lemma Wantlist_size m : pb_Wantlist_Size m = len (enc_Wantlist m).
Proof.
  unfold enc_Wantlist, pb_Wantlist_Size. autorewrite with wire. f_equal. symmetry. apply enc_all_size.
  intros e. by rewrite enc_len_size, Entry_size.
Qed.
Lemma Block_size m : pb_Block_Size m = len (enc_Block m).
Proof. unfold enc_Block, pb_Block_Size. autorewrite with wire. lia. Qed.
Lemma BlockPresence_size m : pb_BlockPresence_Size m = len (enc_BlockPresence m).
Proof. unfold enc_BlockPresence, pb_BlockPresence_Size, Cid_Size. autorewrite with wire. lia. Qed.
Lemma Message_size m : pb_Message_Size m = len (enc_Message m).
Proof.
  unfold enc_Message, pb_Message_Size. autorewrite with wire.
  rewrite (enc_all_size _ (λ b, field_size (len b))) by apply enc_len_size.
  rewrite (enc_all_size _ (λ e, field_size (pb_Block_Size e))) by (intros; by rewrite enc_len_size, Block_size).
  rewrite (enc_all_size _ (λ e, field_size (pb_BlockPresence_Size e)))
    by (intros; by rewrite enc_len_size, BlockPresence_size).
  rewrite Wantlist_size. lia.
Qed.

Lemma Cid_Marshals c : Marshals (Cid_MarshalTo c) (Cid_KeyString c).
Proof.
  intros dAtA Hl. unfold Cid_MarshalTo, Cid_Size. rewrite (proj2 (Z.leb_le _ _)) by done.
  by apply (Marshals_writes _ _ (Writes_copy _)).
Qed.
Lemma Entry_Marshals m : Marshals (Entry_MarshalTo m) (enc_Entry m).
Proof. unfold Entry_MarshalTo, enc_Entry, Cid_Size. auto 10 using Cid_Marshals with wire. Qed.
Lemma Wantlist_Marshals m : Marshals (Wantlist_MarshalTo m) (enc_Wantlist m).
Proof.
  unfold Wantlist_MarshalTo, enc_Wantlist. apply Marshals_writes, Writes_seq; [|apply Writes_bool].
  apply Writes_each. auto using Entry_size, Entry_Marshals with wire.
Qed.
Lemma Block_Marshals m : Marshals (Block_MarshalTo m) (enc_Block m).
Proof. unfold Block_MarshalTo, enc_Block. auto with wire. Qed.
Lemma BlockPresence_Marshals m : Marshals (BlockPresence_MarshalTo m) (enc_BlockPresence m).
Proof. unfold BlockPresence_MarshalTo, enc_BlockPresence, Cid_Size. auto 10 using Cid_Marshals with wire. Qed.
Lemma Message_Marshals m : Marshals (Message_MarshalTo m) (enc_Message m).
Proof.
  unfold Message_MarshalTo, enc_Message. apply Marshals_writes.
  apply Writes_len_seq; [apply Wantlist_size|apply Writes_sub, Wantlist_Marshals|].
  apply Writes_seq; [apply Writes_each; auto with wire|].
  apply Writes_seq; [apply Writes_each; auto using Block_size, Block_Marshals with wire|].
  apply Writes_seq; [apply Writes_each; auto using BlockPresence_size, BlockPresence_Marshals with wire|].
  apply Writes_int.
Qed.
End structs.

(** ** Readers *)

Definition small (dAtA : bytes) : Prop := len dAtA < 2 ^ 62.

Lemma readLength_enc dAtA i b rest :
  small dAtA → At dAtA i (varint (uint64 (len b)) ++ b ++ rest) →
  ∃ j, readLength dAtA i = ret (j, j + len b) ∧ slice dAtA j (j + len b) = b ∧
       j + len b = i + len (varint (uint64 (len b))) + len b.
Proof.
  intros Hs HA. unfold small in Hs. pose proof (len_nonneg b) as Hb. set (vs := varint _) in *.
  pose proof (len_nonneg vs). pose proof (len_nonneg rest).
  assert (len b < 2 ^ 62) as Hb'. { destruct HA as (? & Hl & _). rewrite !len_app in Hl. lia. }
  assert (readVarint int64 dAtA i = ret (len b, i + len vs)) as E.
  { unfold vs in *. rewrite (readVarint_enc int64 dAtA i (uint64 (len b)) (b ++ rest)) by (done || apply uint64_range).
    rewrite uint64_id, int64_id by lia. done. }
  exists (i + len vs). unfold readLength. rewrite E. cbn [bind ret]. rewrite (proj2 (Z.ltb_ge (len b) 0)) by done.
  apply At_app in HA. destruct HA as (Hi & Hl & Hd). rewrite len_app in Hl.
  rewrite int64_id by lia. rewrite (proj2 (Z.ltb_ge _ 0)) by lia. rewrite (proj2 (Z.ltb_ge (len dAtA) _)) by lia.
  split_and!; [done| |lia]. unfold slice. rewrite Hd. replace (i + len vs + len b - (i + len vs)) with (len b) by lia.
  unfold len. by rewrite Nat2Z.id, take_app_length.
Qed.

Section decode.
Context {M : Type} (name : string) (field : bytes → Z → Z → Z → M → option (go (M * Z))).
Implicit Types (m : M) (e : bytes).

(** Reading the bytes [e] turns the struct [m] into [m']. *)
Definition Decodes e m m' : Prop :=
  ∀ dAtA i rest fuel, small dAtA → At dAtA i (e ++ rest) → (length (e ++ rest) ≤ fuel)%nat →
    ∃ fuel', (length rest ≤ fuel')%nat ∧
      fields name field fuel dAtA i m = fields name field fuel' dAtA (i + len e) m'.

Lemma Decodes_nil m : Decodes [] m m.
Proof. intros dAtA i rest fuel _ _ Hf. exists fuel. change (len []) with 0. by rewrite Z.add_0_r. Qed.

Lemma Decodes_app e1 e2 m m1 m2 : Decodes e1 m m1 → Decodes e2 m1 m2 → Decodes (e1 ++ e2) m m2.
Proof.
  intros H1 H2 dAtA i rest fuel Hs HA Hf. rewrite <- app_assoc in HA, Hf.
  destruct (H1 dAtA i (e2 ++ rest) fuel Hs HA Hf) as (f1 & Hf1 & ->).
  destruct (H2 dAtA (i + len e1) rest f1 Hs (At_app _ _ _ _ HA) Hf1) as (f2 & Hf2 & ->).
  exists f2. split; [done|]. by rewrite len_app, Z.add_assoc.
Qed.

Lemma Decodes_run e m m' : len e < 2 ^ 62 → Decodes e m m' → fields name field (length e) e 0 m = ret m'.
Proof.
  intros Hl H. destruct (H e 0 [] (length e) Hl) as (f & _ & ->); rewrite ?app_nil_r; [apply At_nil|lia|].
  change (0 + len e) with (len e).
  destruct f; cbn [fields]; by rewrite Z.ltb_irrefl.
Qed.

(** One field: the tag byte [8 * n + t], then what the case of the [switch] reads. *)
Lemma Decodes_field tag n t e m m' :
  byte_Z tag = 8 * n + t → 0 < n < 16 → 0 ≤ t < 8 → t ≠ 4 →
  (∀ dAtA i rest, small dAtA → At dAtA i (e ++ rest) → field dAtA n t i m = Some (ret (m', i + len e))) →
  Decodes (tag :: e) m m'.
Proof.
  intros Et Hn Ht H4 Hfield dAtA i rest fuel Hs HA Hf. pose proof (byte_Z_range tag).
  destruct fuel as [|fuel]; [cbn in Hf; lia|]. exists fuel. cbn in Hf. rewrite length_app in Hf. split; [lia|].
  assert (varint (byte_Z tag) = [tag]) as Ev.
  { unfold varint. cbn [varint_loop]. rewrite (proj2 (Z.leb_gt 128 _)) by lia. f_equal. unfold uint8, byte_Z in *.
    rewrite Z.mod_small, N2Z.id by lia. by rewrite Byte.of_to_N. }
  pose proof (readVarint_enc uint64 dAtA i (byte_Z tag) (e ++ rest)) as Er. rewrite Ev in Er. cbn [app] in Er.
  specialize (Er HA ltac:(lia)). rewrite uint64_id in Er by lia.
  cbn [app] in HA. apply At_cons in HA as (Hi & _ & HA). cbn [fields].
  rewrite (proj2 (Z.ltb_lt i _)) by done. rewrite Er. cbn [bind ret].
  assert (Z.land (byte_Z tag) 7 = t) as ->.
  { change 7 with (Z.ones 3). rewrite Z.land_ones, Et by lia. change (2 ^ 3) with 8.
    rewrite Z.add_comm, Z.mul_comm, Z_mod_plus_full. by apply Z.mod_small. }
  assert (int32 (Z.shiftr (byte_Z tag) 3) = n) as ->.
  { rewrite Z.shiftr_div_pow2, Et by lia. change (2 ^ 3) with 8. rewrite Z.mul_comm, Z.div_add_l by lia.
    rewrite Z.div_small by lia. rewrite Z.add_0_r. apply int32_id. unfold MinInt32, MaxInt32. lia. }
  rewrite (proj2 (Z.eqb_neq t 4)) by done. rewrite (proj2 (Z.leb_gt n 0)) by lia.
  change (len [tag]) with 1. rewrite (Hfield dAtA (i + 1) rest Hs HA). cbn [bind ret]. f_equal. rewrite len_cons. lia.
Qed.

Lemma Decodes_len tag n e m fname set m' :
  byte_Z tag = 8 * n + 2 → 0 < n < 16 →
  (∀ dAtA i, field dAtA n 2 i m = length_case fname set dAtA 2 i) → set e = ret m' →
  Decodes (enc_len tag e) m m'.
Proof.
  intros Et Hn Hf Hset. apply (Decodes_field tag n 2); [done|done|lia|lia|]. intros dAtA i rest Hs HA.
  rewrite <- app_assoc in HA. destruct (readLength_enc dAtA i e rest Hs HA) as (j & El & Es & Ej).
  rewrite Hf. unfold length_case. cbn [Z.eqb negb]. f_equal. change (2 =? 2) with true. cbn [negb].
  rewrite El. cbn [bind ret]. rewrite Es, Hset. cbn [bind ret]. rewrite Ej, len_app. by rewrite Z.add_assoc.
Qed.

Lemma Decodes_varint tag n v m fname wrap `{!WrapLor wrap} set :
  byte_Z tag = 8 * n → 0 < n < 16 →
  (∀ dAtA i, field dAtA n 0 i m = varint_case fname wrap set dAtA 0 i) →
  Decodes (tag :: varint (uint64 v)) m (set (wrap (uint64 v))).
Proof.
  intros Et Hn Hf. apply (Decodes_field tag n 0); [lia|done|lia|lia|]. intros dAtA i rest Hs HA.
  rewrite Hf. unfold varint_case. cbn [Z.eqb negb]. f_equal.
  by rewrite (readVarint_enc wrap dAtA i (uint64 v) rest HA (uint64_range v)).
Qed.

(** Optional fields, whose zero value is not sent. *)
Lemma Decodes_bytes tag n e m fname set m' :
  byte_Z tag = 8 * n + 2 → 0 < n < 16 →
  (∀ dAtA i, field dAtA n 2 i m = length_case fname set dAtA 2 i) → set e = ret m' → (e = [] → m' = m) →
  Decodes (enc_bytes tag e) m m'.
Proof.
  intros Et Hn Hf Hset Hnil. unfold enc_bytes. destruct (0 <? len e) eqn:E; [by eapply Decodes_len|].
  rewrite Hnil; [apply Decodes_nil|]. destruct (decide (e = [])) as [|Hne]; [done|].
  apply len_pos in Hne. congruence.
Qed.

Lemma Decodes_int tag n v m fname set m' :
  byte_Z tag = 8 * n → 0 < n < 16 → MinInt32 ≤ v ≤ MaxInt32 →
  (∀ dAtA i, field dAtA n 0 i m = varint_case fname int32 set dAtA 0 i) → set v = m' → (v = 0 → m' = m) →
  Decodes (enc_int tag v) m m'.
Proof.
  intros Et Hn Hv Hf Hset H0. unfold enc_int. destruct (Z.eqb_spec v 0) as [->|Hne]; cbn [negb].
  - rewrite H0 by done. apply Decodes_nil.
  - pose proof (Decodes_varint tag n v m fname int32 set Et Hn Hf) as H. rewrite int32_uint64 in H by done.
    by rewrite <- Hset.
Qed.

Lemma Decodes_bool tag n (b : bool) m fname set m' :
  byte_Z tag = 8 * n → 0 < n < 16 →
  (∀ dAtA i, field dAtA n 0 i m = varint_case fname int64 (λ v, set (negb (v =? 0))) dAtA 0 i) →
  set b = m' → (b = false → m' = m) →
  Decodes (enc_bool tag b) m m'.
Proof.
  intros Et Hn Hf Hset H0. destruct b; cbn [enc_bool]; [|rewrite H0 by done; apply Decodes_nil].
  pose proof (Decodes_varint tag n 1 m fname int64 _ Et Hn Hf) as H.
  change (varint (uint64 1)) with [uint8 1] in H. change (uint8 1) with Byte.x01 in H. by rewrite <- Hset.
Qed.

(** A repeated field. *)
Lemma Decodes_each {A} (e : A → bytes) (add : M → A → M) xs m :
  (∀ m x, x ∈ xs → Decodes (e x) m (add m x)) → Decodes (concat (map e xs)) m (foldl add m xs).
Proof.
  revert m. induction xs as [|x xs IH]; intros m H; [apply Decodes_nil|]. cbn [map concat foldl].
  eapply Decodes_app; [apply H; left|]. apply IH. intros m' y Hy. apply H. by right.
Qed.
End decode.

(** ** Round trips *)

Section roundtrip.
Context {CL : CidLib} {CC : CidCast}.

(** What the structs can carry: [int32] fields in range and defined cids. *)
Definition Entry_ok (m : pb_Entry) : Prop :=
  Cid_Defined (pbe_Block m) = true ∧ MinInt32 ≤ pbe_Priority m ≤ MaxInt32 ∧ MinInt32 ≤ pbe_WantType m ≤ MaxInt32.
Definition BlockPresence_ok (m : pb_BlockPresence) : Prop :=
  Cid_Defined (pbp_Cid m) = true ∧ MinInt32 ≤ pbp_Type m ≤ MaxInt32.
Record Message_ok (m : pb_Message) : Prop := {
  ok_entries : ∀ e, e ∈ pbw_Entries (pbm_Wantlist m) → Entry_ok e;
  ok_presences : ∀ p, p ∈ pbm_BlockPresences m → BlockPresence_ok p;
  ok_pending : MinInt32 ≤ pbm_PendingBytes m ≤ MaxInt32;
}.

Lemma Cid_Unmarshal_KeyString c : Cid_Defined c = true → Cid_Unmarshal (Cid_KeyString c) = ret c.
Proof. intros H. unfold Cid_Unmarshal. by rewrite Cid_Cast_KeyString. Qed.

Lemma Entry_Decodes m : Entry_ok m → Decodes "Entry" Entry_field (enc_Entry m) Entry_zero m.
Proof.
  destruct m as [c prio cancel wt sdh auth]. intros (Hc & Hp & Hw). cbn in Hc, Hp, Hw.
  unfold enc_Entry. cbn [pbe_Block pbe_Priority pbe_Cancel pbe_WantType pbe_SendDontHave pbe_Auth].
  apply (Decodes_app _ _ _ _ _ (mk_pb_Entry c 0 false 0 false [])).
  { eapply (Decodes_len _ _ _ 1); try done. cbn. by rewrite Cid_Unmarshal_KeyString. }
  apply (Decodes_app _ _ _ _ _ (mk_pb_Entry c prio false 0 false [])).
  { eapply (Decodes_int _ _ _ 2); try done. by intros ->. }
  apply (Decodes_app _ _ _ _ _ (mk_pb_Entry c prio cancel 0 false [])).
  { apply (Decodes_bool _ _ _ 3 _ _ "Cancel" (λ b, mk_pb_Entry c prio b 0 false [])); try done. by intros ->. }
  apply (Decodes_app _ _ _ _ _ (mk_pb_Entry c prio cancel wt false [])).
  { eapply (Decodes_int _ _ _ 4); try done. by intros ->. }
  apply (Decodes_app _ _ _ _ _ (mk_pb_Entry c prio cancel wt sdh [])).
  { apply (Decodes_bool _ _ _ 5 _ _ "SendDontHave" (λ b, mk_pb_Entry c prio cancel wt b [])); try done. by intros ->. }
  eapply (Decodes_bytes _ _ _ 6); try done. by intros ->.
Qed.

Lemma Entry_roundtrip m :
  Entry_ok m → len (enc_Entry m) < 2 ^ 62 → Entry_Unmarshal (enc_Entry m) Entry_zero = ret m.
Proof. intros Hm Hl. by apply Decodes_run, Entry_Decodes. Qed.

Lemma Block_Decodes m : Decodes "Block" Block_field (enc_Block m) Block_zero m.
Proof.
  destruct m as [prefix data auth]. unfold enc_Block. cbn [pbb_Prefix pbb_Data pbb_Auth].
  apply (Decodes_app _ _ _ _ _ (mk_pb_Block prefix [] [])).
  { eapply (Decodes_bytes _ _ _ 1); try done. by intros ->. }
  apply (Decodes_app _ _ _ _ _ (mk_pb_Block prefix data [])).
  { eapply (Decodes_bytes _ _ _ 2); try done. by intros ->. }
  eapply (Decodes_bytes _ _ _ 3); try done. by intros ->.
Qed.

Lemma BlockPresence_Decodes m :
  BlockPresence_ok m → Decodes "BlockPresence" BlockPresence_field (enc_BlockPresence m) BlockPresence_zero m.
Proof.
  destruct m as [c t auth]. intros (Hc & Ht). cbn in Hc, Ht. unfold enc_BlockPresence. cbn [pbp_Cid pbp_Type pbp_Auth].
  apply (Decodes_app _ _ _ _ _ (mk_pb_BlockPresence c 0 [])).
  { eapply (Decodes_len _ _ _ 1); try done. cbn. by rewrite Cid_Unmarshal_KeyString. }
  apply (Decodes_app _ _ _ _ _ (mk_pb_BlockPresence c t [])).
  { eapply (Decodes_int _ _ _ 2); try done. by intros ->. }
  eapply (Decodes_bytes _ _ _ 3); try done. by intros ->.
Qed.

(** The element of a repeated field is no longer than the whole. *)
Lemma concat_le {A} (e : A → bytes) x xs : x ∈ xs → len (e x) ≤ len (concat (map e xs)).
Proof.
  induction 1 as [x xs|x y xs _ IH]; cbn; rewrite len_app; [pose proof (len_nonneg (concat (map e xs)))|
    pose proof (len_nonneg (e y))]; lia.
Qed.
Lemma enc_len_le tag e : len e ≤ len (enc_len tag e).
Proof. unfold enc_len. rewrite len_cons, len_app. pose proof (len_nonneg (varint (uint64 (len e)))). lia. Qed.

Lemma repeated_small {A} tag (e : A → bytes) x xs :
  x ∈ xs → len (concat (map (λ x, enc_len tag (e x)) xs)) < 2 ^ 62 → len (e x) < 2 ^ 62.
Proof.
  intros Hx Hl. pose proof (concat_le (λ x, enc_len tag (e x)) x xs Hx) as Hc. cbv beta in Hc.
  pose proof (enc_len_le tag (e x)). lia.
Qed.

Lemma foldl_entries es l f :
  foldl (λ m e, mk_pb_Wantlist (pbw_Entries m ++ [e]) (pbw_Full m)) (mk_pb_Wantlist l f) es = mk_pb_Wantlist (l ++ es) f.
Proof. revert l. induction es as [|e es IH]; intros l; cbn; [by rewrite app_nil_r|]. by rewrite IH, <- app_assoc. Qed.

Lemma Wantlist_Decodes m :
  (∀ e, e ∈ pbw_Entries m → Entry_ok e) → len (enc_Wantlist m) < 2 ^ 62 →
  Decodes "Wantlist" Wantlist_field (enc_Wantlist m) Wantlist_zero m.
Proof.
  destruct m as [es full]. unfold enc_Wantlist. cbn [pbw_Entries pbw_Full]. intros Hes Hl. rewrite len_app in Hl.
  pose proof (len_nonneg (enc_bool Byte.x10 full)).
  apply (Decodes_app _ _ _ _ _ (mk_pb_Wantlist es false)).
  - change es with ([] ++ es) at 2. rewrite <- foldl_entries. apply Decodes_each. intros [l f] e He.
    eapply (Decodes_len _ _ _ 1); try done. cbv beta. rewrite Entry_roundtrip; [done|by apply Hes|].
    apply (repeated_small Byte.x0a enc_Entry e es He). lia.
  - apply (Decodes_bool _ _ _ 2 _ _ "Full" (mk_pb_Wantlist es)); try done. by intros ->.
Qed.

(** The four repeated parts of a message, in the order they are written. *)
Lemma foldl_blocks bs w l p q n :
  foldl (λ m b, mk_pb_Message (pbm_Wantlist m) (pbm_Blocks m ++ [b]) (pbm_Payload m) (pbm_BlockPresences m)
                  (pbm_PendingBytes m)) (mk_pb_Message w l p q n) bs = mk_pb_Message w (l ++ bs) p q n.
Proof. revert l. induction bs as [|b bs IH]; intros l; cbn; [by rewrite app_nil_r|]. by rewrite IH, <- app_assoc. Qed.
Lemma foldl_payload bs w l p q n :
  foldl (λ m b, mk_pb_Message (pbm_Wantlist m) (pbm_Blocks m) (pbm_Payload m ++ [b]) (pbm_BlockPresences m)
                  (pbm_PendingBytes m)) (mk_pb_Message w l p q n) bs = mk_pb_Message w l (p ++ bs) q n.
Proof. revert p. induction bs as [|b bs IH]; intros p; cbn; [by rewrite app_nil_r|]. by rewrite IH, <- app_assoc. Qed.
Lemma foldl_presences bs w l p q n :
  foldl (λ m b, mk_pb_Message (pbm_Wantlist m) (pbm_Blocks m) (pbm_Payload m) (pbm_BlockPresences m ++ [b])
                  (pbm_PendingBytes m)) (mk_pb_Message w l p q n) bs = mk_pb_Message w l p (q ++ bs) n.
Proof. revert q. induction bs as [|b bs IH]; intros q; cbn; [by rewrite app_nil_r|]. by rewrite IH, <- app_assoc. Qed.

Lemma Message_Decodes m :
  Message_ok m → len (enc_Message m) < 2 ^ 62 → Decodes "Message" Message_field (enc_Message m) Message_zero m.
Proof.
  destruct m as [w bs ps qs n]. intros [He Hq Hn]. unfold enc_Message.
  cbn [pbm_Wantlist pbm_Blocks pbm_Payload pbm_BlockPresences pbm_PendingBytes] in *. rewrite !len_app. intros Hl.
  pose proof (enc_len_le Byte.x0a (enc_Wantlist w)). pose proof (len_nonneg (enc_Wantlist w)).
  pose proof (len_nonneg (concat (map (enc_len Byte.x12) bs))).
  set (eps := concat (map _ ps)) in *. set (eqs := concat (map _ qs)) in *. pose proof (len_nonneg eps).
  pose proof (len_nonneg eqs). pose proof (len_nonneg (enc_int Byte.x28 n)).
  apply (Decodes_app _ _ _ _ _ (mk_pb_Message w [] [] [] 0)).
  { eapply (Decodes_len _ _ _ 1); try done. cbv beta. unfold Wantlist_Unmarshal.
    rewrite (Decodes_run _ _ _ _ w); [done|lia|]. apply Wantlist_Decodes; [done|lia]. }
  apply (Decodes_app _ _ _ _ _ (mk_pb_Message w bs [] [] 0)).
  { change bs with ([] ++ bs) at 2. rewrite <- foldl_blocks. apply Decodes_each. intros [] b _.
    by eapply (Decodes_len _ _ _ 2). }
  apply (Decodes_app _ _ _ _ _ (mk_pb_Message w bs ps [] 0)).
  { unfold eps. change ps with ([] ++ ps) at 2. rewrite <- foldl_payload. apply Decodes_each. intros [] b Hb.
    eapply (Decodes_len _ _ _ 3); try done. cbv beta. unfold Block_Unmarshal.
    rewrite (Decodes_run _ _ _ _ b); [done| |apply Block_Decodes].
    apply (repeated_small Byte.x1a enc_Block b ps Hb). fold eps. lia. }
  apply (Decodes_app _ _ _ _ _ (mk_pb_Message w bs ps qs 0)).
  { unfold eqs. change qs with ([] ++ qs) at 2. rewrite <- foldl_presences. apply Decodes_each. intros [] q Hin.
    eapply (Decodes_len _ _ _ 4); try done. cbv beta. unfold BlockPresence_Unmarshal.
    rewrite (Decodes_run _ _ _ _ q); [done| |by apply BlockPresence_Decodes, Hq].
    apply (repeated_small Byte.x22 enc_BlockPresence q qs Hin). fold eqs. lia. }
  eapply (Decodes_int _ _ _ 5); try done. by intros ->.
Qed.

Lemma Message_roundtrip m :
  Message_ok m → len (enc_Message m) < 2 ^ 62 → Message_Unmarshal (enc_Message m) Message_zero = ret m.
Proof. intros Hm Hl. by apply Decodes_run, Message_Decodes. Qed.
End roundtrip.

(** ** Every slice is read *)

(** The code returns: with an error, or with a value that satisfies [P]. *)
Definition Returns {A} (P : A → Prop) (r : go A) : Prop :=
  match r with None => False | Some (Err _) => True | Some (Ok a) => P a end.

Lemma Returns_bind {A B} (P : A → Prop) (Q : B → Prop) r k :
  Returns P r → (∀ a, P a → Returns Q (k a)) → Returns Q (bind r k).
Proof. destruct r as [[a|e]|]; cbn; auto. Qed.
Lemma Returns_weaken {A} (P Q : A → Prop) r : Returns P r → (∀ a, P a → Q a) → Returns Q r.
Proof. destruct r as [[a|e]|]; cbn; auto. Qed.
Lemma Returns_is_Some {A} (P : A → Prop) (r : go A) : Returns P r → is_Some r.
Proof. destruct r; [eauto|done]. Qed.

Lemma readVarint_loop_returns wrap `{!WrapLor wrap} n dAtA shift a i :
  (0 < n)%nat → 64 ≤ shift + 7 * (Z.of_nat n - 1) → 0 ≤ i →
  Returns (λ '(v, j), i < j ≤ len dAtA ∧ ∃ V, v = wrap V) (readVarint_loop wrap n dAtA shift (wrap a) i).
Proof.
  revert shift a i. induction n as [|n IH]; intros shift a i Hn Hs Hi; [lia|]. cbn [readVarint_loop].
  destruct (Z.leb_spec 64 shift) as [|Hlt]; [done|]. destruct (Z.leb_spec (len dAtA) i) as [|Hl]; [done|].
  destruct (dAtA !! Z.to_nat i) as [b|] eqn:E; [|apply lookup_ge_None in E; unfold len in Hl; lia].
  cbn [mbind option_bind]. rewrite wrap_lor. case_match; [cbn; split; [lia|by eexists]|].
  eapply Returns_weaken; [apply IH; lia|]. intros [v j] [? ?]. split; [lia|done].
Qed.

Lemma readVarint_returns wrap `{!WrapLor wrap} dAtA i :
  0 ≤ i → Returns (λ '(v, j), i < j ≤ len dAtA ∧ ∃ V, v = wrap V) (readVarint wrap dAtA i).
Proof. intros Hi. unfold readVarint. rewrite <- wrap_0 at 2. apply readVarint_loop_returns; [done|lia|lia|done]. Qed.

Lemma int64_range z : - 2 ^ 63 ≤ int64 z < 2 ^ 63.
Proof. by apply (wrap_s_range 64). Qed.
(** Adding two non-negative numbers either does not overflow or is negative. *)
Lemma int64_add a b : 0 ≤ a < 2 ^ 63 → 0 ≤ b < 2 ^ 63 → int64 (a + b) < 0 ∨ int64 (a + b) = a + b.
Proof.
  intros Ha Hb. destruct (decide (a + b < 2 ^ 63)); [right; apply int64_id; lia|left].
  unfold int64. rewrite (wrap_s_mod 64 (a + b) (a + b - 2 ^ 64)); [rewrite wrap_s_id; lia|lia|].
  replace (a + b) with (a + b - 2 ^ 64 + 1 * 2 ^ 64) at 1 by lia. by rewrite Z_mod_plus_full.
Qed.

Lemma skip_returns n :
  (∀ dAtA, small dAtA → dAtA ≠ [] → (2 * length dAtA ≤ n)%nat →
     Returns (λ j, 1 ≤ j < 2 ^ 63) (skipMessage n dAtA)) ∧
  (∀ dAtA i, small dAtA → 1 ≤ i < 2 ^ 63 → (2 * (length dAtA - Z.to_nat i) + 1 ≤ n)%nat →
     Returns (λ j, 1 ≤ j < 2 ^ 63) (skipGroup n dAtA i)).
Proof.
  induction n as [|n [IHm IHg]]; (split; [intros dAtA Hs Hne Hn|intros dAtA i Hs Hi Hn]); [|lia| |].
  { destruct dAtA; [done|cbn in Hn; lia]. }
  - cbn [skipMessage]. assert (0 < len dAtA) as Hl by (apply Z.ltb_lt, len_pos, Hne). unfold small in Hs.
    rewrite (proj2 (Z.leb_gt _ 0)) by done.
    eapply Returns_bind; [apply (readVarint_returns uint64); lia|]. intros [wire j] [Hj _].
    case_match. { eapply Returns_bind; [apply (readVarint_returns uint64); lia|]. intros [? k] [? _]. cbn. lia. }
    case_match. { cbn. rewrite int64_id by lia. lia. }
    case_match.
    { eapply Returns_bind; [apply (readVarint_returns int64); lia|]. intros [x k] [Hk [V ->]].
      pose proof (int64_range V). destruct (Z.ltb_spec (int64 V) 0); [done|].
      destruct (int64_add k (int64 V)) as [Hlt|E]; [lia|lia|..].
      - by rewrite (proj2 (Z.ltb_lt _ 0)).
      - pose proof (int64_range (k + int64 V)). case_match; [done|]. cbn. rewrite E in *. lia. }
    case_match. { apply IHg; [done|lia|]. unfold len in *. lia. }
    case_match. { cbn. lia. }
    case_match; [|done]. cbn. rewrite int64_id by lia. lia.
  - cbn [skipGroup]. unfold small in *.
    eapply Returns_bind; [apply (readVarint_returns uint64); lia|]. intros [wire j] [Hj _].
    case_match; [cbn; lia|].
    assert (length (drop (Z.to_nat i) dAtA) = length dAtA - Z.to_nat i)%nat as El by apply length_drop.
    eapply Returns_bind; [apply IHm|].
    + unfold small, len in *. rewrite El. lia.
    + intros E. apply (f_equal length) in E. rewrite El in E. unfold len in *. cbn in E. lia.
    + rewrite El. unfold len in *. lia.
    + intros next Hnext. cbv beta in Hnext. destruct (int64_add i next) as [Hlt|E]; [lia|lia|..].
      * by rewrite (proj2 (Z.ltb_lt _ 0)).
      * pose proof (int64_range (i + next)). case_match; [done|]. rewrite E in *. apply IHg; [done|lia|].
        unfold len in *. lia.
Qed.

Lemma skip_field_returns dAtA i :
  small dAtA → 0 ≤ i < len dAtA → Returns (λ j, i < j ≤ len dAtA) (skip_field dAtA i).
Proof.
  intros Hs Hi. unfold skip_field, small in *.
  assert (length (drop (Z.to_nat i) dAtA) = length dAtA - Z.to_nat i)%nat as El by apply length_drop.
  eapply Returns_bind; [apply skip_returns|].
  - unfold small, len in *. rewrite El. lia.
  - intros E. apply (f_equal length) in E. rewrite El in E. unfold len in *. cbn in E. lia.
  - lia.
  - intros j Hj. cbv beta in Hj. destruct (Z.ltb_spec j 0); [done|]. destruct (int64_add i j) as [Hlt|E]; [lia|lia|..].
    + by rewrite (proj2 (Z.ltb_lt _ 0)).
    + rewrite E. case_match; [done|]. destruct (Z.ltb_spec (len dAtA) (i + j)); [done|]. cbn. lia.
Qed.

Lemma readLength_returns dAtA i :
  small dAtA → 0 ≤ i → Returns (λ '(j, post), i < j ≤ post ∧ post ≤ len dAtA) (readLength dAtA i).
Proof.
  intros Hs Hi. unfold readLength, small in *.
  eapply Returns_bind; [apply (readVarint_returns int64); lia|]. intros [n j] [Hj [V ->]].
  pose proof (int64_range V). destruct (Z.ltb_spec (int64 V) 0); [done|].
  destruct (int64_add j (int64 V)) as [Hlt|E]; [lia|lia|..].
  - by rewrite (proj2 (Z.ltb_lt _ 0)).
  - rewrite E. case_match; [done|]. destruct (Z.ltb_spec (len dAtA) (j + int64 V)); [done|]. cbn. lia.
Qed.

(** A [switch] whose cases return and do not move the index back or past the end. *)
Definition field_ok {M : Type} (field : bytes → Z → Z → Z → M → option (go (M * Z))) : Prop :=
  ∀ dAtA n t i m r, small dAtA → 0 ≤ i ≤ len dAtA → field dAtA n t i m = Some r →
    Returns (λ '(_, j), i ≤ j ≤ len dAtA) r.

Lemma fields_return {M : Type} name (field : bytes → Z → Z → Z → M → option (go (M * Z))) fuel dAtA i m :
  field_ok field → small dAtA → 0 ≤ i ≤ len dAtA → len dAtA - i ≤ Z.of_nat fuel →
  Returns (λ _, True) (fields name field fuel dAtA i m).
Proof.
  intros Hok Hs. revert i m. induction fuel as [|fuel IH]; intros i m Hi Hf; cbn [fields].
  { rewrite (proj2 (Z.ltb_ge i _)) by lia. by case_match. }
  destruct (Z.ltb_spec i (len dAtA)) as [Hlt|]; [|by case_match].
  eapply Returns_bind; [apply (readVarint_returns uint64); lia|]. intros [wire j] [Hj _].
  case_match; [done|]. case_match; [done|].
  eapply (Returns_bind (λ '(_, k), i < k ≤ len dAtA)).
  - destruct (field dAtA _ _ j m) as [r|] eqn:E.
    + eapply Returns_weaken; [by eapply Hok; [| |exact E]; [|lia]|]. intros [m' k]. lia.
    + eapply Returns_bind; [apply skip_field_returns; [done|lia]|]. intros k Hk. exact Hk.
  - intros [m' k] Hk. apply IH; lia.
Qed.

Lemma Unmarshal_returns {M : Type} name (field : bytes → Z → Z → Z → M → option (go (M * Z))) dAtA m :
  field_ok field → small dAtA → Returns (λ _, True) (fields name field (length dAtA) dAtA 0 m).
Proof. intros Hok Hs. apply fields_return; [done|done|pose proof (len_nonneg dAtA); lia|unfold len; lia]. Qed.

Lemma varint_case_returns {M : Type} name wrap `{!WrapLor wrap} (set : Z → M) dAtA t i r :
  0 ≤ i ≤ len dAtA → varint_case name wrap set dAtA t i = Some r → Returns (λ '(_, j), i ≤ j ≤ len dAtA) r.
Proof.
  intros Hi [= <-]. case_match; [done|]. eapply Returns_bind; [apply (readVarint_returns wrap); lia|].
  intros [v j] [Hj _]. cbn. lia.
Qed.

Lemma slice_small dAtA i j : small dAtA → small (slice dAtA i j).
Proof. unfold small, slice, len. rewrite length_take, length_drop. lia. Qed.

Lemma length_case_returns {M : Type} name (set : bytes → go M) dAtA t i r :
  small dAtA → 0 ≤ i ≤ len dAtA → (∀ b, small b → Returns (λ _, True) (set b)) →
  length_case name set dAtA t i = Some r → Returns (λ '(_, j), i ≤ j ≤ len dAtA) r.
Proof.
  intros Hs Hi Hset [= <-]. case_match; [done|]. eapply Returns_bind; [apply readLength_returns; [done|lia]|].
  intros [j post] Hj. eapply Returns_bind; [apply Hset; by apply slice_small|]. intros m _. cbn. lia.
Qed.

(** Each case of a [switch] in turn. *)
#[local] Ltac switch_ok Hs Hi H :=
  repeat (case_match; try done);
  first [ exact (varint_case_returns _ _ _ _ _ _ _ Hi H)
        | eapply length_case_returns in H; [exact H|done|done|] ];
  intros b Hb; cbv beta; try exact I.

Section returns.
Context {CL : CidLib} {CC : CidCast}.

Lemma Cid_returns data : Returns (λ _, True) (Cid_Unmarshal data).
Proof. unfold Cid_Unmarshal. by case_match. Qed.

Lemma Entry_field_ok : field_ok Entry_field.
Proof. intros dAtA n t i [] r Hs Hi H. unfold Entry_field in H. switch_ok Hs Hi H. eapply Returns_bind; [apply Cid_returns|done]. Qed.
Lemma Wantlist_field_ok : field_ok Wantlist_field.
Proof. intros dAtA n t i [] r Hs Hi H. unfold Wantlist_field in H. switch_ok Hs Hi H. eapply Returns_bind; [by apply Unmarshal_returns; [apply Entry_field_ok|]|done]. Qed.
Lemma Block_field_ok : field_ok Block_field.
Proof. intros dAtA n t i [] r Hs Hi H. unfold Block_field in H. switch_ok Hs Hi H. Qed.
Lemma BlockPresence_field_ok : field_ok BlockPresence_field.
Proof. intros dAtA n t i [] r Hs Hi H. unfold BlockPresence_field in H. switch_ok Hs Hi H. eapply Returns_bind; [apply Cid_returns|done]. Qed.
Lemma Message_field_ok : field_ok Message_field.
Proof.
  intros dAtA n t i [] r Hs Hi H. unfold Message_field in H. switch_ok Hs Hi H;
    (eapply Returns_bind; [apply Unmarshal_returns; [|done]|done]).
  - apply Block_field_ok.
  - apply BlockPresence_field_ok.
  - apply Wantlist_field_ok.
Qed.
End returns.
End WireFacts.
