(* ===== verification/Framing.v ===== *)
(** * Messages on a stream (src/message/message.go: ToNetV0, ToNetV1, write, FromMsgReader)

    A message is sent as the length of its protobuf form, as a varint, followed by
    that form; the receiving side takes the frames off the stream with a reader of
    go-msgio.  The reader and the buffer pool are classes: the reader is a function
    from the unread bytes of the stream to the next frame and the bytes after it. *)
From S2P Require Import Prelude Auth Wantlist Hex Proto Message Wire WireFacts.
From stdpp Require Import options.
Set Default Goal Selector "1".
Open Scope Z_scope.

Definition io_EOF : error := ErrOther "EOF".

(** [pool.Get(n)] of go-buffer-pool: a buffer of [n] arbitrary bytes. *)
Class BufferPool := {
  pool_Get : Z → bytes;
  pool_Get_len : ∀ n, 0 ≤ n → len (pool_Get n) = n;
}.

(** [msgio.NewVarintReaderSize(s, network.MessageSizeMax)] of go-msgio. *)
Class MsgReader := {
  MessageSizeMax : Z;
  ReadMsg : bytes → result error (bytes * bytes);
}.

(** Documented behaviour: the payload of a frame that is not too long is returned;
    a message takes at least one byte off the stream; an empty stream is at its
    end; and nothing longer than the limit is returned. *)
Class MsgReaderLaws `{MR : MsgReader} := {
  MessageSizeMax_range : 0 ≤ MessageSizeMax < 2 ^ 62;
  ReadMsg_frame : ∀ msg rest, len msg ≤ MessageSizeMax →
    ReadMsg (WireFacts.varint (len msg) ++ msg ++ rest) = Ok (msg, rest);
  ReadMsg_limit : ∀ data msg rest, ReadMsg data = Ok (msg, rest) →
    len msg ≤ MessageSizeMax ∧ (length rest < length data)%nat;
  ReadMsg_end : ReadMsg [] = Err io_EOF;
}.

Module Framing.
Import Wire.

Inductive net_error :=
| NetErr (e : error)
| PbErr (e : pb_error).
#[global] Instance net_error_eq_dec : EqDecision net_error.
Proof. intros x y. unfold Decision. repeat decide equality. Defined.

Definition MaxVarintLen64 : Z := 10.

(** [binary.PutUvarint(buf, v)] writes the groups of seven bits of [v] and
    panics when the buffer is too short. *)
Definition PutUvarint (v : Z) (buf : bytes) : option (bytes * Z) := encodeVarint_loop 10 v (buf, 0).

Section framing.
Context {CL : CidLib} {GO : GoRuntime} {BL : BlockLib} {CC : CidCast} {BP : BufferPool} {MR : MsgReader}.
Import Message.

(** The bytes handed to [w.Write]; [None] when marshalling panics. *)
Definition write (m : pb_Message) : option bytes :=
  let size := pb_Message_Size m in
  let buf := pool_Get (size + MaxVarintLen64) in
  '(buf, n) ← PutUvarint (uint64 size) buf;
  '(buf, n) ← sub (Message_MarshalTo m) (buf, n);
  Some (take (Z.to_nat n) buf).

Definition ToNetV0 (m : impl) : option bytes := write (ToProtoV0 m).
Definition ToNetV1 (m : impl) : option bytes := write (ToProtoV1 m).

(** The next message of a stream, and the unread bytes after it. *)
Definition FromMsgReader (data : bytes) : option (result net_error (impl * bytes)) :=
  match ReadMsg data with
  | Err e => Some (Err (NetErr e))
  | Ok (msg, rest) =>
      r ← Message_Unmarshal msg Message_zero;
      match r with
      | Err e => Some (Err (PbErr e))
      | Ok pb =>
          match newMessageFromProto pb with
          | Err e => Some (Err (NetErr e))
          | Ok m => Some (Ok (m, rest))
          end
      end
  end.

Definition FromNet (data : bytes) : option (result net_error impl) :=
  r ← FromMsgReader data;
  match r with Ok (m, _) => Some (Ok m) | Err e => Some (Err e) end.

(** ** What is written can be read *)

Import WireFacts.

(** [write] hands over the frame of the message. *)
Lemma write_frame m : len (enc_Message m) < 2 ^ 62 → write m = Some (varint (len (enc_Message m)) ++ enc_Message m).
Proof.
  intros Hl. unfold write. rewrite Message_size. pose proof (len_nonneg (enc_Message m)) as Hn.
  rewrite uint64_id by lia. set (buf := pool_Get _).
  assert (len buf = len (enc_Message m) + 10) as Hb by (apply pool_Get_len; lia).
  assert (len (varint (len (enc_Message m))) ≤ 10) as Hv.
  { rewrite varint_len by lia. apply sovMessage_le_10. lia. }
  pose proof (Writes_seq _ _ _ _ (Writes_varint_loop 10 (len (enc_Message m)) ltac:(lia) ltac:(change (7 * Z.of_nat 10) with 70; lia))
    (Writes_sub _ _ (Message_Marshals m)) buf 0 ltac:(lia)) as E.
  fold (varint (len (enc_Message m))) in E. rewrite len_app in E. specialize (E ltac:(lia)).
  unfold PutUvarint, seq in *. destruct (encodeVarint_loop _ _ _) as [[b n]|]; [|done]. cbn [mbind option_bind] in E |- *.
  rewrite E. cbn [mbind option_bind]. f_equal. change (take (Z.to_nat 0) buf) with (@nil Byte.byte). cbn [app].
  apply take_app_length'. unfold len. rewrite length_app. lia.
Qed.

(** What a message on the wire can carry. *)
Record net_ok (m : impl) : Prop := {
  net_wf : wf m;
  net_wire : wire_ok m;
  net_types : ∀ w e, wantlist m !! w = Some e → MinInt32 ≤ Entry_WantType (me_Entry e) ≤ MaxInt32;
  net_presences : ∀ w t, blockPresences m !! w = Some t → MinInt32 ≤ t ≤ MaxInt32;
  net_pending : MinInt32 ≤ pendingBytes m ≤ MaxInt32;
  net_size : pb_Message_Size (ToProtoV1 m) ≤ MessageSizeMax;
}.

Lemma ToProtoV1_ok m : net_ok m → Message_ok (ToProtoV1 m).
Proof.
  intros [[Hw _ _] [Ww _ Wp] Ht Hp Hn _]. split; cbn.
  - intros e He. apply list_elem_of_fmap in He as (x & -> & Hx). apply list_elem_of_fmap in Hx as ([w y] & -> & Hx).
    apply elem_of_range in Hx. destruct (Ww w y Hx) as [[Hd _] _]. pose proof (Hw _ _ Hx) as Ew.
    unfold Entry_ok. cbn. rewrite Ew. split; [done|]. split; [apply int32_range|by eapply Ht].
  - intros p Hin. apply list_elem_of_fmap in Hin as ([w t] & -> & Hx). apply elem_of_range in Hx.
    destruct (Wp w t Hx). split; [done|]. by eapply Hp.
  - done.
Qed.

(** The frame of a message, followed by anything, is read as the message. *)
Lemma read_written `{!BlockLibLaws} `{!MsgReaderLaws} m rest :
  net_ok m → ∃ bs, ToNetV1 m = Some bs ∧ ∃ m', FromMsgReader (bs ++ rest) = Some (Ok (m', rest)) ∧ msg_eq m' m.
Proof.
  intros Hok. pose proof (ToProtoV1_ok m Hok) as Hp. pose proof (net_size m Hok) as Hs. rewrite Message_size in Hs.
  pose proof MessageSizeMax_range. unfold ToNetV1. rewrite write_frame by lia. eexists. split; [done|].
  destruct (roundtrip_V1 m (net_wf m Hok) (net_wire m Hok)) as (m' & E & Hm). exists m'. split; [|done].
  unfold FromMsgReader. rewrite <- app_assoc, ReadMsg_frame by lia. rewrite Message_roundtrip by (done || lia).
  cbn [mbind option_bind ret]. by rewrite E.
Qed.

(** Whatever is on the stream, reading a message returns; a message that is read is
    well formed and takes bytes off the stream. *)
Lemma FromMsgReader_returns `{!MsgReaderLaws} data :
  ∃ r, FromMsgReader data = Some r ∧ ∀ m rest, r = Ok (m, rest) → wf m ∧ (length rest < length data)%nat.
Proof.
  unfold FromMsgReader. destruct (ReadMsg data) as [[msg rest]|e] eqn:E; [|by eexists].
  destruct (ReadMsg_limit _ _ _ E) as [Hl Hr]. pose proof MessageSizeMax_range.
  assert (Returns (λ _, True) (Message_Unmarshal msg Message_zero)) as HU.
  { apply Unmarshal_returns; [apply Message_field_ok|unfold small; lia]. }
  destruct (Message_Unmarshal msg Message_zero) as [[pb|e]|]; [|by eexists|done]. cbn [mbind option_bind].
  destruct (newMessageFromProto pb) as [m|e] eqn:Em; [|by eexists].
  eexists. split; [done|]. intros m0 rest0 [= <- <-]. split; [by eapply wf_newMessageFromProto|done].
Qed.
End framing.
End Framing.
