(* ===== verification/Network.v ===== *)
(** * The network (src/network/ipfs_impl.go, interface.go, options.go)

    [impl] sends messages over streams of a libp2p host, reads the messages of
    incoming streams and reports connections to the connect event manager.

    The host is a class over its state; a stream is a number.  Calls on the
    receiver of messages and on the connection listener are logged as events.  A
    function returns [None] where the code panics.  What happens outside (whether
    the context is done, what the clock says) is an argument. *)
From S2P Require Import Prelude Auth Wantlist Proto Message Wire Framing ConnectEvents.
From stdpp Require Import options.
Set Default Goal Selector "1".
Open Scope Z_scope.

Abbreviation protocolID := string.

(** What is used of libp2p's host and streams and of multistream's errors. *)
Class Host (H : Type) := {
  host_ID : PeerID;
  host_Connect : PeerID → H → H * option error;
  host_NewStream : PeerID → list protocolID → H → H * result error nat;
  stream_Protocol : nat → H → protocolID;
  stream_SetWriteDeadline : nat → Time → H → H * option error;
  stream_Write : nat → bytes → H → H * option error;
  stream_Reset : nat → H → H * option error;
  stream_Close : nat → H → H * option error;
  Is_ErrNotSupported : error → bool;
}.

Module Net.

Definition ProtocolBitswapNoVers : protocolID := "/ipfs/bitswap".
Definition ProtocolBitswapOneZero : protocolID := "/ipfs/bitswap/1.0.0".
Definition ProtocolBitswapOneOne : protocolID := "/ipfs/bitswap/1.1.0".
Definition ProtocolBitswap : protocolID := "/ipfs/bitswap/1.2.0".

Definition Second : Duration := 1000000000.
Definition maxSendTimeout : Duration := 120 * Second.
Definition minSendTimeout : Duration := 10 * Second.
Definition sendLatency : Duration := 2 * Second.
Definition minSendRate : Z := (100 * 1000) / 8.

(** ** Options *)

Record Settings := mkSettings {
  ProtocolPrefix : protocolID;
  SupportedProtocols : list protocolID;
}.
Inductive NetOpt :=
| OptPrefix (prefix : protocolID)
| OptSupportedProtocols (protos : list protocolID).

Definition apply_opt (s : Settings) (opt : NetOpt) : Settings :=
  match opt with
  | OptPrefix prefix => mkSettings prefix (SupportedProtocols s)
  | OptSupportedProtocols protos => mkSettings (ProtocolPrefix s) protos
  end.

Definition processSettings (opts : list NetOpt) : Settings :=
  let s := mkSettings ""
    [ProtocolBitswap; ProtocolBitswapOneOne; ProtocolBitswapOneZero; ProtocolBitswapNoVers] in
  let s := foldl apply_opt s opts in
  mkSettings (ProtocolPrefix s) ((λ proto, ProtocolPrefix s +:+ proto) <$> SupportedProtocols s).

Record MessageSenderOpts := mkOpts {
  MaxRetries : Z;
  SendTimeout : Duration;
  SendErrorBackoff : Duration;
}.

Definition setDefaultOpts (opts : MessageSenderOpts) : MessageSenderOpts :=
  mkOpts (if MaxRetries opts =? 0 then 3 else MaxRetries opts)
         (if SendTimeout opts =? 0 then maxSendTimeout else SendTimeout opts)
         (if SendErrorBackoff opts =? 0 then 100 * 1000000 else SendErrorBackoff opts).

Definition sendTimeout (size : Z) : Duration :=
  let timeout := int64 (sendLatency + int64 (uint64 (uint64 Second * uint64 size) / uint64 minSendRate)) in
  if maxSendTimeout <? timeout then maxSendTimeout
  else if timeout <? minSendTimeout then minSendTimeout
  else timeout.

Section net.
Context {CL : CidLib} {GO : GoRuntime} {BL : BlockLib} {CC : CidCast} {BP : BufferPool} {MR : MsgReader}.
Context {H : Type} {HO : Host H}.
Import Message Framing.

Record impl := mkImpl {
  MessagesSent : Z;
  MessagesRecvd : Z;
  connectEvtMgr : CEM.connectEventManager;
  protocolBitswapNoVers : protocolID;
  protocolBitswapOneZero : protocolID;
  protocolBitswapOneOne : protocolID;
  protocolBitswap : protocolID;
  supportedProtocols : list protocolID;
  receiver : bool;                       (* [bsnet.receiver != nil] *)
}.

(** Calls on the receiver and the connection listener, which are one object. *)
Inductive net_event :=
| EvListener (c : CEM.lcall)
| EvReceiveMessage (p : PeerID) (m : Message.impl)
| EvReceiveError (e : net_error).

Record world := mkWorld {
  host : H;
  bsnet : impl;
  events : list net_event;
}.
Implicit Types (w : world) (p : PeerID) (msg : Message.impl).

Definition NewFromIpfsHost (opts : list NetOpt) (h : H) : world :=
  let s := processSettings opts in
  mkWorld h
    (mkImpl 0 0 CEM.newConnectEventManager (ProtocolPrefix s +:+ ProtocolBitswapNoVers)
       (ProtocolPrefix s +:+ ProtocolBitswapOneZero) (ProtocolPrefix s +:+ ProtocolBitswapOneOne)
       (ProtocolPrefix s +:+ ProtocolBitswap) (SupportedProtocols s) false) [].

Definition set_host h w := mkWorld h (bsnet w) (events w).
Definition set_stats sent recvd (n : impl) : impl :=
  mkImpl sent recvd (connectEvtMgr n) (protocolBitswapNoVers n) (protocolBitswapOneZero n)
    (protocolBitswapOneOne n) (protocolBitswap n) (supportedProtocols n) (receiver n).
Definition set_conns c (r : bool) (n : impl) : impl :=
  mkImpl (MessagesSent n) (MessagesRecvd n) c (protocolBitswapNoVers n) (protocolBitswapOneZero n)
    (protocolBitswapOneOne n) (protocolBitswap n) (supportedProtocols n) r.
Definition log (e : net_event) w : world := mkWorld (host w) (bsnet w) (events w ++ [e]).

(** A call on the connect event manager, which calls the listener. *)
Definition conn_event (f : CEM.connectEventManager → CEM.connectEventManager * list CEM.lcall) w : world :=
  let '(c, cs) := f (connectEvtMgr (bsnet w)) in
  mkWorld (host w) (set_conns c (receiver (bsnet w)) (bsnet w)) (events w ++ (EvListener <$> cs)).

Definition SetDelegate w : world :=
  mkWorld (host w) (set_conns CEM.newConnectEventManager true (bsnet w)) (events w).

(** [netNotifiee]; transient connections are ignored. *)
Definition Connected (transient : bool) p w : world := if transient then w else conn_event (CEM.Connected p) w.
Definition Disconnected (transient : bool) p w : world := if transient then w else conn_event (CEM.Disconnected p) w.

(** A call on the host. *)
Definition on_host {A} (f : H → H * A) w : world * A := let '(h, a) := f (host w) in (set_host h w, a).

Definition ConnectTo p w : world * option error := on_host (host_Connect p) w.
Definition newStreamToPeer p w : world * result error nat :=
  on_host (host_NewStream p (supportedProtocols (bsnet w))) w.

(** Without the node itself. *)
Definition FindProvidersAsync (providers : list PeerID) : list PeerID :=
  filter (λ p, p ≠ host_ID) providers.

Definition SupportsHave_proto (n : impl) (proto : protocolID) : bool :=
  negb (String.eqb proto (protocolBitswapOneOne n) || String.eqb proto (protocolBitswapOneZero n)
        || String.eqb proto (protocolBitswapNoVers n)).

(** ** Sending *)

(** The format of the protocol; [None] for an unrecognized one. *)
Definition ToNet (n : impl) (proto : protocolID) msg : option (option bytes) :=
  if String.eqb proto (protocolBitswapOneOne n) || String.eqb proto (protocolBitswap n) then Some (ToNetV1 msg)
  else if String.eqb proto (protocolBitswapOneZero n) || String.eqb proto (protocolBitswapNoVers n)
  then Some (ToNetV0 msg)
  else None.

(** [now] is the current time, [dl] the deadline of the context; errors of
    [SetWriteDeadline] are only logged. *)
Definition msgToStream (now : Time) (dl : option Time) (s : nat) msg (timeout : Duration) w
  : option (world * option error) :=
  let deadline := Time_Add now timeout in
  let deadline := match dl with Some d => if Time_Before d deadline then d else deadline | None => deadline end in
  let w := (on_host (stream_SetWriteDeadline s deadline) w).1 in
  match ToNet (bsnet w) (stream_Protocol s (host w)) msg with
  | None => Some (w, Some (ErrOther ("unrecognized protocol on remote: " +:+ stream_Protocol s (host w))))
  | Some None => None
  | Some (Some bs) =>
      let '(w, err) := on_host (stream_Write s bs) w in
      match err with
      | Some e => Some (w, Some e)
      | None =>
          let w := mkWorld (host w) (set_stats (uint64 (MessagesSent (bsnet w) + 1)) (MessagesRecvd (bsnet w)) (bsnet w))
                     (events w) in
          Some ((on_host (stream_SetWriteDeadline s Time_zero) w).1, None)
      end
  end.

Record streamMessageSender := mkSender {
  to : PeerID;
  stream : option nat;
  connected : bool;
  opts : MessageSenderOpts;
}.
Abbreviation state := (streamMessageSender * world)%type.
Implicit Types (st : state).

Definition Connect st : state * result error (option nat) :=
  let '(s, w) := st in
  if connected s then ((s, w), Ok (stream s))
  else
    let '(w, err) := ConnectTo (to s) w in
    match err with
    | Some e => ((s, w), Err e)
    | None =>
        let '(w, r) := newStreamToPeer (to s) w in
        match r with
        | Err e => ((s, w), Err e)
        | Ok sid => ((mkSender (to s) (Some sid) true (opts s), w), Ok (Some sid))
        end
    end.

Definition Reset st : state * option error :=
  let '(s, w) := st in
  match stream s with
  | Some sid =>
      let '(w, err) := on_host (stream_Reset sid) w in
      ((mkSender (to s) (stream s) false (opts s), w), err)
  | None => ((s, w), None)
  end.

Definition Close st : option (state * option error) :=
  let '(s, w) := st in
  sid ← stream s;
  let '(w, err) := on_host (stream_Close sid) w in Some ((s, w), err).

Definition SupportsHave st : option bool :=
  let '(s, w) := st in
  sid ← stream s; Some (SupportsHave_proto (bsnet w) (stream_Protocol sid (host w))).

(** What one attempt sees: the clock when it starts, after connecting and when it
    writes, and whether the context is done after a failure and during the wait. *)
Record attempt := mkAttempt {
  at_start : Time;
  at_connected : Time;
  at_write : Time;
  ctx_after : option error;
  ctx_backoff : option error;
}.

Definition send (a : attempt) (dl : option Time) msg st : option (state * option error) :=
  let '(st, r) := Connect st in
  match r with
  | Err e => Some (st, Some e)
  | Ok sid =>
      let timeout := int64 (SendTimeout (opts st.1) - Time_Sub (at_connected a) (at_start a)) in
      sid ← sid;
      '(w, err) ← msgToStream (at_write a) dl sid msg timeout st.2;
      Some ((st.1, w), err)
  end.

Definition MarkUnresponsive st : state := (st.1, conn_event (CEM.MarkUnresponsive (to st.1)) st.2).

(** [n] attempts are left, [i] are made; [err] is the error so far. *)
Fixpoint multiAttempt_loop (env : nat → attempt) (fn : attempt → state → option (state * option error))
    (n i : nat) (err : option error) st : option (state * option error) :=
  match n with
  | O => Some (st, err)
  | S n =>
      '(st, err) ← fn (env i) st;
      match err with
      | None => Some (st, None)
      | Some e =>
          match ctx_after (env i) with
          | Some c => Some (st, Some c)
          | None =>
              if Is_ErrNotSupported e then Some (MarkUnresponsive st, Some e)
              else
                let st := (Reset st).1 in
                if Z.of_nat i =? MaxRetries (opts st.1) - 1 then Some (MarkUnresponsive st, Some e)
                else
                  match ctx_backoff (env i) with
                  | Some c => Some (st, Some c)
                  | None => multiAttempt_loop env fn n (S i) (Some e) st
                  end
          end
      end
  end.
Definition multiAttempt (env : nat → attempt) (fn : attempt → state → option (state * option error)) st :=
  multiAttempt_loop env fn (Z.to_nat (MaxRetries (opts st.1))) 0 None st.

Definition SendMsg (env : nat → attempt) (dl : option Time) msg st : option (state * option error) :=
  multiAttempt env (λ a, send a dl msg) st.

Definition NewMessageSender (env : nat → attempt) p (o : MessageSenderOpts) w
  : option (world * result error streamMessageSender) :=
  '((s, w), err) ← multiAttempt env
    (λ _ st, let '(st, r) := Connect st in Some (st, match r with Ok _ => None | Err e => Some e end))
    (mkSender p None false (setDefaultOpts o), w);
  Some (w, match err with Some e => Err e | None => Ok s end).

(** Sends one message on a stream of its own. *)
Definition SendMessage (now : Time) (dl : option Time) p msg w : option (world * option error) :=
  let '(w, r) := newStreamToPeer p w in
  match r with
  | Err e => Some (w, Some e)
  | Ok s =>
      '(w, err) ← msgToStream now dl s msg (sendTimeout (Size msg)) w;
      match err with
      | Some e => Some ((on_host (stream_Reset s) w).1, Some e)
      | None => Some (on_host (stream_Close s) w)
      end
  end.

(** ** Receiving *)

(** The loop of [handleNewStream]: [data] is what the remote peer [p] has written
    on the stream. *)
Fixpoint handle_messages (fuel : nat) (s : nat) p (data : bytes) w : option world :=
  match fuel with
  | O => None
  | S fuel =>
      r ← FromMsgReader data;
      match r with
      | Err e =>
          Some (if decide (e = NetErr io_EOF) then w
                else log (EvReceiveError e) (on_host (stream_Reset s) w).1)
      | Ok (received, rest) =>
          let w := conn_event (CEM.OnMessage p) w in
          let w := mkWorld (host w) (set_stats (MessagesSent (bsnet w)) (uint64 (MessagesRecvd (bsnet w) + 1)) (bsnet w))
                     (events w) in
          handle_messages fuel s p rest (log (EvReceiveMessage p received) w)
      end
  end.

Definition handleNewStream (s : nat) p (data : bytes) w : option world :=
  w ← (if receiver (bsnet w) then handle_messages (S (length data)) s p data w
       else Some (on_host (stream_Reset s) w).1);
  Some (on_host (stream_Close s) w).1.

Definition Stats w : Z * Z := (MessagesRecvd (bsnet w), MessagesSent (bsnet w)).
End net.
Arguments world {CL} H.
End Net.
