(* ===== verification/NetworkFacts.v ===== *)
(** * Correctness of the network (src/network/ipfs_impl.go)

    What an attempt to send does, what the attempts come to, and what is heard of
    the bytes of a stream. *)
From S2P Require Import Prelude Auth Wantlist Proto Message Wire WireFacts Framing ConnectEvents Network.
From stdpp Require Import options.
Set Default Goal Selector "1".
Open Scope Z_scope.

Module NetFacts.
Import Net.

(** ** Time limits *)

Lemma sendTimeout_range size : minSendTimeout ≤ sendTimeout size ≤ maxSendTimeout.
Proof.
  unfold sendTimeout. assert (minSendTimeout ≤ maxSendTimeout) by by vm_compute.
  destruct (Z.ltb_spec maxSendTimeout (int64 (sendLatency + int64 (uint64 (uint64 Second * uint64 size) / uint64 minSendRate))));
    [lia|]. case_match; lia.
Qed.

(** The time needed at the minimal rate: 80 microseconds per byte. *)
Lemma sendTimeout_exact size : 0 ≤ size ≤ 2 ^ 34 →
  sendTimeout size = Z.min maxSendTimeout (Z.max minSendTimeout (sendLatency + size * 80000)).
Proof.
  intros Hs. unfold sendTimeout. change (uint64 Second) with 1000000000. change (uint64 minSendRate) with 12500.
  rewrite (uint64_id size) by lia. rewrite uint64_id by lia.
  replace (1000000000 * size) with (size * 80000 * 12500) by lia. rewrite Z.div_mul by lia.
  unfold sendLatency, maxSendTimeout, minSendTimeout, Second in *. rewrite (int64_id (size * 80000)), int64_id by lia.
  destruct (Z.ltb_spec (120 * 1000000000) (2 * 1000000000 + size * 80000)); [lia|].
  destruct (Z.ltb_spec (2 * 1000000000 + size * 80000) (10 * 1000000000)); lia.
Qed.

Section facts.
Context {CL : CidLib} {GO : GoRuntime} {BL : BlockLib} {CC : CidCast} {BP : BufferPool} {MR : MsgReader}.
Context {H : Type} {HO : Host H}.
Import Framing.
Implicit Types (w : world H) (msg : Message.impl) (st : streamMessageSender * world H).

(** A sender that is connected has a stream. *)
Definition sender_ok (s : streamMessageSender) : Prop := connected s = true → is_Some (stream s).

(** The bytes written for a message: the format of the protocol that the stream
    speaks, in some state of the host. *)
Definition Written (n : Net.impl) (sid : nat) msg : Prop :=
  ∃ h bs, ToNet n (stream_Protocol sid h) msg = Some (Some bs) ∧ (stream_Write sid bs h).2 = None.

Lemma msgToStream_outcome now dl sid msg t w w' err :
  msgToStream now dl sid msg t w = Some (w', err) →
  events w' = events w ∧
  match err with
  | None => bsnet w' = set_stats (uint64 (MessagesSent (bsnet w) + 1)) (MessagesRecvd (bsnet w)) (bsnet w) ∧
            Written (bsnet w) sid msg
  | Some _ => bsnet w' = bsnet w
  end.
Proof.
  unfold msgToStream, on_host.
  destruct (stream_SetWriteDeadline sid (match dl with Some d => _ | None => _ end) (host w)) as [h1 e1] eqn:E1. cbn.
  destruct (ToNet (bsnet w) (stream_Protocol sid h1) msg) as [[bs|]|] eqn:En; [|done|by intros [= <- <-]].
  destruct (stream_Write sid bs h1) as [h2 e2] eqn:E2. cbn. destruct e2 as [e2|]; [by intros [= <- <-]|].
  destruct (stream_SetWriteDeadline sid Time_zero h2) as [h3 e3]. cbn. intros [= <- <-]. split; [done|]. split; [done|].
  exists h1, bs. split; [done|]. by rewrite E2.
Qed.

(** One more message is counted as sent. *)
Definition sent_one (n : Net.impl) : Net.impl := set_stats (uint64 (MessagesSent n + 1)) (MessagesRecvd n) n.

Lemma Connect_outcome st st' r :
  sender_ok st.1 → Connect st = (st', r) →
  sender_ok st'.1 ∧ to st'.1 = to st.1 ∧ opts st'.1 = opts st.1 ∧
  events st'.2 = events st.2 ∧ bsnet st'.2 = bsnet st.2 ∧
  match r with Ok x => x = stream st'.1 ∧ is_Some x ∧ connected st'.1 = true | Err _ => True end.
Proof.
  destruct st as [s w]. intros Hs. unfold Connect, ConnectTo, newStreamToPeer, on_host. cbn in Hs.
  destruct (connected s) eqn:Ec; [intros [= <- <-]; cbn; by eauto 10|].
  destruct (host_Connect (to s) (host w)) as [h1 [e|]]; [intros [= <- <-]; cbn; unfold sender_ok; rewrite Ec; done|].
  cbn. destruct (host_NewStream _ _ _) as [h2 [sid|e]]; intros [= <- <-]; cbn; [|done].
  unfold sender_ok. cbn. eauto 10.
Qed.

Lemma Reset_outcome st :
  let st' := (Reset st).1 in
  sender_ok st.1 →
  connected st'.1 = false ∧ to st'.1 = to st.1 ∧ opts st'.1 = opts st.1 ∧
  events st'.2 = events st.2 ∧ bsnet st'.2 = bsnet st.2.
Proof.
  destruct st as [s w]. unfold Reset, on_host, sender_ok. cbn. intros Hs. destruct (stream s) as [sid|].
  - by destruct (stream_Reset sid (host w)).
  - cbn. destruct (connected s); [|done]. by destruct Hs.
Qed.

Lemma send_outcome a dl msg st st' err :
  sender_ok st.1 → send a dl msg st = Some (st', err) →
  sender_ok st'.1 ∧ to st'.1 = to st.1 ∧ opts st'.1 = opts st.1 ∧ events st'.2 = events st.2 ∧
  match err with
  | None => connected st'.1 = true ∧ bsnet st'.2 = sent_one (bsnet st.2) ∧
            ∃ sid, stream st'.1 = Some sid ∧ Written (bsnet st.2) sid msg
  | Some _ => bsnet st'.2 = bsnet st.2
  end.
Proof.
  intros Hs. unfold send. destruct (Connect st) as [st1 r] eqn:Ec.
  destruct (Connect_outcome _ _ _ Hs Ec) as (H1 & H2 & H3 & H4 & H5 & H6).
  destruct r as [x|e]; [|by intros [= <- <-]]. destruct H6 as (-> & [sid Es] & Hc). rewrite Es. cbn.
  destruct (msgToStream _ _ _ _ _ _) as [[w' err']|] eqn:Em; [|done]. cbn. intros [= <- <-]. cbn.
  destruct (msgToStream_outcome _ _ _ _ _ _ _ _ Em) as [H7 H8]. rewrite H5 in *.
  split_and!; [done|done|done|congruence|]. destruct err' as [e|]; [done|]. destruct H8 as [? ?]. eauto 10.
Qed.

(** How the attempts end. *)
Definition sent_ok (n0 : Net.impl) (ev0 : list net_event) msg st : Prop :=
  connected st.1 = true ∧ bsnet st.2 = sent_one n0 ∧ events st.2 = ev0 ∧
  ∃ sid, stream st.1 = Some sid ∧ Written n0 sid msg.
Definition gave_up (env : nat → attempt) (k : nat) (n0 : Net.impl) (ev0 : list net_event) (e : error) st : Prop :=
  (∃ j, (j < k)%nat ∧ (ctx_after (env j) = Some e ∨ ctx_backoff (env j) = Some e)) ∧
  bsnet st.2 = n0 ∧ events st.2 = ev0.
Definition marked (n0 : Net.impl) (ev0 : list net_event) (e : error) st : Prop :=
  let c := CEM.MarkUnresponsive (to st.1) (connectEvtMgr n0) in
  bsnet st.2 = set_conns c.1 (receiver n0) n0 ∧ events st.2 = ev0 ++ (EvListener <$> c.2) ∧
  (Is_ErrNotSupported e = false → connected st.1 = false).

Lemma MarkUnresponsive_marked e st :
  (Is_ErrNotSupported e = false → connected st.1 = false) →
  marked (bsnet st.2) (events st.2) e (MarkUnresponsive st).
Proof.
  intros Hc. unfold MarkUnresponsive, conn_event, marked. cbn.
  by destruct (CEM.MarkUnresponsive (to st.1) (connectEvtMgr (bsnet st.2))).
Qed.

Lemma attempts_outcome env dl msg n i err0 st st' err :
  sender_ok st.1 → (0 < n)%nat → MaxRetries (opts st.1) = Z.of_nat (n + i) →
  multiAttempt_loop env (λ a, send a dl msg) n i err0 st = Some (st', err) →
  sender_ok st'.1 ∧ to st'.1 = to st.1 ∧ opts st'.1 = opts st.1 ∧
  match err with
  | None => sent_ok (bsnet st.2) (events st.2) msg st'
  | Some e => gave_up env (n + i) (bsnet st.2) (events st.2) e st' ∨ marked (bsnet st.2) (events st.2) e st'
  end.
Proof.
  revert i err0 st. induction n as [|n IH]; intros i err0 st Hs Hn Hmax; [lia|]. cbn [multiAttempt_loop].
  destruct (send (env i) dl msg st) as [[st1 err1]|] eqn:E; [|done]. cbn [mbind option_bind].
  destruct (send_outcome _ _ _ _ _ _ Hs E) as (H1 & H2 & H3 & H4 & H5).
  destruct err1 as [e|]; [|intros [= <- <-]; destruct H5 as (? & ? & ?); by repeat split].
  destruct (ctx_after (env i)) as [c|] eqn:Ea.
  { intros [= <- <-]. split_and!; [done..|]. left. repeat split; [|done|done]. exists i. split; [lia|by left]. }
  destruct (Is_ErrNotSupported e) eqn:Ens.
  { intros [= <- <-]. split_and!; [done..|]. right. rewrite <- H4, <- H5. apply MarkUnresponsive_marked. congruence. }
  destruct (Reset_outcome st1 H1) as (R1 & R2 & R3 & R4 & R5). set (st2 := (Reset st1).1) in *.
  assert (sender_ok st2.1) as Hs2 by (unfold sender_ok; congruence).
  assert (opts st2.1 = opts st.1) as Eo by congruence. assert (to st2.1 = to st.1) as Et by congruence.
  assert (bsnet st2.2 = bsnet st.2) as Eb by congruence. assert (events st2.2 = events st.2) as Ee by congruence.
  destruct (Z.eqb_spec (Z.of_nat i) (MaxRetries (opts st2.1) - 1)) as [|Hlast].
  { intros [= <- <-]. split_and!; [done..|]. right. rewrite <- Eb, <- Ee. by apply MarkUnresponsive_marked. }
  destruct (ctx_backoff (env i)) as [c|] eqn:Eb'.
  { intros [= <- <-]. split_and!; [done..|]. left. repeat split; [|done|done]. exists i. split; [lia|by right]. }
  rewrite Eo in Hlast. intros Hrest. specialize (IH (S i) (Some e) st2 Hs2 ltac:(lia) ltac:(rewrite Eo; lia) Hrest).
  rewrite Et, Eo, Eb, Ee in IH. by replace (S n + i)%nat with (n + S i)%nat by lia.
Qed.

(** Nothing panics unless the message is longer than any slice can be. *)
Definition sendable msg : Prop :=
  pb_Message_Size (Message.ToProtoV0 msg) < 2 ^ 62 ∧ pb_Message_Size (Message.ToProtoV1 msg) < 2 ^ 62.

Lemma sendable_marshals msg : sendable msg → is_Some (ToNetV0 msg) ∧ is_Some (ToNetV1 msg).
Proof.
  intros [H0 H1]. rewrite WireFacts.Message_size in H0, H1. unfold ToNetV0, ToNetV1.
  rewrite !write_frame by done. by split; eexists.
Qed.

Lemma send_returns a dl msg st : sender_ok st.1 → sendable msg → is_Some (send a dl msg st).
Proof.
  intros Hs [[b0 E0] [b1 E1]]%sendable_marshals. unfold send. destruct (Connect st) as [st1 r] eqn:Ec.
  destruct (Connect_outcome _ _ _ Hs Ec) as (_ & _ & _ & _ & _ & H6). destruct r as [x|e]; [|by eexists].
  destruct H6 as (_ & [sid ->] & _). cbn. unfold msgToStream. cbn.
  destruct (ToNet _ _ msg) as [[bs|]|] eqn:En; [|exfalso|by eexists].
  - destruct (on_host (stream_Write sid bs) _) as [w [e|]]; by eexists.
  - unfold ToNet in En. repeat case_match; congruence.
Qed.

Lemma attempts_return env dl msg n i err0 st :
  sender_ok st.1 → sendable msg → is_Some (multiAttempt_loop env (λ a, send a dl msg) n i err0 st).
Proof.
  revert i err0 st. induction n as [|n IH]; intros i err0 st Hs Hm; [by eexists|]. cbn [multiAttempt_loop].
  destruct (send_returns (env i) dl msg st Hs Hm) as [[st1 err1] E]. rewrite E. cbn [mbind option_bind].
  destruct (send_outcome _ _ _ _ _ _ Hs E) as (H1 & _). destruct err1 as [e|]; [|by eexists].
  repeat (case_match; [by eexists|]). apply IH; [|done].
  destruct (Reset_outcome st1 H1) as (R1 & _). unfold sender_ok. congruence.
Qed.

(** ** What is heard of a stream *)

Definition received (evs : list net_event) : list (PeerID * Message.impl) :=
  omap (λ e, match e with EvReceiveMessage p m => Some (p, m) | _ => None end) evs.
Definition errors (evs : list net_event) : list net_error :=
  omap (λ e, match e with EvReceiveError e => Some e | _ => None end) evs.

Lemma listener_silent cs : received (EvListener <$> cs) = [] ∧ errors (EvListener <$> cs) = [].
Proof. by induction cs. Qed.

(** What one message adds. *)
Lemma handle_message p m w :
  let w1 := conn_event (CEM.OnMessage p) w in
  let w2 := log (EvReceiveMessage p m)
    (mkWorld (host w1) (set_stats (MessagesSent (bsnet w1)) (uint64 (MessagesRecvd (bsnet w1) + 1)) (bsnet w1)) (events w1)) in
  ∃ cs, events w2 = events w ++ (EvListener <$> cs) ++ [EvReceiveMessage p m] ∧
    MessagesSent (bsnet w2) = MessagesSent (bsnet w) ∧ receiver (bsnet w2) = receiver (bsnet w) ∧
    MessagesRecvd (bsnet w2) = uint64 (MessagesRecvd (bsnet w) + 1).
Proof.
  unfold conn_event. destruct (CEM.OnMessage p (connectEvtMgr (bsnet w))) as [c cs]. cbn. exists cs.
  by rewrite app_assoc.
Qed.

Lemma received_app xs ys : received (xs ++ ys) = received xs ++ received ys.
Proof. apply omap_app. Qed.
Lemma errors_app xs ys : errors (xs ++ ys) = errors xs ++ errors ys.
Proof. apply omap_app. Qed.

(** The log of a stream: messages of [p], each after some calls on the listener,
    then at most one error. *)
Definition stream_log p (ms : list Message.impl) (e : option net_error) (evs : list net_event) : Prop :=
  received evs = (p,.) <$> ms ∧ errors evs = option_list e ∧
  (∀ x, e = Some x → ∃ pre, evs = pre ++ [EvReceiveError x]).

Lemma stream_log_cons p m ms e cs evs :
  stream_log p ms e evs → stream_log p (m :: ms) e (((EvListener <$> cs) ++ [EvReceiveMessage p m]) ++ evs).
Proof.
  intros (H1 & H2 & H3). destruct (listener_silent cs) as [E1 E2].
  split_and!; [by rewrite !received_app, E1, H1|by rewrite !errors_app, E2, H2|].
  intros x Hx. destruct (H3 x Hx) as [pre ->]. eexists. by rewrite app_assoc.
Qed.

(** [w'] is [w] after the messages [ms] of a stream. *)
Definition heard p (ms : list Message.impl) (e : option net_error) w w' : Prop :=
  (∃ evs, events w' = events w ++ evs ∧ stream_log p ms e evs) ∧
  MessagesSent (bsnet w') = MessagesSent (bsnet w) ∧
  MessagesRecvd (bsnet w') = uint64 (MessagesRecvd (bsnet w) + len ms).

Lemma uint64_add_l a b : uint64 (uint64 a + b) = uint64 (a + b).
Proof. unfold uint64, wrap_u. by rewrite Zplus_mod_idemp_l. Qed.

Definition stats_ok w : Prop := 0 ≤ MessagesRecvd (bsnet w) < 2 ^ 64.

Lemma heard_nil p w : stats_ok w → heard p [] None w w.
Proof.
  intros Hw. split_and!; [|done|].
  - exists []. split; [by rewrite app_nil_r|]. by split_and!.
  - change (len []) with 0. rewrite Z.add_0_r. by rewrite uint64_id.
Qed.

Lemma heard_cons p m ms e cs w w1 w' :
  events w1 = events w ++ (EvListener <$> cs) ++ [EvReceiveMessage p m] →
  MessagesSent (bsnet w1) = MessagesSent (bsnet w) →
  MessagesRecvd (bsnet w1) = uint64 (MessagesRecvd (bsnet w) + 1) →
  heard p ms e w1 w' → heard p (m :: ms) e w w'.
Proof.
  intros E1 E2 E3 ((evs & E4 & HL) & E5 & E6). split_and!; [|congruence|].
  - exists (((EvListener <$> cs) ++ [EvReceiveMessage p m]) ++ evs). split; [|by apply stream_log_cons].
    rewrite E4, E1. by rewrite <- !app_assoc.
  - rewrite E6, E3, uint64_add_l, WireFacts.len_cons. f_equal. lia.
Qed.

Lemma handle_messages_heard `{!MsgReaderLaws} fuel s p data w :
  (length data < fuel)%nat → stats_ok w →
  ∃ w' ms e, handle_messages fuel s p data w = Some w' ∧ heard p ms e w w' ∧ Forall Message.wf ms.
Proof.
  revert data w. induction fuel as [|fuel IH]; intros data w Hl Hw; [lia|]. cbn [handle_messages].
  destruct (FromMsgReader_returns data) as ([[m rest]|e] & -> & Hr); cbn [mbind option_bind].
  - destruct (Hr m rest eq_refl) as [Hm Hlen]. pose proof (handle_message p m w) as (cs & E1 & E2 & _ & E3).
    set (w1 := log _ _) in *. destruct (IH rest w1) as (w' & ms & e & Eh & HH & HF).
    + lia.
    + unfold stats_ok. rewrite E3. apply uint64_range.
    + exists w', (m :: ms), e. split; [done|]. split; [by eapply heard_cons|by constructor].
  - case_decide as Ee; [exists w, [], None; split; [done|]; split; [by apply heard_nil|done]|].
    eexists _, [], (Some e). split; [done|]. split; [|done]. unfold on_host.
    destruct (stream_Reset s (host w)) as [h err]. cbn. split_and!; [|done|].
    + exists [EvReceiveError e]. split; [done|]. split_and!; [done|done|]. intros x [= <-]. by exists [].
    + change (len []) with 0. rewrite Z.add_0_r. by rewrite uint64_id.
Qed.

(** The frames of messages, one after another. *)
Fixpoint frames (ms : list Message.impl) : option bytes :=
  match ms with
  | [] => Some []
  | m :: ms => b ← ToNetV1 m; bs ← frames ms; Some (b ++ bs)
  end.

Lemma handle_frames `{!BlockLibLaws} `{!MsgReaderLaws} s p ms w :
  Forall net_ok ms → stats_ok w →
  ∃ bs, frames ms = Some bs ∧
    ∀ fuel, (length bs < fuel)%nat →
    ∃ w' ms', handle_messages fuel s p bs w = Some w' ∧ heard p ms' None w w' ∧ Forall2 Message.msg_eq ms' ms.
Proof.
  intros HF. revert w. induction HF as [|m ms Hm _ IH]; intros w Hw.
  { exists []. split; [done|]. intros [|fuel] Hf; [lia|]. exists w, []. cbn [handle_messages].
    unfold FromMsgReader. rewrite ReadMsg_end. cbn [mbind option_bind]. rewrite decide_True by done.
    split; [done|]. split; [by apply heard_nil|constructor]. }
  destruct (IH (mkWorld (host w) (bsnet w) [])) as (bs & Ebs & _); [done|].
  destruct (read_written m bs Hm) as (b & Eb & m' & Er & Hm'). exists (b ++ bs). cbn [frames].
  rewrite Eb, Ebs. split; [done|]. intros [|fuel] Hf; [lia|]. cbn [handle_messages]. rewrite Er.
  cbn [mbind option_bind]. pose proof (handle_message p m' w) as (cs & E1 & E2 & _ & E3). set (w1 := log _ _) in *.
  destruct (IH w1) as (bs' & Ebs' & Hrun); [unfold stats_ok; rewrite E3; apply uint64_range|].
  assert (bs' = bs) as -> by congruence.
  destruct (FromMsgReader_returns (b ++ bs)) as (r & Er' & Hr). rewrite Er in Er'. injection Er' as <-.
  destruct (Hr m' bs eq_refl) as [_ Hlen]. destruct (Hrun fuel) as (w' & ms' & Eh & HH & H2); [lia|].
  exists w', (m' :: ms'). split; [done|]. split; [by eapply heard_cons|by constructor].
Qed.
End facts.
End NetFacts.
