(* ===== verification/VirtualNet.v ===== *)
(** * The virtual network (src/testnet/virtual.go)

    A network of nodes in one process: messages wait in a queue at the receiver
    until their latency and the delay of the rate limiter have passed, and a
    goroutine per receiver hands them over.

    A node's [networkClient] and its [receiverQueue], which are made together, are
    one [adapter]; adapters are shared objects and referred to by index, so that a
    goroutine keeps its queue when the peer is attached anew.  [procs] are the
    goroutines started by [enqueue].  Times, latencies, rate limits and the rate
    limiter of libp2p's mock network come from outside; a call on a missing
    delegate or peer, which panics, is [None]. *)
From S2P Require Import Prelude Auth Proto Message Network.
Set Default Goal Selector "1".
Open Scope Z_scope.

(** [mocknet.NewRateLimiter(bandwidth)] and [Limit(dataSize)], with the time. *)
Class RateLimiterLib := {
  RateLimit : Type;
  RateLimiter : Type;
  NewRateLimiter : RateLimit → RateLimiter;
  Limit : Time → Z → RateLimiter → Duration * RateLimiter;
}.

Module VNet.

(** Nanoseconds from the zero time to 1970. *)
Definition unixEpoch : Z := 62135596800 * 10 ^ 9.
Definition UnixNano (t : Time) : Z := int64 (t - unixEpoch).

Section vnet.
Context {CL : CidLib} {GO : GoRuntime} {BL : BlockLib} {RL : RateLimiterLib}.

Record message := mkMessage { from : PeerID; msg : Message.impl; shouldSend : Time }.

(** A goroutine of [process] is at the top of its loop, sleeps for 100 ms, or
    waits to hand over a message; it is removed from the list when it returns. *)
Inductive proc := PLoop | PSleep | PDeliver (m : message) | PGone.

Record adapter := mkAdapter {
  local : PeerID;
  supportedProtocols : list protocolID;
  MessagesRecvd : Z;
  MessagesSent : Z;
  delegate : bool;                 (* [nc.Receiver != nil] *)
  queue : list message;
  active : bool;
  procs : list proc;
}.

Inductive vn_event :=
| EvReceiveMessage (a : nat) (p : PeerID) (m : Message.impl)
| EvPeerConnected (a : nat) (p : PeerID)
| EvPeerDisconnected (a : nat) (p : PeerID).

Record network := mkNetwork {
  latencies : gmap PeerID (gmap PeerID Duration);
  rateLimiters : gmap PeerID (gmap PeerID RateLimiter);
  clients : gmap PeerID nat;
  adapters : list adapter;
  isRateLimited : bool;
  conns : gset string;
  events : list vn_event;
}.
Implicit Types (n : network) (a : nat) (x : adapter).

Definition set_adapters l n := mkNetwork (latencies n) (rateLimiters n) (clients n) l (isRateLimited n) (conns n) (events n).
Definition set_conns c n := mkNetwork (latencies n) (rateLimiters n) (clients n) (adapters n) (isRateLimited n) c (events n).
Definition log ev n := mkNetwork (latencies n) (rateLimiters n) (clients n) (adapters n) (isRateLimited n) (conns n) (events n ++ [ev]).
Definition upd a x n := set_adapters (<[a := x]> (adapters n)) n.
Definition set_queue q act ps x :=
  mkAdapter (local x) (supportedProtocols x) (MessagesRecvd x) (MessagesSent x) (delegate x) q act ps.
Definition set_stats r s x :=
  mkAdapter (local x) (supportedProtocols x) r s (delegate x) (queue x) (active x) (procs x).

Definition VirtualNetwork : network := mkNetwork ∅ ∅ ∅ [] false ∅ [].
Definition RateLimitedVirtualNetwork : network := mkNetwork ∅ ∅ ∅ [] true ∅ [].

(** The options are those of the real network; the prefix is not used. *)
Definition Adapter (p : PeerID) (opts : list Net.NetOpt) n : nat * network :=
  let s := Net.mkSettings ""
    [Net.ProtocolBitswap; Net.ProtocolBitswapOneOne; Net.ProtocolBitswapOneZero; Net.ProtocolBitswapNoVers] in
  let s := foldl Net.apply_opt s opts in
  let a := length (adapters n) in
  (a, mkNetwork (latencies n) (rateLimiters n) (<[p := a]> (clients n))
        (adapters n ++ [mkAdapter p (Net.SupportedProtocols s) 0 0 false [] false []])
        (isRateLimited n) (conns n) (events n)).

Definition HasPeer (p : PeerID) n : bool := bool_decide (is_Some (clients n !! p)).

(** ** Sending *)

Definition enqueue (m : message) x : adapter :=
  let q := queue x ++ [m] in
  if active x then set_queue q true (procs x) x else set_queue q true (procs x ++ [PLoop]) x.

(** [wait] and [rate] are what [NextWaitTime] and [NextRateLimit] return. *)
Definition SendMessage (now : Time) (wait : Duration) (rate : RateLimit) (src to : PeerID) (mes : Message.impl) n
  : network * option error :=
  let mes := Message.Clone mes in
  let lats := default ∅ (latencies n !! src) in
  let latency := default wait (lats !! to) in
  let n := mkNetwork (<[src := <[to := latency]> lats]> (latencies n)) (rateLimiters n) (clients n) (adapters n)
             (isRateLimited n) (conns n) (events n) in
  let '(bandwidthDelay, n) :=
    if isRateLimited n then
      let rls := default ∅ (rateLimiters n !! src) in
      let rl := default (NewRateLimiter rate) (rls !! to) in
      let '(d, rl) := Limit now (pb_Message_Size (Message.ToProtoV1 mes)) rl in
      (d, mkNetwork (latencies n) (<[src := <[to := rl]> rls]> (rateLimiters n)) (clients n) (adapters n)
            (isRateLimited n) (conns n) (events n))
    else (0, n) in
  match clients n !! to with
  | None => (n, Some (ErrOther "cannot locate peer on network"))
  | Some a =>
      match adapters n !! a with
      | None => (n, None)
      | Some x => (upd a (enqueue (mkMessage src mes (Time_Add (Time_Add now latency) bandwidthDelay)) x) n, None)
      end
  end.

(** ** The client of a node *)

Definition Latency a (p : PeerID) n : Duration :=
  match adapters n !! a with
  | Some x => default 0 (default ∅ (latencies n !! local x) !! p)
  | None => 0
  end.
(** [networkClient.SendMessage]; [messagePasser.SendMsg] calls it with its target. *)
Definition client_SendMessage (now : Time) (wait : Duration) (rate : RateLimit) a (to : PeerID) (mes : Message.impl) n
  : option (network * option error) :=
  x ← adapters n !! a;
  match SendMessage now wait rate (local x) to mes n with
  | (n, Some e) => Some (n, Some e)
  | (n, None) =>
      x ← adapters n !! a;
      Some (upd a (set_stats (MessagesRecvd x) (uint64 (MessagesSent x + 1)) x) n, None)
  end.
Definition Stats a n : option (Z * Z) := x ← adapters n !! a; Some (MessagesRecvd x, MessagesSent x).
Definition SetDelegate a n : network :=
  match adapters n !! a with
  | Some x => upd a (mkAdapter (local x) (supportedProtocols x) (MessagesRecvd x) (MessagesSent x) true (queue x) (active x) (procs x)) n
  | None => n
  end.

Definition oldProtos : list protocolID :=
  [Net.ProtocolBitswapNoVers; Net.ProtocolBitswapOneZero; Net.ProtocolBitswapOneOne].
Definition SupportsHave (target : PeerID) n : option bool :=
  a ← clients n !! target; x ← adapters n !! a;
  Some (existsb (λ proto, bool_decide (proto ∉ oldProtos)) (supportedProtocols x)).

Definition tagForPeers (a b : PeerID) : string := if String.ltb a b then a +:+ b else b +:+ a.

(** A call on the delegate of an adapter. *)
Definition call a (ev : vn_event) n : option network :=
  x ← adapters n !! a; if delegate x then Some (log ev n) else None.

Definition errNoSuchPeer : error := ErrOther "no such peer in network".
(** The part of [ConnectTo] under the lock: an outcome, or the other client. *)
Definition connect_lock a (p : PeerID) n : network * (option error + nat) :=
  match clients n !! p, adapters n !! a with
  | Some other, Some x =>
      let tag := tagForPeers (local x) p in
      if bool_decide (tag ∈ conns n) then (n, inl None) else (set_conns ({[tag]} ∪ conns n) n, inr other)
  | _, _ => (n, inl (Some errNoSuchPeer))
  end.
Definition ConnectTo a (p : PeerID) n : option (network * option error) :=
  x ← adapters n !! a;
  match connect_lock a p n with
  | (n, inl r) => Some (n, r)
  | (n, inr other) =>
      n ← call other (EvPeerConnected other (local x)) n;
      n ← call a (EvPeerConnected a p) n;
      Some (n, None)
  end.
Definition DisconnectFrom a (p : PeerID) n : option (network * option error) :=
  x ← adapters n !! a;
  match clients n !! p with
  | None => Some (n, Some errNoSuchPeer)
  | Some other =>
      let tag := tagForPeers (local x) p in
      if bool_decide (tag ∈ conns n) then
        n ← call other (EvPeerDisconnected other (local x)) (set_conns (conns n ∖ {[tag]}) n);
        n ← call a (EvPeerDisconnected a p) n;
        Some (n, None)
      else Some (n, None)
  end.

(** ** The goroutine of a receiver *)

Definition Less (m m' : message) : bool := UnixNano (shouldSend m) <? UnixNano (shouldSend m').

(** One turn of the loop under the lock; [time.Until(m.shouldSend).Seconds() < 0.1]
    in nanoseconds. *)
Definition loop_turn (now : Time) (i : nat) x : option adapter :=
  match procs x !! i with
  | Some PLoop =>
      let q := sort_Sort Less (queue x) in
      Some (match q with
            | [] => set_queue [] false (<[i := PGone]> (procs x)) x
            | m :: q' =>
                if Time_Sub (shouldSend m) now <? 10 ^ 8
                then set_queue q' (active x) (<[i := PDeliver m]> (procs x)) x
                else set_queue q (active x) (<[i := PSleep]> (procs x)) x
            end)
  | _ => None
  end.
Definition process_turn (now : Time) a i n : option network :=
  x ← adapters n !! a; x ← loop_turn now i x; Some (upd a x n).
(** [time.Sleep(100 * time.Millisecond)] ends. *)
Definition process_wake a i n : option network :=
  x ← adapters n !! a;
  match procs x !! i with
  | Some PSleep => Some (upd a (set_queue (queue x) (active x) (<[i := PLoop]> (procs x)) x) n)
  | _ => None
  end.
(** The message is due: it is counted and handed over. *)
Definition process_deliver (now : Time) a i n : option network :=
  x ← adapters n !! a;
  match procs x !! i with
  | Some (PDeliver m) =>
      if Time_Before now (shouldSend m) then None
      else
        let x := set_stats (uint64 (MessagesRecvd x + 1)) (MessagesSent x) x in
        let x := set_queue (queue x) (active x) (<[i := PLoop]> (procs x)) x in
        call a (EvReceiveMessage a (from m) (msg m)) (upd a x n)
  | _ => None
  end.
End vnet.
End VNet.
