(* ===== verification/VirtualNetFacts.v ===== *)
(** * Correctness of the virtual network (src/testnet/virtual.go)

    Every receiver has at most one goroutine, which is running while messages wait;
    what was sent to an adapter has been handed over once or waits. *)
From S2P Require Import Prelude Auth Proto Message Network VirtualNet.
Set Default Goal Selector "1".
Open Scope Z_scope.

Module VNetFacts.
Import VNet.
Section facts.
Context {CL : CidLib} {GO : GoRuntime} {BL : BlockLib} {RL : RateLimiterLib}.
Abbreviation packet := (PeerID * Message.impl)%type.
Implicit Types (n : network) (a i : nat) (x : adapter) (h : list (nat * packet)).

Definition packet_of (m : message) : packet := (from m, msg m).
Definition held (k : proc) : list packet := match k with PDeliver m => [packet_of m] | _ => [] end.
Definition is_gone (k : proc) : bool := match k with PGone => true | _ => false end.
(** What waits at an adapter. *)
Definition waiting x : list packet := (procs x ≫= held) ++ (packet_of <$> queue x).
(** What was sent to adapter [a], and what was handed over to it. *)
Definition sent_to a h : list packet := omap (λ y, if decide (y.1 = a) then Some y.2 else None) h.
Definition heard_by a (evs : list vn_event) : list packet :=
  omap (λ ev, match ev with
              | EvReceiveMessage b p m => if decide (b = a) then Some (p, m) else None
              | _ => None end) evs.

(** A run of the network; the history has the adapters and contents of the messages
    that were accepted. *)
Inductive step : relation (network * list (nat * packet)) :=
| st_adapter p opts n h : step (n, h) ((Adapter p opts n).2, h)
| st_delegate a n h : step (n, h) (SetDelegate a n, h)
| st_send now wait rate a x to b mes n n' h :
    adapters n !! a = Some x → clients n !! to = Some b → client_SendMessage now wait rate a to mes n = Some (n', None) →
    step (n, h) (n', h ++ [(b, (local x, Message.Clone mes))])
| st_send_error now wait rate a to mes n n' e h :
    client_SendMessage now wait rate a to mes n = Some (n', Some e) → step (n, h) (n', h)
| st_connect a p n n' e h : ConnectTo a p n = Some (n', e) → step (n, h) (n', h)
| st_disconnect a p n n' e h : DisconnectFrom a p n = Some (n', e) → step (n, h) (n', h)
| st_turn now a i n n' h : process_turn now a i n = Some n' → step (n, h) (n', h)
| st_wake a i n n' h : process_wake a i n = Some n' → step (n, h) (n', h)
| st_deliver now a i n n' h : process_deliver now a i n = Some n' → step (n, h) (n', h).

(** ** One adapter *)

Definition Goroutine (q : list message) (act : bool) (ps : list proc) : Prop :=
  if act then ∃ pre k, ps = pre ++ [k] ∧ k ≠ PGone ∧ Forall (.= PGone) pre
  else Forall (.= PGone) ps ∧ q = [].

Record AInv (H D : list packet) x : Prop := {
  a_books : H ≡ₚ D ++ waiting x;
  a_proc : Goroutine (queue x) (active x) (procs x);
  a_recvd : MessagesRecvd x = uint64 (len D);
}.

Lemma held_gone ps : Forall (.= PGone) ps → ps ≫= held = [].
Proof. induction 1 as [|k ps -> _ IH]; [done|]. cbn. exact IH. Qed.
Lemma held_last pre k : Forall (.= PGone) pre → (pre ++ [k]) ≫= held = held k.
Proof. intros Hp. rewrite bind_app, held_gone by done. cbn. by rewrite app_nil_r. Qed.

(** The goroutine that is not gone is the last one. *)
Lemma the_goroutine x i k :
  Goroutine (queue x) (active x) (procs x) → procs x !! i = Some k → k ≠ PGone →
  active x = true ∧ ∃ pre, procs x = pre ++ [k] ∧ Forall (.= PGone) pre ∧ ∀ k', <[i := k']> (procs x) = pre ++ [k'].
Proof.
  unfold Goroutine. intros HG Hi Hk. destruct (active x).
  - destruct HG as (pre & k0 & E & _ & Hp). split; [done|]. rewrite E in Hi.
    apply lookup_app_Some in Hi as [Hi|[Hl Hi]].
    { rewrite Forall_lookup in Hp. by destruct Hk, (Hp i k). }
    destruct (i - length pre)%nat as [|d] eqn:Ed; [|done]. injection Hi as ->.
    assert (i = length pre + 0)%nat as -> by lia. exists pre. split; [done|]. split; [done|]. intros k'. rewrite E.
    by rewrite insert_app_r.
  - destruct HG as [Hp _]. rewrite Forall_lookup in Hp. by destruct Hk, (Hp i k).
Qed.

Lemma enqueue_ok H D m x : AInv H D x → AInv (H ++ [packet_of m]) D (enqueue m x).
Proof.
  intros [H1 H2 H3]. unfold enqueue. unfold Goroutine in H2. unfold waiting in *. destruct (active x) eqn:Ea.
  - split; [|done|done]. unfold waiting. cbn [queue procs set_queue]. rewrite fmap_app, H1. cbn. by rewrite !app_assoc.
  - destruct H2 as [Hp Hq]. split; [|exists (procs x), PLoop; done|done]. unfold waiting. cbn [queue procs set_queue].
    rewrite held_last, fmap_app, H1 by done. rewrite held_gone by done. cbn. by rewrite app_assoc.
Qed.

Lemma stats_ok H D s x : AInv H D x → AInv H D (set_stats (MessagesRecvd x) s x).
Proof. intros []. by split. Qed.

Lemma turn_ok H D now i x x' : AInv H D x → loop_turn now i x = Some x' → AInv H D x'.
Proof.
  intros [H1 H2 H3]. unfold loop_turn. destruct (procs x !! i) as [[]|] eqn:Hi; try done.
  destruct (the_goroutine x i PLoop H2 Hi ltac:(done)) as (Ha & pre & Ep & Hp & Hins).
  pose proof (sort_perm Less (queue x)) as HP. unfold waiting in H1. rewrite Ep, held_last in H1 by done. cbn [held app] in H1.
  destruct (sort_Sort Less (queue x)) as [|m q]; [|destruct (_ <? _)]; intros [= <-]; unfold set_queue; rewrite Hins.
  - apply Permutation_nil_l in HP. rewrite <- HP in H1.
    assert (Forall (.= PGone) (pre ++ [PGone])) as Hg by (apply Forall_app; split; [done|by constructor]).
    split; unfold waiting; cbn; [by rewrite held_gone|done|done].
  - split; unfold waiting; cbn; [|rewrite Ha; by exists pre, (PDeliver m)|done].
    rewrite held_last by done. cbn. rewrite H1. by rewrite <- HP.
  - split; unfold waiting; cbn [procs queue active]; [|rewrite Ha; by exists pre, PSleep|done].
    rewrite held_last by done. cbn [held app]. rewrite H1. by rewrite <- HP.
Qed.

Lemma wake_ok H D i x :
  AInv H D x → procs x !! i = Some PSleep → AInv H D (set_queue (queue x) (active x) (<[i := PLoop]> (procs x)) x).
Proof.
  intros [H1 H2 H3] Hi. destruct (the_goroutine x i PSleep H2 Hi ltac:(done)) as (Ha & pre & Ep & Hp & Hins).
  unfold set_queue. rewrite Hins. unfold waiting in H1. rewrite Ep, held_last in H1 by done.
  split; unfold waiting; cbn [procs queue active]; [by rewrite held_last|rewrite Ha; by exists pre, PLoop|done].
Qed.

Lemma deliver_ok H D i m x :
  AInv H D x → procs x !! i = Some (PDeliver m) →
  AInv H (D ++ [packet_of m]) (set_queue (queue x) (active x) (<[i := PLoop]> (procs x)) (set_stats (uint64 (MessagesRecvd x + 1)) (MessagesSent x) x)).
Proof.
  intros [H1 H2 H3] Hi. destruct (the_goroutine x i _ H2 Hi ltac:(done)) as (Ha & pre & Ep & Hp & Hins).
  unfold set_queue, set_stats. cbn [procs queue active local supportedProtocols MessagesRecvd MessagesSent delegate].
  rewrite Hins. unfold waiting in H1. rewrite Ep, held_last in H1 by done.
  split; unfold waiting; cbn [procs queue active MessagesRecvd]; [|rewrite Ha; by exists pre, PLoop|].
  - rewrite held_last by done. cbn [held app] in *. by rewrite H1, <- app_assoc.
  - rewrite H3. unfold len. rewrite length_app. cbn [length]. unfold uint64, wrap_u. rewrite Zplus_mod_idemp_l. f_equal. lia.
Qed.

(** ** The network *)

Definition ev_adapter (ev : vn_event) : nat :=
  match ev with EvReceiveMessage a _ _ | EvPeerConnected a _ | EvPeerDisconnected a _ => a end.

Record Inv n h : Prop := {
  v_adapters : ∀ a x, adapters n !! a = Some x → AInv (sent_to a h) (heard_by a (events n)) x;
  v_clients : ∀ p a, clients n !! p = Some a → (a < length (adapters n))%nat;
  v_history : ∀ y, y ∈ h → (y.1 < length (adapters n))%nat;
  v_events : ∀ ev, ev ∈ events n → (ev_adapter ev < length (adapters n))%nat;
}.

Lemma omap_none {A C} (f : A → option C) (l : list A) : (∀ y, y ∈ l → f y = None) → omap f l = [].
Proof. induction l as [|y l IH]; [done|]. intros H. cbn. rewrite (H y) by left. apply IH. intros z Hz. apply H. by right. Qed.

Lemma sent_to_snoc a h b pk : sent_to a (h ++ [(b, pk)]) = sent_to a h ++ (if decide (b = a) then [pk] else []).
Proof. unfold sent_to. rewrite omap_app. cbn. by case_decide. Qed.
Lemma heard_by_snoc a evs ev :
  heard_by a (evs ++ [ev]) = heard_by a evs ++
    match ev with EvReceiveMessage b p m => if decide (b = a) then [(p, m)] else [] | _ => [] end.
Proof. unfold heard_by. rewrite omap_app. cbn. destruct ev; cbn; [|done|done]. by case_decide. Qed.

(** The state of one adapter changes, with the history or the events. *)
Lemma Inv_upd n h h' evs a x x' n' :
  Inv n h → adapters n !! a = Some x → adapters n' = <[a := x']> (adapters n) → clients n' = clients n → events n' = evs →
  (∀ b, b ≠ a → sent_to b h' = sent_to b h ∧ heard_by b evs = heard_by b (events n)) →
  AInv (sent_to a h') (heard_by a evs) x' →
  (∀ y, y ∈ h' → y ∈ h ∨ y.1 = a) → (∀ ev, ev ∈ evs → ev ∈ events n ∨ ev_adapter ev = a) → Inv n' h'.
Proof.
  intros [H1 H2 H3 H4] Ha Ea Ec Ee Hb HA Hh Hev. pose proof (lookup_lt_Some _ _ _ Ha) as Hl. split; rewrite ?Ea, ?Ec, ?Ee, ?length_insert.
  - intros b y Hy. apply list_lookup_insert_Some in Hy as [(-> & -> & _)|[Hne Hy]]; [done|].
    destruct (Hb b ltac:(done)) as [-> ->]. by apply H1.
  - done.
  - intros y [Hy| ->]%Hh; [by apply H3|done].
  - intros ev [Hy| ->]%Hev; [by apply H4|done].
Qed.

(** A call on a delegate that hands over no message. *)
Lemma vnet_call_ok a ev n n' h :
  Inv n h → call a ev n = Some n' → ev_adapter ev = a → (∀ b p m, ev ≠ EvReceiveMessage b p m) → Inv n' h.
Proof.
  intros [H1 H2 H3 H4] H He Hev. unfold call in H. destruct (adapters n !! a) as [x|] eqn:Ea; [|done]. cbn in H.
  destruct (delegate x); [|done]. injection H as <-. pose proof (lookup_lt_Some _ _ _ Ea). split; [|done|done|].
  - intros b y Hy. cbn [log events]. rewrite heard_by_snoc.
    assert (match ev with EvReceiveMessage b0 p m => if decide (b0 = b) then [(p, m)] else [] | _ => [] end = []) as ->
      by (destruct ev; [by destruct (Hev a0 p m)|done|done]).
    rewrite app_nil_r. by apply H1.
  - cbn [log events]. intros ev0 [Hin|Hin]%elem_of_app; [by apply H4|]. apply list_elem_of_singleton in Hin as ->. by rewrite He.
Qed.

Lemma Inv_conns c n h : Inv n h → Inv (set_conns c n) h.
Proof. intros []. by split. Qed.

(** What [SendMessage] does to the adapters. *)
Lemma SendMessage_effect now wait rate src to mes n n' r :
  SendMessage now wait rate src to mes n = (n', r) →
  clients n' = clients n ∧ events n' = events n ∧
  match r with
  | Some e => adapters n' = adapters n ∧ clients n !! to = None
  | None => ∃ b t, clients n !! to = Some b ∧
      adapters n' = match adapters n !! b with
                    | Some x => <[b := enqueue (mkMessage src (Message.Clone mes) t) x]> (adapters n)
                    | None => adapters n end
  end.
Proof.
  unfold SendMessage. cbn [isRateLimited rateLimiters clients adapters latencies].
  set (n1 := mkNetwork _ _ _ _ _ _ _). destruct (isRateLimited n).
  - destruct (Limit _ _ _) as [d rl]. cbn [clients adapters]. unfold n1. cbn [clients adapters].
    destruct (clients n !! to) as [b|] eqn:Ec; [|by intros [= <- <-]].
    destruct (adapters n !! b) as [x|] eqn:Ex; intros [= <- <-]; (split; [done|]; split; [done|]).
    + eexists b, _. split; [done|]. by rewrite Ex.
    + exists b, 0. by rewrite Ex.
  - unfold n1. cbn [clients adapters].
    destruct (clients n !! to) as [b|] eqn:Ec; [|by intros [= <- <-]].
    destruct (adapters n !! b) as [x|] eqn:Ex; intros [= <- <-]; (split; [done|]; split; [done|]).
    + eexists b, _. split; [done|]. by rewrite Ex.
    + exists b, 0. by rewrite Ex.
Qed.

Lemma Inv_stats a s x n h :
  Inv n h → adapters n !! a = Some x → Inv (upd a (set_stats (MessagesRecvd x) s x) n) h.
Proof.
  intros HI Ha. eapply (Inv_upd n h h (events n) a x); try done.
  - by apply stats_ok, (v_adapters _ _ HI).
  - by left.
  - by left.
Qed.

Lemma send_step_ok now wait rate a x to b mes n n' h :
  Inv n h → adapters n !! a = Some x → clients n !! to = Some b → client_SendMessage now wait rate a to mes n = Some (n', None) →
  Inv n' (h ++ [(b, (local x, Message.Clone mes))]).
Proof.
  intros HI Ha Hb H. unfold client_SendMessage in H. rewrite Ha in H. cbn [mbind option_bind] in H.
  destruct (SendMessage now wait rate (local x) to mes n) as [n1 r] eqn:Es.
  apply SendMessage_effect in Es as (E1 & E2 & E3). destruct r as [e|]; [done|].
  destruct E3 as (b' & t & Hb' & E3). simplify_eq.
  destruct (lookup_lt_is_Some_2 (adapters n) b) as [y Hy]; [by eapply v_clients|]. rewrite Hy in E3.
  assert (Inv n1 (h ++ [(b, (local x, Message.Clone mes))])) as HI1.
  { eapply (Inv_upd n h _ (events n) b y); [done|done|exact E3|done|done| | | |by left].
    - intros b0 Hne. split; [|done]. rewrite sent_to_snoc, decide_False by done. by rewrite app_nil_r.
    - rewrite sent_to_snoc, decide_True by done.
      apply (enqueue_ok _ _ (mkMessage (local x) (Message.Clone mes) t)). by apply (v_adapters _ _ HI).
    - intros z [Hz|Hz]%elem_of_app; [by left|]. apply list_elem_of_singleton in Hz as ->. by right. }
  destruct (adapters n1 !! a) as [x1|] eqn:Ha1; [|done]. cbn in H. injection H as <-. by apply Inv_stats.
Qed.

Lemma vnet_step s s' : step s s' → Inv s.1 s.2 → Inv s'.1 s'.2.
Proof.
  destruct 1 as [p opts n h|a n h|now wait rate a x to b mes n n' h Ha Hb H|now wait rate a to mes n n' e h H
    |a p n n' e h H|a p n n' e h H|now a i n n' h H|a i n n' h H|now a i n n' h H]; cbn [fst snd]; intros HI.
  - destruct HI as [H1 H2 H3 H4]. unfold Adapter. cbn [snd]. split; cbn [adapters clients events]; rewrite ?length_app; cbn [length].
    + intros a y Hy. apply lookup_app_Some in Hy as [Hy|[Hl Hy]]; [by apply H1|].
      destruct (a - length (adapters n))%nat eqn:Ed; [|done]. injection Hy as <-.
      assert (sent_to a h = []) as ->.
      { apply omap_none. intros y Hy. rewrite decide_False; [done|]. specialize (H3 y Hy). lia. }
      assert (heard_by a (events n) = []) as ->; [|by split].
      apply omap_none. intros ev Hev. specialize (H4 ev Hev). destruct ev; [|done|done]. rewrite decide_False; [done|]. cbn in H4. lia.
    + intros q a [[_ <-]|[_ Hq]]%lookup_insert_Some; [lia|]. specialize (H2 q a Hq). lia.
    + intros y Hy. specialize (H3 y Hy). lia.
    + intros ev Hev. specialize (H4 ev Hev). lia.
  - unfold SetDelegate. destruct (adapters n !! a) as [x|] eqn:Ha; [|done].
    eapply (Inv_upd n h h (events n) a x); try done; [|by left|by left].
    destruct (v_adapters _ _ HI a x Ha). by split.
  - by eapply send_step_ok.
  - unfold client_SendMessage in H. destruct (adapters n !! a) as [x|]; [|done]. cbn in H.
    destruct (SendMessage _ _ _ _ _ _ _) as [n1 r] eqn:Es. apply SendMessage_effect in Es as (E1 & E2 & E3).
    destruct r as [e'|]; [|by destruct (adapters n1 !! a)]. injection H as <- _. destruct E3 as [E3 _], HI.
    split; by rewrite ?E1, ?E2, ?E3.
  - unfold ConnectTo, connect_lock in H. destruct (adapters n !! a) as [x|] eqn:Ha; [|done]. cbn [mbind option_bind] in H.
    destruct (clients n !! p) as [other|]; [|by injection H as <- _]. case_bool_decide; [by injection H as <- _|].
    destruct (call other _ _) as [n1|] eqn:E1; [|done]. cbn [mbind option_bind] in H.
    destruct (call a _ n1) as [n2|] eqn:E2; [|done]. injection H as <- _.
    eapply vnet_call_ok; [|exact E2|done|done]. eapply vnet_call_ok; [|exact E1|done|done]. by apply Inv_conns.
  - unfold DisconnectFrom in H. destruct (adapters n !! a) as [x|] eqn:Ha; [|done]. cbn [mbind option_bind] in H.
    destruct (clients n !! p) as [other|]; [|by injection H as <- _]. case_bool_decide; [|by injection H as <- _].
    destruct (call other _ _) as [n1|] eqn:E1; [|done]. cbn [mbind option_bind] in H.
    destruct (call a _ n1) as [n2|] eqn:E2; [|done]. injection H as <- _.
    eapply vnet_call_ok; [|exact E2|done|done]. eapply vnet_call_ok; [|exact E1|done|done]. by apply Inv_conns.
  - unfold process_turn in H. destruct (adapters n !! a) as [x|] eqn:Ha; [|done]. cbn [mbind option_bind] in H.
    destruct (loop_turn now i x) as [x'|] eqn:Et; [|done]. injection H as <-.
    eapply (Inv_upd n h h (events n) a x); try done; [|by left|by left].
    eapply turn_ok; [by apply (v_adapters _ _ HI)|done].
  - unfold process_wake in H. destruct (adapters n !! a) as [x|] eqn:Ha; [|done]. cbn [mbind option_bind] in H.
    destruct (procs x !! i) as [[]|] eqn:Hi; try done. injection H as <-.
    eapply (Inv_upd n h h (events n) a x); try done; [|by left|by left].
    apply wake_ok; [by apply (v_adapters _ _ HI)|done].
  - unfold process_deliver in H. destruct (adapters n !! a) as [x|] eqn:Ha; [|done]. cbn [mbind option_bind] in H.
    destruct (procs x !! i) as [[| |m|]|] eqn:Hi; try done. destruct (Time_Before _ _); [done|].
    unfold call in H. cbn [upd set_adapters adapters] in H. rewrite list_lookup_insert_eq in H by by eapply lookup_lt_Some.
    cbn [mbind option_bind] in H. destruct (delegate _); [|done]. injection H as <-.
    eapply (Inv_upd n h h (events n ++ [EvReceiveMessage a (from m) (msg m)]) a x); [done|done|done|done|done| | |by left|].
    + intros b Hne. split; [done|]. rewrite heard_by_snoc, decide_False by done. by rewrite app_nil_r.
    + rewrite heard_by_snoc, decide_True by done. apply deliver_ok; [by apply (v_adapters _ _ HI)|done].
    + intros ev [Hev|Hev]%elem_of_app; [by left|]. apply list_elem_of_singleton in Hev as ->. by right.
Qed.

Lemma vnet_reachable s s' : rtc step s s' → Inv s.1 s.2 → Inv s'.1 s'.2.
Proof. induction 1 as [|s1 s2 s3 Hs _ IH]; [done|]. intros HI. apply IH. by eapply vnet_step. Qed.

Lemma Inv_empty (limited : bool) : Inv (mkNetwork ∅ ∅ ∅ [] limited ∅ []) [].
Proof. split; cbn; [done|done|by intros y Hy%not_elem_of_nil|by intros y Hy%not_elem_of_nil]. Qed.

(** ** Order and progress *)

Lemma vnet_Less_order : strict_weak_order Less.
Proof. unfold strict_weak_order, Less. split_and!; intros; rewrite ?Z.ltb_irrefl, ?Z.ltb_lt, ?Z.ltb_ge in *; lia. Qed.

(** Times that [UnixNano] can represent. *)
Definition time_ok (t : Time) : Prop := - 2 ^ 63 ≤ t - unixEpoch < 2 ^ 63.

(** The goroutine takes a message that is due first. *)
Lemma turn_first now i x x' m :
  loop_turn now i x = Some x' → procs x' !! i = Some (PDeliver m) → (∀ m', m' ∈ queue x → time_ok (shouldSend m')) →
  queue x ≡ₚ m :: queue x' ∧ ∀ m', m' ∈ queue x' → shouldSend m ≤ shouldSend m'.
Proof.
  unfold loop_turn. destruct (procs x !! i) as [[]|] eqn:Hi; try done. pose proof (lookup_lt_Some _ _ _ Hi) as Hl.
  pose proof (sort_perm Less (queue x)) as HP. pose proof (sort_sorted Less (queue x) vnet_Less_order) as HS.
  destruct (sort_Sort Less (queue x)) as [|m0 q]; [|destruct (_ <? _)]; intros [= <-]; cbn [procs queue set_queue];
    rewrite list_lookup_insert_eq by done; intros [= <-].
  intros Ht. split; [by rewrite HP|]. intros m' Hm. apply StronglySorted_inv in HS as [_ HF]. rewrite Forall_forall in HF.
  specialize (HF m' Hm). unfold Less in HF. rewrite Z.ltb_ge in HF. unfold UnixNano in HF.
  assert (time_ok (shouldSend m0)) as T1 by (apply Ht; rewrite <- HP; left).
  assert (time_ok (shouldSend m')) as T2 by (apply Ht; rewrite <- HP; by right).
  unfold time_ok in *. rewrite !int64_id in HF by lia. lia.
Qed.

(** While something waits, the goroutine can go on once it is late enough. *)
Lemma waiting_moves n h a x :
  Inv n h → adapters n !! a = Some x → delegate x = true → waiting x ≠ [] →
  ∃ i t, ∀ now, t ≤ now → is_Some (process_turn now a i n) ∨ is_Some (process_wake a i n) ∨ is_Some (process_deliver now a i n).
Proof.
  intros HI Ha Hd Hw. destruct (v_adapters _ _ HI a x Ha) as [_ HG _]. pose proof HG as HG'. unfold Goroutine in HG.
  destruct (active x).
  - destruct HG as (pre & k & E & Hk & Hp). exists (length pre).
    assert (procs x !! length pre = Some k) as Hi by (rewrite E, lookup_app_r, Nat.sub_diag by lia; done).
    destruct k as [| |m|]; [exists 0|exists 0|exists (shouldSend m)|done]; intros now Hnow.
    + left. unfold process_turn, loop_turn. rewrite Ha. cbn [mbind option_bind]. rewrite Hi. eauto.
    + right. left. unfold process_wake. rewrite Ha. cbn [mbind option_bind]. rewrite Hi. eauto.
    + right. right. unfold process_deliver. rewrite Ha. cbn [mbind option_bind]. rewrite Hi.
      unfold Time_Before. rewrite (proj2 (Z.ltb_ge _ _)) by done. unfold call. cbn [upd set_adapters adapters].
      rewrite list_lookup_insert_eq by by eapply lookup_lt_Some. cbn. rewrite Hd. eauto.
  - destruct HG as [Hp Hq]. destruct Hw. unfold waiting. by rewrite held_gone, Hq.
Qed.
End facts.
End VNetFacts.
