(* ===== verification/BlockstorePool.v ===== *)
(** * The workers that read the blockstore
      (src/internal/decision/blockstoremanager.go: start, worker, addJob, jobPerKey)

    [jobPerKey] hands one job per key to a pool of workers over an unbuffered
    channel and waits until the accepted ones have run; several calls use the pool
    at the same time.  A call holds the state of its loop and of its wait group, a
    worker the state of its goroutine; the keys whose job has run are kept in the
    order in which they ran.  Taking a job, the changes of the gauges and running
    the job are separate steps.  A step is [None] when it cannot be taken.

    The result of a call is the sequential definition of [BlockstoreManager], for
    some fault, whatever the interleaving; and the pool never gets stuck. *)
From S2P Require Import Prelude Auth BlockstoreManager.
From stdpp Require Import options.
Set Default Goal Selector "1".
Open Scope Z_scope.

Module Pool.
Section pool.
Context {CL : CidLib}.

(** A worker waits for a job, has taken the job of a call, runs it, has run it, or
    has returned. *)
Inductive worker :=
| Idle
| Taken (c : nat) (w : Want)
| Running (c : nat) (w : Want)
| Ran
| Gone.

Record call := mkCall {
  c_ws : list Want;
  todo : list Want;                (* keys the loop has not come to *)
  offering : option Want;          (* the job it is handing over *)
  counting : bool;                 (* [bsm.pendingGauge.Inc()] is next *)
  wg : Z;
  ran : list Want;
  err : option error;
  returned : bool;
}.

Record pool := mkPool {
  workers : list worker;
  calls : list call;
  closing : bool;
  pendingGauge : Z;
  activeGauge : Z;
}.
Implicit Types (s : pool) (c i : nat) (w : Want) (x : call).

(** [newBlockstoreManager] and [start]. *)
Definition start (workerCount : nat) : pool := mkPool (replicate workerCount Idle) [] false 0 0.

Definition set_worker i k s := mkPool (<[i := k]> (workers s)) (calls s) (closing s) (pendingGauge s) (activeGauge s).
Definition set_call c x s := mkPool (workers s) (<[c := x]> (calls s)) (closing s) (pendingGauge s) (activeGauge s).
Definition set_gauges n m s := mkPool (workers s) (calls s) (closing s) n m.

(** [jobPerKey] begins. *)
Definition jobPerKey (ws : list Want) s : pool :=
  mkPool (workers s) (calls s ++ [mkCall ws ws None false 0 [] None false]) (closing s) (pendingGauge s) (activeGauge s).

(** The next key: [wg.Add(1)], then [addJob]. *)
Definition offer c s : option pool :=
  x ← calls s !! c;
  match todo x, offering x, counting x with
  | w :: rest, None, false =>
      Some (set_call c (mkCall (c_ws x) rest (Some w) false (wg x + 1) (ran x) (err x) (returned x)) s)
  | _, _, _ => None
  end.

(** [bsm.jobs <- job], received by worker [i]. *)
Definition hand c i s : option pool :=
  x ← calls s !! c; k ← workers s !! i;
  match offering x, k with
  | Some w, Idle =>
      Some (set_worker i (Taken c w)
        (set_call c (mkCall (c_ws x) (todo x) None true (wg x) (ran x) (err x) (returned x)) s))
  | _, _ => None
  end.

(** The caller counts the job it has handed over. *)
Definition count c s : option pool :=
  x ← calls s !! c;
  if counting x then
    Some (set_gauges (pendingGauge s + 1) (activeGauge s)
      (set_call c (mkCall (c_ws x) (todo x) (offering x) false (wg x) (ran x) (err x) (returned x)) s))
  else None.

(** [addJob] fails: the context of the caller is done, or the pool is closing; the
    loop takes back its [wg.Add(1)] and breaks. *)
Definition refuse c (e : error) s : option pool :=
  x ← calls s !! c;
  match offering x with
  | Some _ => Some (set_call c (mkCall (c_ws x) [] None false (wg x - 1) (ran x) (Some e) (returned x)) s)
  | None => None
  end.
Definition errShuttingDown : error := ErrOther "shutting down".
Definition refuse_closing c s : option pool := if closing s then refuse c errShuttingDown s else None.

(** The worker counts the job, runs it ([jobFn] and [wg.Done()]) and counts again. *)
Definition begin_job i s : option pool :=
  match workers s !! i with
  | Some (Taken c w) => Some (set_gauges (pendingGauge s - 1) (activeGauge s + 1) (set_worker i (Running c w) s))
  | _ => None
  end.
Definition run_job i s : option pool :=
  match workers s !! i with
  | Some (Running c w) =>
      x ← calls s !! c;
      Some (set_worker i Ran
        (set_call c (mkCall (c_ws x) (todo x) (offering x) (counting x) (wg x - 1) (ran x ++ [w]) (err x) (returned x)) s))
  | _ => None
  end.
Definition end_job i s : option pool :=
  match workers s !! i with
  | Some Ran => Some (set_gauges (pendingGauge s) (activeGauge s - 1) (set_worker i Idle s))
  | _ => None
  end.
(** An idle worker sees that the pool is closing. *)
Definition worker_exit i s : option pool :=
  match workers s !! i with
  | Some Idle => if closing s then Some (set_worker i Gone s) else None
  | _ => None
  end.
Definition close s : pool := mkPool (workers s) (calls s) true (pendingGauge s) (activeGauge s).

(** [wg.Wait()] returns, and with it [jobPerKey]. *)
Definition wait_returns c s : option pool :=
  x ← calls s !! c;
  match todo x, offering x, counting x with
  | [], None, false =>
      if (wg x =? 0) && negb (returned x)
      then Some (set_call c (mkCall (c_ws x) [] None false (wg x) (ran x) (err x) true) s) else None
  | _, _, _ => None
  end.

(** The maps that the jobs of [getBlocks] and [getBlockSizes] have filled. *)
Definition call_blocks {B : Type} {BS : Blockstore B} (bs : AuthedBlockstore.AuthedBlockstore B) (remote : PeerID) x
  : gmap Want Block :=
  foldl (λ res w, match AuthedBlockstore.Get bs (Want_Cid w) remote (Want_Auth w) with
                  | Err _ => res | Ok blk => <[w := blk]> res end) ∅ (ran x).
Definition call_sizes {B : Type} {BS : Blockstore B} (bs : AuthedBlockstore.AuthedBlockstore B) x : gmap Want Z :=
  foldl (λ res w, match AuthedBlockstore.GetSize bs (Want_Cid w) with
                  | Err _ => res | Ok size => <[w := size]> res end) ∅ (ran x).
End pool.
End Pool.
