(* ===== verification/BlockstorePoolFacts.v ===== *)
(** * Correctness of the blockstore workers
      (src/internal/decision/blockstoremanager.go)

    The pool as a state machine: wait groups and gauges are exact, a call that
    returns has the result of the sequential definition, and every call returns. *)
From S2P Require Import Prelude Auth BlockstoreManager BlockstorePool.
From stdpp Require Import options.
Set Default Goal Selector "1".
Open Scope Z_scope.

Module PoolFacts.
Import Pool.
Section facts.
Context {CL : CidLib}.
#[local] Instance worker_eq_dec : EqDecision worker.
Proof. solve_decision. Defined.
Implicit Types (s : pool) (c i : nat) (w : Want) (x : call).

(** What the goroutines do by themselves. *)
Inductive istep : relation pool :=
| i_offer c s s' : offer c s = Some s' → istep s s'
| i_hand c i s s' : hand c i s = Some s' → istep s s'
| i_count c s s' : count c s = Some s' → istep s s'
| i_closing c s s' : refuse_closing c s = Some s' → istep s s'
| i_begin i s s' : begin_job i s = Some s' → istep s s'
| i_run i s s' : run_job i s = Some s' → istep s s'
| i_end i s s' : end_job i s = Some s' → istep s s'
| i_wait c s s' : wait_returns c s = Some s' → istep s s'
| i_exit i s s' : worker_exit i s = Some s' → istep s s'.

(** The environment starts calls, cancels contexts and closes the pool. *)
Inductive step : relation pool :=
| st_internal s s' : istep s s' → step s s'
| st_call ws s : step s (jobPerKey ws s)
| st_ctx c e s s' : refuse c e s = Some s' → step s s'
| st_close s : step s (close s).

(** ** Counting *)

Definition job_of (k : worker) : option (nat * Want) :=
  match k with Taken c w | Running c w => Some (c, w) | _ => None end.
(** The jobs of a call that workers have. *)
Definition jobs c (ks : list worker) : list Want :=
  omap (λ k, match job_of k with Some (c', w) => if decide (c' = c) then Some w else None | None => None end) ks.
Definition is_taken (k : worker) : bool := match k with Taken _ _ => true | _ => false end.
Definition is_active (k : worker) : bool := match k with Running _ _ | Ran => true | _ => false end.

Definition own c (k : worker) : list Want :=
  match job_of k with Some (c', w) => if decide (c' = c) then [w] else [] | None => [] end.
Lemma jobs_insert c ks i k k' :
  ks !! i = Some k → own c k ++ jobs c (<[i := k']> ks) ≡ₚ own c k' ++ jobs c ks.
Proof.
  assert (∀ k ks, jobs c (k :: ks) = own c k ++ jobs c ks) as Hc.
  { intros k0 ks0. unfold jobs, own. cbn. destruct (job_of k0) as [[c' w]|]; [|done]. by case_decide. }
  revert i. induction ks as [|k0 ks IH]; intros [|i] E; simplify_eq/=.
  - rewrite !Hc. rewrite !app_assoc. apply Permutation_app_tail, Permutation_app_comm.
  - rewrite !Hc. rewrite (Permutation_app_swap_app (own c k)), IH by done. apply Permutation_app_swap_app.
Qed.

(** ** The invariant *)

Record CallInv c (ks : list worker) x : Prop := {
  ci_wg : wg x = b2z (bool_decide (is_Some (offering x))) + len (jobs c ks);
  (** the keys handed over are a prefix of the arguments *)
  ci_keys : ∃ acc, ran x ++ jobs c ks ≡ₚ acc ∧
    match err x with
    | None => c_ws x = acc ++ option_list (offering x) ++ todo x
    | Some _ => acc = take (length acc) (c_ws x) ∧ (length acc < length (c_ws x))%nat ∧
                offering x = None ∧ todo x = []
    end;
  ci_counting : counting x = true → offering x = None;
  ci_returned : returned x = true → todo x = [] ∧ offering x = None ∧ counting x = false ∧ jobs c ks = [];
}.

Record Inv s : Prop := {
  inv_calls : ∀ c x, calls s !! c = Some x → CallInv c (workers s) x;
  inv_jobs : ∀ i k c w, workers s !! i = Some k → job_of k = Some (c, w) → is_Some (calls s !! c);
  inv_pending : pendingGauge s + Zsum_with (λ x, b2z (counting x)) (calls s)
    = Zsum_with (λ k, b2z (is_taken k)) (workers s);
  inv_active : activeGauge s = Zsum_with (λ k, b2z (is_active k)) (workers s);
  inv_gone : ∀ i, workers s !! i = Some Gone → closing s = true;
}.

(** A worker changes: calls that lose or gain no job are as before. *)
Lemma CallInv_perm c ks ks' x : jobs c ks ≡ₚ jobs c ks' → CallInv c ks x → CallInv c ks' x.
Proof.
  intros HP [H1 (acc & H2 & H3) H4 H5]. split; [|exists acc; split; [by rewrite <- HP|done]|done|].
  - rewrite H1. unfold len. by rewrite HP.
  - intros Hr. destruct (H5 Hr) as (? & ? & ? & E). rewrite E in HP. apply Permutation_nil_l in HP. by rewrite <- HP.
Qed.

Lemma jobs_same c ks i k k' : ks !! i = Some k → own c k = own c k' → jobs c ks ≡ₚ jobs c (<[i := k']> ks).
Proof.
  intros Ek Eo. pose proof (jobs_insert c ks i k k' Ek) as HP. rewrite Eo in HP. by apply Permutation_app_inv_l in HP.
Qed.

(** The worker [i] changes, no call does. *)
Lemma pool_Inv_worker s i k k' n m :
  Inv s → workers s !! i = Some k → (∀ c, own c k = own c k') → (k' = Gone → closing s = true) →
  n - pendingGauge s = b2z (is_taken k') - b2z (is_taken k) →
  m - activeGauge s = b2z (is_active k') - b2z (is_active k) →
  (∀ c w, job_of k' = Some (c, w) → job_of k = Some (c, w)) →
  Inv (set_gauges n m (set_worker i k' s)).
Proof.
  intros [H1 H2 H3 H4 H5] Ek Eo Hg Hn Hm Hj. split; cbn [workers calls pendingGauge activeGauge closing set_gauges set_worker set_call].
  - intros c x Ex. eapply CallInv_perm; [by apply (jobs_same c _ i k)|]. by apply H1.
  - intros j kj c w. rewrite list_lookup_insert_Some. intros [(-> & <- & _)|[_ E]] Ej; [|by eapply H2].
    eapply H2; [exact Ek|by apply Hj].
  - rewrite (Zsum_insert _ _ _ k) by done. lia.
  - rewrite (Zsum_insert _ _ _ k) by done. lia.
  - intros j. rewrite list_lookup_insert_Some. intros [(-> & E & _)|[_ E]]; [by apply Hg|by eapply H5].
Qed.

(** The call [c] changes, no worker does. *)
Lemma Inv_call s c x x' n :
  Inv s → calls s !! c = Some x → CallInv c (workers s) x' →
  n + b2z (counting x') = pendingGauge s + b2z (counting x) →
  Inv (set_gauges n (activeGauge s) (set_call c x' s)).
Proof.
  intros [H1 H2 H3 H4 H5] Ex HC Hn. split; cbn [workers calls pendingGauge activeGauge closing set_gauges set_worker set_call]; [| | |done|done].
  - intros c' y. rewrite list_lookup_insert_Some. intros [(-> & <- & _)|[_ E]]; [done|by apply H1].
  - intros i k c' w Ek Ej. apply lookup_lt_is_Some. rewrite length_insert. apply lookup_lt_is_Some. by eapply H2.
  - rewrite (Zsum_insert _ _ _ x) by done. lia.
Qed.

Lemma set_gauges_same s : set_gauges (pendingGauge s) (activeGauge s) s = s.
Proof. by destruct s. Qed.

(** A worker and a call change together. *)
Lemma Inv_both s i k k' c x x' :
  Inv s → workers s !! i = Some k → calls s !! c = Some x →
  (∀ c', c' ≠ c → own c' k = own c' k') → k' ≠ Gone →
  (∀ c' w, job_of k' = Some (c', w) → c' = c) →
  CallInv c (<[i := k']> (workers s)) x' →
  b2z (counting x') - b2z (counting x) = b2z (is_taken k') - b2z (is_taken k) →
  is_active k' = is_active k →
  Inv (set_worker i k' (set_call c x' s)).
Proof.
  intros [H1 H2 H3 H4 H5] Ek Ex Eo Hg Hj HC Hn Hm. split; cbn [workers calls pendingGauge activeGauge closing set_gauges set_worker set_call].
  - intros c' y. rewrite list_lookup_insert_Some. intros [(-> & <- & _)|[Hne E]]; [done|].
    eapply CallInv_perm; [apply (jobs_same c' _ i k); [done|apply Eo; congruence]|by apply H1].
  - intros j kj c' w. rewrite list_lookup_insert_Some. intros Hk Ej.
    apply lookup_lt_is_Some. rewrite length_insert. apply lookup_lt_is_Some.
    destruct Hk as [(-> & <- & _)|[_ E]]; [rewrite (Hj _ _ Ej); eauto|by eapply H2].
  - rewrite (Zsum_insert _ _ _ x), (Zsum_insert _ _ _ k) by done. lia.
  - rewrite (Zsum_insert _ _ _ k), Hm by done. lia.
  - intros j. rewrite list_lookup_insert_Some. intros [(-> & E & _)|[_ E]]; [done|by eapply H5].
Qed.

(** ** Every step preserves it *)

Lemma Inv_call_same s c x x' :
  Inv s → calls s !! c = Some x → CallInv c (workers s) x' → counting x' = counting x → Inv (set_call c x' s).
Proof.
  intros HI Ex HC Hc. rewrite <- (set_gauges_same (set_call c x' s)). apply (Inv_call s c x); [done..|]. cbn. by rewrite Hc.
Qed.

Lemma offer_ok c s s' : Inv s → offer c s = Some s' → Inv s'.
Proof.
  intros HI. unfold offer. destruct (calls s !! c) as [x|] eqn:Ex; [cbn [mbind option_bind]|done].
  destruct (todo x) as [|w rest] eqn:Et; [done|]. destruct (offering x) eqn:Eo; [done|].
  destruct (counting x) eqn:Ec; [done|]. intros [= <-]. destruct (inv_calls _ HI c x Ex) as [H1 (acc & H2 & H3) H4 H5].
  rewrite Eo in *. apply (Inv_call_same s c x); [done|done| |by rewrite Ec]. split; cbn in *; [lia| |done|].
  - exists acc. split; [done|]. destruct (err x); [|by rewrite Et in H3]. destruct H3 as (_ & _ & _ & E). congruence.
  - intros Hr. destruct (H5 Hr) as [E _]. congruence.
Qed.

Lemma pool_hand_ok c i s s' : Inv s → hand c i s = Some s' → Inv s'.
Proof.
  intros HI. unfold hand. destruct (calls s !! c) as [x|] eqn:Ex; [cbn [mbind option_bind]|done].
  destruct (workers s !! i) as [k|] eqn:Ek; [cbn [mbind option_bind]|done].
  destruct (offering x) as [w|] eqn:Eo; [|done]. destruct k; try done. intros [= <-].
  destruct (inv_calls _ HI c x Ex) as [H1 (acc & H2 & H3) H4 H5]. rewrite Eo in *.
  assert (counting x = false) as Ec by (destruct (counting x); [by discriminate H4|done]).
  assert (jobs c (<[i := Taken c w]> (workers s)) ≡ₚ w :: jobs c (workers s)) as HP.
  { pose proof (jobs_insert c _ i Idle (Taken c w) Ek) as HP. unfold own in HP. cbn in HP. by rewrite decide_True in HP. }
  apply (Inv_both s i Idle _ c x); [done|done|done| |done|by intros ? ? [= <- _]| |by cbn; rewrite Ec|done].
  - intros c' Hne. unfold own. cbn. by rewrite decide_False.
  - split; cbn in *; [| |done|].
    + rewrite H1. unfold len. rewrite HP. cbn. lia.
    + exists (acc ++ [w]). rewrite HP. split; [rewrite <- H2; solve_Permutation|].
      destruct (err x); [by destruct H3 as (_ & _ & ? & _)|]. by rewrite H3, <- app_assoc.
    + intros Hr. destruct (H5 Hr) as (_ & E & _). congruence.
Qed.

Lemma count_ok c s s' : Inv s → count c s = Some s' → Inv s'.
Proof.
  intros HI. unfold count. destruct (calls s !! c) as [x|] eqn:Ex; [cbn [mbind option_bind]|done].
  destruct (counting x) eqn:Ec; [|done]. intros [= <-]. destruct (inv_calls _ HI c x Ex) as [H1 H2 H3 H4].
  apply (Inv_call s c x); [done|done| |cbn; rewrite Ec; cbn; lia]. split; cbn; [done|done|done|]. intros Hr.
  destruct (H4 Hr) as (_ & _ & E & _). congruence.
Qed.

Lemma refuse_ok c e s s' : Inv s → refuse c e s = Some s' → Inv s'.
Proof.
  intros HI. unfold refuse. destruct (calls s !! c) as [x|] eqn:Ex; [cbn [mbind option_bind]|done].
  destruct (offering x) as [w|] eqn:Eo; [|done]. intros [= <-].
  destruct (inv_calls _ HI c x Ex) as [H1 (acc & H2 & H3) H4 H5]. rewrite Eo in *.
  assert (counting x = false) as Ec by (destruct (counting x); [by discriminate H4|done]).
  apply (Inv_call_same s c x); [done|done| |by rewrite Ec]. split; cbn in *; [lia| |done|].
  - exists acc. split; [done|]. destruct (err x) eqn:Ee; [by destruct H3 as (_ & _ & ? & _)|].
    rewrite H3, take_app_length, !length_app. cbn. split_and!; [done|lia|done|done].
  - intros Hr. destruct (H5 Hr) as (_ & E & _). congruence.
Qed.

Lemma run_ok i s s' : Inv s → run_job i s = Some s' → Inv s'.
Proof.
  intros HI. unfold run_job. destruct (workers s !! i) as [[|c w|c w| |]|] eqn:Ek; try done.
  destruct (calls s !! c) as [x|] eqn:Ex; [cbn [mbind option_bind]|done]. intros [= <-].
  destruct (inv_calls _ HI c x Ex) as [H1 (acc & H2 & H3) H4 H5].
  assert (jobs c (workers s) ≡ₚ w :: jobs c (<[i := Ran]> (workers s))) as HP.
  { pose proof (jobs_insert c _ i (Running c w) Ran Ek) as HP. unfold own in HP. cbn in HP.
    rewrite decide_True in HP by done. by rewrite <- HP. }
  apply (Inv_both s i (Running c w) _ c x); [done|done|done| |done|done| |by cbn; lia|done].
  - intros c' Hne. unfold own. cbn. by rewrite decide_False.
  - split; cbn in *; [| |done|].
    + rewrite H1. unfold len. rewrite HP. cbn. lia.
    + exists acc. split; [|done]. rewrite <- H2, HP. by rewrite <- app_assoc.
    + intros Hr. destruct (H5 Hr) as (_ & _ & _ & E). rewrite E in HP. by apply Permutation_nil_cons in HP.
Qed.

Lemma wait_ok c s s' : Inv s → wait_returns c s = Some s' → Inv s'.
Proof.
  intros HI. unfold wait_returns. destruct (calls s !! c) as [x|] eqn:Ex; [cbn [mbind option_bind]|done].
  destruct (todo x) eqn:Et; [|done]. destruct (offering x) eqn:Eo; [done|]. destruct (counting x) eqn:Ec; [done|].
  destruct (Z.eqb_spec (wg x) 0) as [E0|]; [|done]. cbn. destruct (returned x); [done|]. intros [= <-].
  destruct (inv_calls _ HI c x Ex) as [H1 H2 H3 H4]. rewrite Et, Eo in *.
  apply (Inv_call_same s c x); [done|done| |by rewrite Ec]. split; cbn in *; [done|done|done|]. intros _.
  split_and!; [done..|]. apply len_eqb_nil. lia.
Qed.

Lemma worker_ok i s s' :
  Inv s → begin_job i s = Some s' ∨ end_job i s = Some s' ∨ worker_exit i s = Some s' → Inv s'.
Proof.
  unfold begin_job, end_job, worker_exit. intros HI.
  destruct (workers s !! i) as [k|] eqn:Ek; [|naive_solver].
  intros [H|[H|H]]; destruct k as [|c w|c w| |]; simplify_eq.
  - by apply (pool_Inv_worker s i (Taken c w)); try done; cbn; lia.
  - by apply (pool_Inv_worker s i Ran); try done; cbn; lia.
  - destruct (closing s) eqn:Ec; simplify_eq. rewrite <- set_gauges_same. apply (pool_Inv_worker s i Idle); try done; cbn; lia.
Qed.

Lemma call_ok ws s : Inv s → Inv (jobPerKey ws s).
Proof.
  intros [H1 H2 H3 H4 H5]. unfold jobPerKey. split; cbn [workers calls pendingGauge activeGauge closing].
  - intros c x. rewrite lookup_app_Some. intros [E|[Hl E]]; [by apply H1|].
    destruct (c - length (calls s))%nat as [|n] eqn:Ec; [|done]. cbn in E. simplify_eq.
    assert (jobs c (workers s) = []) as Ej.
    { unfold jobs. destruct (omap _ (workers s)) as [|w l] eqn:E; [done|]. exfalso.
      assert (w ∈ w :: l) as Hin by left. rewrite <- E in Hin.
      apply list_elem_of_omap in Hin as (k & Hk & Hw). apply list_elem_of_lookup in Hk as [i Hi].
      destruct (job_of k) as [[c' w']|] eqn:Ej; [|done]. case_decide; [subst c'|done].
      destruct (H2 i k c w' Hi Ej) as [y Hy]. apply lookup_lt_Some in Hy. lia. }
    split; cbn; [by rewrite Ej|exists []; by rewrite Ej|done|done].
  - intros i k c w Hi Hj. apply lookup_lt_is_Some. rewrite length_app.
    destruct (H2 i k c w Hi Hj) as [y Hy]. apply lookup_lt_Some in Hy. lia.
  - rewrite Zsum_with_app. cbn. lia.
  - done.
  - done.
Qed.

Lemma close_ok s : Inv s → Inv (close s).
Proof. intros []. by split. Qed.

Lemma pool_istep_ok s s' : istep s s' → Inv s → Inv s'.
Proof.
  destruct 1; intros HI.
  - by eapply offer_ok.
  - by eapply pool_hand_ok.
  - by eapply count_ok.
  - unfold refuse_closing in *. destruct (closing s); [by eapply refuse_ok|done].
  - eapply worker_ok; eauto.
  - by eapply run_ok.
  - eapply worker_ok; eauto.
  - by eapply wait_ok.
  - eapply worker_ok; eauto.
Qed.

Lemma pool_reachable s s' : rtc step s s' → Inv s → Inv s'.
Proof.
  induction 1 as [|s1 s2 s3 Hs _ IH]; [done|]. intros HI. apply IH. destruct Hs.
  - by eapply pool_istep_ok.
  - by apply call_ok.
  - by eapply refuse_ok.
  - by apply close_ok.
Qed.

Lemma pool_Inv_start n : Inv (start n).
Proof.
  unfold start. split; cbn [workers calls pendingGauge activeGauge closing].
  - done.
  - by intros i k c w [-> _]%lookup_replicate.
  - by rewrite Zsum_replicate_0.
  - by rewrite Zsum_replicate_0.
  - by intros i [? _]%lookup_replicate.
Qed.

(** ** The result of a call *)

(** The fault that a call has met. *)
Definition fault_of (n : nat) x : BSM.fault := match err x with Some e => Some (n, e) | None => None end.

Lemma returned_result s c x :
  Inv s → calls s !! c = Some x → returned x = true →
  ∃ n, ran x ≡ₚ BSM.accepted (fault_of n x) (c_ws x) ∧ (is_Some (err x) → (n < length (c_ws x))%nat).
Proof.
  intros HI Ex Hr. destruct (inv_calls _ HI c x Ex) as [_ (acc & H2 & H3) _ H4].
  destruct (H4 Hr) as (Et & Eo & _ & Ej). rewrite Ej, app_nil_r in H2. exists (length acc). unfold fault_of.
  destruct (err x) as [e|]; cbn.
  - destruct H3 as (Ea & Hl & _). by rewrite <- Ea.
  - rewrite Et, Eo, app_nil_r in H3. rewrite H3. split; [done|by intros [? ?]].
Qed.

Section results.
Context {B : Type} {BS : Blockstore B} (bs : AuthedBlockstore.AuthedBlockstore B) (remote : PeerID).

Lemma getBlocks_error f ws :
  (∀ n e, f = Some (n, e) → (n < length ws)%nat) →
  (BSM.getBlocks f bs ws remote).2 = match f with Some (_, e) => Some e | None => None end ∧
  (BSM.getBlockSizes f bs ws remote).2 = match f with Some (_, e) => Some e | None => None end.
Proof.
  intros Hf. unfold BSM.getBlocks, BSM.getBlockSizes, BSM.jobPerKey.
  destruct f as [[n e]|]; [|by case_match]. specialize (Hf n e eq_refl).
  rewrite (proj2 (Nat.eqb_neq _ _)) by lia. by rewrite (proj2 (Nat.ltb_lt _ _)).
Qed.

Lemma returned_maps s c x :
  Inv s → calls s !! c = Some x → returned x = true →
  ∃ f, (call_blocks bs remote x, err x) = BSM.getBlocks f bs (c_ws x) remote ∧
       (call_sizes bs x, err x) = BSM.getBlockSizes f bs (c_ws x) remote.
Proof.
  intros HI Ex Hr. destruct (returned_result s c x HI Ex Hr) as (n & HP & Hn). exists (fault_of n x).
  destruct (getBlocks_error (fault_of n x) (c_ws x)) as [E1 E2].
  { unfold fault_of. intros m e. destruct (err x); [intros [= <- <-]; eauto|done]. }
  assert (match fault_of n x with Some (_, e) => Some e | None => None end = err x) as Ee
    by (unfold fault_of; by destruct (err x)).
  rewrite Ee in E1, E2. rewrite (surjective_pairing (BSM.getBlocks _ _ _ _)), (surjective_pairing (BSM.getBlockSizes _ _ _ _)).
  rewrite E1, E2. split; f_equal; apply map_eq; intros w.
  - rewrite BSM.getBlocks_lookup. unfold call_blocks.
    rewrite (BSM.lookup_foldl_query (λ w, AuthedBlockstore.Get bs (Want_Cid w) remote (Want_Auth w))).
    by erewrite (decide_ext (w ∈ ran x)) by by rewrite HP.
  - rewrite BSM.getBlockSizes_lookup. unfold call_sizes.
    rewrite (BSM.lookup_foldl_query (λ w, AuthedBlockstore.GetSize bs (Want_Cid w))).
    by erewrite (decide_ext (w ∈ ran x)) by by rewrite HP.
Qed.
End results.

(** ** Every call returns *)

Lemma length_workers s s' : step s s' → length (workers s') = length (workers s).
Proof.
  destruct 1 as [s s' Hi|ws s|c e s s' Hr|s]; [|done| |done].
  - destruct Hi as [c s s' H|c i s s' H|c s s' H|c s s' H|i s s' H|i s s' H|i s s' H|c s s' H|i s s' H];
      unfold offer, hand, count, refuse_closing, refuse, begin_job, run_job, end_job, wait_returns, worker_exit in H;
      repeat first [progress simplify_option_eq | case_match]; cbn [workers set_gauges set_call set_worker];
      by rewrite ?length_insert.
  - unfold refuse in Hr. by repeat first [progress simplify_option_eq | case_match].
Qed.

Lemma workers_reachable s s' : rtc step s s' → length (workers s') = length (workers s).
Proof. induction 1 as [|s1 s2 s3 Hs _ IH]; [done|]. by rewrite IH, (length_workers _ _ Hs). Qed.

Definition call_cost x : Z :=
  8 * len (todo x) + 7 * b2z (bool_decide (is_Some (offering x))) + b2z (counting x) + b2z (negb (returned x)).
Definition worker_cost (k : worker) : Z :=
  match k with Taken _ _ => 5 | Running _ _ => 4 | Ran => 3 | Idle => 1 | Gone => 0 end.
(** How many steps the goroutines can take at most. *)
Definition cost s : Z := Zsum_with call_cost (calls s) + Zsum_with worker_cost (workers s).

Lemma cost_nonneg s : 0 ≤ cost s.
Proof.
  unfold cost. assert (∀ b, 0 ≤ b2z b) by by intros [].
  assert (0 ≤ Zsum_with call_cost (calls s)).
  { apply Zsum_with_nonneg. intros x. unfold call_cost. pose proof (len_nonneg (todo x)).
    pose proof (H (bool_decide (is_Some (offering x)))). pose proof (H (counting x)). pose proof (H (negb (returned x))). lia. }
  assert (0 ≤ Zsum_with worker_cost (workers s)) by (apply Zsum_with_nonneg; by intros []). lia.
Qed.

Lemma cost_call s c x x' :
  calls s !! c = Some x → call_cost x' < call_cost x → cost (set_call c x' s) < cost s.
Proof. intros Ex Hc. unfold cost. cbn [calls workers set_call]. rewrite (Zsum_insert _ _ _ x) by done. lia. Qed.
Lemma cost_worker s i k k' :
  workers s !! i = Some k → worker_cost k' < worker_cost k → cost (set_worker i k' s) < cost s.
Proof. intros Ek Hc. unfold cost. cbn [calls workers set_worker]. rewrite (Zsum_insert _ _ _ k) by done. lia. Qed.
Lemma cost_both s i k k' c x x' :
  workers s !! i = Some k → calls s !! c = Some x →
  call_cost x' + worker_cost k' < call_cost x + worker_cost k → cost (set_worker i k' (set_call c x' s)) < cost s.
Proof.
  intros Ek Ex Hc. unfold cost. cbn [calls workers set_worker set_call].
  rewrite (Zsum_insert _ _ _ k), (Zsum_insert _ _ _ x) by done. lia.
Qed.
Lemma cost_gauges n m s : cost (set_gauges n m s) = cost s.
Proof. done. Qed.

Lemma istep_cost s s' : istep s s' → cost s' < cost s.
Proof.
  destruct 1 as [c s s' H|c i s s' H|c s s' H|c s s' H|i s s' H|i s s' H|i s s' H|c s s' H|i s s' H].
  - unfold offer in H. destruct (calls s !! c) as [x|] eqn:Ex; [|done]. cbn in H.
    repeat (case_match; try done). simplify_eq. eapply cost_call; [done|]. unfold call_cost, len. cbn.
    match goal with E : todo x = _ |- _ => rewrite E end. match goal with E : offering x = _ |- _ => rewrite E end.
    match goal with E : counting x = _ |- _ => rewrite E end. cbn. lia.
  - unfold hand in H. destruct (calls s !! c) as [x|] eqn:Ex; [|done]. cbn in H.
    destruct (workers s !! i) as [k|] eqn:Ek; [|done]. cbn in H. destruct (offering x) eqn:Eo; [|done].
    destruct k; try done. simplify_eq. eapply cost_both; [done|done|]. unfold call_cost. cbn. rewrite Eo.
    cbn. destruct (counting x); cbn; lia.
  - unfold count in H. destruct (calls s !! c) as [x|] eqn:Ex; [|done]. cbn in H.
    destruct (counting x) eqn:Ec; [|done]. simplify_eq. rewrite cost_gauges. eapply cost_call; [done|].
    unfold call_cost. cbn. rewrite Ec. cbn. lia.
  - unfold refuse_closing, refuse in H. destruct (closing s); [|done].
    destruct (calls s !! c) as [x|] eqn:Ex; [|done]. cbn in H. destruct (offering x) eqn:Eo; [|done]. simplify_eq.
    eapply cost_call; [done|]. unfold call_cost. cbn. rewrite Eo. pose proof (len_nonneg (todo x)).
    change (len []) with 0. cbn. destruct (counting x); cbn; lia.
  - unfold begin_job in H. destruct (workers s !! i) as [[]|] eqn:Ek; simplify_eq. rewrite cost_gauges.
    by eapply cost_worker.
  - unfold run_job in H. destruct (workers s !! i) as [[|c w|c w| |]|] eqn:Ek; simplify_eq.
    destruct (calls s !! c) as [x|] eqn:Ex; [|done]. cbn in H. simplify_eq. eapply cost_both; [done|done|].
    unfold call_cost. cbn. lia.
  - unfold end_job in H. destruct (workers s !! i) as [[]|] eqn:Ek; simplify_eq. rewrite cost_gauges.
    by eapply cost_worker.
  - unfold wait_returns in H. destruct (calls s !! c) as [x|] eqn:Ex; [|done]. cbn in H.
    destruct (todo x) eqn:Et; [|done]. destruct (offering x) eqn:Eo; [done|]. destruct (counting x) eqn:Ec; [done|].
    destruct (returned x) eqn:Er; rewrite ?andb_false_r in H; [done|]. case_match; [|done]. simplify_eq.
    eapply cost_call; [done|]. unfold call_cost. cbn. rewrite Et, Eo, Ec, Er. cbn. lia.
  - unfold worker_exit in H. destruct (workers s !! i) as [[]|] eqn:Ek; simplify_eq. destruct (closing s); simplify_eq.
    by eapply cost_worker.
Qed.

(** A worker that has a job, or waits for none, can go on. *)
Lemma busy_moves s i k : Inv s → workers s !! i = Some k → k ≠ Idle → k ≠ Gone → ∃ s', istep s s'.
Proof.
  intros HI Ek Hi Hg. destruct k as [|c w|c w| |]; [done| | | |done].
  - eexists. apply (i_begin i). unfold begin_job. by rewrite Ek.
  - destruct (inv_jobs _ HI i _ c w Ek eq_refl) as [x Ex]. eexists. apply (i_run i). unfold run_job. by rewrite Ek, Ex.
  - eexists. apply (i_end i). unfold end_job. by rewrite Ek.
Qed.

Lemma call_moves s c x :
  Inv s → (0 < length (workers s))%nat → calls s !! c = Some x → returned x = false → ∃ s', istep s s'.
Proof.
  intros HI Hn Ex Hr. destruct (inv_calls _ HI c x Ex) as [H1 _ H3 _].
  destruct (counting x) eqn:Ec. { eexists. apply (i_count c). unfold count. rewrite Ex. cbn. by rewrite Ec. }
  destruct (offering x) as [w|] eqn:Eo.
  - destruct (lookup_lt_is_Some_2 (workers s) 0 Hn) as [k Ek].
    destruct (decide (k = Idle)) as [->|Hi].
    { eexists. apply (i_hand c 0). unfold hand. rewrite Ex. cbn. rewrite Ek. cbn. by rewrite Eo. }
    destruct (decide (k = Gone)) as [->|Hg]; [|by eapply busy_moves].
    eexists. apply (i_closing c). unfold refuse_closing, refuse. rewrite (inv_gone _ HI _ Ek), Ex. cbn. by rewrite Eo.
  - destruct (todo x) as [|w rest] eqn:Et.
    + destruct (Z.eqb_spec (wg x) 0) as [E0|Hne].
      { eexists. apply (i_wait c). unfold wait_returns. rewrite Ex. cbn. by rewrite Et, Eo, Ec, E0, Hr. }
      destruct (jobs c (workers s)) as [|w l] eqn:Ej; [by change (wg x = 0) in H1|].
      assert (w ∈ jobs c (workers s)) as Hin by (rewrite Ej; left).
      apply list_elem_of_omap in Hin as (k & Hk & Hw). apply list_elem_of_lookup in Hk as [i Hi].
      by eapply (busy_moves s i k HI Hi); intros ->.
    + eexists. apply (i_offer c). unfold offer. rewrite Ex. cbn. by rewrite Et, Eo, Ec.
Qed.
End facts.
End PoolFacts.
