(* ===== verification/Outbox.v ===== *)
(** * From the request queue to the network
      (src/internal/decision/engine.go: StartWorkers, taskWorker, nextEnvelope;
       src/workers.go: startWorkers, taskWorker)

    The task workers of the engine offer one-time channels on the unbuffered outbox
    and then put an envelope into them; the task workers of the node take a channel
    from the outbox, wait for its envelope and send it.  All of them run at the
    same time, together with the handlers of the engine: a worker holds the state
    of its goroutine, and every access to shared state is a step of its own, which
    is [None] when it cannot be taken.

    [popped], [released] and [dropped] record what the workers did with the batches
    of the request queue: handed out by [PopTasks], given back by [TasksDone], and
    lost with a worker that could not read the blockstore.  [panicked] is set by a
    send on a closed channel and by closing a channel twice. *)
From S2P Require Import Prelude Auth Message Ledger ScoreLedger TaskMerger BlockstoreManager Engine.
From S2P Require Import PeerManager SessionManager Bitswap.
Set Default Goal Selector "1".
Open Scope Z_scope.

Module Outbox.
Import Engine.

Section outbox.
Context {CL : CidLib} {GO : GoRuntime} {BL : BlockLib}.
Context {B : Type} {BS : Blockstore B} {Q : Type} {PTQ : PeerTaskQueue Q} {SL : Type} {SLI : ScoreLedger SL}.

(** A worker of the engine offers a channel, is at the top of [nextEnvelope], waits
    for tasks, has a batch, or returns. *)
Inductive eworker :=
| EOffer
| EPop (ch : nat)
| EWait (ch : nat)
| EBuild (ch : nat) (p : PeerID) (tasks : list Task) (pending : Z)
| EExiting
| EExited.

(** A worker of the node waits for a channel, waits for the envelope in it (without
    a channel: for ever), has an envelope, has told the engine that it is sent, or
    has returned. *)
Inductive nworker :=
| NIdle
| NAwait (ch : option nat)
| NGot (env : Envelope)
| NSending (env : Envelope)
| NExited.

(** A channel of capacity one. *)
Record channel := mkChan { buffer : option Envelope; closed : bool }.

Record pipe := mkPipe {
  node : Bitswap.Bitswap B Q SL;
  eworkers : list eworker;
  nworkers : list nworker;
  chans : list channel;
  ctx_done : bool;
  popped : list (PeerID * list Task);
  released : list (PeerID * list Task);
  dropped : list (PeerID * list Task);
  panicked : bool;
}.
Implicit Types (s : pipe) (i j : nat).

Definition set_node n s := mkPipe n (eworkers s) (nworkers s) (chans s) (ctx_done s) (popped s) (released s) (dropped s) (panicked s).
Definition set_e i k s := mkPipe (node s) (<[i := k]> (eworkers s)) (nworkers s) (chans s) (ctx_done s) (popped s) (released s) (dropped s) (panicked s).
Definition set_n j k s := mkPipe (node s) (eworkers s) (<[j := k]> (nworkers s)) (chans s) (ctx_done s) (popped s) (released s) (dropped s) (panicked s).
Definition set_chans c s := mkPipe (node s) (eworkers s) (nworkers s) c (ctx_done s) (popped s) (released s) (dropped s) (panicked s).
Definition pop_batch b s := mkPipe (node s) (eworkers s) (nworkers s) (chans s) (ctx_done s) (popped s ++ [b]) (released s) (dropped s) (panicked s).
Definition release b s := mkPipe (node s) (eworkers s) (nworkers s) (chans s) (ctx_done s) (popped s) (released s ++ [b]) (dropped s) (panicked s).
Definition drop_batch b s := mkPipe (node s) (eworkers s) (nworkers s) (chans s) (ctx_done s) (popped s) (released s) (dropped s ++ [b]) (panicked s).
Definition panic s := mkPipe (node s) (eworkers s) (nworkers s) (chans s) (ctx_done s) (popped s) (released s) (dropped s) true.
Definition set_engine e s := set_node (Bitswap.set_engine e (node s)) s.
Definition engine s := Bitswap.engine (node s).
Definition batch_of (env : Envelope) : PeerID * list Task := (env_Peer env, env_Tasks env).

(** [StartWorkers] and [startWorkers]. *)
Definition StartWorkers (taskWorkerCount : nat) (n : Bitswap.Bitswap B Q SL) : pipe :=
  mkPipe n (replicate (Z.to_nat (Engine.taskWorkerCount (Bitswap.engine n))) EOffer) (replicate taskWorkerCount NIdle) []
    false [] [] [] false.

(** ** Workers of the engine *)

(** [e.outbox <- oneTimeUse], received by worker [j] of the node. *)
Definition hand i j s : option pipe :=
  k ← eworkers s !! i; k' ← nworkers s !! j;
  match k, k' with
  | EOffer, NIdle =>
      if outboxClosed (engine s) then None
      else
        let ch := length (chans s) in
        Some (set_e i (EPop ch) (set_n j (NAwait (Some ch)) (set_chans (chans s ++ [mkChan None false]) s)))
  | _, _ => None
  end.
(** Sending on the outbox after it was closed. *)
Definition offer_closed i s : option pipe :=
  match eworkers s !! i with
  | Some EOffer => if outboxClosed (engine s) then Some (panic s) else None
  | _ => None
  end.
Definition offer_quit i s : option pipe :=
  match eworkers s !! i with
  | Some EOffer => if ctx_done s then Some (set_e i EExiting s) else None
  | _ => None
  end.

(** [PopTasks] for worker [i], whose channel is [ch]. *)
Definition take_tasks i ch (e : Engine B Q SL) s : pipe :=
  let '((p, tasks, pending), e) := pop e in
  let s := set_engine e s in
  match tasks with
  | [] => set_e i (EWait ch) s
  | _ :: _ => set_e i (EBuild ch p tasks pending) (pop_batch (p, tasks) s)
  end.
Definition pop_step i s : option pipe :=
  match eworkers s !! i with
  | Some (EPop ch) => Some (take_tasks i ch (engine s) s)
  | _ => None
  end.
(** The three cases of the [select]. *)
Definition wake_signal i s : option pipe :=
  match eworkers s !! i with
  | Some (EWait ch) =>
      if workSignal (engine s) then Some (take_tasks i ch (set_workSignal false (engine s)) s) else None
  | _ => None
  end.
Definition wake_tick i s : option pipe :=
  match eworkers s !! i with
  | Some (EWait ch) =>
      Some (take_tasks i ch (set_queue (ThawRound (peerRequestQueue (engine s))) (engine s)) s)
  | _ => None
  end.
(** [close(oneTimeUse)] *)
Definition close_chan ch s : pipe :=
  match chans s !! ch with
  | Some c => if closed c then panic s else set_chans (<[ch := mkChan (buffer c) true]> (chans s)) s
  | None => s
  end.
(** [oneTimeUse <- envelope] *)
Definition put_chan ch env s : pipe :=
  match chans s !! ch with
  | Some c => if closed c then panic s else set_chans (<[ch := mkChan (Some env) false]> (chans s)) s
  | None => s
  end.
Definition wake_done i s : option pipe :=
  match eworkers s !! i with
  | Some (EWait ch) => if ctx_done s then Some (set_e i EExiting (close_chan ch s)) else None
  | _ => None
  end.

(** The message of the batch; [f] is what happens to the reads of the blockstore. *)
Definition build_step (f : BSM.fault) i s : option pipe :=
  match eworkers s !! i with
  | Some (EBuild ch p tasks pending) =>
      match buildMessage f p tasks pending (engine s) with
      | Err _ => Some (set_e i EExiting (close_chan ch (drop_batch (p, tasks) s)))
      | Ok msg =>
          if Message.Empty msg then
            Some (set_e i (EPop ch) (release (p, tasks)
              (set_engine (set_queue (TasksDone p tasks (peerRequestQueue (engine s))) (engine s)) s)))
          else Some (set_e i EOffer (close_chan ch (put_chan ch (mkEnvelope p msg tasks) s)))
      end
  | _ => None
  end.

(** The deferred [taskWorkerExit]: the last worker closes the outbox. *)
Definition exit_step i s : option pipe :=
  match eworkers s !! i with
  | Some EExiting =>
      let s' := set_e i EExited (set_engine (taskWorkerExit (engine s)) s) in
      Some (if (Engine.taskWorkerCount (engine s) =? 1) && outboxClosed (engine s) then panic s' else s')
  | _ => None
  end.

(** ** Workers of the node *)

(** Receiving from the closed outbox gives a nil channel. *)
Definition outbox_ended j s : option pipe :=
  match nworkers s !! j with
  | Some NIdle => if outboxClosed (engine s) then Some (set_n j (NAwait None) s) else None
  | _ => None
  end.
(** [envelope, ok := <-nextEnvelope] *)
Definition receive j s : option pipe :=
  match nworkers s !! j with
  | Some (NAwait (Some ch)) =>
      c ← chans s !! ch;
      match buffer c with
      | Some env => Some (set_n j (NGot env) (set_chans (<[ch := mkChan None (closed c)]> (chans s)) s))
      | None => if closed c then Some (set_n j NIdle s) else None
      end
  | _ => None
  end.
Definition message_sent j s : option pipe :=
  match nworkers s !! j with
  | Some (NGot env) =>
      Some (set_n j (NSending env) (set_engine (MessageSent (env_Peer env) (env_Message env) (engine s)) s))
  | _ => None
  end.
(** [sendBlocks] with the deferred [env.Sent()]; [ok] says whether the network took
    the message. *)
Definition send_step (ok : bool) j s : option pipe :=
  match nworkers s !! j with
  | Some (NSending env) =>
      Some (set_n j NIdle (release (batch_of env) (set_node (Bitswap.sendBlocks ok env (node s)) s)))
  | _ => None
  end.
Definition quit j s : option pipe :=
  match nworkers s !! j with
  | Some NIdle | Some (NAwait _) => if ctx_done s then Some (set_n j NExited s) else None
  | _ => None
  end.
Definition cancel s : pipe :=
  mkPipe (node s) (eworkers s) (nworkers s) (chans s) true (popped s) (released s) (dropped s) (panicked s).
End outbox.
Arguments eworker {CL}.
Arguments nworker {CL}.
Arguments channel {CL}.
Arguments pipe {CL} B Q SL.
End Outbox.
