(* ===== verification/OutboxFacts.v ===== *)
(** * Correctness of the outbox
      (src/internal/decision/engine.go, src/workers.go)

    The workers as a state machine: nothing is sent on a closed channel or closed
    twice, every batch of the request queue is in exactly one place, and at rest
    the workers wait for work. *)
From S2P Require Import Prelude Auth Message Ledger ScoreLedger TaskMerger BlockstoreManager Engine EngineFacts EngineIndex EngineRun.
From S2P Require Import PeerManager SessionManager Bitswap Outbox.
Set Default Goal Selector "1".
Open Scope Z_scope.

Module OutboxFacts.
Import Engine Outbox.
Section facts.
Context {CL : CidLib} {GO : GoRuntime} {BL : BlockLib}.
Context {B : Type} {BS : Blockstore B} {Q : Type} {PTQ : PeerTaskQueue Q} {SL : Type} {SLI : ScoreLedger SL}.
Implicit Types (s : pipe B Q SL) (i j ch : nat) (es : list eworker) (ns : list nworker) (cs : list channel).

(** The handlers of the engine. *)
Inductive handler : relation (Engine B Q SL) :=
| h_MessageReceived f p m e : handler e (MessageReceived f p m e)
| h_ReceiveFrom from blks e : handler e (ReceiveFrom from blks e)
| h_PeerConnected p e : handler e (PeerConnected p e)
| h_PeerDisconnected p e : handler e (PeerDisconnected p e)
| h_WantlistForPeer p e : handler e (WantlistForPeer p e).2.

(** What the workers do by themselves. *)
Inductive istep : relation (pipe B Q SL) :=
| i_hand i j s s' : hand i j s = Some s' → istep s s'
| i_offer_closed i s s' : offer_closed i s = Some s' → istep s s'
| i_offer_quit i s s' : offer_quit i s = Some s' → istep s s'
| i_pop i s s' : pop_step i s = Some s' → istep s s'
| i_signal i s s' : wake_signal i s = Some s' → istep s s'
| i_done i s s' : wake_done i s = Some s' → istep s s'
| i_build f i s s' : build_step f i s = Some s' → istep s s'
| i_exit i s s' : exit_step i s = Some s' → istep s s'
| i_ended j s s' : outbox_ended j s = Some s' → istep s s'
| i_receive j s s' : receive j s = Some s' → istep s s'
| i_sent j s s' : message_sent j s = Some s' → istep s s'
| i_send ok j s s' : send_step ok j s = Some s' → istep s s'
| i_quit j s s' : quit j s = Some s' → istep s s'.

(** The ticker, the end of the context, the handlers, and all other parts of the
    node, which change the engine only in its blockstore. *)
Inductive step : relation (pipe B Q SL) :=
| st_worker s s' : istep s s' → step s s'
| st_tick i s s' : wake_tick i s = Some s' → step s s'
| st_cancel s : step s (cancel s)
| st_handler e s : handler (engine s) e → step s (set_engine e s)
| st_node n s : Bitswap.engine n = engine s → step s (set_node n s)
| st_store x s : step s (set_node (Bitswap.set_blockstore x (node s)) s).

Ltac fields :=
  cbn [node eworkers nworkers chans ctx_done popped released dropped panicked set_node set_e set_n set_chans
       pop_batch release drop_batch set_engine cancel].
(** ** The channels *)

Definition eid (k : eworker) : option nat :=
  match k with EPop ch | EWait ch | EBuild ch _ _ _ => Some ch | _ => None end.
Definition nid (k : nworker) : option nat := match k with NAwait o => o | _ => None end.

Record Shape es ns cs (done : bool) : Prop := {
  sh_prep : ∀ i k ch, es !! i = Some k → eid k = Some ch → cs !! ch = Some (mkChan None false);
  sh_einj : ∀ i i' k k' ch, es !! i = Some k → es !! i' = Some k' → eid k = Some ch → eid k' = Some ch → i = i';
  sh_open : ∀ ch c, cs !! ch = Some c → closed c = false → ∃ i k, es !! i = Some k ∧ eid k = Some ch;
  sh_await : ∀ j k ch, ns !! j = Some k → nid k = Some ch → is_Some (cs !! ch);
  sh_ninj : ∀ j j' k k' ch, ns !! j = Some k → ns !! j' = Some k' → nid k = Some ch → nid k' = Some ch → j = j';
  sh_taken : done = false → ∀ ch c, cs !! ch = Some c → closed c = false ∨ is_Some (buffer c) →
    ∃ j k, ns !! j = Some k ∧ nid k = Some ch;
}.

Lemma lookup_insert_inv {A} (l : list A) i i' (x y : A) :
  <[i := x]> l !! i' = Some y → (i' = i ∧ y = x) ∨ (i' ≠ i ∧ l !! i' = Some y).
Proof. intros H. apply list_lookup_insert_Some in H as [(-> & -> & _)|[? ?]]; auto. Qed.

Lemma insert_here {A} (l : list A) i (x y : A) : l !! i = Some x → <[i := y]> l !! i = Some y.
Proof. intros H. apply list_lookup_insert_eq. by eapply lookup_lt_Some. Qed.

(** A worker of the engine goes on with the same channel. *)
Lemma Shape_e es ns cs d i k k' : es !! i = Some k → eid k' = eid k → Shape es ns cs d → Shape (<[i := k']> es) ns cs d.
Proof.
  intros Hi Hid [H1 H2 H3 H4 H5 H6]. split; [| | |done|done|done].
  - intros i1 k1 ch [[-> ->]|[_ ?]]%lookup_insert_inv; [rewrite Hid; eauto|eauto].
  - intros i1 i2 k1 k2 ch [[-> ->]|[Hn1 E1]]%lookup_insert_inv [[-> ->]|[Hn2 E2]]%lookup_insert_inv; rewrite ?Hid; eauto.
  - intros ch c Hc Ho. destruct (H3 ch c Hc Ho) as (i1 & k1 & E & Eid). destruct (decide (i1 = i)) as [->|Hne].
    + exists i, k'. split; [by eapply insert_here|]. simplify_eq. by rewrite Hid.
    + exists i1, k1. by rewrite list_lookup_insert_ne.
Qed.

(** A channel is handed over. *)
Lemma Shape_hand es ns cs d i j k k' :
  es !! i = Some k → eid k = None → ns !! j = Some k' → nid k' = None → Shape es ns cs d →
  Shape (<[i := EPop (length cs)]> es) (<[j := NAwait (Some (length cs))]> ns) (cs ++ [mkChan None false]) d.
Proof.
  intros Hi Hk Hj Hk' [H1 H2 H3 H4 H5 H6].
  assert ((cs ++ [mkChan None false]) !! length cs = Some (mkChan None false)) as Hnew
    by (rewrite lookup_app_r, Nat.sub_diag by lia; done).
  assert (∀ ch c, cs !! ch = Some c → ch ≠ length cs) as Hold by (intros ch c E; apply lookup_lt_Some in E; lia).
  assert (∀ ch c, (cs ++ [mkChan None false]) !! ch = Some c → ch = length cs ∨ cs !! ch = Some c) as Hinv.
  { intros ch c [E|[Hl E]]%lookup_app_Some; [by right|]. left. apply lookup_lt_Some in E. cbn in E. lia. }
  split.
  - intros i1 k1 ch [[-> ->]|[_ E]]%lookup_insert_inv Hid; [by injection Hid as <-|].
    apply lookup_app_l_Some. eauto.
  - intros i1 i2 k1 k2 ch [[-> ->]|[Hn1 E1]]%lookup_insert_inv [[-> ->]|[Hn2 E2]]%lookup_insert_inv I1 I2; [done| | |by eapply H2].
    + injection I1 as <-. by destruct (Hold _ _ (H1 _ _ _ E2 I2)).
    + injection I2 as <-. by destruct (Hold _ _ (H1 _ _ _ E1 I1)).
  - intros ch c [->|E]%Hinv Ho.
    + exists i, (EPop (length cs)). split; [by eapply insert_here|done].
    + destruct (H3 ch c E Ho) as (i1 & k1 & E1 & I1). exists i1, k1. split; [|done].
      rewrite list_lookup_insert_ne; [done|]. intros ->. congruence.
  - intros j1 k1 ch [[-> ->]|[_ E]]%lookup_insert_inv Hid; [injection Hid as <-; by eexists|].
    destruct (H4 _ _ _ E Hid) as [c Hc]. exists c. by apply lookup_app_l_Some.
  - intros j1 j2 k1 k2 ch [[-> ->]|[Hn1 E1]]%lookup_insert_inv [[-> ->]|[Hn2 E2]]%lookup_insert_inv I1 I2; [done| | |by eapply H5].
    + injection I1 as <-. destruct (H4 _ _ _ E2 I2) as [c Hc]. by destruct (Hold _ _ Hc).
    + injection I2 as <-. destruct (H4 _ _ _ E1 I1) as [c Hc]. by destruct (Hold _ _ Hc).
  - intros Hd ch c [->|E]%Hinv Ho.
    + exists j, (NAwait (Some (length cs))). split; [by eapply insert_here|done].
    + destruct (H6 Hd ch c E Ho) as (j1 & k1 & E1 & I1). exists j1, k1. split; [|done].
      rewrite list_lookup_insert_ne; [done|]. intros ->. congruence.
Qed.

(** A worker of the engine is through with its channel. *)
Lemma Shape_finish es ns cs d i k k' ch o :
  es !! i = Some k → eid k = Some ch → eid k' = None → Shape es ns cs d →
  Shape (<[i := k']> es) ns (<[ch := mkChan o true]> cs) d.
Proof.
  intros Hi Hk Hk' [H1 H2 H3 H4 H5 H6]. pose proof (H1 _ _ _ Hi Hk) as Hch. split.
  - intros i1 k1 ch1 [[-> ->]|[Hne E]]%lookup_insert_inv Hid; [congruence|].
    rewrite list_lookup_insert_ne; [by eapply H1|]. intros ->. by destruct Hne; eapply H2.
  - intros i1 i2 k1 k2 ch1 [[-> ->]|[Hn1 E1]]%lookup_insert_inv [[-> ->]|[Hn2 E2]]%lookup_insert_inv I1 I2;
      [done|congruence|congruence|by eapply H2].
  - intros ch1 c [[-> ->]|[Hne E]]%lookup_insert_inv Ho; [done|].
    destruct (H3 ch1 c E Ho) as (i1 & k1 & E1 & I1). exists i1, k1. split; [|done].
    rewrite list_lookup_insert_ne; [done|]. intros ->. congruence.
  - intros j1 k1 ch1 E Hid. destruct (H4 _ _ _ E Hid) as [c Hc]. destruct (decide (ch1 = ch)) as [->|Hne].
    + eexists. by eapply insert_here.
    + exists c. by rewrite list_lookup_insert_ne.
  - done.
  - intros Hd ch1 c [[-> ->]|[Hne E]]%lookup_insert_inv Ho; [|by eapply H6].
    apply (H6 Hd ch (mkChan None false) Hch). by left.
Qed.

(** A worker of the node takes the envelope from its channel. *)
Lemma Shape_receive es ns cs d j k k' ch c :
  ns !! j = Some k → nid k = Some ch → nid k' = None → cs !! ch = Some c → is_Some (buffer c) → Shape es ns cs d →
  Shape es (<[j := k']> ns) (<[ch := mkChan None (closed c)]> cs) d.
Proof.
  intros Hj Hk Hk' Hch [env Hb] [H1 H2 H3 H4 H5 H6].
  assert (closed c = true) as Hcl.
  { destruct (closed c) eqn:E; [done|]. destruct (H3 _ _ Hch E) as (i & k1 & E1 & I1).
    rewrite (H1 _ _ _ E1 I1) in Hch. by simplify_eq. }
  rewrite Hcl. split.
  - intros i k1 ch1 E Hid. pose proof (H1 _ _ _ E Hid) as E1. rewrite list_lookup_insert_ne; [done|].
    intros ->. rewrite E1 in Hch. by simplify_eq.
  - done.
  - intros ch1 c1 [[-> ->]|[Hne E]]%lookup_insert_inv Ho; [done|by eapply H3].
  - intros j1 k1 ch1 [[-> ->]|[Hne E]]%lookup_insert_inv Hid; [congruence|].
    rewrite list_lookup_insert_ne; [by eapply H4|]. intros ->. by destruct Hne; eapply H5.
  - intros j1 j2 k1 k2 ch1 [[-> ->]|[Hn1 E1]]%lookup_insert_inv [[-> ->]|[Hn2 E2]]%lookup_insert_inv I1 I2;
      [done|congruence|congruence|by eapply H5].
  - intros Hd ch1 c1 [[-> ->]|[Hne E]]%lookup_insert_inv Ho; [by destruct Ho as [|[]]|].
    destruct (H6 Hd ch1 c1 E Ho) as (j1 & k1 & E1 & I1). exists j1, k1. split; [|done].
    rewrite list_lookup_insert_ne; [done|]. intros ->. congruence.
Qed.

(** A worker of the node waits for no channel any more. *)
Lemma Shape_n es ns cs d j k k' :
  ns !! j = Some k → nid k' = None →
  (d = true ∨ ∀ ch, nid k = Some ch → cs !! ch = Some (mkChan None true)) → Shape es ns cs d →
  Shape es (<[j := k']> ns) cs d.
Proof.
  intros Hj Hk' Hk [H1 H2 H3 H4 H5 H6]. split; [done|done|done| | |].
  - intros j1 k1 ch1 [[-> ->]|[Hne E]]%lookup_insert_inv Hid; [congruence|by eapply H4].
  - intros j1 j2 k1 k2 ch1 [[-> ->]|[Hn1 E1]]%lookup_insert_inv [[-> ->]|[Hn2 E2]]%lookup_insert_inv I1 I2;
      [done|congruence|congruence|by eapply H5].
  - intros Hd ch c E Ho. destruct (H6 Hd ch c E Ho) as (j1 & k1 & E1 & I1). exists j1, k1. split; [|done].
    rewrite list_lookup_insert_ne; [done|]. intros ->. destruct Hk as [->|Hk]; [done|]. simplify_eq.
    rewrite (Hk ch I1) in E. simplify_eq. by destruct Ho as [|[]].
Qed.

Lemma Shape_done es ns cs d : Shape es ns cs d → Shape es ns cs true.
Proof. intros []. by split. Qed.

(** ** The batches *)

Abbreviation batch := (PeerID * list Task)%type.
Definition occ (x : batch) (l : list batch) : Z := Z.of_nat (count_occ (decide_rel (=)) l x).
Definition ebatch (k : eworker) : list batch := match k with EBuild _ p tasks _ => [(p, tasks)] | _ => [] end.
Definition cbatch (c : channel) : list batch := match buffer c with Some env => [batch_of env] | None => [] end.
Definition nbatch (k : nworker) : list batch := match k with NGot env | NSending env => [batch_of env] | _ => [] end.

(** Where a batch of the request queue can be. *)
Definition held s : list batch := (eworkers s ≫= ebatch) ++ (chans s ≫= cbatch) ++ (nworkers s ≫= nbatch).

Lemma occ_app x l l' : occ x (l ++ l') = occ x l + occ x l'.
Proof. unfold occ. rewrite count_occ_app. lia. Qed.
Lemma occ_bind {A} x (f : A → list batch) (l : list A) : occ x (l ≫= f) = Zsum_with (λ a, occ x (f a)) l.
Proof. induction l as [|a l IH]; [done|]. cbn. by rewrite occ_app, IH. Qed.

Definition Books s : Prop := ∀ x,
  occ x (popped s) = occ x (released s) + occ x (dropped s) + Zsum_with (λ k, occ x (ebatch k)) (eworkers s)
    + Zsum_with (λ c, occ x (cbatch c)) (chans s) + Zsum_with (λ k, occ x (nbatch k)) (nworkers s).

(** The books after a step: the sums change where a worker or a channel did. *)
Ltac balance HB :=
  let x := fresh "x" in
  intros x; specialize (HB x); fields;
  repeat (erewrite Zsum_insert by eassumption); rewrite ?occ_app, ?Zsum_with_app;
  cbn [ebatch cbatch nbatch buffer]; change (occ x []) with 0; try lia.

Lemma Books_perm s : Books s → popped s ≡ₚ released s ++ held s ++ dropped s.
Proof.
  intros HB. apply (Permutation_count_occ (decide_rel (=))). intros x. apply Nat2Z.inj.
  change (occ x (popped s) = occ x (released s ++ held s ++ dropped s)). unfold held. rewrite !occ_app, !occ_bind, HB. lia.
Qed.

Definition live (k : eworker) : bool := match k with EExited => false | _ => true end.
Definition ended (k : eworker) : bool := match k with EExiting | EExited => true | _ => false end.
Definition alive es : Z := Zsum_with (λ k, b2z (live k)) es.

Record Inv s : Prop := {
  inv_shape : Shape (eworkers s) (nworkers s) (chans s) (ctx_done s);
  inv_books : Books s;
  inv_count : Engine.taskWorkerCount (engine s) = alive (eworkers s);
  inv_outbox : outboxClosed (engine s) = true ↔ alive (eworkers s) = 0 ∧ eworkers s ≠ [];
  inv_dropped : len (dropped s) ≤ Zsum_with (λ k, b2z (ended k)) (eworkers s);
  inv_panic : panicked s = false;
  inv_rest : ∀ j k, nworkers s !! j = Some k →
    (k = NAwait None → outboxClosed (engine s) = true) ∧ (k = NExited → ctx_done s = true);
}.

Lemma alive_pos es i k : es !! i = Some k → live k = true → 0 < alive es.
Proof.
  revert i. unfold alive. induction es as [|k0 es IH]; intros [|i] E Hk; simplify_eq/=.
  - rewrite Hk. cbn. assert (0 ≤ Zsum_with (λ k, b2z (live k)) es) by (apply Zsum_with_nonneg; intros k1; by destruct (live k1)). lia.
  - specialize (IH i E Hk). destruct (live k0); cbn; lia.
Qed.

Lemma alive_worker es : 0 < alive es → ∃ i k, es !! i = Some k ∧ live k = true.
Proof.
  induction es as [|k es IH]; [done|]. intros Ha. destruct (live k) eqn:E; [by exists 0%nat, k|].
  destruct IH as (i & k' & Hi & Hk); [|by exists (S i), k'].
  unfold alive in Ha. cbn [Zsum_with foldr] in Ha. rewrite E in Ha. exact Ha.
Qed.

Lemma alive_insert es i k k' : es !! i = Some k → live k' = live k → alive (<[i := k']> es) = alive es.
Proof. intros Hi Hk. unfold alive. rewrite (Zsum_insert _ _ _ k) by done. rewrite Hk. lia. Qed.

Lemma insert_nonempty {A} (l : list A) i x : <[i := x]> l ≠ [] ↔ l ≠ [].
Proof. destruct l; [done|]. by destruct i. Qed.

(** A worker of the engine that goes on changes only the channels and the books. *)
Lemma Inv_e s s' i k k' :
  Inv s → eworkers s !! i = Some k → live k' = live k → eworkers s' = <[i := k']> (eworkers s) →
  (Engine.taskWorkerCount (engine s'), outboxClosed (engine s')) = (Engine.taskWorkerCount (engine s), outboxClosed (engine s)) →
  panicked s' = false → len (dropped s') + b2z (ended k) ≤ len (dropped s) + b2z (ended k') →
  Shape (eworkers s') (nworkers s') (chans s') (ctx_done s') → Books s' →
  (∀ j x, nworkers s' !! j = Some x → nworkers s !! j = Some x ∨ (x ≠ NAwait None ∧ x ≠ NExited)) →
  ctx_done s' = ctx_done s → Inv s'.
Proof.
  intros [H1 H2 H3 H4 H5 H6 H7] Hi Hl Ee [= Ec Eo] Hp Hd HS HB Hr Hc. split; [done|done| | | |done|].
  - by rewrite Ec, Ee, (alive_insert _ _ k).
  - by rewrite Eo, Ee, (alive_insert _ _ k), insert_nonempty.
  - rewrite Ee, (Zsum_insert _ _ _ k) by done. lia.
  - intros j x [E|[? ?]]%Hr; [|done]. rewrite Eo, Hc. by apply (H7 j).
Qed.

(** So does a worker of the node. *)
Lemma Inv_n s s' :
  Inv s → eworkers s' = eworkers s →
  (Engine.taskWorkerCount (engine s'), outboxClosed (engine s')) = (Engine.taskWorkerCount (engine s), outboxClosed (engine s)) →
  panicked s' = panicked s → dropped s' = dropped s →
  Shape (eworkers s') (nworkers s') (chans s') (ctx_done s') → Books s' →
  (∀ j k, nworkers s' !! j = Some k → nworkers s !! j = Some k ∨
     ((k = NAwait None → outboxClosed (engine s) = true) ∧ (k = NExited → ctx_done s = true))) →
  (ctx_done s = true → ctx_done s' = true) → Inv s'.
Proof.
  intros [H1 H2 H3 H4 H5 H6 H7] Ee [= Ec Eo] Hp Hd HS HB Hr Hc.
  split; [done|done|by rewrite Ec, Ee|by rewrite Eo, Ee|by rewrite Ee, Hd|congruence|].
  intros j k [E|E]%Hr; [destruct (H7 _ _ E)|]; rewrite Eo; naive_solver.
Qed.

Lemma only_j {P : nworker → Prop} ns j (k : nworker) :
  P k → ∀ j1 x, <[j := k]> ns !! j1 = Some x → ns !! j1 = Some x ∨ P x.
Proof. intros Hk j1 x [[_ ->]|[_ E]]%lookup_insert_inv; auto. Qed.

Lemma fixed_outbox (e e' : Engine B Q SL) :
  EngineRun.fixed e' = EngineRun.fixed e → (Engine.taskWorkerCount e', outboxClosed e') = (Engine.taskWorkerCount e, outboxClosed e).
Proof. by intros [= _ _ -> ->]. Qed.

Lemma take_ok i k ch e s :
  Inv s → eworkers s !! i = Some k → k = EPop ch ∨ k = EWait ch → EngineRun.fixed e = EngineRun.fixed (engine s) → Inv (take_tasks i ch e s).
Proof.
  intros HI Hi Hk Hf.
  assert (eid k = Some ch ∧ live k = true ∧ ended k = false ∧ ebatch k = []) as (K1 & K2 & K3 & K4) by by destruct Hk as [-> | ->].
  unfold take_tasks.
  assert (EngineRun.fixed (pop e).2 = EngineRun.fixed e) as Hp by (unfold pop; by destruct (PopTasks _ _)).
  destruct (pop e) as [[[p tasks] pending] e1]. cbn [snd] in Hp. pose proof HI as [H1 H2 H3 H4 H5 H6 H7].
  pose proof (fixed_outbox _ _ (eq_trans Hp Hf)) as Ho. destruct tasks as [|t tasks].
  - apply (Inv_e s _ i k (EWait ch)); [done|done|by rewrite K2|done|done|done|rewrite K3; cbn; lia|by eapply Shape_e| |by left|done].
    balance H2. rewrite K4. change (occ x []) with 0. lia.
  - apply (Inv_e s _ i k (EBuild ch p (t :: tasks) pending));
      [done|done|by rewrite K2|done|done|done|rewrite K3; cbn; lia|by eapply Shape_e| |by left|done].
    balance H2. rewrite K4. change (occ x []) with 0. lia.
Qed.

(** ** The steps *)

(** An offering or preparing worker is alive, so the outbox is open. *)
Lemma outbox_open s i k : Inv s → eworkers s !! i = Some k → live k = true → outboxClosed (engine s) = false.
Proof.
  intros HI Hi Hk. pose proof (alive_pos _ _ _ Hi Hk). destruct (outboxClosed (engine s)) eqn:E; [|done].
  apply (inv_outbox _ HI) in E. lia.
Qed.

Lemma outbox_hand_ok i j s s' : Inv s → hand i j s = Some s' → Inv s'.
Proof.
  intros HI. unfold hand. destruct (eworkers s !! i) as [k|] eqn:Hi; [cbn [mbind option_bind]|done].
  destruct (nworkers s !! j) as [k'|] eqn:Hj; [cbn [mbind option_bind]|done].
  destruct k; try done. destruct k'; try done. rewrite (outbox_open s i EOffer) by done. intros [= <-].
  apply (Inv_e s _ i EOffer (EPop (length (chans s)))); [done|done|done|done|done|apply (inv_panic _ HI)|fields; cbn; lia| | |by apply only_j|done].
  - eapply (Shape_hand _ _ _ _ i j EOffer NIdle); [done|done|done|done|apply (inv_shape _ HI)].
  - pose proof (inv_books _ HI) as HB. balance HB.
    change (Zsum_with (λ c, occ x (cbatch c)) [mkChan None false]) with 0. lia.
Qed.

Lemma offer_closed_ok i s : Inv s → offer_closed i s = None.
Proof.
  intros HI. unfold offer_closed. destruct (eworkers s !! i) as [[]|] eqn:Hi; try done. by rewrite (outbox_open s i EOffer).
Qed.

Lemma offer_quit_ok i s s' : Inv s → offer_quit i s = Some s' → Inv s'.
Proof.
  intros HI. unfold offer_quit. destruct (eworkers s !! i) as [[]|] eqn:Hi; try done.
  destruct (ctx_done s) eqn:Hd; [|done]. intros [= <-].
  apply (Inv_e s _ i EOffer EExiting); [done|done|done|done|done|apply (inv_panic _ HI)|fields; cbn; lia| | |by left|done].
  - by eapply Shape_e, (inv_shape _ HI).
  - pose proof (inv_books _ HI) as HB. balance HB.
Qed.

Lemma pop_ok i s s' :
  Inv s → pop_step i s = Some s' ∨ wake_signal i s = Some s' ∨ wake_tick i s = Some s' → Inv s'.
Proof.
  intros HI. unfold pop_step, wake_signal, wake_tick.
  destruct (eworkers s !! i) as [[]|] eqn:Hi; intros [H|[H|H]]; try done.
  - injection H as <-. eapply take_ok; eauto.
  - destruct (workSignal (engine s)); [|done]. injection H as <-. eapply take_ok; eauto.
  - injection H as <-. eapply take_ok; eauto.
Qed.

(** The channel of a preparing worker, once it is closed. *)
Lemma close_prep ch s : chans s !! ch = Some (mkChan None false) → close_chan ch s = set_chans (<[ch := mkChan None true]> (chans s)) s.
Proof. intros E. unfold close_chan. by rewrite E. Qed.
Lemma put_prep ch env s :
  chans s !! ch = Some (mkChan None false) →
  close_chan ch (put_chan ch env s) = set_chans (<[ch := mkChan (Some env) true]> (chans s)) s.
Proof.
  intros E. unfold close_chan, put_chan. rewrite E. cbn [closed]. fields. rewrite (insert_here _ _ _ _ E). cbn [closed buffer].
  fields. by rewrite list_insert_insert_eq.
Qed.

Lemma done_ok i s s' : Inv s → wake_done i s = Some s' → Inv s'.
Proof.
  intros HI. unfold wake_done. destruct (eworkers s !! i) as [k|] eqn:Hi; [|done]. destruct k as [| |ch| | |]; try done.
  destruct (ctx_done s) eqn:Hd; [|done]. intros [= <-].
  pose proof (sh_prep _ _ _ _ (inv_shape _ HI) i _ ch Hi eq_refl) as Hch. rewrite (close_prep _ _ Hch).
  apply (Inv_e s _ i (EWait ch) EExiting); [done|done|done|done|done|apply (inv_panic _ HI)|fields; cbn; lia| | |by left|done].
  - eapply Shape_finish; [exact Hi|done|done|apply (inv_shape _ HI)].
  - pose proof (inv_books _ HI) as HB. balance HB.
Qed.

Lemma build_ok f i s s' : Inv s → build_step f i s = Some s' → Inv s'.
Proof.
  intros HI. unfold build_step. destruct (eworkers s !! i) as [k|] eqn:Hi; [|done]. destruct k as [| | |ch p tasks pending| |]; try done.
  pose proof (sh_prep _ _ _ _ (inv_shape _ HI) i _ ch Hi eq_refl) as Hch. pose proof (inv_books _ HI) as HB.
  destruct (buildMessage f p tasks pending (engine s)) as [msg|e]; [destruct (Message.Empty msg)|]; intros [= <-].
  - apply (Inv_e s _ i (EBuild ch p tasks pending) (EPop ch)); [done|done|done|done|done|apply (inv_panic _ HI)|fields; cbn; lia| | |by left|done].
    + by eapply Shape_e, (inv_shape _ HI).
    + balance HB.
  - rewrite (put_prep _ _ _ Hch).
    apply (Inv_e s _ i (EBuild ch p tasks pending) EOffer); [done|done|done|done|done|apply (inv_panic _ HI)|fields; cbn; lia| | |by left|done].
    + eapply Shape_finish; [exact Hi|done|done|apply (inv_shape _ HI)].
    + balance HB. unfold batch_of. cbn. lia.
  - rewrite (close_prep ch (drop_batch (p, tasks) s) Hch).
    apply (Inv_e s _ i (EBuild ch p tasks pending) EExiting); [done|done|done|done|done|apply (inv_panic _ HI)| | | |by left|done].
    + fields. unfold len. rewrite length_app. cbn. lia.
    + eapply Shape_finish; [exact Hi|done|done|apply (inv_shape _ HI)].
    + balance HB.
Qed.

Lemma exit_ok i s s' : Inv s → exit_step i s = Some s' → Inv s'.
Proof.
  intros HI. unfold exit_step. destruct (eworkers s !! i) as [k|] eqn:Hi; [|done]. destruct k; try done.
  rewrite (outbox_open s i EExiting) by done. rewrite andb_false_r. intros [= <-].
  pose proof HI as [H1 H2 H3 H4 H5 H6 H7]. pose proof (alive_pos _ _ _ Hi eq_refl) as Hpos.
  assert (alive (<[i := EExited]> (eworkers s)) = alive (eworkers s) - 1) as Ea.
  { unfold alive. rewrite (Zsum_insert _ _ _ EExiting) by done. cbn. lia. }
  split.
  - by eapply Shape_e.
  - balance H2.
  - fields. rewrite Ea, <- H3. done.
  - fields. rewrite Ea, insert_nonempty. unfold engine. cbn [Bitswap.engine Bitswap.set_engine taskWorkerExit outboxClosed set_e set_engine set_node node].
    fold (engine s). rewrite H3, (outbox_open s i EExiting) by done.
    assert (eworkers s ≠ []) by (intros E; by rewrite E in Hi).
    destruct (Z.eqb_spec (alive (eworkers s) - 1) 0); split; [done|done|done|by intros []].
  - fields. rewrite (Zsum_insert _ _ _ EExiting) by done. cbn [ended b2z]. lia.
  - done.
  - intros j k E. destruct (H7 j k E) as [G1 G2]. split; [|done]. intros Hk. specialize (G1 Hk).
    by rewrite (outbox_open s i EExiting) in G1.
Qed.

Lemma ended_ok j s s' : Inv s → outbox_ended j s = Some s' → Inv s'.
Proof.
  intros HI. unfold outbox_ended. destruct (nworkers s !! j) as [k|] eqn:Hj; [|done]. destruct k; try done.
  destruct (outboxClosed (engine s)) eqn:Eo; [|done]. intros [= <-]. pose proof (inv_books _ HI) as HB.
  apply (Inv_n s); [done|done|done|done|done| |balance HB|by apply only_j|done].
  eapply Shape_n; [exact Hj|done|right; done|apply (inv_shape _ HI)].
Qed.

Lemma receive_ok j s s' : Inv s → receive j s = Some s' → Inv s'.
Proof.
  intros HI. unfold receive. destruct (nworkers s !! j) as [k|] eqn:Hj; [|done]. destruct k as [|[ch|]| | |]; try done.
  destruct (chans s !! ch) as [c|] eqn:Hch; [cbn [mbind option_bind]|done]. pose proof (inv_books _ HI) as HB.
  destruct (buffer c) as [env|] eqn:Eb.
  - intros [= <-]. apply (Inv_n s); [done|done|done|done|done| | |by apply only_j|done].
    + eapply (Shape_receive _ _ _ _ j (NAwait (Some ch))); [exact Hj|done|done|done|by rewrite Eb|apply (inv_shape _ HI)].
    + balance HB. unfold cbatch in *. rewrite Eb. lia.
  - destruct (closed c) eqn:Ec; [|done]. intros [= <-]. apply (Inv_n s); [done|done|done|done|done| |balance HB|by apply only_j|done].
    eapply Shape_n; [exact Hj|done| |apply (inv_shape _ HI)]. right. intros ch1 [= <-]. change (chans s !! ch = Some (mkChan None true)). rewrite Hch.
    destruct c as [o b]. cbn in Eb, Ec. by subst.
Qed.

Lemma sent_ok j s s' : Inv s → message_sent j s = Some s' → Inv s'.
Proof.
  intros HI. unfold message_sent. destruct (nworkers s !! j) as [k|] eqn:Hj; [|done]. destruct k; try done.
  intros [= <-]. pose proof (inv_books _ HI) as HB.
  apply (Inv_n s); [done|done|apply fixed_outbox, EngineRun.MessageSent_fixed|done|done| |balance HB|by apply only_j|done].
  eapply Shape_n; [exact Hj|done|right; done|apply (inv_shape _ HI)].
Qed.

Lemma outbox_send_ok ok j s s' : Inv s → send_step ok j s = Some s' → Inv s'.
Proof.
  intros HI. unfold send_step. destruct (nworkers s !! j) as [k|] eqn:Hj; [|done]. destruct k; try done.
  intros [= <-]. pose proof (inv_books _ HI) as HB.
  apply (Inv_n s); [done|done|by destruct ok|done|done| |balance HB|by apply only_j|done].
  eapply Shape_n; [exact Hj|done|right; done|apply (inv_shape _ HI)].
Qed.

Lemma quit_ok j s s' : Inv s → quit j s = Some s' → Inv s'.
Proof.
  intros HI. unfold quit. destruct (nworkers s !! j) as [k|] eqn:Hj; [|done].
  assert (Inv s → nbatch k = [] → ctx_done s = true → Inv (set_n j NExited s)) as H.
  { intros _ Hb Hd. pose proof (inv_books _ HI) as HB. apply (Inv_n s); [done|done|done|done|done| | |by apply only_j|done].
    - eapply Shape_n; [exact Hj|done|by left|apply (inv_shape _ HI)].
    - balance HB. rewrite Hb. change (occ x []) with 0. lia. }
  destruct k; try done; destruct (ctx_done s); try done; intros [= <-]; by apply H.
Qed.

Lemma handler_fixed (e e' : Engine B Q SL) : handler e e' → EngineRun.fixed e' = EngineRun.fixed e.
Proof.
  destruct 1; [apply EngineRun.MessageReceived_fixed|apply EngineRun.ReceiveFrom_fixed|apply EngineRun.PeerConnected_fixed
    |apply EngineRun.PeerDisconnected_fixed|apply EngineRun.WantlistForPeer_fixed].
Qed.

Lemma outbox_istep_ok s s' : istep s s' → Inv s → Inv s'.
Proof.
  destruct 1 as [i j s s' H|i s s' H|i s s' H|i s s' H|i s s' H|i s s' H|f i s s' H|i s s' H|j s s' H|j s s' H|j s s' H|ok j s s' H|j s s' H];
    intros HI.
  - by eapply outbox_hand_ok.
  - by rewrite offer_closed_ok in H.
  - by eapply offer_quit_ok.
  - eapply pop_ok; eauto.
  - eapply pop_ok; eauto.
  - by eapply done_ok.
  - by eapply build_ok.
  - by eapply exit_ok.
  - by eapply ended_ok.
  - by eapply receive_ok.
  - by eapply sent_ok.
  - by eapply outbox_send_ok.
  - by eapply quit_ok.
Qed.

Lemma step_ok s s' : step s s' → Inv s → Inv s'.
Proof.
  destruct 1 as [s s' H|i s s' H|s|e s H|n s H|x s]; intros HI; pose proof (inv_books _ HI) as HB; pose proof (inv_shape _ HI) as HS.
  - by eapply outbox_istep_ok.
  - eapply pop_ok; eauto.
  - apply (Inv_n s); try done; [by eapply Shape_done|by left].
  - apply (Inv_n s); try done; [by apply fixed_outbox, handler_fixed|by left].
  - apply (Inv_n s); try done; [change (engine (set_node n s)) with (Bitswap.engine n); by rewrite H|by left].
  - apply (Inv_n s); try done. by left.
Qed.

Lemma pipe_reachable s s' : rtc step s s' → Inv s → Inv s'.
Proof. induction 1 as [|s1 s2 s3 Hs _ IH]; [done|]. intros HI. apply IH. by eapply step_ok. Qed.

Lemma outbox_Inv_start m (n : Bitswap.Bitswap B Q SL) :
  0 < Engine.taskWorkerCount (Bitswap.engine n) → outboxClosed (Bitswap.engine n) = false → Inv (StartWorkers m n).
Proof.
  intros Hn Ho. set (N := Z.to_nat (Engine.taskWorkerCount (Bitswap.engine n))).
  assert (∀ N, alive (replicate N EOffer) = Z.of_nat N) as Ha.
  { unfold alive. intros N0. induction N0 as [|N0 IH]; [done|]. cbn [replicate Zsum_with foldr live b2z]. unfold Zsum_with in IH. lia. }
  split; fields.
  - split; cbn; [|intros i i' k k' ch|done| |intros j j' k k' ch|done].
    + by intros i k ch [-> _]%lookup_replicate.
    + by intros [-> _]%lookup_replicate.
    + by intros j k ch [-> _]%lookup_replicate.
    + by intros [-> _]%lookup_replicate.
  - intros x. unfold StartWorkers. fields. by rewrite !Zsum_replicate_0.
  - unfold StartWorkers, engine. fields. rewrite Ha. lia.
  - unfold StartWorkers, engine. fields. rewrite Ha, Ho. split; [done|]. intros [E _]. lia.
  - unfold StartWorkers. fields. by rewrite Zsum_replicate_0.
  - done.
  - by intros j k [-> _]%lookup_replicate.
Qed.

(** ** Back pressure *)

(** Messages that are prepared and not through yet. *)
Definition in_flight s : list batch := (chans s ≫= cbatch) ++ (nworkers s ≫= nbatch).

Lemma count_le (P : channel → bool) cs (L : list nat) :
  (∀ ch c, cs !! ch = Some c → P c = true → ch ∈ L) → Zsum_with (λ c, b2z (P c)) cs ≤ len L.
Proof.
  revert L. induction cs as [|c cs IH] using rev_ind; intros L HL; [apply len_nonneg|].
  rewrite Zsum_with_app. change (Zsum_with _ [c]) with (b2z (P c) + 0).
  assert (∀ ch c', cs !! ch = Some c' → P c' = true → ch ∈ L ∧ ch ≠ length cs) as Hold.
  { intros ch c' E Hc. split; [eapply HL, Hc; by apply lookup_app_l_Some|]. apply lookup_lt_Some in E. lia. }
  destruct (P c) eqn:Ec; cbn [b2z].
  - assert (length cs ∈ L) as (L1 & L2 & ->)%list_elem_of_split.
    { apply (HL (length cs) c); [|done]. by rewrite lookup_app_r, Nat.sub_diag by lia. }
    assert (Zsum_with (λ c, b2z (P c)) cs ≤ len (L1 ++ L2)) as H.
    { apply IH. intros ch c' E Hc. destruct (Hold ch c' E Hc) as [H Hne]. set_solver. }
    unfold len in *. rewrite !length_app in *. cbn. lia.
  - specialize (IH L ltac:(naive_solver)). lia.
Qed.

Lemma awaiting_or_sending ns : len (omap nid ns) + len (ns ≫= nbatch) ≤ len ns.
Proof.
  unfold len. induction ns as [|k ns IH]; [done|]. cbn. rewrite length_app.
  destruct k as [|[ch|]| | |]; cbn in *; lia.
Qed.

Lemma in_flight_bound s : Inv s → ctx_done s = false → len (in_flight s) ≤ len (nworkers s).
Proof.
  intros HI Hd. pose proof (awaiting_or_sending (nworkers s)). unfold in_flight, len in *. rewrite length_app.
  set (P := λ c : channel, match buffer c with Some _ => true | None => false end).
  assert (Z.of_nat (length (chans s ≫= cbatch)) = Zsum_with (λ c, b2z (P c)) (chans s)) as E.
  { generalize (chans s). intros cs. induction cs as [|c cs IH]; [done|]. cbn. rewrite length_app, Nat2Z.inj_add, IH.
    unfold cbatch, P, Zsum_with. by destruct (buffer c). }
  assert (Zsum_with (λ c, b2z (P c)) (chans s) ≤ len (omap nid (nworkers s))) as Hc; [|unfold len in Hc; lia].
  apply count_le. intros ch c Ech Hc.
  destruct (sh_taken _ _ _ _ (inv_shape _ HI) Hd ch c Ech) as (j & k & Ej & Ek).
  - right. unfold P in Hc. by destruct (buffer c).
  - apply list_elem_of_omap. exists k. split; [by eapply list_elem_of_lookup_2|done].
Qed.

(** ** Progress *)

Lemma bind_nil {A} (f : A → list batch) (l : list A) : (∀ i x, l !! i = Some x → f x = []) → l ≫= f = [].
Proof.
  intros H. induction l as [|x l IH]; [done|]. cbn. rewrite (H 0%nat x eq_refl), IH; [done|]. intros i. apply (H (S i)).
Qed.

Section rest.
Context (s : pipe B Q SL) (HI : Inv s) (Hd : ctx_done s = false) (Hrest : ∀ s', ¬ istep s s').

Lemma rest_e i k : eworkers s !! i = Some k → k = EOffer ∨ (∃ ch, k = EWait ch) ∨ k = EExited.
Proof using Hrest.
  intros Hi. destruct k as [|ch|ch|ch p tasks pending| |]; [by left| |by right; left; eexists| | |by right; right]; exfalso.
  - eapply Hrest, (i_pop i). unfold pop_step. by rewrite Hi.
  - destruct (build_step None i s) as [s'|] eqn:E; [by eapply Hrest, i_build|]. unfold build_step in E. rewrite Hi in E.
    by repeat case_match.
  - eapply Hrest, (i_exit i). unfold exit_step. by rewrite Hi.
Qed.

Lemma rest_n j k : nworkers s !! j = Some k →
  (k = NIdle ∧ outboxClosed (engine s) = false) ∨
  (∃ ch, k = NAwait (Some ch) ∧ chans s !! ch = Some (mkChan None false)) ∨ (k = NAwait None ∧ outboxClosed (engine s) = true).
Proof using HI Hd Hrest.
  intros Hj. pose proof (inv_rest _ HI j k Hj) as [R1 R2]. destruct k as [|[ch|]|env|env|].
  - left. split; [done|]. destruct (outboxClosed (engine s)) eqn:E; [|done]. exfalso.
    eapply Hrest, (i_ended j). unfold outbox_ended. by rewrite Hj, E.
  - right. left. exists ch. split; [done|].
    destruct (sh_await _ _ _ _ (inv_shape _ HI) j _ ch Hj eq_refl) as [[o b] Hc].
    destruct (receive j s) as [s'|] eqn:E; [by exfalso; eapply Hrest, i_receive|]. unfold receive in E. rewrite Hj in E.
    change (chans s !! ch = Some (mkChan o b)) in Hc. rewrite Hc in E. cbn in E. by destruct o, b.
  - right. right. auto.
  - exfalso. eapply Hrest, (i_sent j). unfold message_sent. by rewrite Hj.
  - exfalso. eapply Hrest, (i_send true j). unfold send_step. by rewrite Hj.
  - by rewrite R2 in Hd.
Qed.

Lemma rest_held : held s = [].
Proof using HI Hd Hrest.
  unfold held. rewrite !bind_nil; [done| | |].
  - intros j k Hj. by destruct (rest_n j k Hj) as [[-> _]|[(ch & -> & _)|[-> _]]].
  - intros ch c Hc. unfold cbatch. destruct (buffer c) as [env|] eqn:Eb; [|done]. exfalso.
    destruct (sh_taken _ _ _ _ (inv_shape _ HI) Hd ch c Hc) as (j & k & Hj & Hk); [rewrite Eb; eauto|].
    destruct (rest_n j k Hj) as [[-> _]|[(ch' & -> & Hc')|[-> _]]]; [done| |done].
    injection Hk as ->. change (chans s !! ch = Some c) in Hc. rewrite Hc in Hc'. by simplify_eq.
  - intros i k Hi. by destruct (rest_e i k Hi) as [->|[[ch ->]| ->]].
Qed.

Lemma rest_waits i k : eworkers s !! i = Some k → live k = true → nworkers s ≠ [] →
  ∃ i' ch, eworkers s !! i' = Some (EWait ch).
Proof using HI Hd Hrest.
  intros Hi Hl Hn. destruct (rest_e i k Hi) as [->|[[ch ->]| ->]]; [|by eauto|done].
  pose proof (outbox_open s i EOffer HI Hi eq_refl) as Ho.
  destruct (nworkers s) as [|k0 ns] eqn:En; [done|]. assert (nworkers s !! 0%nat = Some k0) as Hj by by rewrite En.
  destruct (rest_n 0%nat k0 Hj) as [[-> _]|[(ch & -> & Hc)|[-> E]]]; [| |congruence].
  - exfalso. eapply Hrest, (i_hand i 0). unfold hand. rewrite Hi, Hj. cbn. by rewrite Ho.
  - destruct (sh_open _ _ _ _ (inv_shape _ HI) ch _ Hc eq_refl) as (i' & k' & Hi' & Hk').
    destruct (rest_e i' k' Hi') as [->|[[ch' ->]| ->]]; [done|by eauto|done].
Qed.

Lemma rest_signal i ch : eworkers s !! i = Some (EWait ch) → workSignal (engine s) = false.
Proof using Hrest.
  intros Hi. destruct (workSignal (engine s)) eqn:E; [|done]. exfalso.
  eapply Hrest, (i_signal i). unfold wake_signal. by rewrite Hi, E.
Qed.
End rest.

(** ** One worker by itself *)

(** What [PopTasks] gave to worker [i]. *)
Definition got i ch (b : PeerID * list Task * Z) s : pipe B Q SL :=
  match b.1.2 with
  | [] => set_e i (EWait ch) s
  | _ :: _ => set_e i (EBuild ch b.1.1 b.1.2 b.2) (pop_batch b.1 s)
  end.
Lemma take_got i ch e s : take_tasks i ch e s = got i ch (pop e).1 (set_engine (pop e).2 s).
Proof. unfold take_tasks, got. destruct (pop e) as [[[p ts] n] e1]. cbn [fst snd]. by destruct ts. Qed.
Lemma got_fields i ch b s :
  engine (got i ch b s) = engine s ∧ chans (got i ch b s) = chans s ∧ length (eworkers (got i ch b s)) = length (eworkers s).
Proof. unfold got. destruct (b.1.2); fields; by rewrite length_insert. Qed.

Lemma wait_run i ch ws ws' (b b' : PeerID * list Task * Z) e' s :
  (i < length (eworkers s))%nat → waitForTasks ws b (engine s) = (e', ws', Some (Ok b')) →
  ∃ s', rtc step (got i ch b s) s' ∧ engine s' = e' ∧ chans s' = chans s ∧
    length (eworkers s') = length (eworkers s) ∧ eworkers s' !! i = Some (EBuild ch b'.1.1 b'.1.2 b'.2).
Proof.
  revert b s. induction ws as [|w ws IH]; intros b s Hi; cbn [waitForTasks].
  { destruct (b.1.2) as [|t ts] eqn:Eb; [done|]. intros [= <- <- <-]. exists (got i ch b s).
    destruct (got_fields i ch b s) as (E1 & E2 & E3). split_and!; [done..|].
    unfold got. rewrite Eb. apply list_lookup_insert_eq. done. }
  destruct (b.1.2) as [|t ts] eqn:Eb.
  2:{ intros [= <- <- <-]. exists (got i ch b s). destruct (got_fields i ch b s) as (E1 & E2 & E3). split_and!; [done..|].
      unfold got. rewrite Eb. apply list_lookup_insert_eq. done. }
  assert (got i ch b s = set_e i (EWait ch) s) as Eg by (unfold got; by rewrite Eb).
  assert (eworkers (set_e i (EWait ch) s) !! i = Some (EWait ch)) as Hw by by apply list_lookup_insert_eq.
  assert (∀ e0, (∃ s', step (set_e i (EWait ch) s) s' ∧ s' = take_tasks i ch e0 (set_e i (EWait ch) s)) →
    (let '(b1, e1) := pop e0 in waitForTasks ws b1 e1) = (e', ws', Some (Ok b')) →
    ∃ s', rtc step (got i ch b s) s' ∧ engine s' = e' ∧ chans s' = chans s ∧
      length (eworkers s') = length (eworkers s) ∧ eworkers s' !! i = Some (EBuild ch b'.1.1 b'.1.2 b'.2)) as Hgo.
  { intros e0 (s1 & Hs & ->) Hrun. rewrite take_got in Hs. destruct (pop e0) as [b1 e1]. cbn [fst snd] in Hs.
    destruct (IH b1 (set_engine e1 (set_e i (EWait ch) s))) as (s' & R1 & R2 & R3 & R4 & R5); [|done|].
    - fields. by rewrite length_insert.
    - exists s'. rewrite Eg. split; [by eapply rtc_l|]. split_and!; [done|done| |done]. rewrite R4. fields. by rewrite length_insert. }
  destruct w; [|..].
  - destruct (workSignal (engine s)) eqn:Es.
    + apply Hgo. eexists. split; [|done]. apply st_worker, (i_signal i). unfold wake_signal. rewrite Hw.
      change (engine (set_e i (EWait ch) s)) with (engine s). by rewrite Es.
    + by apply IH.
  - apply Hgo. eexists. split; [|done]. apply (st_tick i). unfold wake_tick. by rewrite Hw.
  - done.
Qed.

(** A worker left to itself does what [nextEnvelope] says. *)
Lemma nextEnvelope_run fuel i ch faults ws e' env s :
  eworkers s !! i = Some (EPop ch) → chans s !! ch = Some (mkChan None false) →
  nextEnvelope fuel faults ws (engine s) = (e', Some (Ok env)) →
  ∃ s', rtc step s s' ∧ engine s' = e' ∧ eworkers s' !! i = Some EOffer ∧ chans s' !! ch = Some (mkChan (Some env) true).
Proof.
  revert faults ws s. induction fuel as [|fuel IH]; intros faults ws s Hi Hch; cbn [nextEnvelope]; [done|].
  destruct (pop (engine s)) as [b e1] eqn:Ep.
  assert (step s (got i ch b (set_engine e1 s))) as Hs.
  { apply st_worker, (i_pop i). unfold pop_step. rewrite Hi, take_got. by rewrite Ep. }
  destruct (waitForTasks ws b e1) as [[e2 ws'] r] eqn:Ew. destruct r as [[[[p tasks] pending]|err]|]; [|done..].
  destruct (wait_run i ch ws ws' b (p, tasks, pending) e2 (set_engine e1 s)) as (s2 & R1 & R2 & R3 & R4 & R5); [|done|].
  { by eapply lookup_lt_Some. }
  cbn [fst snd] in R5. assert (chans s2 !! ch = Some (mkChan None false)) as Hch2 by by rewrite R3.
  destruct (buildMessage _ p tasks pending e2) as [msg|err] eqn:Eb; [|done].
  destruct (Message.Empty msg) eqn:Ee.
  - intros Hn. set (s3 := set_e i (EPop ch) (release (p, tasks)
      (set_engine (set_queue (TasksDone p tasks (peerRequestQueue (engine s2))) (engine s2)) s2))).
    assert (step s2 s3) as Hs3.
    { apply st_worker, (i_build (default None (head faults)) i). unfold build_step. rewrite R5, R2, Eb, Ee. unfold s3. by rewrite R2. }
    destruct (IH (tail faults) ws' s3) as (s' & G1 & G2 & G3 & G4); [|done|change (engine s3) with (set_queue (TasksDone p tasks (peerRequestQueue (engine s2))) (engine s2)); by rewrite R2|].
    { unfold s3. fields. apply list_lookup_insert_eq. by eapply lookup_lt_Some. }
    exists s'. split; [|done]. eapply rtc_l; [done|]. etrans; [done|]. by eapply rtc_l.
  - intros [= <- <-]. eexists. split.
    { eapply rtc_l; [done|]. etrans; [done|]. apply rtc_once, st_worker, (i_build (default None (head faults)) i).
      unfold build_step. by rewrite R5, R2, Eb, Ee. }
    rewrite (put_prep _ _ _ Hch2). split_and!; [by rewrite <- R2| |].
    + apply list_lookup_insert_eq. by eapply lookup_lt_Some.
    + fields. by eapply insert_here.
Qed.

Lemma length_take_tasks i ch e s : length (nworkers (take_tasks i ch e s)) = length (nworkers s).
Proof. rewrite take_got. unfold got. by destruct (pop e).1.1.2. Qed.
Lemma close_chan_nworkers ch s : nworkers (close_chan ch s) = nworkers s.
Proof. unfold close_chan. by repeat case_match. Qed.
Lemma put_chan_nworkers ch env s : nworkers (put_chan ch env s) = nworkers s.
Proof. unfold put_chan. by repeat case_match. Qed.

Lemma length_nworkers s s' : step s s' → length (nworkers s') = length (nworkers s).
Proof.
  destruct 1 as [s s' H|i s s' H|s|e s H|n s H|x s]; [|unfold wake_tick in H|done..].
  - destruct H as [i j s s' H|i s s' H|i s s' H|i s s' H|i s s' H|i s s' H|f i s s' H|i s s' H|j s s' H|j s s' H|j s s' H|ok j s s' H|j s s' H];
      unfold hand, offer_closed, offer_quit, pop_step, wake_signal, wake_done, build_step, exit_step, outbox_ended, receive,
        message_sent, send_step, quit in H;
      repeat first [progress simplify_option_eq | case_match];
      rewrite ?length_take_tasks; fields; rewrite ?close_chan_nworkers, ?put_chan_nworkers; by rewrite ?length_insert.
  - repeat (case_match; try done). simplify_eq. by rewrite length_take_tasks.
Qed.
Lemma nworkers_reachable s s' : rtc step s s' → length (nworkers s') = length (nworkers s).
Proof. induction 1 as [|s1 s2 s3 Hs _ IH]; [done|]. by rewrite IH, (length_nworkers _ _ Hs). Qed.
End facts.
End OutboxFacts.
