(* ===== verification/Startup.v ===== *)
(** * Options and start of a node
      (src/bitswap.go: Option, New; src/internal/defaults; src/tracer.go; the tags of
       src/internal/decision/engine.go)

    An option is the call of its Go function, which panics on a bad count; the
    options are applied in order to the defaults, and the node starts with the
    worker counts that result. *)
From S2P Require Import Prelude Auth Message Ledger ScoreLedger TaskMerger BlockstoreManager BlockstorePool BlockstorePoolFacts.
From S2P Require Import Engine PeerManager SessionManager Bitswap BitswapFacts Outbox OutboxFacts.
Set Default Goal Selector "1".
Open Scope Z_scope.

Module Defaults.
Definition ProvideTimeout : Duration := 3 * 60 * 10 ^ 9.
Definition ProvSearchDelay : Duration := 10 ^ 9.
Definition BitswapEngineBlockstoreWorkerCount : Z := 128.
Definition BitswapTaskWorkerCount : Z := 8.
Definition BitswapEngineTaskWorkerCount : Z := 8.
Definition BitswapMaxOutstandingBytesPerPeer : Z := 2 ^ 20.
End Defaults.

(** ** Tags of the connection manager (src/internal/decision/engine.go)

    The two tags of an engine carry a random part each. *)
Module Tags.
Inductive tag_event :=
| TagPeer (p : PeerID) (tag : string) (weight : Z)
| UntagPeer (p : PeerID) (tag : string).

Section tags.
Context (tagQueued tagUseful : string).
(** The hooks of the request queue. *)
Definition onPeerAdded (p : PeerID) : tag_event := TagPeer p tagQueued Engine.queuedTagWeight.
Definition onPeerRemoved (p : PeerID) : tag_event := UntagPeer p tagQueued.
(** The callback that [startScoreLedger] gives to the score ledger. *)
Definition startScoreLedger (p : PeerID) (score : Z) : tag_event :=
  if score =? 0 then UntagPeer p tagUseful else TagPeer p tagUseful score.

(** After a round of the score worker, the peers that are tagged as useful, or
    tagged no longer, are exactly those whose score changed. *)
Lemma round_tags `{GO : GoRuntime} now s (d : Score.DefaultScoreLedger) p n :
  Score.wf d → n ≠ 0 →
  let evs := (λ u, startScoreLedger u.1 u.2) <$> (Score.scoreWorker_tick now s d).2 in
  let changed m := ∃ l, Score.ledgerMap d !! p = Some l ∧ m = Score.score (Score.sampled s l) ∧ m ≠ Score.score l in
  (TagPeer p tagUseful n ∈ evs ↔ changed n) ∧ (UntagPeer p tagUseful ∈ evs ↔ changed 0).
Proof.
  intros Hd Hn evs changed. assert (∀ m, (p, m) ∈ (Score.scoreWorker_tick now s d).2 ↔ changed m) as H.
  { intros m. by apply Score.tick_updates. }
  unfold evs. rewrite <- !H, !list_elem_of_fmap. unfold startScoreLedger. split; split.
  - intros ([q m] & E & Hin). cbn in E. destruct (Z.eqb_spec m 0); by simplify_eq.
  - intros Hin. exists (p, n). split; [|done]. cbn. by rewrite (proj2 (Z.eqb_neq _ _)).
  - intros ([q m] & E & Hin). cbn in E. destruct (Z.eqb_spec m 0); by simplify_eq.
  - intros Hin. by exists (p, 0).
Qed.
End tags.
End Tags.

Module Startup.
Section startup.
Context {CL : CidLib} {GO : GoRuntime} {BL : BlockLib}.
Context {B : Type} {BS : Blockstore B} {Q : Type} {PTQ : PeerTaskQueue Q} {SL : Type} {SLI : ScoreLedger SL}.

(** The fields of [Bitswap] that options set; a [delay.D] is given by its delay. *)
Record config := mkConfig {
  provideEnabled : bool;
  provSearchDelay : Duration;
  rebroadcastDelay : Duration;
  engineBstoreWorkerCount : Z;
  engineTaskWorkerCount : Z;
  taskWorkerCount : Z;
  engineMaxOutstandingBytesPerPeer : Z;
  engineSetSendDontHaves : bool;
  engineScoreLedger : option SL;
  simulateDontHavesOnTimeout : bool;
  tracer : bool;
}.

Definition default_config : config :=
  mkConfig true Defaults.ProvSearchDelay (60 * 10 ^ 9) Defaults.BitswapEngineBlockstoreWorkerCount
    Defaults.BitswapEngineTaskWorkerCount Defaults.BitswapTaskWorkerCount Defaults.BitswapMaxOutstandingBytesPerPeer
    true None true false.

Definition Option : Type := config → config.
Implicit Types (c : config).

Definition ProvideEnabled (enabled : bool) : Option := λ c,
  mkConfig enabled (provSearchDelay c) (rebroadcastDelay c) (engineBstoreWorkerCount c) (engineTaskWorkerCount c) (taskWorkerCount c)
    (engineMaxOutstandingBytesPerPeer c) (engineSetSendDontHaves c) (engineScoreLedger c) (simulateDontHavesOnTimeout c) (tracer c).
Definition ProviderSearchDelay (d : Duration) : Option := λ c,
  mkConfig (provideEnabled c) d (rebroadcastDelay c) (engineBstoreWorkerCount c) (engineTaskWorkerCount c) (taskWorkerCount c)
    (engineMaxOutstandingBytesPerPeer c) (engineSetSendDontHaves c) (engineScoreLedger c) (simulateDontHavesOnTimeout c) (tracer c).
Definition RebroadcastDelay (d : Duration) : Option := λ c,
  mkConfig (provideEnabled c) (provSearchDelay c) d (engineBstoreWorkerCount c) (engineTaskWorkerCount c) (taskWorkerCount c)
    (engineMaxOutstandingBytesPerPeer c) (engineSetSendDontHaves c) (engineScoreLedger c) (simulateDontHavesOnTimeout c) (tracer c).
Definition EngineBlockstoreWorkerCount (count : Z) : option Option :=
  if count <=? 0 then None
  else Some (λ c,
    mkConfig (provideEnabled c) (provSearchDelay c) (rebroadcastDelay c) count (engineTaskWorkerCount c) (taskWorkerCount c)
      (engineMaxOutstandingBytesPerPeer c) (engineSetSendDontHaves c) (engineScoreLedger c) (simulateDontHavesOnTimeout c) (tracer c)).
Definition EngineTaskWorkerCount (count : Z) : option Option :=
  if count <=? 0 then None
  else Some (λ c,
    mkConfig (provideEnabled c) (provSearchDelay c) (rebroadcastDelay c) (engineBstoreWorkerCount c) count (taskWorkerCount c)
      (engineMaxOutstandingBytesPerPeer c) (engineSetSendDontHaves c) (engineScoreLedger c) (simulateDontHavesOnTimeout c) (tracer c)).
Definition TaskWorkerCount (count : Z) : option Option :=
  if count <=? 0 then None
  else Some (λ c,
    mkConfig (provideEnabled c) (provSearchDelay c) (rebroadcastDelay c) (engineBstoreWorkerCount c) (engineTaskWorkerCount c) count
      (engineMaxOutstandingBytesPerPeer c) (engineSetSendDontHaves c) (engineScoreLedger c) (simulateDontHavesOnTimeout c) (tracer c)).
Definition MaxOutstandingBytesPerPeer (count : Z) : option Option :=
  if count <? 0 then None
  else Some (λ c,
    mkConfig (provideEnabled c) (provSearchDelay c) (rebroadcastDelay c) (engineBstoreWorkerCount c) (engineTaskWorkerCount c)
      (taskWorkerCount c) count (engineSetSendDontHaves c) (engineScoreLedger c) (simulateDontHavesOnTimeout c) (tracer c)).
Definition SetSendDontHaves (send : bool) : Option := λ c,
  mkConfig (provideEnabled c) (provSearchDelay c) (rebroadcastDelay c) (engineBstoreWorkerCount c) (engineTaskWorkerCount c)
    (taskWorkerCount c) (engineMaxOutstandingBytesPerPeer c) send (engineScoreLedger c) (simulateDontHavesOnTimeout c) (tracer c).
Definition WithScoreLedger (sl : SL) : Option := λ c,
  mkConfig (provideEnabled c) (provSearchDelay c) (rebroadcastDelay c) (engineBstoreWorkerCount c) (engineTaskWorkerCount c)
    (taskWorkerCount c) (engineMaxOutstandingBytesPerPeer c) (engineSetSendDontHaves c) (Some sl) (simulateDontHavesOnTimeout c) (tracer c).
Definition SetSimulateDontHavesOnTimeout (send : bool) : Option := λ c,
  mkConfig (provideEnabled c) (provSearchDelay c) (rebroadcastDelay c) (engineBstoreWorkerCount c) (engineTaskWorkerCount c)
    (taskWorkerCount c) (engineMaxOutstandingBytesPerPeer c) (engineSetSendDontHaves c) (engineScoreLedger c) send (tracer c).
Definition WithTracer : Option := λ c,
  mkConfig (provideEnabled c) (provSearchDelay c) (rebroadcastDelay c) (engineBstoreWorkerCount c) (engineTaskWorkerCount c)
    (taskWorkerCount c) (engineMaxOutstandingBytesPerPeer c) (engineSetSendDontHaves c) (engineScoreLedger c)
    (simulateDontHavesOnTimeout c) true.

(** The options that a caller can make. *)
Inductive is_option : Option → Prop :=
| o_ProvideEnabled b : is_option (ProvideEnabled b)
| o_ProviderSearchDelay d : is_option (ProviderSearchDelay d)
| o_RebroadcastDelay d : is_option (RebroadcastDelay d)
| o_EngineBlockstoreWorkerCount n o : EngineBlockstoreWorkerCount n = Some o → is_option o
| o_EngineTaskWorkerCount n o : EngineTaskWorkerCount n = Some o → is_option o
| o_TaskWorkerCount n o : TaskWorkerCount n = Some o → is_option o
| o_MaxOutstandingBytesPerPeer n o : MaxOutstandingBytesPerPeer n = Some o → is_option o
| o_SetSendDontHaves b : is_option (SetSendDontHaves b)
| o_WithScoreLedger sl : is_option (WithScoreLedger sl)
| o_SetSimulateDontHavesOnTimeout b : is_option (SetSimulateDontHavesOnTimeout b)
| o_WithTracer : is_option WithTracer.

(** A started node: the workers of engine and node, and those of the blockstore. *)
Record started := mkStarted { st_config : config; st_pipe : Outbox.pipe B Q SL; st_pool : Pool.pool }.

(** [defaultLedger] is what [NewDefaultScoreLedger] makes, [newQueue] the request
    queue of go-peertaskqueue for a limit of outstanding work. *)
Definition New (self : PeerID) (bstore : AuthedBlockstore.AuthedBlockstore B) (defaultLedger : SL) (newQueue : Z → Q)
    (options : list Option) : started :=
  let c := foldl (λ c o, o c) default_config options in
  let bs := Bitswap.New self bstore (default defaultLedger (engineScoreLedger c))
              (newQueue (engineMaxOutstandingBytesPerPeer c)) (engineTaskWorkerCount c)
              (engineSetSendDontHaves c) (provideEnabled c) (simulateDontHavesOnTimeout c) in
  mkStarted c (Outbox.StartWorkers (Z.to_nat (taskWorkerCount c)) bs) (Pool.start (Z.to_nat (engineBstoreWorkerCount c))).

(** Sessions of a node are made with its delays. *)
Definition NewSession c (bs : Bitswap.Bitswap B Q SL) : nat * Bitswap.Bitswap B Q SL :=
  Bitswap.NewSession (provSearchDelay c) (rebroadcastDelay c) bs.

(** Counts are positive whatever the options. *)
Definition counts_ok c : Prop :=
  0 < engineBstoreWorkerCount c ∧ 0 < engineTaskWorkerCount c ∧ 0 < taskWorkerCount c ∧ 0 ≤ engineMaxOutstandingBytesPerPeer c.

Lemma option_counts o c : is_option o → counts_ok c → counts_ok (o c).
Proof.
  unfold counts_ok. destruct 1 as [| | |n o H|n o H|n o H|n o H| | | |]; cbn; try done;
    unfold EngineBlockstoreWorkerCount, EngineTaskWorkerCount, TaskWorkerCount, MaxOutstandingBytesPerPeer in H;
    case_match; simplify_eq; rewrite ?Z.leb_gt, ?Z.ltb_ge in *; cbn; intuition lia.
Qed.

Lemma New_counts self bstore sl nq (options : list Option) :
  Forall is_option options → counts_ok (st_config (New self bstore sl nq options)).
Proof.
  intros Ho. cbn. rewrite Forall_forall in Ho. apply (foldl_inv_simple counts_ok); [done|].
  intros c o Hin. by apply option_counts, Ho.
Qed.
End startup.
End Startup.
