(* ===== verification/ScoreWorker.v ===== *)
(** * The score worker (src/internal/decision/scoreledger.go)

    The score ledger as the engine uses it: started and stopped, with its
    goroutine that samples the ledgers and reports changed scores, while the
    engine accounts for the bytes exchanged. *)
From S2P Require Import Prelude Auth ScoreLedger.
Set Default Goal Selector "1".
Open Scope Z_scope.

Module Scorer.
Import Score.
Section scorer.
Context {GO : GoRuntime}.

Definition shortTerm : Duration := 10 * 10 ^ 9.

(** Where a goroutine of [scoreWorker] is: at the select, calling [scorePeer] for
    the rest of the updates, sending on [sampleCh], or returned. *)
Inductive worker :=
| WSelect (s : sampler)
| WApply (s : sampler) (updates : list (PeerID * Z))
| WSampleCh (s : sampler)
| WReturned.

(** [DefaultScoreLedger] with its goroutines; [hasScorePeer] and [hasSampleCh]:
    the fields are not nil; [scored]: the calls of [scorePeer]; [panicked]: a
    channel was closed twice. *)
Record scorer := mkScorer {
  dsl : DefaultScoreLedger;
  peerSampleInterval : Duration;
  hasScorePeer : bool;
  hasSampleCh : bool;
  workers : list worker;
  scored : list (PeerID * Z);
  panicked : bool;
}.

Definition NewScorer (now : Time) : scorer := mkScorer (NewDefaultScoreLedger now) shortTerm false false [] [] false.

Definition NewTestScoreLedger (interval : Duration) (sampleCh : bool) (now : Time) : scorer :=
  mkScorer (NewDefaultScoreLedger now) interval false sampleCh [] [] false.

Definition set_dsl (d : DefaultScoreLedger) (x : scorer) : scorer :=
  mkScorer d (peerSampleInterval x) (hasScorePeer x) (hasSampleCh x) (workers x) (scored x) (panicked x).
Definition set_workers (ks : list worker) (x : scorer) : scorer :=
  mkScorer (dsl x) (peerSampleInterval x) (hasScorePeer x) (hasSampleCh x) ks (scored x) (panicked x).
Definition add_scored (u : PeerID * Z) (x : scorer) : scorer :=
  mkScorer (dsl x) (peerSampleInterval x) (hasScorePeer x) (hasSampleCh x) (workers x) (scored x ++ [u]) (panicked x).

Definition init (x : scorer) : scorer :=
  mkScorer (dsl x) (peerSampleInterval x) true (hasSampleCh x) (workers x) (scored x) (panicked x).

Definition Start (x : scorer) : scorer :=
  let x := init x in set_workers (workers x ++ [WSelect sampler_init]) x.

(** Closing the channel a second time panics. *)
Definition Stop (x : scorer) : scorer :=
  if closing (dsl x) then mkScorer (dsl x) (peerSampleInterval x) (hasScorePeer x) (hasSampleCh x) (workers x) (scored x) true
  else set_dsl (Score.Stop (dsl x)) x.

(** The clock shows a later time. *)
Definition advance (now : Time) (x : scorer) : scorer :=
  set_dsl (mkDSL (ledgerMap (dsl x)) now (closing (dsl x))) x.

(** ** The goroutine

    [None]: the worker is not there. *)

(** The ticker fires: the ledgers are sampled under the lock. *)
Definition tick (now : Time) (i : nat) (x : scorer) : option scorer :=
  match workers x !! i with
  | Some (WSelect s) =>
      let '(d, s', updates) := scoreWorker_tick now s (dsl x) in
      Some (set_workers (<[i := WApply s' updates]> (workers x)) (set_dsl d x))
  | _ => None
  end.

(** The select sees [closing] closed. *)
Definition leave (i : nat) (x : scorer) : option scorer :=
  match workers x !! i with
  | Some (WSelect s) => if closing (dsl x) then Some (set_workers (<[i := WReturned]> (workers x)) x) else None
  | _ => None
  end.

(** One turn of the loop that applies the updates; after the last one the worker
    sends on [sampleCh], if there is such a channel. *)
Definition apply_update (i : nat) (x : scorer) : option scorer :=
  match workers x !! i with
  | Some (WApply s (u :: us)) => Some (set_workers (<[i := WApply s us]> (workers x)) (add_scored u x))
  | Some (WApply s []) =>
      Some (set_workers (<[i := if hasSampleCh x then WSampleCh s else WSelect s]> (workers x)) x)
  | _ => None
  end.

(** A test receives from [sampleCh]. *)
Definition sample_taken (i : nat) (x : scorer) : option scorer :=
  match workers x !! i with
  | Some (WSampleCh s) => Some (set_workers (<[i := WSelect s]> (workers x)) x)
  | _ => None
  end.

(** ** Runs

    The history of a run: bytes, connections, reports and stops. *)
Inductive event :=
| ESent (p : PeerID) (n : Z)
| ERecv (p : PeerID) (n : Z)
| EConnected (p : PeerID)
| EDisconnected (p : PeerID)
| EScored (p : PeerID) (n : Z)
| EStop.

#[global] Instance event_eq_dec : EqDecision event.
Proof. solve_decision. Defined.
Definition stops (h : list event) : nat := length (filter (λ ev, ev = EStop) h).

(** What the account of a peer says: bytes sent, bytes received, exchanges. *)
Definition account_event (p : PeerID) (o : option (Z * Z * Z)) (ev : event) : option (Z * Z * Z) :=
  let '(s, r, c) := default (0, 0, 0) o in
  match ev with
  | ESent q n => if decide (q = p) then Some (s + n, r, c + 1) else o
  | ERecv q n => if decide (q = p) then Some (s, r + n, c + 1) else o
  | EConnected q => if decide (q = p) then Some (s, r, c) else o
  | EDisconnected q => if decide (q = p) then None else o
  | _ => o
  end.
Definition account (p : PeerID) (h : list event) : option (Z * Z * Z) := foldl (account_event p) None h.

(** The score that was last reported for a peer since it connected. *)
Definition told_event (p : PeerID) (t : Z) (ev : event) : Z :=
  match ev with
  | EScored q n => if decide (q = p) then n else t
  | EDisconnected q => if decide (q = p) then 0 else t
  | _ => t
  end.
Definition told (p : PeerID) (h : list event) : Z := foldl (told_event p) 0 h.

(** The calls of [scorePeer]. *)
Definition reports (h : list event) : list (PeerID * Z) :=
  omap (λ ev, match ev with EScored p n => Some (p, n) | _ => None end) h.

(** The updates a worker still has to report. *)
Definition updates_of (k : worker) : list (PeerID * Z) := match k with WApply _ us => us | _ => [] end.
Definition unreported (x : scorer) : list (PeerID * Z) := workers x ≫= updates_of.

(** The engine starts the ledger once.  A peer whose score is about to be reported
    does not disconnect before the report is made. *)
Inductive step : relation (scorer * list event) :=
| st_Start x h : workers x = [] → step (x, h) (Start x, h)
| st_Stop x h : step (x, h) (Stop x, h ++ [EStop])
| st_advance now x h : step (x, h) (advance now x, h)
| st_sent p n x h : step (x, h) (set_dsl (dsl_AddToSentBytes p n (dsl x)) x, h ++ [ESent p n])
| st_recv p n x h : step (x, h) (set_dsl (dsl_AddToReceivedBytes p n (dsl x)) x, h ++ [ERecv p n])
| st_connected p x h : step (x, h) (set_dsl (PeerConnected p (dsl x)) x, h ++ [EConnected p])
| st_disconnected p x h :
    p ∉ (unreported x).*1 → step (x, h) (set_dsl (PeerDisconnected p (dsl x)) x, h ++ [EDisconnected p])
| st_tick now i x x' h : tick now i x = Some x' → step (x, h) (x', h)
| st_leave i x x' h : leave i x = Some x' → step (x, h) (x', h)
| st_report i x x' h s p n us :
    workers x !! i = Some (WApply s ((p, n) :: us)) → apply_update i x = Some x' → step (x, h) (x', h ++ [EScored p n])
| st_applied i x x' h s :
    workers x !! i = Some (WApply s []) → apply_update i x = Some x' → step (x, h) (x', h)
| st_taken i x x' h : sample_taken i x = Some x' → step (x, h) (x', h).

(** ** The invariant *)

(** One more report for [p] after another. *)
Definition report (p : PeerID) (t : Z) (u : PeerID * Z) : Z := if decide (u.1 = p) then u.2 else t.

Definition accounted (p : PeerID) (h : list event) (o : option scoreledger) : Prop :=
  match o, account p h with
  | Some l, Some (s, r, c) => partner l = p ∧ bytesSent l = uint64 s ∧ bytesRecv l = uint64 r ∧ exchangeCount l = uint64 c
  | None, None => True
  | _, _ => False
  end.

(** The score of a ledger is what the reports made and still to be made say. *)
Definition reported (p : PeerID) (h : list event) (us : list (PeerID * Z)) (o : option scoreledger) : Prop :=
  match o with
  | Some l => foldl (report p) (told p h) us = score l
  | None => told p h = 0 ∧ p ∉ us.*1
  end.

Record Inv (x : scorer) (h : list event) : Prop := mkInv {
  sc_one : (length (workers x) ≤ 1)%nat;
  sc_account : ∀ p, accounted p h (ledgerMap (dsl x) !! p);
  sc_report : ∀ p, reported p h (unreported x) (ledgerMap (dsl x) !! p);
  sc_stops : closing (dsl x) = true ↔ (1 ≤ stops h)%nat;
  sc_panic : panicked x = true ↔ (2 ≤ stops h)%nat;
  sc_scored : scored x = reports h;
}.

Lemma uint64_add a b : uint64 (uint64 a + uint64 b) = uint64 (a + b).
Proof. unfold uint64, wrap_u. by rewrite <- Zplus_mod. Qed.
Lemma uint64_succ a : uint64 (uint64 a + 1) = uint64 (a + 1).
Proof. unfold uint64, wrap_u. by rewrite Zplus_mod_idemp_l. Qed.

Lemma account_snoc p h ev : account p (h ++ [ev]) = account_event p (account p h) ev.
Proof. unfold account. by rewrite foldl_app. Qed.
Lemma told_snoc p h ev : told p (h ++ [ev]) = told_event p (told p h) ev.
Proof. unfold told. by rewrite foldl_app. Qed.
Lemma stops_snoc h ev : stops (h ++ [ev]) = (stops h + if decide (ev = EStop) then 1 else 0)%nat.
Proof. unfold stops. rewrite filter_app, length_app, filter_cons. by case_decide. Qed.

Lemma reports_snoc h ev : reports (h ++ [ev]) = reports h ++ reports [ev].
Proof. apply omap_app. Qed.

Lemma report_fresh p us t : p ∉ us.*1 → foldl (report p) t us = t.
Proof.
  revert t. induction us as [|[q n] us IH]; intros t; [done|]. rewrite fmap_cons. intros [Hq Hn]%not_elem_of_cons.
  cbn [foldl]. rewrite IH by done. unfold report. cbn in *. by rewrite decide_False by done.
Qed.

(** Steps that neither touch a ledger nor report. *)
Lemma Inv_quiet x x' h :
  Inv x h → ledgerMap (dsl x') = ledgerMap (dsl x) → closing (dsl x') = closing (dsl x) → panicked x' = panicked x → scored x' = scored x →
  (length (workers x') ≤ 1)%nat → unreported x' = unreported x → Inv x' h.
Proof. intros [H1 H2 H3 H4 H5 H6] E1 E2 E3 E4 Hl Eu. split; rewrite ?E1, ?E2, ?E3, ?E4, ?Eu; done. Qed.

Lemma Inv_Stop x h : Inv x h → Inv (Stop x) (h ++ [EStop]).
Proof.
  intros [H1 H2 H3 H4 H5 H6].
  assert (∀ y, workers y = workers x → ledgerMap (dsl y) = ledgerMap (dsl x) → closing (dsl y) = true → scored y = scored x →
    (panicked y = true ↔ (1 ≤ stops h)%nat) → Inv y (h ++ [EStop])) as Hy.
  { intros y E1 E2 E3 E0 E4. split; rewrite ?E1, ?E2, ?E3, ?E0, ?reports_snoc, ?app_nil_r, ?stops_snoc, ?(decide_True _ _ (eq_refl EStop)); try done; try lia.
    - intros p. unfold accounted. rewrite account_snoc. unfold account_event.
      destruct (account p h) as [[[s r] c]|] eqn:E; specialize (H2 p); unfold accounted in H2; by rewrite E in H2.
    - intros p. unfold reported, unreported. rewrite told_snoc, E1. apply H3.
    - rewrite E4. lia. }
  unfold Stop. destruct (closing (dsl x)) eqn:Ec; apply Hy; try done; cbn.
  rewrite H5, <- H4. split; [|done]. intros Hp. apply H4. lia.
Qed.

(** Steps that change the ledger of one peer and record one event. *)
Lemma Inv_ledger x h p o ev (d : DefaultScoreLedger) :
  Inv x h →
  (∀ q, ledgerMap d !! q = if decide (q = p) then o else ledgerMap (dsl x) !! q) →
  closing d = closing (dsl x) → ev ≠ EStop → reports [ev] = [] →
  (∀ q t, q ≠ p → account_event q t ev = t) → (∀ q t, q ≠ p → told_event q t ev = t) →
  accounted p (h ++ [ev]) o → reported p (h ++ [ev]) (unreported x) o →
  Inv (set_dsl d x) (h ++ [ev]).
Proof.
  intros [H1 H2 H3 H4 H5 H6] Hd Hc Hev Hns Ha Ht Hacc Hrep.
  split; cbn [set_dsl workers dsl panicked scored]; rewrite ?Hc, ?reports_snoc, ?Hns, ?app_nil_r, ?stops_snoc, ?(decide_False (P := ev = EStop)), ?Nat.add_0_r by done;
    try done; intros q; rewrite Hd.
  - case_decide as E; [by subst|]. unfold accounted. rewrite account_snoc, Ha by done. apply H2.
  - change (unreported (set_dsl d x)) with (unreported x). case_decide as E; [by subst|].
    unfold reported. rewrite told_snoc, Ht by done. apply H3.
Qed.

Lemma findOrCreate_lookup p d q :
  let r := findOrCreate p d in
  ledgerMap r.2 !! q = (if decide (q = p) then Some r.1 else ledgerMap d !! q) ∧ closing r.2 = closing d ∧
  r.1 = default (newScoreLedger p) (ledgerMap d !! p).
Proof.
  cbn zeta. unfold findOrCreate, find. destruct (ledgerMap d !! p) as [l|] eqn:E; cbn.
  - split_and!; [|done|done]. by case_decide; subst.
  - split_and!; [|done|done]. rewrite lookup_insert. by repeat case_decide; subst.
Qed.

(** The state of a peer that an operation of [findOrCreate] works on. *)
Lemma Inv_opened x h p :
  Inv x h → let l := default (newScoreLedger p) (ledgerMap (dsl x) !! p) in
  let '(s, r, c) := default (0, 0, 0) (account p h) in
  partner l = p ∧ bytesSent l = uint64 s ∧ bytesRecv l = uint64 r ∧ exchangeCount l = uint64 c ∧
  foldl (report p) (told p h) (unreported x) = score l.
Proof.
  intros [_ H2 H3 _ _ _]. cbn zeta. specialize (H2 p). specialize (H3 p). unfold accounted, reported in *.
  destruct (ledgerMap (dsl x) !! p) as [l|], (account p h) as [[[s r] c]|]; try done; cbn.
  - destruct H2 as (? & ? & ? & ?). done.
  - destruct H3 as [Ht Hn]. by rewrite report_fresh.
Qed.

(** An exchange with [p], which creates the ledger if there is none. *)
Lemma Inv_exchange x h p ev (f : Time → scoreledger → scoreledger) :
  Inv x h → ev ≠ EStop → reports [ev] = [] → (∀ q t, q ≠ p → account_event q t ev = t) → (∀ q t, told_event q t ev = t) →
  (∀ now l, partner (f now l) = partner l ∧ score (f now l) = score l) →
  (∀ o now l, let '(s, r, c) := default (0, 0, 0) o in
     bytesSent l = uint64 s → bytesRecv l = uint64 r → exchangeCount l = uint64 c →
     ∃ s' r' c', account_event p o ev = Some (s', r', c') ∧ bytesSent (f now l) = uint64 s' ∧
       bytesRecv (f now l) = uint64 r' ∧ exchangeCount (f now l) = uint64 c') →
  Inv (set_dsl (let '(l, d) := findOrCreate p (dsl x) in
                set_ledgerMap (<[p := f (clock_Now d) l]> (ledgerMap d)) d) x) (h ++ [ev]).
Proof.
  intros HI Hev Hns Ha Ht Hf Hacc. pose proof (Inv_opened x h p HI) as Ho. cbn zeta in Ho.
  pose proof (findOrCreate_lookup p (dsl x)) as Hl. destruct (findOrCreate p (dsl x)) as [l d]. cbn [fst snd] in Hl.
  destruct (Hl p) as (_ & Hc & Edef). rewrite <- Edef in Ho. specialize (Hacc (account p h) (clock_Now d) l).
  destruct (default (0, 0, 0) (account p h)) as [[s r] c]. destruct Ho as (O1 & O2 & O3 & O4 & O5).
  destruct (Hf (clock_Now d) l) as [F1 F2]. destruct (Hacc O2 O3 O4) as (s' & r' & c' & E & A1 & A2 & A3).
  eapply (Inv_ledger x h p (Some (f (clock_Now d) l))); [done| |done|done|done|done|by intros q t _; apply Ht| |].
  - intros q. cbn. rewrite lookup_insert. destruct (Hl q) as (-> & _). repeat case_decide; try done; congruence.
  - unfold accounted. rewrite account_snoc, E. split_and!; congruence.
  - unfold reported. rewrite told_snoc, Ht. congruence.
Qed.

Lemma account_other p q t ev :
  q ≠ p → (∃ n, ev = ESent p n ∨ ev = ERecv p n) ∨ ev = EConnected p ∨ ev = EDisconnected p → account_event q t ev = t.
Proof.
  intros Hne Hev. unfold account_event. destruct (default _ t) as [[? ?] ?].
  destruct Hev as [(n & [-> | ->])|[-> | ->]]; by rewrite decide_False by done.
Qed.

Lemma Inv_sent x h p n : Inv x h → Inv (set_dsl (dsl_AddToSentBytes p n (dsl x)) x) (h ++ [ESent p n]).
Proof.
  intros HI. apply (Inv_exchange x h p (ESent p n) (λ now l, AddToSentBytes now n l)); [done|done|done| |done|done|].
  - intros q t Hne. eapply account_other; eauto.
  - intros o now l. unfold account_event. destruct (default (0, 0, 0) o) as [[s r] c]. intros E1 E2 E3.
    rewrite decide_True by done. do 3 eexists. split; [done|]. cbn. by rewrite E1, E2, E3, uint64_add, uint64_succ.
Qed.

Lemma Inv_recv x h p n : Inv x h → Inv (set_dsl (dsl_AddToReceivedBytes p n (dsl x)) x) (h ++ [ERecv p n]).
Proof.
  intros HI. apply (Inv_exchange x h p (ERecv p n) (λ now l, AddToReceivedBytes now n l)); [done|done|done| |done|done|].
  - intros q t Hne. eapply account_other; eauto.
  - intros o now l. unfold account_event. destruct (default (0, 0, 0) o) as [[s r] c]. intros E1 E2 E3.
    rewrite decide_True by done. do 3 eexists. split; [done|]. cbn. by rewrite E1, E2, E3, uint64_add, uint64_succ.
Qed.

Lemma Inv_connected x h p : Inv x h → Inv (set_dsl (PeerConnected p (dsl x)) x) (h ++ [EConnected p]).
Proof.
  intros HI. pose proof (Inv_opened x h p HI) as Ho. set (l := default _ _) in *.
  destruct (default (0, 0, 0) (account p h)) as [[s r] c] eqn:Ea. destruct Ho as (O1 & O2 & O3 & O4 & O5).
  eapply (Inv_ledger x h p (Some l)); [done| | |done|done| | | |].
  - intros q. unfold PeerConnected, l. destruct (ledgerMap (dsl x) !! p) eqn:E; cbn.
    + case_decide; congruence.
    + rewrite lookup_insert. repeat case_decide; congruence.
  - unfold PeerConnected. by case_match.
  - intros q t Hne. eapply account_other; eauto.
  - done.
  - unfold accounted. rewrite account_snoc. unfold account_event. by rewrite Ea, decide_True by done.
  - unfold reported. by rewrite told_snoc.
Qed.

Lemma Inv_disconnected x h p :
  p ∉ (unreported x).*1 → Inv x h → Inv (set_dsl (PeerDisconnected p (dsl x)) x) (h ++ [EDisconnected p]).
Proof.
  intros Hn HI. eapply (Inv_ledger x h p None); [done| |done|done|done| | | |].
  - intros q. cbn. rewrite lookup_delete. repeat case_decide; by subst.
  - intros q t Hne. eapply account_other; eauto.
  - intros q t Hne. cbn. by rewrite decide_False by done.
  - unfold accounted. rewrite account_snoc. unfold account_event. destruct (default _ _) as [[? ?] ?]. by rewrite decide_True.
  - unfold reported. rewrite told_snoc. cbn. by rewrite decide_True.
Qed.

(** ** The worker's turns *)

Lemma one_worker (ks : list worker) i k : (length ks ≤ 1)%nat → ks !! i = Some k → i = 0%nat ∧ ks = [k].
Proof. destruct ks as [|k' [|? ks]], i as [|i]; cbn; try lia; try done. by intros _ [= ->]. Qed.

(** What the loop over the ledgers queues for one peer. *)
Lemma sampled_report s p t (l : list (PeerID * scoreledger)) :
  NoDup l.*1 → (∀ q x, (q, x) ∈ l → partner x = q) →
  foldl (report p) t (omap (λ x, if score x.2 =? score (sampled s x.2) then None
                                 else Some (partner x.2, score (sampled s x.2))) l) =
  match (list_to_map l : gmap PeerID scoreledger) !! p with
  | Some x => if score x =? score (sampled s x) then t else score (sampled s x)
  | None => t
  end.
Proof.
  revert t. induction l as [|[q x] l IH]; intros t Hn Hp; [done|].
  rewrite fmap_cons in Hn. apply NoDup_cons in Hn as [Hq Hn]. cbn [fst] in Hq.
  assert (∀ r y, (r, y) ∈ l → partner y = r) as Hp' by (intros; apply Hp; by right).
  assert (partner x = q) as Epx by (apply Hp; by left).
  cbn [omap list_omap fst snd list_to_map foldr]. change (foldr _ ∅ l) with (list_to_map l : gmap PeerID scoreledger).
  rewrite lookup_insert. case_decide as E.
  - subst q. destruct (_ =? _) eqn:Es; cbn [foldl]; rewrite IH by done.
    + rewrite E in Hq. by rewrite (not_elem_of_list_to_map_1 _ _ Hq).
    + rewrite E in Hq. rewrite (not_elem_of_list_to_map_1 _ _ Hq). unfold report. cbn. by rewrite decide_True.
  - destruct (_ =? _) eqn:Es; cbn [foldl]; rewrite IH by done; [done|].
    unfold report. cbn. by rewrite Epx, decide_False.
Qed.

Lemma tick_reports now s d p t :
  wf d →
  foldl (report p) t (scoreWorker_tick now s d).2 =
  match ledgerMap d !! p with
  | Some l => if score l =? score (sampled s l) then t else score (sampled s l)
  | None => t
  end.
Proof.
  intros Hwf. unfold scoreWorker_tick. destruct (foldl (sample_ledger s) _ _) as [m u] eqn:E. cbn [snd].
  change u with (m, u).2. rewrite <- E, sample_fold_updates. cbn [app].
  rewrite sampled_report; [|apply NoDup_range_keys|intros q x Hq%elem_of_range; by apply Hwf].
  rewrite (list_to_map_proper _ (map_to_list (ledgerMap d))) by auto using NoDup_range_keys, range_perm.
  by rewrite list_to_map_to_list.
Qed.

Lemma tick_rest now s d : closing (scoreWorker_tick now s d).1.1 = closing d.
Proof. unfold scoreWorker_tick. by destruct (foldl _ _ _). Qed.

Lemma Inv_wf x h : Inv x h → wf (dsl x).
Proof.
  intros [_ H2 _ _ _ _] p l Hl. specialize (H2 p). rewrite Hl in H2. unfold accounted in H2.
  destruct (account p h) as [[[s r] c]|]; [|done]. by destruct H2.
Qed.

Lemma Inv_tick now i x x' h : tick now i x = Some x' → Inv x h → Inv x' h.
Proof.
  intros Ht HI. pose proof (Inv_wf x h HI) as Hwf. destruct HI as [H1 H2 H3 H4 H5 H6]. unfold tick in Ht.
  destruct (workers x !! i) as [[s| | |]|] eqn:Hi; try done. destruct (one_worker _ _ _ H1 Hi) as [-> Ew].
  pose proof (λ p t, tick_reports now s (dsl x) p t Hwf) as Hu. pose proof (tick_ledgers now s (dsl x)) as Hl.
  pose proof (tick_rest now s (dsl x)) as Hc. pose proof (λ p n, tick_updates now s (dsl x) p n Hwf) as Hin.
  destruct (scoreWorker_tick now s (dsl x)) as [[d s'] us]. cbn [fst snd] in *. injection Ht as <-.
  assert (unreported x = []) as Eu by (unfold unreported; by rewrite Ew).
  split; cbn; rewrite ?Ew, ?Hc, ?Hl; cbn; try done; intros p; rewrite lookup_fmap; specialize (H2 p); specialize (H3 p).
  - destruct (ledgerMap (dsl x) !! p); [|done]. exact H2.
  - unfold unreported. cbn. rewrite ?Ew. cbn. rewrite ?app_nil_r. rewrite Eu in H3. unfold reported in *. specialize (Hu p (told p h)).
    destruct (ledgerMap (dsl x) !! p) as [l|] eqn:El; cbn in *.
    + rewrite Hu. destruct (Z.eqb_spec (score l) (new_score (sample_scores s l))); congruence.
    + split; [by apply H3|]. intros ([q n] & -> & Hq)%list_elem_of_fmap. cbn in El.
      apply Hin in Hq as (l & Hq & _). congruence.
Qed.

Lemma Inv_report i x x' h s p n us :
  workers x !! i = Some (WApply s ((p, n) :: us)) → apply_update i x = Some x' → Inv x h → Inv x' (h ++ [EScored p n]).
Proof.
  intros Hi Ha [H1 H2 H3 H4 H5 H6]. unfold apply_update in Ha. rewrite Hi in Ha. injection Ha as <-.
  destruct (one_worker _ _ _ H1 Hi) as [-> Ew].
  assert (unreported x = (p, n) :: us) as Eu by (unfold unreported; rewrite Ew; cbn; by rewrite app_nil_r).
  split; cbn; rewrite ?Ew, ?reports_snoc, ?H6, ?stops_snoc, ?(decide_False (P := EScored p n = EStop)), ?Nat.add_0_r by done; try done; intros q.
  - unfold accounted. rewrite account_snoc. specialize (H2 q). unfold accounted in H2. unfold account_event.
    by destruct (account q h) as [[[? ?] ?]|].
  - specialize (H3 q). unfold unreported. cbn. rewrite ?Ew. cbn. rewrite ?app_nil_r. rewrite Eu in H3. unfold reported in *.
    rewrite told_snoc. destruct (ledgerMap (dsl x) !! q) as [l|]; [exact H3|].
    destruct H3 as [Ht [Hq Hn]%not_elem_of_cons]. cbn in *. split; [|done]. by rewrite decide_False by done.
Qed.

Lemma scorer_step x y : step x y → Inv x.1 x.2 → Inv y.1 y.2.
Proof.
  destruct 1 as [x h Hw|x h|now x h|p n x h|p n x h|p x h|p x h Hn|now i x x' h Ht|i x x' h Hl|i x x' h s p n us Hi Ha
    |i x x' h s Hi Ha|i x x' h Ht]; cbn [fst snd]; intros HI.
  - eapply Inv_quiet; [done..| |]; unfold unreported; cbn; rewrite Hw; cbn; [lia|done].
  - by apply Inv_Stop.
  - eapply Inv_quiet; [done..|apply HI|done].
  - by apply Inv_sent.
  - by apply Inv_recv.
  - by apply Inv_connected.
  - by apply Inv_disconnected.
  - by eapply Inv_tick.
  - unfold leave in Hl. destruct (workers x !! i) as [[s| | |]|] eqn:Hi; try done.
    destruct (closing (dsl x)) eqn:Ec; [|done]. injection Hl as <-. destruct (one_worker _ _ _ (sc_one _ _ HI) Hi) as [-> Ew].
    eapply Inv_quiet; [done..| |]; unfold unreported; cbn; rewrite Ew; cbn; [lia|done].
  - by eapply Inv_report.
  - unfold apply_update in Ha. rewrite Hi in Ha. injection Ha as <-. destruct (one_worker _ _ _ (sc_one _ _ HI) Hi) as [-> Ew].
    eapply Inv_quiet; [done..| |]; unfold unreported; cbn; rewrite Ew; cbn; [lia|by destruct (hasSampleCh x)].
  - unfold sample_taken in Ht. destruct (workers x !! i) as [[| |s|]|] eqn:Hi; try done. injection Ht as <-.
    destruct (one_worker _ _ _ (sc_one _ _ HI) Hi) as [-> Ew].
    eapply Inv_quiet; [done..| |]; unfold unreported; cbn; rewrite Ew; cbn; [lia|done].
Qed.

Lemma scorer_reachable x y : rtc step x y → Inv x.1 x.2 → Inv y.1 y.2.
Proof. induction 1 as [|x y z Hs _ IH]; [done|]. intros HI. apply IH. by eapply scorer_step. Qed.

Lemma Inv_new interval sampleCh now : Inv (NewTestScoreLedger interval sampleCh now) [].
Proof.
  split; cbn; [lia|by intros p; rewrite lookup_empty|intros p; rewrite lookup_empty; by split; [|apply not_elem_of_nil]| | |done];
    unfold stops; cbn; split; try done; lia.
Qed.

(** A receipt says what the account says. *)
Lemma Inv_receipt x h p :
  Inv x h → let '(s, r, c) := default (0, 0, 0) (account p h) in
  Receipt_Peer (GetReceipt (dsl x) p) = p ∧ Receipt_Sent (GetReceipt (dsl x) p) = uint64 s ∧
  Receipt_Recv (GetReceipt (dsl x) p) = uint64 r ∧ Receipt_Exchanged (GetReceipt (dsl x) p) = uint64 c.
Proof.
  intros [_ H2 _ _ _ _]. specialize (H2 p). unfold accounted in H2. unfold GetReceipt, find.
  destruct (ledgerMap (dsl x) !! p) as [l|], (account p h) as [[[s r] c]|]; done.
Qed.

(** ** The worker goes on

    Its own steps: everything but the ticks. *)
Inductive wstep : relation scorer :=
| w_leave i x x' : leave i x = Some x' → wstep x x'
| w_apply i x x' : apply_update i x = Some x' → wstep x x'.

Lemma worker_rests x k :
  k ∈ workers x → (∀ x', ¬ wstep x x') →
  k = WReturned ∨ (∃ s, k = WSampleCh s) ∨ (closing (dsl x) = false ∧ ∃ s, k = WSelect s).
Proof.
  intros [i Hi]%list_elem_of_lookup Hno. destruct k as [s|s us|s|]; [| |by right; left; eauto|by left].
  - right; right. split; [|eauto]. destruct (closing (dsl x)) eqn:Ec; [|done]. exfalso.
    eapply Hno, (w_leave i). unfold leave. by rewrite Hi, Ec.
  - exfalso. destruct us as [|u us]; eapply Hno, (w_apply i); unfold apply_update; by rewrite Hi.
Qed.
End scorer.
End Scorer.
