(* ===== verification/Providers.v ===== *)
(** * Calls of the networks on their host and routing
      (src/network/ipfs_impl.go, src/testnet/virtual.go)

    The operations of the two networks that only pass on to libp2p, and the
    goroutine of [FindProvidersAsync], which hands the providers that the routing
    finds to the caller. *)
From S2P Require Import Prelude Auth Hex Proto Message Framing ConnectEvents Network.
Set Default Goal Selector "1".
Open Scope Z_scope.

(** What else the networks use of libp2p: measuring, tagging and routing. *)
Class HostCalls `{CL : CidLib} (H : Type) := {
  PingResult : Type;
  ConnManager : Type;
  ping_Ping : PeerID → H → H * PingResult;
  peerstore_LatencyEWMA : PeerID → H → Duration;
  host_ConnManager : H → ConnManager;
  routing_Provide : Cid → bool → H → H * option error;
}.

Module Providers.
Section calls.
Context {CL : CidLib} {H : Type} {HO : Host H} {HC : HostCalls H}.
Implicit Types (w : Net.world H) (p : PeerID).

Definition Self w : PeerID := host_ID.
Definition Ping p w : Net.world H * PingResult := Net.on_host (ping_Ping p) w.
Definition Latency p w : Duration := peerstore_LatencyEWMA p (Net.host w).
Definition ConnectionManager w : ConnManager := host_ConnManager (Net.host w).
Definition Provide (k : Cid) w : Net.world H * option error := Net.on_host (routing_Provide k true) w.
(** Panics: not implemented. *)
Definition DisconnectFrom p w : option (Net.world H * option error) := None.
End calls.

(** ** The search *)
Section search.
Context {Addrs : Type} (self : PeerID).

(** The goroutine of one call, between the channel of the routing and the channel
    [out] with room for [room] ids.  [found]: sent by the routing and not yet
    taken; [holding]: about to be sent on [out]; [got]: read by the caller; [known]:
    the addresses given to the peerstore. *)
Record search := mkSearch {
  found : list (PeerID * Addrs);
  routingClosed : bool;
  holding : option PeerID;
  out : list PeerID;
  room : Z;
  returned : bool;
  got : list PeerID;
  known : list (PeerID * Addrs);
  ctxDone : bool;
}.
Implicit Types (s : search).

(** libp2p makes [out] with room for [max] ids, the virtual network with none. *)
Definition FindProvidersAsync (max : Z) : search := mkSearch [] false None [] max false [] [] false.
Definition virtual_FindProvidersAsync : search := FindProvidersAsync 0.

(** The routing finds a provider, or has found all. *)
Definition routing_sends x s : option search :=
  if routingClosed s then None
  else Some (mkSearch (found s ++ [x]) false (holding s) (out s) (room s) (returned s) (got s) (known s) (ctxDone s)).
Definition routing_closes s : search :=
  mkSearch (found s) true (holding s) (out s) (room s) (returned s) (got s) (known s) (ctxDone s).
Definition cancel s : search :=
  mkSearch (found s) (routingClosed s) (holding s) (out s) (room s) (returned s) (got s) (known s) true.

(** The loop takes a provider; libp2p ignores itself and keeps the addresses. *)
Definition take s : option search :=
  match found s, holding s, returned s with
  | (p, a) :: rest, None, false =>
      if decide (p = self)
      then Some (mkSearch rest (routingClosed s) None (out s) (room s) false (got s) (known s) (ctxDone s))
      else Some (mkSearch rest (routingClosed s) (Some p) (out s) (room s) false (got s) (known s ++ [(p, a)]) (ctxDone s))
  | _, _, _ => None
  end.
Definition virtual_take s : option search :=
  match found s, holding s, returned s with
  | (p, a) :: rest, None, false =>
      Some (mkSearch rest (routingClosed s) (Some p) (out s) (room s) false (got s) (known s) (ctxDone s))
  | _, _, _ => None
  end.

(** The two cases of the select; without room the caller has to be there. *)
Definition send s : option search :=
  match holding s with
  | Some p => if len (out s) <? room s
              then Some (mkSearch (found s) (routingClosed s) None (out s ++ [p]) (room s) (returned s) (got s) (known s) (ctxDone s))
              else None
  | None => None
  end.
Definition ctx_return s : option search :=
  match holding s with
  | Some p => if ctxDone s
              then Some (mkSearch (found s) (routingClosed s) None (out s) (room s) true (got s) (known s) true)
              else None
  | None => None
  end.
(** The loop of the virtual network goes on. *)
Definition virtual_skip s : option search :=
  match holding s with
  | Some p => if ctxDone s
              then Some (mkSearch (found s) (routingClosed s) None (out s) (room s) (returned s) (got s) (known s) true)
              else None
  | None => None
  end.

(** The channel of the routing is closed: [out] is closed. *)
Definition finish s : option search :=
  match found s, holding s with
  | [], None => if routingClosed s && negb (returned s)
                then Some (mkSearch [] true None (out s) (room s) true (got s) (known s) (ctxDone s)) else None
  | _, _ => None
  end.

(** The caller reads. *)
Definition read s : option search :=
  match out s, holding s with
  | p :: rest, _ =>
      Some (mkSearch (found s) (routingClosed s) (holding s) rest (room s) (returned s) (got s ++ [p]) (known s) (ctxDone s))
  | [], Some p =>
      if room s =? 0
      then Some (mkSearch (found s) (routingClosed s) None [] (room s) (returned s) (got s ++ [p]) (known s) (ctxDone s))
      else None
  | [], None => None
  end.

(** ** Runs *)

(** The goroutine's own steps, of the virtual network or of libp2p. *)
Definition turns (virtual : bool) : list (search → option search) :=
  if virtual then [virtual_take; send; virtual_skip; finish] else [take; send; ctx_return; finish].

(** [all]: what the routing has found so far. *)
Inductive step (virtual : bool) : relation (search * list (PeerID * Addrs)) :=
| st_sends x s s' all : routing_sends x s = Some s' → step virtual (s, all) (s', all ++ [x])
| st_closes s all : step virtual (s, all) (routing_closes s, all)
| st_cancel s all : step virtual (s, all) (cancel s, all)
| st_turn f s s' all : f ∈ turns virtual → f s = Some s' → step virtual (s, all) (s', all)
| st_read s s' all : read s = Some s' → step virtual (s, all) (s', all).

(** The ids a caller is to be told of. *)
Definition answer (virtual : bool) (l : list (PeerID * Addrs)) : list PeerID :=
  if virtual then l.*1 else filter (λ p, p ≠ self) l.*1.

(** Told, or about to be told. *)
Definition told s : list PeerID := got s ++ out s ++ option_list (holding s).

(** Nothing is invented, doubled or reordered; as long as the context lasts nothing is lost. *)
Record Inv (virtual : bool) s (all : list (PeerID * Addrs)) : Prop := mkInv {
  pi_order : told s ++ answer virtual (found s) `sublist_of` answer virtual all;
  pi_all : ctxDone s = false → told s ++ answer virtual (found s) = answer virtual all;
  pi_prefix : virtual = false → told s `prefix_of` answer virtual all;
  pi_live : virtual = false → returned s = false → told s ++ answer virtual (found s) = answer virtual all;
  pi_known : virtual = false → told s ⊆ (known s).*1;
  pi_returned : returned s = true → holding s = None;
}.

Lemma answer_app v l l' : answer v (l ++ l') = answer v l ++ answer v l'.
Proof. unfold answer. destruct v; rewrite fmap_app; [done|]. by rewrite filter_app. Qed.
Lemma answer_self l a : answer false ((self, a) :: l) = answer false l.
Proof. unfold answer. rewrite fmap_cons, filter_cons_False; [done|]. cbn. tauto. Qed.
Lemma answer_other v p a l : p ≠ self ∨ v = true → answer v ((p, a) :: l) = p :: answer v l.
Proof. unfold answer. destruct v; [done|]. intros [Hp|?]; [|done]. rewrite fmap_cons. by rewrite filter_cons_True. Qed.

Lemma search_new v max : Inv v (FindProvidersAsync max) [].
Proof. split; cbn; try done; by destruct v. Qed.

(** A step that only moves ids along. *)
Lemma Inv_moved v s s' all :
  Inv v s all → told s' ++ answer v (found s') = told s ++ answer v (found s) → told s' = told s ∨ returned s = false →
  (v = false → told s' ⊆ (known s').*1) → (ctxDone s' = false → ctxDone s = false) → returned s' = returned s →
  (returned s' = true → holding s' = None) → Inv v s' all.
Proof.
  intros [H1 H2 H3 H4 H5 H6] E Ht Hk Hc Hr Hh. split; [by rewrite E|intros ?; rewrite E; auto| |intros Hv Hr'; rewrite E; apply H4; congruence|done|done].
  intros Hv. destruct Ht as [->|Ht]; [by apply H3|]. exists (answer v (found s')). by rewrite E, H4.
Qed.

Lemma Inv_send v s s' all : send s = Some s' → Inv v s all → Inv v s' all.
Proof.
  unfold send. destruct (holding s) as [p|] eqn:Eh; [|done]. destruct (_ <? _); [|done]. intros [= <-] HI.
  assert (told s = got s ++ out s ++ [p]) as Et by (unfold told; by rewrite Eh).
  eapply Inv_moved; [exact HI|..]; rewrite ?Et; unfold told; cbn -[answer]; rewrite ?app_nil_r; [by rewrite <- !app_assoc|by left| |done|done|done].
  intros Hv. rewrite <- Et. by apply HI.
Qed.

Lemma search_read v s s' all : read s = Some s' → Inv v s all → Inv v s' all.
Proof.
  unfold read. intros Hr HI. pose proof (pi_returned _ _ _ HI) as Hh. destruct (out s) as [|p rest] eqn:Eo.
  - destruct (holding s) as [p|] eqn:Eh; [|done]. destruct (_ =? 0); [|done]. injection Hr as <-.
    assert (told s = got s ++ [p]) as Et by (unfold told; by rewrite Eo, Eh).
    eapply Inv_moved; [exact HI|..]; rewrite ?Et; unfold told; cbn -[answer]; rewrite ?app_nil_r; [done|by left| |done|done|done].
    intros Hv. rewrite <- Et. by apply HI.
  - injection Hr as <-. assert (told s = got s ++ p :: rest ++ option_list (holding s)) as Et by (unfold told; by rewrite Eo).
    eapply Inv_moved; [exact HI|..]; rewrite ?Et; unfold told; cbn -[answer]; rewrite <- ?(app_assoc (got s)); [done|by left| |done|done|done].
    intros Hv. cbn. rewrite <- Et. by apply HI.
Qed.

Lemma Inv_take s s' all : take s = Some s' → Inv false s all → Inv false s' all.
Proof.
  unfold take. intros Ht HI. destruct (found s) as [|[p a] rest] eqn:Ef, (holding s) eqn:Eh, (returned s) eqn:Er; try done.
  assert (told s = got s ++ out s) as Et by (unfold told; by rewrite Eh, app_nil_r).
  case_decide as Ep; injection Ht as <-; (eapply Inv_moved; [exact HI|..]); rewrite ?Et; unfold told; cbn -[answer]; rewrite ?Ef, ?Er, ?app_nil_r;
    try done; try (by right); try (by left).
  - by rewrite Ep, answer_self.
  - rewrite <- Et. apply HI.
  - rewrite answer_other by by left. by rewrite <- !app_assoc.
  - intros _ q. rewrite app_assoc, <- Et, fmap_app, !elem_of_app. intros [Hq|Hq]; [left; by apply (pi_known _ _ _ HI)|by right].
Qed.

Lemma Inv_virtual_take s s' all : virtual_take s = Some s' → Inv true s all → Inv true s' all.
Proof.
  unfold virtual_take. intros Ht HI. destruct (found s) as [|[p a] rest] eqn:Ef, (holding s) eqn:Eh, (returned s) eqn:Er; try done.
  assert (told s = got s ++ out s) as Et by (unfold told; by rewrite Eh, app_nil_r).
  injection Ht as <-. eapply Inv_moved; [exact HI|..]; rewrite ?Et; unfold told; cbn -[answer]; rewrite ?Ef, ?Er; try done; [|by right].
  by rewrite <- !app_assoc.
Qed.

(** The context has ended and an id is dropped. *)
Lemma Inv_dropped v s s' all p :
  Inv v s all → holding s = Some p → ctxDone s' = true → told s' = got s ++ out s → found s' = found s → known s' = known s →
  holding s' = None → (v = false → returned s' = true) → Inv v s' all.
Proof.
  intros [H1 H2 H3 H4 H5 H6] Eh Hc Ht Hf Hk Hh Hr.
  assert (told s = (got s ++ out s) ++ [p]) as Et by (unfold told; by rewrite Eh, <- app_assoc).
  split; rewrite ?Ht, ?Hf, ?Hk; try congruence.
  - etrans; [|exact H1]. rewrite Et, <- (app_assoc (got s ++ out s)). apply sublist_app; [done|]. by apply sublist_cons.
  - intros Hv. etrans; [|by apply H3]. rewrite Et. by apply prefix_app_r.
  - intros Hv. rewrite Hr by done. done.
  - intros Hv q Hq. apply (H5 Hv). rewrite Et. apply elem_of_app. by left.
Qed.

Lemma search_step v a b : step v a b → Inv v a.1 a.2 → Inv v b.1 b.2.
Proof.
  destruct 1 as [x s s' all Hs|s all|s all|f s s' all Hf Hs|s s' all Hs]; cbn [fst snd]; intros HI.
  - unfold routing_sends in Hs. destruct (routingClosed s); [done|]. injection Hs as <-. destruct HI as [H1 H2 H3 H4 H5 H6].
    split; cbn -[answer]; rewrite ?answer_app; try done.
    + rewrite app_assoc. by apply sublist_app.
    + intros Hc. rewrite app_assoc, <- H2 by done. done.
    + intros Hv. etrans; [by apply H3|]. by apply prefix_app_r.
    + intros Hv Hr. rewrite app_assoc, <- H4 by done. done.
  - by destruct HI.
  - destruct HI as [H1 H2 H3 H4 H5 H6]. by split.
  - unfold turns in Hf. assert (f = send ∨ f = finish ∨ (v = false ∧ (f = take ∨ f = ctx_return)) ∨ (v = true ∧ (f = virtual_take ∨ f = virtual_skip)))
      as [-> |[-> |[(-> & [-> | ->])|(-> & [-> | ->])]]] by (destruct v; set_solver).
    + by eapply Inv_send.
    + unfold finish in Hs. destruct (found s) eqn:Ef, (holding s) eqn:Eh; try done.
      destruct (routingClosed s && _); [|done]. injection Hs as <-. destruct HI as [H1 H2 H3 H4 H5 H6]. split; cbn; try done; unfold told in *; cbn; rewrite ?Eh, ?Ef in *; try done.
    + by eapply Inv_take.
    + unfold ctx_return in Hs. destruct (holding s) as [p|] eqn:Eh; [|done]. destruct (ctxDone s); [|done]. injection Hs as <-.
      eapply Inv_dropped; [done|done|done| |done|done|done|done]. unfold told. cbn. by rewrite app_nil_r.
    + by eapply Inv_virtual_take.
    + unfold virtual_skip in Hs. destruct (holding s) as [p|] eqn:Eh; [|done]. destruct (ctxDone s); [|done]. injection Hs as <-.
      eapply Inv_dropped; [done|done|done| |done|done|done|done]. unfold told. cbn. by rewrite app_nil_r.
  - by eapply search_read.
Qed.

Lemma search_reachable v a b : rtc (step v) a b → Inv v a.1 a.2 → Inv v b.1 b.2.
Proof. induction 1 as [|x y z Hs _ IH]; [done|]. intros HI. apply IH. by eapply search_step. Qed.

(** A goroutine that cannot go on has returned, or waits for the routing, or for
    the caller to read. *)
Lemma search_rests v s :
  (∀ f, f ∈ turns v → f s = None) → 0 ≤ room s →
  returned s = true ∨ (found s = [] ∧ routingClosed s = false) ∨ (∃ p, holding s = Some p ∧ ctxDone s = false ∧ is_Some (read s)).
Proof.
  intros Hno Hroom. destruct (returned s) eqn:Er; [by left|right].
  assert (send s = None ∧ finish s = None) as [Hsend Hfin] by (split; apply Hno; destruct v; set_solver).
  destruct (holding s) as [p|] eqn:Eh.
  - right. exists p. split; [done|]. unfold send in Hsend. rewrite Eh in Hsend. destruct (Z.ltb_spec (len (out s)) (room s)); [done|]. split.
    + destruct (ctxDone s) eqn:Ec; [|done]. exfalso. destruct v.
      * specialize (Hno virtual_skip ltac:(set_solver)). unfold virtual_skip in Hno. by rewrite Eh, Ec in Hno.
      * specialize (Hno ctx_return ltac:(set_solver)). unfold ctx_return in Hno. by rewrite Eh, Ec in Hno.
    + unfold read. rewrite Eh. destruct (out s) as [|q l] eqn:Eo; [|eauto]. cbn in *. unfold len in *. cbn in *.
      destruct (Z.eqb_spec (room s) 0); [eauto|lia].
  - left. destruct (found s) as [|[q a] rest] eqn:Ef.
    + split; [done|]. unfold finish in Hfin. rewrite Ef, Eh, Er in Hfin. by destruct (routingClosed s).
    + exfalso. destruct v.
      * specialize (Hno virtual_take ltac:(set_solver)). unfold virtual_take in Hno. by rewrite Ef, Eh, Er in Hno.
      * specialize (Hno take ltac:(set_solver)). unfold take in Hno. rewrite Ef, Eh, Er in Hno. by case_decide.
Qed.
End search.
End Providers.
