(* ===== verification/Mirror.v ===== *)
(** * The wantlist of a peer on both sides

    The message queue of one node and the decision engine of another: what the
    first has been told to ask is what the ledger of the second holds.  The queue
    (src/internal/messagequeue/messagequeue.go) runs as in [MessageQueueWire]; each
    message it sends is handled by the engine (src/internal/decision/engine.go),
    whose other operations run in between. *)
From S2P Require Import Prelude Auth Wantlist Hex Proto Message Ledger ScoreLedger TaskMerger.
From S2P Require Import BlockstoreManager Engine EngineFacts EngineIndex EngineRun.
From S2P Require Import PeerWantManager PeerWantFacts MessageQueue MessageQueueFacts MessageQueueRun MessageQueueWire.
Set Default Goal Selector "1".
Open Scope Z_scope.

Module Mirror.
Import MQ MsgFacts MQFacts MQRun MQWire.

(** ** Messages of a queue *)
Section plain.
Context {CL : CidLib} {GO : GoRuntime} {BL : BlockLib} (sizeCid : Cid).
Implicit Types (q : MessageQueue) (m : Message.impl).

(** A well-formed message that is not a full wantlist. *)
Definition plain m : Prop := Message.wf m ∧ Message.full m = false.

Lemma plain_addEntry w p c t s m : plain m → plain (Message.addEntry w p c t s m).2.
Proof.
  intros [H1 H2]. split; [by apply Message.wf_addEntry|].
  destruct (Message.addEntry_rest w p c t s m) as (-> & _). done.
Qed.
Lemma plain_Remove w m : plain m → plain (Message.Remove w m).
Proof. intros [H1 H2]. split; [by apply Message.wf_msg_Remove|done]. Qed.
Lemma plain_Reset m : plain (Message.Reset false m).
Proof. split; [apply Message.wf_Reset|done]. Qed.

Lemma plain_fill {A} (add : A → Message.impl → Z * Message.impl) max xs size m n :
  (∀ x m, plain m → plain (add x m).2) → plain m → plain (fill add max xs size m n).1.1.2.
Proof.
  intros Hadd. revert size m n. induction xs as [|x xs IH]; intros size m n Hm; [done|]. cbn [fill].
  pose proof (Hadd x m Hm) as H. destruct (add x m) as [k m']. cbn [snd] in H. case_match; [done|by apply IH].
Qed.

Lemma plain_extract_build sH sn max m : plain m → plain (extract_build sizeCid sH sn max m).2.
Proof.
  intros Hm. unfold extract_build.
  pose proof (plain_fill Message.Cancel max (sn_cancels sn) 0 m 0 (λ x m, plain_addEntry _ _ _ _ _ m) Hm) as H1.
  destruct (fill Message.Cancel _ _ _ _ _) as [[[size m1] n] full]. cbn in H1. destruct full; [done|].
  pose proof (plain_fill addPeerEntry max (sortIfFull sizeCid size max (sn_peer sn)) size m1 0
    (λ x m, plain_addEntry _ _ _ _ _ m) H1) as H2.
  destruct (fill addPeerEntry _ _ _ _ _) as [[[size2 m2] n2] full2]. cbn in H2. destruct full2; [done|].
  pose proof (plain_fill (addBcstEntry sH) max (sortIfFull sizeCid size2 max (sn_bcst sn)) size2 m2 0
    (λ x m, plain_addEntry _ _ _ _ _ m) H2) as H3.
  by destruct (fill (addBcstEntry sH) _ _ _ _ _) as [[[size3 m3] n3] full3].
Qed.

Lemma plain_markSent es acc : plain acc.1.2 → plain (foldl markSent acc es).1.2.
Proof.
  intros H. apply (foldl_inv_simple (λ acc, plain acc.1.2)); [done|]. intros [[r m] l] e _ Hm. unfold markSent.
  destruct (RWL.MarkSent e r) as [[] r']; cbn; [done|by apply plain_Remove].
Qed.

Lemma plain_extract sH q : plain (msg q) → plain (msg (extractOutgoingMessage sizeCid sH q).2).
Proof.
  intros Hm. unfold extractOutgoingMessage.
  assert (msg (extract_begin sH q).2 = msg q) as E.
  { unfold extract_begin. destruct sH; [done|]. cbn [negb]. by destruct (foldl dropHaves _ _). }
  destruct (extract_begin sH q) as [sn q1]. cbn [snd] in E.
  pose proof (plain_extract_build sH sn (maxMessageSize q1) (msg q1) ltac:(by rewrite E)) as Hb.
  destruct (extract_build _ _ _ _ _) as [ex m]. cbn [snd] in Hb. unfold extract_finish.
  pose proof (plain_markSent (ex_peer ex) (peerWants q1, m, []) Hb) as H1.
  destruct (foldl markSent _ (ex_peer ex)) as [[p m1] l1]. cbn in H1.
  pose proof (plain_markSent (ex_bcst ex) (bcstWants q1, m1, []) H1) as H2.
  destruct (foldl markSent _ (ex_bcst ex)) as [[b m2] l2]. cbn in H2.
  assert (plain (foldl finishCancel (cancels q1, m2) (ex_cancels ex)).2) as H3.
  { apply (foldl_inv_simple (λ acc, plain acc.2)); [done|]. intros [cs m3] c _ Hc. unfold finishCancel.
    destruct (negb _); cbn; [by apply plain_Remove|done]. }
  by destruct (foldl finishCancel _ _) as [cs m3].
Qed.

(** What a turn of the loop sends is plain, and the message object stays so. *)
Definition sends_plain (r : MessageQueue * list mq_event) : Prop :=
  plain (msg r.1) ∧ ∀ m, EvSend m ∈ r.2 → plain m.

Lemma plain_sendMessage net now q : plain (msg q) → sends_plain (sendMessage sizeCid net now q).
Proof.
  intros Hm. unfold sendMessage. destruct (_ && _).
  { split; [done|]. cbn. intros m Hin. apply list_elem_of_singleton in Hin. done. }
  pose proof (plain_extract (net_supportsHave net) (set_sender true (closed q) q) Hm) as He.
  destruct (extractOutgoingMessage _ _ _) as [[sp sb] q1]. cbn [snd] in He. unfold send_extracted.
  destruct (Message.Empty (msg q1)); [split; cbn; [apply plain_Reset|]|].
  { intros m Hin. apply list_elem_of_singleton in Hin. done. }
  destruct (negb (net_sent net)); cbn.
  { split; cbn; [apply plain_Reset|]. intros m Hin. repeat (apply elem_of_cons in Hin as [Hin|Hin]; [done|]). by apply elem_of_nil in Hin. }
  split; cbn; [apply plain_Reset|]. intros m Hin. apply elem_of_cons in Hin as [Hin|Hin]; [done|].
  apply elem_of_cons in Hin as [[= ->]|Hin]; [done|].
  repeat (apply elem_of_cons in Hin as [Hin|Hin]; [done|]). by apply elem_of_nil in Hin.
Qed.

Lemma plain_quiet q : plain (msg q) → sends_plain (q, []).
Proof. intros H. split; [done|]. by intros m ?%elem_of_nil. Qed.

Lemma plain_sendIfReady net now q : plain (msg q) → sends_plain (sendIfReady sizeCid net now q).
Proof. intros H. unfold sendIfReady. case_match; [by apply plain_sendMessage|by apply plain_quiet]. Qed.

Lemma plain_call now c q : plain (msg q) → plain (msg (call now c q).1).
Proof.
  assert (∀ q, msg (signalWorkReady now q) = msg q) as Hs by (intros x; unfold signalWorkReady; by case_match).
  intros Hm. destruct c as [id ws|id bs hs|id ks]; cbn.
  - unfold AddBroadcastWantHaves. case_match; [done|]. rewrite Hs.
    apply (foldl_inv_simple (λ q, plain (msg q))); [done|]. done.
  - unfold AddWants. case_match; [done|]. rewrite Hs.
    do 2 (apply (foldl_inv_simple (λ q, plain (msg q))); [|done]). done.
  - unfold AddCancels. case_match; [done|].
    assert (plain (msg (foldl addCancel (q, false) ks).1)) as Hf.
    { apply (foldl_inv_simple (λ acc, plain (msg acc.1))); [done|]. intros [x b] k _ Hx. unfold addCancel. by repeat case_match. }
    destruct (foldl addCancel _ ks) as [q1 []]; cbn in *; by rewrite ?Hs.
Qed.

Lemma plain_loop a q r : plain (msg q) → (∀ now c, a ≠ ACall now c) → run_act sizeCid a q = Some r → sends_plain r.
Proof.
  intros Hm Hn. destruct a as [now c|ks|net now|net now|net now|now|]; cbn.
  - by destruct (Hn now c).
  - intros [= <-]. apply plain_quiet. unfold ResponseReceived. by repeat case_match.
  - destruct (outgoingWork q); [|done]. unfold onOutgoingWork.
    match goal with |- context [match ?X with Some q => _ | None => None end] => set (r0 := X) end.
    assert (∀ q1, r0 = Some q1 → msg q1 = msg q) as Hr0.
    { intros q1. unfold r0. repeat case_match; by intros [= <-]. }
    destruct r0 as [q1|]; [|done]. specialize (Hr0 q1 eq_refl).
    destruct (_ || _).
    + pose proof (plain_sendIfReady net now q1 ltac:(by rewrite Hr0)) as Hr.
      destruct (sendIfReady _ _ _ _) as [q2 evs]. intros [= <-]. exact Hr.
    + intros [= <-]. apply plain_quiet. cbn. by rewrite Hr0.
  - destruct (scheduleWork q); [done..|]. intros [= <-]. by apply plain_sendIfReady.
  - intros [= <-]. unfold rebroadcastWantlist, transferRebroadcastWants.
    destruct (_ && _); [by apply plain_quiet|]. by apply plain_sendMessage.
  - destruct (responses q) as [|ks rs]; [done|]. intros [= <-].
    assert (plain (msg (handleResponse now ks (set_responses rs q)).1)) as Hh.
    { destruct (handleResponse_same now ks (set_responses rs q)) as [Hs _]. by rewrite (same_msg _ _ Hs). }
    split; [done|]. intros m. unfold handleResponse. destruct (foldl _ _ ks) as [t q1]. cbn.
    case_match; intros Hin; [|by apply elem_of_nil in Hin]. by apply list_elem_of_singleton in Hin.
  - destruct (scheduleWork q); [done| |done]. intros [= <-]. by apply plain_quiet.
Qed.
End plain.

(** ** The engine on the other side *)
Section mirror.
Context {CL : CidLib} {GO : GoRuntime} {BL : BlockLib} (sizeCid : Cid).
Context {B : Type} {BS : Blockstore B}.
Context {Q : Type} {PTQ : PeerTaskQueue Q}.
Context {SL : Type} {SLI : ScoreLedger SL}.
Import Ledger Engine EngineFacts EngineIndex EngineRun.
Implicit Types (e : Engine B Q SL) (w : Want) (R served : gset Want).

(** The wants of a ledger survive every handler that is not about its peer. *)
Definition keeps p e e' : Prop := ∀ w, peer_wants e' p w ↔ peer_wants e p w.

#[global] Instance keeps_preorder p : PreOrder (keeps p).
Proof. unfold keeps. split; [by intros e|]. intros e1 e2 e3 H1 H2 w. by rewrite H2. Qed.

Lemma keeps_ledgers p e e' : ledgerMap e' = ledgerMap e → keeps p e e'.
Proof. intros E w. unfold peer_wants. by rewrite E. Qed.

Lemma keeps_findOrCreate p r e : Inv e → keeps p e (findOrCreate r e).2.
Proof.
  intros HI. destruct (findOrCreate r e) as [l e1] eqn:Hf.
  eapply findOrCreate_spec in Hf as (_ & _ & _ & _ & _ & H); [|done]. intros w. apply H.
Qed.

Lemma keeps_ReceiveFrom p from blks e : Inv e → keeps p e (ReceiveFrom from blks e).
Proof.
  intros HI. unfold ReceiveFrom. destruct (_ =? 0); [done|].
  set (e0 := if bool_decide _ then _ else e).
  assert (keeps p e e0) as E0.
  { unfold e0. case_bool_decide; [|done]. pose proof (keeps_findOrCreate p from e HI) as Hk.
    destruct (findOrCreate from e) as [l e1]. etrans; [exact Hk|]. apply keeps_ledgers.
    by apply (foldl_inv_simple (λ x, ledgerMap x = ledgerMap e1)). }
  etrans; [exact E0|]. apply keeps_ledgers.
  destruct (foldl (receive_block _) _ _) as [[e1 missing] work] eqn:Er.
  assert (ledgerMap e1 = ledgerMap e0) as E1.
  { change e1 with (e1, missing, work).1.1. rewrite <- Er.
    apply (foldl_inv_simple (λ acc, ledgerMap acc.1.1 = ledgerMap e0)); [done|]. intros acc b _ Ha.
    apply (foldl_inv_simple (λ acc, ledgerMap acc.1.1 = ledgerMap e0)); [done|]. intros [[x m] wk] r _ Hx.
    unfold receive_peer. destruct (ledgerMap x !! r) as [l|]; [|done]. by destruct (WantListContains _ l). }
  assert (ledgerMap (foldl drop_missing e1 (range missing)) = ledgerMap e0) as E2.
  { apply (foldl_inv_simple (λ x, ledgerMap x = ledgerMap e0)); [done|]. intros x [r ws] _ Hx. unfold drop_missing.
    destruct (ledgerMap x !! r) as [l|]; apply (foldl_inv_simple (λ x, ledgerMap x = ledgerMap e0)); [done| |done|done].
    intros y w _ Hy. by destruct (WantListContains w l). }
  by destruct work.
Qed.

Lemma keeps_PeerConnected p r e : Inv e → keeps p e (PeerConnected r e).
Proof.
  intros HI. pose proof (keeps_findOrCreate p r e HI) as Hk. unfold PeerConnected, findOrCreate in *.
  destruct (ledgerMap e !! r); cbn [snd] in Hk; (etrans; [exact Hk|]); by apply keeps_ledgers.
Qed.

Lemma keeps_PeerDisconnected p r e : r ≠ p → keeps p e (PeerDisconnected r e).
Proof.
  intros Hne. unfold PeerDisconnected. set (e1 := match _ with Some _ => _ | None => _ end).
  assert (ledgerMap e1 = ledgerMap e) as E.
  { unfold e1. destruct (ledgerMap e !! r); [|done]. by apply (foldl_inv_simple (λ x, ledgerMap x = ledgerMap e)). }
  intros w. unfold peer_wants. cbn. by rewrite E, lookup_delete_ne.
Qed.

Lemma keeps_MessageReceived p f r (m : Message.impl) e : Message.wf m → Inv e → r ≠ p → keeps p e (MessageReceived f r m e).
Proof.
  intros Hm HI Hne. destruct (BSM.getBlockSizes f (bsm e) (et_Want <$> msg_wants m) r) as [sizes [err|]] eqn:Es.
  - unfold MessageReceived. rewrite splitWantsCancels_spec. fold (msg_wants m). by rewrite Es.
  - destruct (MessageReceived_effect f r m e sizes Hm HI Es) as (_ & H & _). intros w. by apply H.
Qed.

Lemma keeps_MessageSent p r (m : Message.impl) e : Message.wf m → r ≠ p → keeps p e (MessageSent r m e).
Proof.
  intros Hm Hne w. rewrite <- !wanted_entry_wants, MessageSent_effect by done. by rewrite decide_False by done.
Qed.

Lemma keeps_same p e e' : same_index e e' → keeps p e e'.
Proof. intros [E _]. by apply keeps_ledgers. Qed.

(** A message of the queue, decoded on the other side. *)
Lemma elem_of_flags (m : Message.impl) b w :
  Message.wf m → flags m !! w = Some b ↔ w ∈ et_Want <$> filter (λ et, Message.me_Cancel et = b) (Message.Wantlist_ m).
Proof.
  intros Hm. unfold flags. rewrite lookup_fmap_Some, list_elem_of_fmap. split.
  - intros (et & <- & Hw). exists et. rewrite list_elem_of_filter. split_and!; [|done|].
    + symmetry. by apply (Message.wf_wantlist m Hm).
    + apply list_elem_of_fmap. exists (w, et). split; [done|]. by apply elem_of_range.
  - intros (et & -> & [Hb Hin]%list_elem_of_filter). exists et. split; [done|]. by apply elem_of_Wantlist_.
Qed.

Lemma MessageReceived_recv f p (m : Message.impl) e sizes w :
  plain m → Inv e → BSM.getBlockSizes f (bsm e) (et_Want <$> msg_wants m) p = (sizes, None) →
  peer_wants (MessageReceived f p m e) p w ↔ flags m !! w = Some false ∨ (flags m !! w = None ∧ peer_wants e p w).
Proof.
  intros [Hm Hf] HI Hs. destruct (MessageReceived_effect f p m e sizes Hm HI Hs) as (H & _). rewrite H.
  unfold msg_wants, msg_cancels. rewrite <- !elem_of_flags by done. unfold Message.Full. rewrite Hf.
  destruct (flags m !! w) as [[]|]; naive_solver.
Qed.

(** ** Both sides together *)

(** The wants a message answers. *)
Definition answered (m : Message.impl) : gset Want := dom (Message.blocks m) ∪ dom (Message.blockPresences m).

Context (id : qref) (me : PeerID).

(** The messages among the events arrive in order; the copy the engine sees is the
    one decoded from the wire.  [served]: the wants answered since the queue last
    asked for them. *)
Inductive delivers : list mq_event → relation (Engine B Q SL * gset Want) :=
| dv_nil x : delivers [] x x
| dv_send f m m' evs e served x :
    Message.wf m' → Message.msg_eq m' m →
    (BSM.getBlockSizes f (bsm e) (et_Want <$> msg_wants m') me).2 = None →
    delivers evs (MessageReceived f me m' e, served ∖ list_to_set (et_Want <$> msg_wants m')) x →
    delivers (EvSend m :: evs) (e, served) x
| dv_other ev evs x y : (∀ m, ev ≠ EvSend m) → delivers evs x y → delivers (ev :: evs) x y.

(** What else happens at the engine while the connection is up. *)
Inductive other : relation (Engine B Q SL * gset Want) :=
| ot_MessageReceived f p m e served :
    Message.wf m → p ≠ me → other (e, served) (MessageReceived f p m e, served)
| ot_ReceiveFrom from blks e served : other (e, served) (ReceiveFrom from blks e, served)
| ot_MessageSent p m e served :
    Message.wf m → p ≠ me → other (e, served) (MessageSent p m e, served)
| ot_answer m e served :
    Message.wf m → other (e, served) (MessageSent me m e, served ∪ answered m)
| ot_PeerConnected p e served : other (e, served) (PeerConnected p e, served)
| ot_PeerDisconnected p e served : p ≠ me → other (e, served) (PeerDisconnected p e, served)
| ot_nextEnvelope fuel faults ws e served : other (e, served) ((nextEnvelope fuel faults ws e).1, served)
| ot_Sent env e served : other (e, served) (env_Sent env e, served)
| ot_WantlistForPeer p e served : other (e, served) ((WantlistForPeer p e).2, served)
| ot_SetSendDontHaves b e served : other (e, served) (SetSendDontHaves b e, served)
| ot_taskWorkerExit e served : other (e, served) (taskWorkerExit e, served).

(** One step of either node: a call on the queue, a turn of its loop with the
    delivery of what it sent, or an operation of the engine. *)
Inductive mstep : relation (MessageQueue * list qcall * (Engine B Q SL * gset Want)) :=
| ms_call now c q tr x :
    PWMFacts.queue_of c = id →
    call_clean c q →
    mstep (q, tr, x) ((call now c q).1, tr ++ [c], x)
| ms_loop a q tr x x' r :
    closed q = false → (∀ now c, a ≠ ACall now c) → act_have a = true →
    run_act sizeCid a q = Some r → delivers r.2 x x' → mstep (q, tr, x) (r.1, tr, x')
| ms_other q tr x x' : other x x' → mstep (q, tr, x) (q, tr, x').

(** The ledger of the peer against the wantlist [R] its messages describe. *)
Record Ledgered R (x : Engine B Q SL * gset Want) : Prop := mkLedgered {
  lg_inv : Inv x.1;
  lg_sound : ∀ w, peer_wants x.1 me w → w ∈ R;
  lg_complete : ∀ w, w ∈ R → peer_wants x.1 me w ∨ w ∈ x.2;
}.

Lemma Ledgered_keeps R e e' served : Ledgered R (e, served) → Inv e' → keeps me e e' → Ledgered R (e', served).
Proof.
  intros [_ H1 H2] HI Hk. split; cbn in *; [done|..]; intros w.
  - rewrite (Hk w). apply H1.
  - intros Hw. rewrite (Hk w). by apply H2.
Qed.

Lemma Ledgered_answer R m e served :
  Message.wf m → Ledgered R (e, served) → Ledgered R (MessageSent me m e, served ∪ answered m).
Proof.
  intros Hm [HI H1 H2]. cbn in *.
  assert (∀ w, wanted_entry (MessageSent me m e) me w = settled m w (wanted_entry e me w)) as E.
  { intros w. rewrite MessageSent_effect by done. by rewrite decide_True. }
  split; cbn; [by apply Inv_MessageSent|..]; intros w.
  - intros Hw. apply H1, wanted_entry_wants. apply wanted_entry_wants in Hw. rewrite E in Hw.
    destruct (wanted_entry e me w); [eauto|by destruct Hw].
  - intros Hw. rewrite elem_of_union. destruct (H2 w Hw) as [Hp|Hp]; [|tauto].
    destruct (decide (w ∈ answered m)) as [|Hn]; [tauto|left]. apply wanted_entry_wants. rewrite E.
    apply wanted_entry_wants in Hp as [en ->]. unfold answered in Hn. rewrite elem_of_union, !elem_of_dom in Hn.
    cbn. rewrite decide_False by tauto. rewrite decide_False; [eauto|]. intros ?. apply Hn. eauto.
Qed.

Lemma Ledgered_other R x x' : other x x' → Ledgered R x → Ledgered R x'.
Proof.
  intros Ho Hl. assert (Inv x.1) as HI by apply Hl.
  destruct Ho; cbn in HI.
  4: by apply Ledgered_answer.
  all: eapply Ledgered_keeps; [exact Hl| |].
  all: try (eapply Inv_step; [|exact HI]; by constructor).
  all: auto using keeps_MessageReceived, keeps_ReceiveFrom, keeps_MessageSent, keeps_PeerConnected, keeps_PeerDisconnected.
  - apply keeps_same, nextEnvelope_same.
  - by apply keeps_ledgers.
  - unfold WantlistForPeer. pose proof (keeps_findOrCreate me p e HI). by destruct (findOrCreate p e).
  - by apply keeps_ledgers.
  - by apply keeps_ledgers.
Qed.

Lemma Ledgered_recv R f m m' e served :
  plain m → Message.wf m' → Message.msg_eq m' m →
  (BSM.getBlockSizes f (bsm e) (et_Want <$> msg_wants m') me).2 = None →
  Ledgered R (e, served) →
  Ledgered (recv R m) (MessageReceived f me m' e, served ∖ list_to_set (et_Want <$> msg_wants m')).
Proof.
  intros [_ Hfull] Hw (E1 & E2 & _) Hs [HI H1 H2]. cbn in *.
  destruct (BSM.getBlockSizes _ _ _ _) as [sizes err] eqn:Es. cbn in Hs. subst err.
  assert (plain m') as Hp by (split; congruence).
  assert (flags m = flags m') as Ef by (unfold flags; by rewrite E2).
  split; cbn; [by apply Inv_MessageReceived|..]; intros w; rewrite (MessageReceived_recv _ _ _ _ sizes) by done;
    rewrite elem_of_recv, Ef; [naive_solver|].
  intros [Hf|[Hf HR]]; [by left; left|]. destruct (H2 w HR) as [?|Hsv]; [tauto|right].
  apply elem_of_difference. split; [done|]. rewrite elem_of_list_to_set. unfold msg_wants.
  rewrite <- elem_of_flags by done. congruence.
Qed.

Lemma Ledgered_delivers evs x x' R :
  delivers evs x x' → (∀ m, EvSend m ∈ evs → plain m) → Ledgered R x → Ledgered (remote R evs) x'.
Proof.
  intros Hd. revert R. induction Hd as [x|f m m' evs e served x Hw He Hs _ IH|ev evs x y Hn _ IH]; intros R Hp Hl.
  - done.
  - apply IH; [intros; apply Hp; by right|]. eapply Ledgered_recv; [apply Hp; by left|done..].
  - assert (remote R (ev :: evs) = remote R evs) as ->; [|apply IH; [intros; apply Hp; by right|done]].
    destruct ev; try done. by destruct (Hn m).
Qed.

(** The invariant of the two nodes. *)
Definition Mirrored (s : MessageQueue * list qcall * (Engine B Q SL * gset Want)) : Prop :=
  ∃ R, Agrees id (s.1.1, R, s.1.2) ∧ plain (msg s.1.1) ∧ Ledgered R s.2.

Lemma Mirrored_step s s' : mstep s s' → Mirrored s → Mirrored s'.
Proof.
  intros Hs (R & HA & Hp & Hl). destruct Hs as [now c q tr x Hid Hok|a q tr x x' r Hc Hn Hh Hr Hd|q tr x x' Ho]; cbn in *.
  - exists R. split_and!; [|by apply plain_call|done]. rewrite <- (remote_call now c q R).
    eapply (Agrees_step sizeCid); [|exact HA]. by constructor.
  - destruct (plain_loop sizeCid a q r Hp Hn Hr) as [Hp' Hev]. exists (remote R r.2). split_and!; [|done|].
    + eapply (Agrees_step sizeCid); [|exact HA]. by econstructor.
    + by eapply Ledgered_delivers.
  - exists R. split_and!; [done|done|]. by eapply Ledgered_other.
Qed.

Lemma Mirrored_reachable s s' : rtc mstep s s' → Mirrored s → Mirrored s'.
Proof. induction 1 as [|x y z Hs _ IH]; [done|]. intros HI. apply IH. by eapply Mirrored_step. Qed.

(** Before the first message: a new queue and an engine without wants of the peer. *)
Lemma Mirrored_start n d e : Inv e → (∀ w, ¬ peer_wants e me w) → Mirrored (newMessageQueue n d, [], (e, ∅)).
Proof.
  intros HI Hn. exists ∅. split_and!; [apply Agrees_new|by split; [apply Message.wf_newMsg|]|].
  split; cbn; [done|by intros w ?%Hn|set_solver].
Qed.

(** Nothing pending: the ledger is what the manager told the queue. *)
Lemma Mirrored_drained q tr e served :
  Mirrored (q, tr, (e, served)) → closed q = false → pendingWorkCount q = 0 →
  Inv e ∧ (∀ w, peer_wants e me w → w ∈ PWMFacts.replay id tr) ∧
  ∀ w, w ∈ PWMFacts.replay id tr → peer_wants e me w ∨ w ∈ served.
Proof.
  intros (R & [Hq [?|[HR Ht]]] & _ & [HI H1 H2]) Hc Hw; cbn [fst snd] in *; [congruence|].
  assert (R = PWMFacts.replay id tr) as <-; [|done].
  rewrite <- Ht, HR. unfold tracked. rewrite pendingWorkCount_sets in Hw.
  assert (Pb q = ∅ ∧ Pp q = ∅ ∧ cancels q = ∅) as (-> & -> & ->).
  { split_and!; apply leibniz_equiv, size_empty_inv; lia. }
  set_solver.
Qed.

(** ** Concrete runs

    The wire decodes what was encoded, and no read of the blockstore fails. *)
Fixpoint deliver (evs : list mq_event) (x : Engine B Q SL * gset Want) : option (Engine B Q SL * gset Want) :=
  match evs with
  | [] => Some x
  | EvSend m :: evs =>
      match (BSM.getBlockSizes None (bsm x.1) (et_Want <$> msg_wants m) me).2 with
      | None => deliver evs (MessageReceived None me m x.1, x.2 ∖ list_to_set (et_Want <$> msg_wants m))
      | Some _ => None
      end
  | _ :: evs => deliver evs x
  end.

(** An action of the queue, or an answer that the engine's node has sent. *)
Inductive mact := MQueue (a : act) | MAnswer (m : Message.impl).

Definition run_mact (k : mact) (s : MessageQueue * list qcall * (Engine B Q SL * gset Want)) :=
  let '(q, tr, x) := s in
  match k with
  | MQueue a =>
      if act_ok id a q && act_clean a q then
        match run_act sizeCid a q with
        | Some (q', evs) => (λ x', (q', tr ++ act_calls a, x')) <$> deliver evs x
        | None => None
        end
      else None
  | MAnswer m => Some (q, tr, (MessageSent me m x.1, x.2 ∪ answered m))
  end.

Fixpoint run_macts (ks : list mact) (s : MessageQueue * list qcall * (Engine B Q SL * gset Want)) :=
  match ks with
  | [] => Some s
  | k :: ks => match run_mact k s with Some s' => run_macts ks s' | None => None end
  end.

Definition mact_ok (k : mact) : Prop := match k with MQueue _ => True | MAnswer m => Message.wf m end.

Lemma deliver_delivers evs x y : (∀ m, EvSend m ∈ evs → plain m) → deliver evs x = Some y → delivers evs x y.
Proof.
  revert x. induction evs as [|ev evs IH]; intros [e served] Hp; cbn [deliver]; [intros [= <-]; constructor|].
  assert (∀ m, EvSend m ∈ evs → plain m) as Hp' by (intros; apply Hp; by right).
  destruct ev as [| | | |m| | |]; try (intros Hd; apply dv_other; [done|by apply IH]); [].
  destruct (BSM.getBlockSizes _ _ _ _).2 eqn:E; [done|]. intros Hd.
  eapply (dv_send None m m); [apply Hp; by left|done|done|by apply IH].
Qed.

Lemma deliver_calls now c q x y : deliver (call now c q).2 x = Some y → x = y.
Proof.
  destruct c; cbn; try (by intros [= <-]). unfold AddCancels. case_match; [by intros [= <-]|].
  destruct (foldl _ _ _) as [? []]; by intros [= <-].
Qed.

Lemma run_mact_step k s s' :
  mact_ok k → plain (msg s.1.1) → run_mact k s = Some s' → mstep s s' ∧ plain (msg s'.1.1).
Proof.
  destruct s as [[q tr] [e served]], k as [a|m]; cbn [run_mact mact_ok fst snd]; intros Hk Hp.
  - destruct (act_ok id a q && act_clean a q) eqn:Hok; [|done]. apply andb_true_iff in Hok as [Ha Hcl].
    destruct (run_act sizeCid a q) as [[q' evs]|] eqn:E; [|done].
    destruct (deliver evs (e, served)) as [x'|] eqn:Ed; [|done]. intros [= <-]. cbn [fst].
    destruct (act_cases a) as [(now & c & ->)|(Hn & Hc & Hb)].
    + apply bool_decide_eq_true in Ha. cbn in E.
      assert (q' = (call now c q).1 ∧ evs = (call now c q).2) as [-> ->] by (by destruct (call now c q); simplify_eq).
      apply deliver_calls in Ed as <-. split; [|by apply plain_call]. apply ms_call; [done|by eapply act_clean_call].
    + rewrite Hc, app_nil_r. destruct (Hb q id) as [Hb1 Hb2]. rewrite Hb1 in Ha. apply negb_true_iff in Ha.
      destruct (plain_loop sizeCid a q _ Hp Hn E) as [Hp' Hev]. split; [|done].
      apply (ms_loop a q tr (e, served) x' (q', evs)); [done|done|by rewrite <- Hb2|done|by apply deliver_delivers].
  - intros [= <-]. split; [|done]. by apply ms_other, ot_answer.
Qed.

Lemma run_macts_steps ks s s' :
  Forall mact_ok ks → plain (msg s.1.1) → run_macts ks s = Some s' → rtc mstep s s'.
Proof.
  revert s. induction ks as [|k ks IH]; intros s Hok Hp; cbn; [by intros [= <-]|].
  apply Forall_cons in Hok as [Hk Hok]. destruct (run_mact k s) as [s1|] eqn:E; [|done]. intros Hr.
  destruct (run_mact_step k s s1 Hk Hp E) as [Hs Hp1]. eapply rtc_l; [exact Hs|by apply IH].
Qed.
End mirror.
End Mirror.
