(* ===== verification/Closing.v ===== *)
(** * Requests of clients and the end of a node (src/bitswap.go)

    [GetBlocks] on the node: a session is made and asked through the getter.
    Closing: [Close] and the end of the parent context close the process, and the
    goroutine of [New] then shuts down the sessions, cancels the context and
    shuts down the notifications, in this order, while everything else goes on. *)
From S2P Require Import Prelude Auth Wantlist Hex Proto Message Ledger ScoreLedger TaskMerger.
From S2P Require Import BlockstoreManager Engine EngineFacts EngineIndex EngineRun.
From S2P Require Import PeerWantManager PeerWantFacts PeerManager.
From S2P Require Import BlockPresence SessionInterest SessionWants SessionPeers SessionWantSender Session SessionFacts.
From S2P Require Import SessionManager SessionManagerFacts Bitswap BitswapFacts Delivery DeliveryFacts.
From Stdlib Require Import SpecFloat.
Open Scope Z_scope.
Set Default Goal Selector "1".

Module Life.
Section life.
Context {CL : CidLib} {GO : GoRuntime} {BL : BlockLib}.
Context {B : Type} {BS : Blockstore B}.
Context {Q : Type} {PTQ : PeerTaskQueue Q}.
Context {SL : Type} {SLI : ScoreLedger SL}.
Context {P : Type} {PS : PubSubLib P}.

(** Where the goroutine that binds context and process is. *)
Inductive stage := CAwait | CSessions | CCancel | CNotif | CEnded.

(** The node with its notifications and its context; [provSearchDelay] is the
    field of [Bitswap]. *)
Record life := mkLife {
  node : Bitswap.Bitswap B Q SL;
  notif : Delivery.delivery P;
  ctx_done : bool;
  closer : stage;
  provSearchDelay : Duration;
}.
Implicit Types (x : life) (s : Session.Session) (d : Delivery.delivery P).

Definition set_node n x := mkLife n (notif x) (ctx_done x) (closer x) (provSearchDelay x).
Definition set_notif d x := mkLife (node x) d (ctx_done x) (closer x) (provSearchDelay x).
Definition set_ctx b x := mkLife (node x) (notif x) b (closer x) (provSearchDelay x).
Definition set_closer c x := mkLife (node x) (notif x) (ctx_done x) c (provSearchDelay x).

Definition set_closing b (n : Bitswap.Bitswap B Q SL) : Bitswap.Bitswap B Q SL :=
  Bitswap.mkBitswap (Bitswap.engine n) (Bitswap.pm n) (Bitswap.sm n) (Bitswap.cnt n) (Bitswap.newBlocks n)
    (Bitswap.provideKeys n) (Bitswap.collecting n) (Bitswap.providing n) (Bitswap.provideEnabled n)
    (Bitswap.simulateDontHavesOnTimeout n) b.

(** ** Clients *)

(** [session.GetBlocks] on the session [ref]: the getter subscribes and calls the
    session back with the wants.  [clientDone] and [drop] are the choices of that
    callback; [None]: it blocks.  Returns the request, if there is one. *)
Definition session_GetBlocks (clientDone drop : bool) (ref : nat) (keys : list Want) x : option (option nat * life) :=
  let '(d, evs) := Delivery.AsyncGetBlocks keys (notif x) in
  let x := set_notif d x in
  foldl (λ o ev, r ← o;
    match ev with
    | Delivery.EvWant i ws =>
        m ← SM.with_object ref (Session.want_wants clientDone drop ws) (Bitswap.sm (node r.2));
        Some (Some i, set_node (Bitswap.set_sm m (node r.2)) r.2)
    | Delivery.EvCancel _ _ => Some r
    end) (Some (None, x)) evs.

(** [wait] is the first [NextWaitTime] of [rebroadcastDelay]. *)
Definition GetBlocks (clientDone drop : bool) (wait : Duration) (keys : list Want) x : option (nat * option nat * life) :=
  let '(ref, n) := Bitswap.NewSession (provSearchDelay x) wait (node x) in
  '(i, x) ← session_GetBlocks clientDone drop ref keys (set_node n x);
  Some (ref, i, x).

(** [GetBlock], up to the wait of [SyncGetBlock]. *)
Definition GetBlock (clientDone drop : bool) (wait : Duration) (w : Want) x : option (option nat * life) :=
  if negb (Cid_Defined (Want_Cid w)) then Some (None, x)
  else '(_, i, x) ← GetBlocks clientDone drop wait [w] x; Some (i, x).

(** Errors of the network are only logged. *)
Definition ReceiveError (err : error) x : life := x.

(** ** Closing *)

(** The process closes once. *)
Definition Close x : life := set_node (set_closing true (node x)) x.

(** The parent context ends; [CloseAfterContext] then closes the process. *)
Definition cancel_parent x : life := set_ctx true x.
Definition close_after_context x : option life := if ctx_done x then Some (Close x) else None.

(** One statement of the goroutine. *)
Definition closer_step x : option life :=
  match closer x with
  | CAwait => if Bitswap.closing (node x) then Some (set_closer CSessions x) else None
  | CSessions =>
      Some (set_closer CCancel (set_node (Bitswap.set_sm (SM.Shutdown (Bitswap.sm (node x))) (node x)) x))
  | CCancel => Some (set_closer CNotif (set_ctx true x))
  | CNotif => d ← Delivery.Shutdown (notif x); Some (set_closer CEnded (set_notif d x))
  | CEnded => None
  end.

(** How much the goroutine still has to do. *)
Definition rank (c : stage) : nat :=
  match c with CAwait => 4 | CSessions => 3 | CCancel => 2 | CNotif => 1 | CEnded => 0 end.
End life.
Arguments life {CL B Q SL} P.

(** ** Sessions stay shut down *)
Section sessions.
Context {CL : CidLib} {GO : GoRuntime} (rand : nat → spec_float).
Implicit Types (s : Session.Session) (m : SM.SessionManager).
Import Session.

(** [keeps_done m m']: a session whose context has ended in [m] is there in [m'], and its
    context has ended. *)
Definition ended m (ref : nat) : Prop := ∃ s, SM.objects m !! ref = Some s ∧ ses_ctxDone s = true.
Definition keeps_done m m' : Prop := ∀ ref, ended m ref → ended m' ref.

#[global] Instance keeps_done_preorder : PreOrder keeps_done.
Proof. split; [by intros m ref|]. intros m1 m2 m3 H1 H2 ref H. by apply H2, H1. Qed.

Lemma enqueue_done b o s s' : enqueue b o s = Some s' → ses_ctxDone s' = ses_ctxDone s.
Proof. unfold enqueue. repeat case_match; intros; by simplify_eq. Qed.
Lemma nonBlocking_done o s : ses_ctxDone (nonBlockingEnqueue o s) = ses_ctxDone s.
Proof. unfold nonBlockingEnqueue. by case_match. Qed.
Lemma on_sender_done f s s' : on_sender f s = Some s' → ses_ctxDone s' = ses_ctxDone s.
Proof. unfold on_sender. case_match; intros; by simplify_eq. Qed.
Lemma broadcast_done now ws s : ses_ctxDone (broadcast now ws s).1 = ses_ctxDone s.
Proof. unfold broadcast, resetIdleTick. destruct ws as [ws|]; [|destruct (SW.PrepareBroadcast now (sw s))]; by repeat case_match. Qed.
Lemma receive_done dr ds p ks hs dhs sim s s' : ReceiveFrom dr ds p ks hs dhs sim s = Some s' → ses_ctxDone s' = ses_ctxDone s.
Proof.
  unfold ReceiveFrom. repeat (case_match; try done); intros; simplify_eq.
  - by eapply on_sender_done.
  - etrans; [by eapply enqueue_done|by eapply on_sender_done].
Qed.
Lemma handleReceive_done now ks sim s : ses_ctxDone (handleReceive now ks sim s).2 = ses_ctxDone s.
Proof. unfold handleReceive, resetIdleTick. destruct (SW.BlocksReceived now ks (sw s)) as [[? ?] ?]. by repeat case_match. Qed.
Lemma wantBlocks_done b now ws sim s sim' s' es :
  wantBlocks b now ws sim s = Some (sim', s', es) → ses_ctxDone s' = ses_ctxDone s.
Proof.
  unfold wantBlocks. destruct (0 <? len ws) eqn:E.
  - destruct (on_sender _ _) as [s1|] eqn:Es; [|done]. apply on_sender_done in Es. cbn in Es.
    destruct (SPM.PeersDiscovered _); [intros; by simplify_eq|].
    destruct (SW.GetNextWants now (sw s1)) as [? ?]. intros; by simplify_eq.
  - destruct (SPM.PeersDiscovered _); [intros; by simplify_eq|].
    destruct (SW.GetNextWants now (sw s)) as [? ?]. intros; by simplify_eq.
Qed.

Lemma done_local a b : SessionFacts.local_step rand a b → ses_ctxDone a.2 = true → ses_ctxDone b.2 = true.
Proof.
  intros Hs Hd. destruct Hs as [dr ds p ks hs dhs sim s s' H|cd dr ws sim s s' H|dr cs sim s s' H|i sim s s' H|dr p w sim s s' H
    |p b sim s|i sim s s' H|bpm sim s s' H|sim s s' H|dr now sim s sim' s' es H|now sim s s' es H|i wait sim s s' es H
    |d sim s|sim s|sim s]; cbn [snd] in *; try done.
  - apply receive_done in H. congruence.
  - unfold want_wants in H. destruct (cd && dr); [by simplify_eq|].
    destruct (enqueue _ _ s) eqn:E; [apply enqueue_done in E|destruct cd]; simplify_eq; congruence.
  - apply enqueue_done in H. congruence.
  - unfold deliver_op in H. repeat case_match; by simplify_eq.
  - apply on_sender_done in H. congruence.
  - apply on_sender_done in H. congruence.
  - unfold run_sender in H. case_match; [|done]. simplify_eq.
    apply (foldl_inv_simple (λ s, ses_ctxDone s = true)); [done|]. intros s1 e _ H1.
    destruct e; cbn; try done; unfold onWantsSent, onPeersExhausted; by rewrite nonBlocking_done.
  - apply on_sender_done in H. congruence.
  - unfold run_op in H. destruct (incoming s) as [|o rest]; [done|]. set (s0 := set_incoming rest s) in H.
    assert (ses_ctxDone s0 = true) as H0 by done. clearbody s0. destruct (op_op o).
    + pose proof (handleReceive_done now (op_wants o) sim s0) as E. destruct (handleReceive _ _ _ _). simplify_eq. cbn in E. congruence.
    + apply wantBlocks_done in H. congruence.
    + destruct (on_sender _ _) eqn:E; [|done]. apply on_sender_done in E. simplify_eq. cbn in E. congruence.
    + pose proof (broadcast_done now (Some (op_wants o)) s0) as E. destruct (broadcast _ _ _). simplify_eq. cbn in E. congruence.
    + by simplify_eq.
  - unfold run_idle in H. case_match; [|done]. pose proof (broadcast_done now None (set_idle None s)) as E.
    destruct (broadcast _ _ _). simplify_eq. cbn in E. congruence.
  - unfold run_periodic, handlePeriodicSearch in H. repeat case_match; by simplify_eq.
Qed.

Lemma with_object_done ref f m m' :
  (∀ s s', f s = Some s' → ses_ctxDone s = true → ses_ctxDone s' = true) →
  SM.with_object ref f m = Some m' → keeps_done m m' ∧ SM.sessions m' = SM.sessions m.
Proof.
  intros Hf. unfold SM.with_object. destruct (SM.objects m !! ref) as [s|] eqn:E; [|done].
  destruct (f s) as [s'|] eqn:Es; [|done]. intros [= <-]. split; [|done]. intros r (s1 & H1 & H2). cbn.
  destruct (decide (r = ref)) as [->|Hne].
  - simplify_eq. exists s'. cbn. rewrite list_lookup_insert_eq by by eapply lookup_lt_Some. eauto.
  - exists s1. cbn. by rewrite list_lookup_insert_ne.
Qed.

(** The sessions the manager knows. *)
Definition registered m : list nat := match SM.sessions m with Some l => (range l).*2 | None => [] end.

Lemma Shutdown_sessions m :
  (∀ ref, ref ∈ registered m → is_Some (SM.objects m !! ref)) →
  SM.sessions (SM.Shutdown m) = None ∧ keeps_done m (SM.Shutdown m) ∧
  ∀ ref, ref ∈ registered m → ended (SM.Shutdown m) ref.
Proof.
  unfold SM.Shutdown. fold (registered m). generalize (registered m) as refs. intros refs Hok.
  set (m0 := SM.set_sessions None m).
  assert (SM.sessions m0 = None ∧ keeps_done m m0 ∧ ∀ ref, ref ∈ refs → is_Some (SM.objects m0 !! ref)) as (H1 & H2 & H3).
  { split_and!; [done|by intros ref H|exact Hok]. }
  clearbody m0. assert (∀ m1, keeps_done m m1 → SM.sessions m1 = None → (∀ ref, ref ∈ refs → is_Some (SM.objects m1 !! ref)) →
    let m2 := foldl (λ sm ref, default sm (SM.with_object ref (λ s, Some (Shutdown s)) sm)) m1 refs in
    SM.sessions m2 = None ∧ keeps_done m1 m2 ∧ ∀ ref, ref ∈ refs → ended m2 ref) as Hloop.
  { clear. induction refs as [|r refs IH]; intros m1 Hk Hs Ho; cbn zeta; cbn [foldl]; [split_and!; [done|done|by intros ref ?%elem_of_nil]|].
    destruct (Ho r ltac:(by left)) as [s Es].
    set (m2 := default m1 (SM.with_object r (λ s, Some (Shutdown s)) m1)).
    assert (m2 = SM.set_objects (<[r := Shutdown s]> (SM.objects m1)) m1) as E2 by (unfold m2, SM.with_object; by rewrite Es).
    assert (SM.with_object r (λ s, Some (Shutdown s)) m1 = Some m2) as Ew by (unfold SM.with_object; by rewrite Es, E2).
    destruct (with_object_done r (λ s, Some (Shutdown s)) m1 m2) as [K1 K2]; [by intros ? ? [= <-]|done|].
    assert (ended m2 r) as Hr.
    { exists (Shutdown s). rewrite E2. cbn. split; [|done]. apply list_lookup_insert_eq. by eapply lookup_lt_Some. }
    destruct (IH m2) as (I1 & I2 & I3); [by etrans|congruence| |].
    { intros ref Hin. rewrite E2. cbn. destruct (decide (ref = r)) as [->|Hne].
      - rewrite list_lookup_insert_eq by by eapply lookup_lt_Some. eauto.
      - rewrite list_lookup_insert_ne by done. apply Ho. by right. }
    split_and!; [done|by etrans|]. intros ref [->|Hin]%elem_of_cons; [by apply I2|by apply I3]. }
  destruct (Hloop m0) as (I1 & I2 & I3); [done|done|done|]. split_and!; [done|by etrans|done].
Qed.

Lemma notify_done dr ds ids p blks haves dhs m m' b :
  SM.notify dr ds ids p blks haves dhs m = Some (m', b) → keeps_done m m' ∧ SM.sessions m' = SM.sessions m.
Proof.
  revert m. induction ids as [|id ids IH]; intros m; cbn [SM.notify]; [by intros [= <- <-]|].
  destruct (SM.sessions m) as [l|] eqn:El; [|intros [= <- <-]; by rewrite El].
  destruct (l !! id) as [ref|]; [|rewrite <- El; apply IH].
  destruct (SM.with_object _ _ m) as [m1|] eqn:E; [|done]. intros H.
  apply with_object_done in E as [K1 K2]; [|intros s s' Hs Hd; apply receive_done in Hs; congruence].
  destruct (IH m1 H) as [K3 K4]. split; [by etrans|congruence].
Qed.

Lemma receive_manager_done dr ds p blks haves dhs m m' es :
  SM.ReceiveFrom dr ds p blks haves dhs m = Some (m', es) → keeps_done m m' ∧ SM.sessions m' = SM.sessions m.
Proof.
  unfold SM.ReceiveFrom. set (m0 := SM.set_bpm _ m). destruct (SM.notify _ _ _ _ _ _ _ m0) as [[m1 b]|] eqn:E; [|done].
  apply notify_done in E as [K1 K2]. destruct b; intros [= <- <-]; (split; [|done]); (etrans; [|exact K1]); by intros ref H.
Qed.

Lemma manager_done m rm m' rm' :
  SMFacts.step rand (m, rm) (m', rm') → SMFacts.Inv m rm → keeps_done m m'.
Proof.
  intros Hs HI. inversion Hs as [d wait sm0 rm0 Hb E1 E2|ref s sim' s' sm0 rm0 Ho Hl E1 E2|dr ds p blks haves dhs sm0 sm1 es rm0 Hr E1 E2
    |ref s sid ws sm0 rm0 Ho Hn He E1 E2|ref s es sm0 rm0 Ho Hf E1 E2|sm0 rm0 E1 E2]; subst.
  - intros ref (s & H1 & H2). exists s. split; [|done]. unfold SM.NewSession, SM.GetNextSessionID. cbn.
    destruct (SM.sessions m); cbn; by apply lookup_app_l_Some.
  - intros r (s1 & H1 & H2). destruct (decide (r = ref)) as [->|Hne].
    + simplify_eq. exists s'. cbn. rewrite list_lookup_insert_eq by by eapply lookup_lt_Some. split; [done|].
      by apply (done_local _ _ Hl).
    + exists s1. cbn. by rewrite list_lookup_insert_ne.
  - by eapply receive_manager_done.
  - unfold SM.CancelSessionWants. destruct (SIM.RemoveSessionInterested _ _ _). by intros r H.
  - unfold SM.RemoveSession. destruct (SIM.RemoveSession _ _) as [ks sim]. cbn. by destruct (SM.sessions m); intros r H.
  - apply Shutdown_sessions. intros ref Hin. unfold registered in Hin. destruct (SM.sessions m) as [l|] eqn:El; [|by apply elem_of_nil in Hin].
    apply list_elem_of_fmap in Hin as ([id r] & -> & Hin%elem_of_range). cbn.
    destruct (SMFacts.sm_map _ _ HI _ _ _ El Hin) as (s & -> & _). eauto.
Qed.
End sessions.

(** ** The node *)
Section node.
Context {CL : CidLib} {GO : GoRuntime} {BL : BlockLib} (rand : nat → spec_float).
Context {B : Type} {BS : Blockstore B} {Q : Type} {PTQ : PeerTaskQueue Q} {SL : Type} {SLI : ScoreLedger SL}.
Implicit Types (bs : Bitswap.Bitswap B Q SL).
Import Bitswap.

(** What survives every step of the node. *)
Definition lasting bs bs' : Prop := keeps_done (sm bs) (sm bs') ∧ closing bs' = closing bs.

#[global] Instance lasting_preorder : PreOrder lasting.
Proof. split; [by intros bs|]. intros b1 b2 b3 [] []. split; [by etrans|congruence]. Qed.

Lemma lasting_same bs bs' : sm bs' = sm bs → closing bs' = closing bs → lasting bs bs'.
Proof. intros E1 E2. split; [by rewrite E1|done]. Qed.

Lemma lasting_pm smes bs : lasting bs (on_pm_all smes bs).1.
Proof. destruct (BitswapFacts.on_pm_all_frame smes bs) as [E _]. rewrite E. by apply lasting_same. Qed.

Lemma lasting_receive dr ds drop cerr from blks haves dhs bs bs' es err :
  receiveBlocksFrom dr ds drop cerr from blks haves dhs bs = Some (bs', es, err) → lasting bs bs'.
Proof.
  unfold receiveBlocksFrom. destruct (closing bs) eqn:Hc; [by intros [= <- _ _]|].
  destruct (if 0 <? len _ then _ else _) as [store [e|]]; [intros [= <- _ _]; by apply lasting_same|].
  destruct (SM.ReceiveFrom _ _ _ _ _ _ _) as [[m smes]|] eqn:Es; [|done].
  apply receive_manager_done in Es as [K _].
  pose proof (lasting_pm smes (set_sm m (set_blockstore store bs))) as [K1 E1].
  destruct (on_pm_all smes _) as [bs1 es2]. cbn [fst] in *. set (bs2 := set_engine _ bs1).
  assert (lasting bs bs2) as Hl. { split; [etrans; [exact K|exact K1]|exact E1]. }
  clearbody bs2. destruct (provideEnabled bs2); [|by intros [= <- _ _]].
  destruct (provide_all drop _ bs2) as [[bs3 ok]|] eqn:Ep; [|done].
  apply BitswapFacts.provide_all_frame in Ep as (ks & -> & _).
  assert (lasting bs (set_newBlocks (newBlocks bs2 ++ ks) bs2)) by (etrans; [exact Hl|by apply lasting_same]).
  destruct ok; by intros [= <- _ _].
Qed.

Lemma lasting_step bs rm bs' rm' :
  BitswapFacts.step rand (bs, rm) (bs', rm') → BitswapFacts.Inv bs rm → lasting bs bs'.
Proof.
  intros Hs HI. inversion Hs; subst.
  - unfold ReceiveMessage in *. set (bs0 := if 0 <? _ then _ else _) in *.
    assert (lasting bs bs0) as H0 by (unfold bs0; destruct (0 <? len _); by apply lasting_same).
    clearbody bs0. destruct (_ || _); [|by simplify_eq].
    destruct (receiveBlocksFrom _ _ _ _ _ _ _ _ bs0) as [[[bs2 es2] err]|] eqn:E; [|done]. simplify_eq.
    etrans; [exact H0|by eapply lasting_receive].
  - by eapply lasting_receive.
  - unfold onDontHaveTimeout in *. case_match; [|by simplify_eq].
    destruct (SM.ReceiveFrom _ _ _ _ _ _ _) as [[m smes]|] eqn:E; [|done]. apply receive_manager_done in E as [K _].
    pose proof (lasting_pm smes (set_sm m bs)) as [K1 E1].
    destruct (on_pm_all smes (set_sm m bs)) as [bs1 es1]. simplify_eq. split; [etrans; [exact K|exact K1]|exact E1].
  - unfold PeerConnected. destruct (PM.Connected _ _). by apply lasting_same.
  - unfold PeerDisconnected. destruct (PM.Disconnected _ _). by apply lasting_same.
  - split; [|done]. cbn. eapply (manager_done rand); [done|apply HI].
  - by apply lasting_same.
  - by apply lasting_same.
  - unfold taskWorker_step, sendBlocks. case_match; by apply lasting_same.
  - by apply lasting_same.
  - unfold collect_step in *. case_match; simplify_eq. by apply lasting_same.
  - unfold offer_step in *. repeat case_match; simplify_eq. by apply lasting_same.
  - unfold take_step in *. repeat case_match; simplify_eq. by apply lasting_same.
  - unfold announce_step in *. repeat case_match; simplify_eq. by apply lasting_same.
  - unfold done_step in *. case_match; simplify_eq. by apply lasting_same.
Qed.
End node.

(** ** The notifications *)
Section notif.
Context {CL : CidLib} {GO : GoRuntime} {P : Type} {PS : PubSubLib P} {PL : PubSubLaws P}.
Import Delivery DeliveryFacts.
Implicit Types (d : delivery P) (r : request).

(** Once the pub/sub is closed, the library has closed the channel of every
    request that is still served. *)
Definition sealed d : Prop :=
  closed d = true → ∀ i r, requests d !! i = Some r → forwarding r = true → valuesClosed r = true.

(** The request can be ended: its goroutines can go on. *)
Lemma sealed_moves d i r :
  sealed d → closed d = true → requests d !! i = Some r → forwarding r = true →
  is_Some (forward_drop i d) ∨ is_Some (forward_end i d).
Proof.
  intros Hs Hc Hi Hf. specialize (Hs Hc i r Hi Hf). destruct (valuesCh r) as [|b rest] eqn:Ev.
  - right. unfold forward_end. rewrite Hi. cbn. rewrite Hf, Hs, Ev. cbn. rewrite orb_true_r. cbn. rewrite Hc. eauto.
  - left. unfold forward_drop, with_request. rewrite Hc, Hi. cbn. rewrite Hf, Ev. cbn. eauto.
Qed.

Lemma run_effects_closed es d d' : run_effects es d = Some d' → closed d' = closed d.
Proof.
  revert d. induction es as [|e es IH]; intros d; [by intros [= <-]|]. rewrite run_effects_cons.
  destruct (requests d !! target e) as [r|]; [|done]. destruct (run_effect e r) as [r'|]; [|done]. cbn.
  intros H%IH. done.
Qed.

Lemma Shutdown_seals d d' h : Inv d h → sealed d → Shutdown d = Some d' → sealed d' ∧ closed d' = true.
Proof.
  intros HI Hs. unfold Shutdown. destruct (closed d) eqn:Hc; [by intros [= <-]|].
  destruct (ps_Shutdown (wrapped d)) as [p es] eqn:Ep.
  assert (es = (ps_Shutdown (wrapped d)).2) as Ees by by rewrite Ep. intros Hr.
  split; [|apply run_effects_closed in Hr; by rewrite Hr]. intros _.
  assert (∀ i r, requests d !! i = Some r →
    run_list (on i es) r = Some (set_values (valuesCh r) true r) ∨
    (on i es = [] ∧ (forwarding r = true → valuesClosed r = true))) as Hcases.
  { intros i r Hi. pose proof (inv_requests _ _ HI i r Hi) as HR. destruct (sub_cases _ _ _ _ _ HR) as [[t Ht]|Hn].
    - left. eapply run_close; [done|done|]. rewrite Ees. by eapply eff_Shutdown_some.
    - right. split; [rewrite Ees; by apply eff_Shutdown_none|]. intros Hf.
      destruct (valuesClosed r) eqn:Ev; [done|]. destruct (ri_open _ _ _ _ HR Hc Hf Ev) as [t Ht]. by destruct (Hn t). }
  destruct (run_effects_spec es (mkDelivery p true (requests d) (next d))) as (R & E & HR).
  { intros ch Hch. cbn. destruct (requests d !! ch) as [r|] eqn:Er.
    - exists r. split; [done|]. destruct (Hcases ch r Er) as [->|[E _]]; [eauto|done].
    - destruct Hch. rewrite Ees. apply eff_Shutdown_none. intros t. by apply (inv_none _ _ HI). }
  rewrite E in Hr. injection Hr as <-. intros i r'. cbn. rewrite HR. cbn.
  destruct (requests d !! i) as [r|] eqn:Er; [cbn|done].
  destruct (Hcases i r Er) as [->|[E1 H1]]; [by intros [= <-]|]. rewrite E1. intros [= <-]. exact H1.
Qed.

(** A change of one request that leaves its channel from the library alone. *)
Lemma sealed_request i f d d' :
  (∀ r r', f r = Some r' → valuesClosed r' = valuesClosed r ∧ forwarding r' = forwarding r) →
  with_request i f d = Some d' → sealed d → sealed d'.
Proof.
  intros Hf. unfold with_request. destruct (requests d !! i) as [r|] eqn:Er; [cbn|done].
  destruct (f r) as [r'|] eqn:E; [cbn|done]. intros [= <-] Hs Hc j r1. cbn. destruct (Hf _ _ E) as [E1 E2].
  intros [[<- <-]|[_ Hj]]%lookup_insert_Some; [|by apply (Hs Hc j)]. rewrite E1, E2. by apply (Hs Hc i).
Qed.

Lemma sealed_step d h d' h' : step (d, h) (d', h') → Inv d h → sealed d → sealed d'.
Proof.
  intros Hst HI Hs. inversion Hst as [b d0 d1 h0 Hp|d0 d1 h0 Hsh|wants d0 h0|i d0 d1 h0 H|i d0 d1 h0 H|i d0 d1 h0 H|i d0 d1 h0 H
    |i d0 d1 h0 H|i d0 d1 es h0 H|i d0 d1 h0 H|i d0 d1 h0 H]; subst.
  - unfold Publish in Hp. destruct (closed d) eqn:Hc; [by simplify_eq|]. destruct (ps_Pub _ _ _) as [p es].
    apply run_effects_closed in Hp. cbn in Hp. intros H. congruence.
  - by eapply Shutdown_seals.
  - unfold AsyncGetBlocks. destruct (_ =? _); [done|]. cbn. unfold Subscribe. intros Hc j r. cbn in *.
    rewrite Hc, andb_false_r. intros [[<- <-]|[_ Hj]]%lookup_insert_Some; [done|by apply (Hs Hc j)].
  - eapply sealed_request; [|exact H|done]. intros r r' E; cbn in E. destruct (forwarding r) eqn:Ef; [|done].
    destruct (valuesCh r); [done|]. destruct (room _ _); [|done]. by injection E as <-.
  - unfold forward_drop in H. case_match; [|done]. eapply sealed_request; [|exact H|done].
    intros r r' E; cbn in E; repeat case_match; by simplify_eq.
  - unfold forward_end in H. destruct (requests d !! i) as [r|] eqn:Er; [cbn in H|done]. case_match; [|done].
    destruct (closed d) eqn:Hc.
    + injection H as <-. intros _ j r1. cbn. intros [[<- <-]|[_ Hj]]%lookup_insert_Some; [done|by apply (Hs Hc j)].
    + destruct (ps_Unsub _ _) as [p es]. apply run_effects_closed in H. cbn in H. intros Hc'. congruence.
  - eapply sealed_request; [|exact H|done]. intros r r' E; cbn in E; repeat case_match; by simplify_eq.
  - eapply sealed_request; [|exact H|done]. intros r r' E; cbn in E; repeat case_match; by simplify_eq.
  - unfold handle_end in H. destruct (requests d !! i) as [r|] eqn:Er; [cbn in H|done]. case_match; [|done].
    injection H as <- _. intros Hc j r1. cbn. intros [[<- <-]|[_ Hj]]%lookup_insert_Some; [cbn; by apply (Hs Hc i)|by apply (Hs Hc j)].
  - eapply sealed_request; [|exact H|done]. by intros r r' [= <-].
  - eapply sealed_request; [|exact H|done]. by intros r r' [= <-].
Qed.

Lemma closed_step d h d' h' : step (d, h) (d', h') → closed d = true → closed d' = true.
Proof.
  intros Hst Hc. inversion Hst as [b d0 d1 h0 Hp|d0 d1 h0 Hsh|wants d0 h0|i d0 d1 h0 H|i d0 d1 h0 H|i d0 d1 h0 H|i d0 d1 h0 H
    |i d0 d1 h0 H|i d0 d1 es h0 H|i d0 d1 h0 H|i d0 d1 h0 H]; subst.
  - unfold Publish in Hp. rewrite Hc in Hp. by simplify_eq.
  - unfold Shutdown in Hsh. rewrite Hc in Hsh. by simplify_eq.
  - unfold AsyncGetBlocks. by destruct (_ =? _).
  - apply with_request_Some in H as (r & r' & _ & _ & ->). done.
  - unfold forward_drop in H. rewrite Hc in H. apply with_request_Some in H as (r & r' & _ & _ & ->). done.
  - unfold forward_end in H. destruct (requests d !! i); [cbn in H|done]. case_match; [|done]. rewrite Hc in H. by simplify_eq.
  - apply with_request_Some in H as (r & r' & _ & _ & ->). done.
  - apply with_request_Some in H as (r & r' & _ & _ & ->). done.
  - unfold handle_end in H. destruct (requests d !! i); [cbn in H|done]. case_match; [|done]. by simplify_eq.
  - apply with_request_Some in H as (r & r' & _ & _ & ->). done.
  - apply with_request_Some in H as (r & r' & _ & _ & ->). done.
Qed.
End notif.

(** ** Runs *)
Section runs.
Context {CL : CidLib} {GO : GoRuntime} {BL : BlockLib} (rand : nat → spec_float).
Context {B : Type} {BS : Blockstore B} {Q : Type} {PTQ : PeerTaskQueue Q} {SL : Type} {SLI : ScoreLedger SL}.
Context {P : Type} {PS : PubSubLib P} {PL : PubSubLaws P} {KI : Inj (=) (=) Cid_KeyString}.
Abbreviation life := (life (B := B) (Q := Q) (SL := SL) P).
Implicit Types (x : life) (h : list AuthBlock) (rm : gset Z) (T : list nat).

Definition manager x : SM.SessionManager := Bitswap.sm (node x).

(** All that happens to the node, [rm]: the sessions removed, [h]: the blocks
    published, [T]: the sessions that the goroutine has shut down.  Only the
    goroutine shuts the session manager down. *)
Inductive step : relation (life * gset Z * list AuthBlock * list nat) :=
| l_node n rm' x rm h T :
    BitswapFacts.step rand (node x, rm) (n, rm') →
    (SM.sessions (Bitswap.sm n) = None ↔ SM.sessions (manager x) = None) →
    step (x, rm, h, T) (set_node n x, rm', h, T)
| l_notif d h' x rm h T :
    DeliveryFacts.step (notif x, h) (d, h') → (Delivery.closed d = true ↔ Delivery.closed (notif x) = true) →
    step (x, rm, h, T) (set_notif d x, rm, h', T)
| l_get clientDone drop wait keys ref i x x' rm h T :
    SM.sessID (manager x) + 1 < 2 ^ 64 → GetBlocks clientDone drop wait keys x = Some (ref, i, x') →
    step (x, rm, h, T) (x', rm, h, T)
| l_Close x rm h T : step (x, rm, h, T) (Close x, rm, h, T)
| l_parent x rm h T : step (x, rm, h, T) (cancel_parent x, rm, h, T)
| l_after x x' rm h T : close_after_context x = Some x' → step (x, rm, h, T) (x', rm, h, T)
| l_closer x x' rm h T :
    closer_step x = Some x' →
    step (x, rm, h, T) (x', rm, h, match closer x with CSessions => registered (manager x) | _ => T end).

(** A node whose goroutine has come as far as [closer]. *)
Record Inv x rm h T : Prop := mkInv {
  l_nodes : BitswapFacts.Inv (node x) rm;
  l_notifs : DeliveryFacts.Inv (notif x) h;
  l_sealed : sealed (notif x);
  l_closing : closer x ≠ CAwait → Bitswap.closing (node x) = true;
  l_sessions : SM.sessions (manager x) = None ↔ (rank (closer x) ≤ 2)%nat;
  l_ctx : (rank (closer x) ≤ 1)%nat → ctx_done x = true;
  l_closed : Delivery.closed (notif x) = true ↔ closer x = CEnded;
  l_told : ∀ ref, ref ∈ T → ended (manager x) ref;
}.

(** Steps of the node's components. *)
Lemma Inv_nodes x rm h T n rm' :
  Inv x rm h T → BitswapFacts.Inv n rm' → lasting (node x) n →
  (SM.sessions (Bitswap.sm n) = None ↔ SM.sessions (manager x) = None) → Inv (set_node n x) rm' h T.
Proof.
  intros [H1 H2 H3 H4 H5 H6 H7 H8] Hn [K E] Hs. split; cbn; try done.
  - rewrite E. done.
  - unfold manager. cbn. by rewrite Hs.
  - intros ref Hr. by apply K, H8.
Qed.

(** What [GetBlocks] does: a new session, a subscription and one operation for the
    session. *)
Lemma GetBlocks_effect cd dr wait keys ref i x x' rm :
  SM.sessID (manager x) + 1 < 2 ^ 64 → GetBlocks cd dr wait keys x = Some (ref, i, x') →
  notif x' = (Delivery.AsyncGetBlocks keys (notif x)).1 ∧ rtc (BitswapFacts.step rand) (node x, rm) (node x', rm) ∧
  (SM.sessions (manager x') = None ↔ SM.sessions (manager x) = None) ∧
  x' = set_node (node x') (set_notif (notif x') x).
Proof.
  intros Hid. unfold GetBlocks, Bitswap.NewSession.
  pose proof (SMFacts.st_New rand (provSearchDelay x) wait (manager x) rm Hid) as Hnew. unfold manager in *.
  assert (SM.sessions (SM.NewSession (provSearchDelay x) wait (Bitswap.sm (node x))).2 = None ↔
    SM.sessions (Bitswap.sm (node x)) = None) as Es.
  { unfold SM.NewSession, SM.GetNextSessionID. cbn. by destruct (SM.sessions (Bitswap.sm (node x))) eqn:E; cbn; rewrite ?E. }
  destruct (SM.NewSession _ _ _) as [ref0 m]. cbn [snd] in *. unfold session_GetBlocks.
  set (n1 := Bitswap.set_sm m (node x)) in *.
  assert (BitswapFacts.step rand (node x, rm) (n1, rm)) as Hs1 by by apply BitswapFacts.st_sessions.
  cbn [notif set_node]. unfold Delivery.AsyncGetBlocks. destruct (len keys =? 0).
  - cbn. intros [= <- <- <-]. cbn. split_and!; [done|by apply rtc_once|done|done].
  - cbn. destruct (SM.with_object ref0 _ m) as [m2|] eqn:Eo; [|done]. cbn. intros [= <- <- <-]. cbn.
    unfold SM.with_object in Eo. destruct (SM.objects m !! ref0) as [s|] eqn:Er; [|done].
    destruct (Session.want_wants cd dr keys s) as [s'|] eqn:Ew; [|done]. injection Eo as <-.
    split_and!; [done| |exact Es|done].
    eapply rtc_l; [exact Hs1|]. apply rtc_once.
    change (Bitswap.set_sm ?a n1) with (Bitswap.set_sm a n1).
    replace (SM.set_objects (<[ref0:=s']> (SM.objects m)) m) with
      (SM.set_sim (SM.sessionInterestManager (Bitswap.sm n1)) (SM.set_objects (<[ref0:=s']> (SM.objects (Bitswap.sm n1))) (Bitswap.sm n1))) by done.
    apply BitswapFacts.st_sessions. eapply SMFacts.st_local; [exact Er|]. by eapply SessionFacts.st_want.
Qed.

Lemma lasting_steps (a b : Bitswap.Bitswap B Q SL * gset Z) :
  rtc (BitswapFacts.step rand) a b → BitswapFacts.Inv a.1 a.2 → lasting a.1 b.1 ∧ BitswapFacts.Inv b.1 b.2.
Proof.
  induction 1 as [|[n1 r1] [n2 r2] c Hs _ IH]; intros HI; [done|]. pose proof (BitswapFacts.node_step _ _ _ Hs HI) as HI2.
  destruct (IH HI2) as [H1 H2]. split; [|done]. etrans; [by eapply lasting_step|exact H1].
Qed.

Lemma Inv_closer x x' rm h T :
  Inv x rm h T → closer_step x = Some x' →
  Inv x' rm h (match closer x with CSessions => registered (manager x) | _ => T end).
Proof.
  intros HI. pose proof HI as [H1 H2 H3 H4 H5 H6 H7 H8]. unfold closer_step. destruct (closer x) eqn:Ec.
  - destruct (Bitswap.closing (node x)) eqn:E; [|done]. intros [= <-]. split; cbn; try done.
    + rewrite H5. cbn. lia.
    + lia.
    + rewrite H7. done.
  - assert (∀ ref, ref ∈ registered (manager x) → is_Some (SM.objects (manager x) !! ref)) as Hreg.
    { intros ref Hin. unfold registered in Hin. destruct (SM.sessions (manager x)) as [l|] eqn:El; [|by apply elem_of_nil in Hin].
      apply list_elem_of_fmap in Hin as ([id r] & -> & Hin%elem_of_range).
      destruct (SMFacts.sm_map _ _ (BitswapFacts.node_sessions _ _ H1) _ _ _ El Hin) as (s & Hs & _). by exists s. }
    destruct (Shutdown_sessions (manager x) Hreg) as (S1 & S2 & S3). intros [= <-]. split; cbn; try done.
    + pose proof (BitswapFacts.st_sessions rand (SM.Shutdown (Bitswap.sm (node x))) (node x) rm rm (SMFacts.st_Shutdown _ _ _)) as Hs.
      by apply (BitswapFacts.node_step _ _ _ Hs).
    + intros _. by apply H4.
    + lia.
    + rewrite H7. done.
  - intros [= <-]. split; cbn; try done.
    + intros _. by apply H4.
    + rewrite H5. cbn. lia.
    + rewrite H7. done.
  - destruct (Delivery.Shutdown (notif x)) as [d|] eqn:Ed; [cbn|done]. intros [= <-].
    destruct (Shutdown_seals _ _ _ H2 H3 Ed) as [Hs Hc]. split; cbn; try done.
    + destruct (DeliveryFacts.Shutdown_ok (notif x) h H2) as (d' & E & ?). by simplify_eq.
    + intros _. by apply H4.
    + rewrite H5. cbn. lia.
    + intros _. apply H6. cbn. lia.
  - done.
Qed.

Lemma Inv_Close x rm h T : Inv x rm h T → Inv (Close x) rm h T.
Proof. intros [[H1 H1'] H2 H3 H4 H5 H6 H7 H8]. split; cbn; try done. Qed.

Lemma life_step a b : step a b → Inv a.1.1.1 a.1.1.2 a.1.2 a.2 → Inv b.1.1.1 b.1.1.2 b.1.2 b.2.
Proof.
  destruct 1 as [n rm' x rm h T Hs Hn|d h' x rm h T Hs Hc|cd dr wait keys ref i x x' rm h T Hid Hg|x rm h T|x rm h T|x x' rm h T Hx|x x' rm h T Hx];
    cbn [fst snd]; intros HI.
  - pose proof (l_nodes _ _ _ _ HI) as HB. eapply Inv_nodes; [done|by apply (BitswapFacts.node_step _ _ _ Hs)|by eapply lasting_step|done].
  - destruct HI as [H1 H2 H3 H4 H5 H6 H7 H8]. split; cbn; try done.
    + exact (DeliveryFacts.delivery_step _ _ Hs H2).
    + by eapply sealed_step.
    + by rewrite Hc.
  - destruct (GetBlocks_effect _ _ _ _ _ _ _ _ rm Hid Hg) as (E1 & E2 & E3 & E4).
    destruct (lasting_steps _ _ E2 (l_nodes _ _ _ _ HI)) as [K HB]. cbn [fst snd] in K, HB.
    rewrite E4. eapply (Inv_nodes (set_notif (notif x') x) rm); [|exact HB|exact K|exact E3].
    pose proof (DeliveryFacts.st_get keys (notif x) h) as Hs. rewrite <- E1 in Hs.
    destruct HI as [H1 H2 H3 H4 H5 H6 H7 H8]. split; cbn; try done.
    + exact (DeliveryFacts.delivery_step _ _ Hs H2).
    + by eapply sealed_step.
    + rewrite E1, <- H7. unfold Delivery.AsyncGetBlocks. by destruct (_ =? _).
  - by apply Inv_Close.
  - destruct HI as [H1 H2 H3 H4 H5 H6 H7 H8]. by split.
  - unfold close_after_context in Hx. case_match; [|done]. injection Hx as <-. by apply Inv_Close.
  - by apply Inv_closer.
Qed.

Lemma life_reachable a b : rtc step a b → Inv a.1.1.1 a.1.1.2 a.1.2 a.2 → Inv b.1.1.1 b.1.1.2 b.1.2 b.2.
Proof. induction 1 as [|x y z Hs _ IH]; [done|]. intros HI. apply IH. by eapply life_step. Qed.

(** A new node. *)
Definition start (n : Bitswap.Bitswap B Q SL) (delay : Duration) : life := mkLife n Delivery.New false CAwait delay.

Lemma Inv_life_start self bstore sl q n dh provide simulate delay :
  Inv (start (Bitswap.New self bstore sl q n dh provide simulate) delay) ∅ [] [].
Proof.
  split; cbn; try done.
  - apply BitswapFacts.node_new.
  - apply DeliveryFacts.Inv_delivery_new.
  - unfold manager. cbn. split; [done|lia].
  - lia.
  - by intros ref ?%elem_of_nil.
Qed.

(** The goroutine never blocks once the process closes, and ends. *)
Lemma closer_goes_on x rm h T :
  Inv x rm h T → Bitswap.closing (node x) = true → closer x ≠ CEnded →
  ∃ x', closer_step x = Some x' ∧ rank (closer x) = S (rank (closer x')).
Proof.
  intros HI Hc He. unfold closer_step. destruct (closer x); [rewrite Hc|..|done].
  1-3: by eexists.
  destruct (DeliveryFacts.Shutdown_ok _ _ (l_notifs _ _ _ _ HI)) as (d & E & _). rewrite E. by eexists.
Qed.

Lemma rank_step a b : step a b → (rank (closer b.1.1.1) ≤ rank (closer a.1.1.1))%nat.
Proof.
  destruct 1 as [n rm' x rm h T Hs Hn|d h' x rm h T Hs Hc|cd dr wait keys ref i x x' rm h T Hid Hg|x rm h T|x rm h T|x x' rm h T Hx|x x' rm h T Hx];
    cbn [fst snd]; try done.
  - destruct (GetBlocks_effect _ _ _ _ _ _ _ _ rm Hid Hg) as (_ & _ & _ & E). by rewrite E.
  - unfold close_after_context in Hx. case_match; [|done]. by injection Hx as <-.
  - unfold closer_step in Hx. destruct (closer x); [case_match; [|done]| | |destruct (Delivery.Shutdown _); [cbn in Hx|done]|done];
      injection Hx as <-; cbn; lia.
Qed.

(** On a node that has ended the channel of a new request is closed at once. *)
Lemma GetBlocks_after cd dr wait keys ref i x x' :
  Delivery.closed (notif x) = true → GetBlocks cd dr wait keys x = Some (ref, Some i, x') →
  ∃ r, Delivery.requests (notif x') !! i = Some r ∧ Delivery.blocksCh r = [] ∧ Delivery.blocksClosed r = true.
Proof.
  intros Hc. unfold GetBlocks, Bitswap.NewSession. destruct (SM.NewSession _ _ _) as [ref0 m].
  unfold session_GetBlocks, Delivery.AsyncGetBlocks. cbn [notif set_node]. destruct (len keys =? 0); [done|].
  cbn. destruct (SM.with_object ref0 _ m) as [m2|]; [|done]. cbn. intros [= <- <- <-]. cbn.
  rewrite lookup_insert_eq, Hc, andb_false_r. by eexists.
Qed.
End runs.
End Life.
