(* ===== verification/TestSupport.v ===== *)
(** * Support for tests
      (src/internal/testutil/testutil.go, src/blocksutil/block_generator.go,
       src/testnet/rate_limit_generators.go, src/testnet/internet_latency_delay_generator.go,
       src/testinstance/testinstance.go)

    The generators of blocks, keys and peers, the comparisons of lists, the delays
    and rates of a simulated network, and the instances of nodes that tests
    connect.  Random numbers are arguments. *)
From S2P Require Import Prelude Auth Wantlist Hex Proto Message Ledger ScoreLedger TaskMerger Float64.
From S2P Require Import BlockstoreManager BlockstorePool Engine SessionManager Bitswap Network VirtualNet Outbox Startup.
From Stdlib Require Import SpecFloat.
From stdpp Require Import pretty.
Set Default Goal Selector "1".
Open Scope Z_scope.

(** ** Comparing lists *)
Module Match.
Section compare.
Context {CL : CidLib}.

(** The four functions [ContainsPeer], [ContainsKey], [ContainsWant] and the loop of
    [IndexOf]. *)
Definition ContainsPeer (peers : list PeerID) (p : PeerID) : bool := existsb (λ n, bool_decide (p = n)) peers.
Definition ContainsKey (ks : list Cid) (c : Cid) : bool := existsb (λ k, bool_decide (c = k)) ks.
Definition ContainsWant (ks : list Want) (c : Want) : bool := existsb (λ k, bool_decide (c = k)) ks.

Fixpoint index_from {A} (i : Z) (cid : A → Cid) (blks : list A) (c : Cid) : Z :=
  match blks with
  | [] => -1
  | n :: blks => if bool_decide (cid n = c) then i else index_from (i + 1) cid blks c
  end.
Definition IndexOf (blks : list Block) (c : Cid) : Z := index_from 0 Block_Cid blks c.
Definition IndexOfW (blks : list AuthBlock) (c : Want) : Z := index_from 0 AuthBlock_Cid blks (Want_Cid c).
Definition ContainsBlock (blks : list Block) (b : Block) : bool := negb (IndexOf blks (Block_Cid b) =? -1).

Definition matching {A} (contains : list A → A → bool) (xs ys : list A) : bool :=
  if negb (len xs =? len ys) then false else forallb (contains ys) xs.
Definition MatchKeysIgnoreOrder : list Cid → list Cid → bool := matching ContainsKey.
Definition MatchWantsIgnoreOrder : list Want → list Want → bool := matching ContainsWant.
Definition MatchPeersIgnoreOrder : list PeerID → list PeerID → bool := matching ContainsPeer.

Lemma existsb_decide `{EqDecision A} (x : A) l : existsb (λ y, bool_decide (x = y)) l = true ↔ x ∈ l.
Proof.
  rewrite existsb_exists. setoid_rewrite bool_decide_eq_true. setoid_rewrite list_elem_of_In.
  split; [by intros (y & ? & ->)|]. intros ?. by exists x.
Qed.

Lemma index_from_found {A} i (cid : A → Cid) blks c : 0 ≤ i → index_from i cid blks c ≠ -1 ↔ c ∈ cid <$> blks.
Proof.
  revert i. induction blks as [|b blks IH]; intros i Hi; cbn; [set_solver|].
  rewrite elem_of_cons. case_bool_decide as E; [split; [by left|lia]|]. rewrite IH by lia. naive_solver.
Qed.

(** The position that is returned is the first one. *)
Lemma IndexOf_first (blks : list Block) c : IndexOf blks c ≠ -1 →
  ∃ b, blks !! Z.to_nat (IndexOf blks c) = Some b ∧ Block_Cid b = c ∧
    ∀ j b', (j < Z.to_nat (IndexOf blks c))%nat → blks !! j = Some b' → Block_Cid b' ≠ c.
Proof.
  unfold IndexOf. enough (∀ i, 0 ≤ i → index_from i Block_Cid blks c ≠ -1 →
    ∃ k b, index_from i Block_Cid blks c = i + Z.of_nat k ∧ blks !! k = Some b ∧ Block_Cid b = c ∧
      ∀ j b', (j < k)%nat → blks !! j = Some b' → Block_Cid b' ≠ c) as H.
  { intros Hne. destruct (H 0 ltac:(lia) Hne) as (k & b & -> & Hk). exists b. by rewrite Z.add_0_l, Nat2Z.id. }
  induction blks as [|b blks IH]; intros i Hi; cbn; [done|]. case_bool_decide as E.
  - intros _. exists 0%nat, b. split; [lia|]. split_and!; [done|done|]. intros j b' Hj. lia.
  - intros Hne. destruct (IH (i + 1) ltac:(lia) Hne) as (k & b0 & -> & H1 & H2 & H3).
    exists (S k), b0. split; [lia|]. split_and!; [done|done|]. intros [|j] b' Hj; cbn; [by intros [= <-]|].
    apply H3. lia.
Qed.

(** Lists without repetitions match exactly when they are permutations. *)
Lemma matching_perm `{EqDecision A} (contains : list A → A → bool) xs ys :
  (∀ l x, contains l x = true ↔ x ∈ l) → NoDup xs → matching contains xs ys = true ↔ xs ≡ₚ ys.
Proof.
  intros Hc Hn. unfold matching. destruct (Z.eqb_spec (len xs) (len ys)) as [E|E]; cbn.
  - rewrite forallb_forall. setoid_rewrite Hc. setoid_rewrite <- list_elem_of_In. split.
    + intros Hs. apply submseteq_length_Permutation; [by apply NoDup_submseteq|]. unfold len in E. lia.
    + intros Hp x Hx. by rewrite <- Hp.
  - split; [done|]. intros Hp%Permutation_length. unfold len in E. lia.
Qed.

Theorem match_is_permutation :
  (∀ xs ys, NoDup xs → MatchKeysIgnoreOrder xs ys = true ↔ xs ≡ₚ ys) ∧
  (∀ xs ys, NoDup xs → MatchWantsIgnoreOrder xs ys = true ↔ xs ≡ₚ ys) ∧
  (∀ xs ys, NoDup xs → MatchPeersIgnoreOrder xs ys = true ↔ xs ≡ₚ ys).
Proof. split_and!; intros xs ys Hn; apply matching_perm; try done; intros l x; apply existsb_decide. Qed.

(** With repetitions the first list may miss elements of the second. *)
Lemma match_misses (p q : PeerID) : p ≠ q → MatchPeersIgnoreOrder [p; p] [p; q] = true ∧ ¬ [p; p] ≡ₚ [p; q].
Proof.
  intros Hne. split.
  - unfold MatchPeersIgnoreOrder, matching, ContainsPeer. cbn. by rewrite !bool_decide_true by done.
  - intros H. assert (q ∈ [p; p]) as Hq by (rewrite H; set_solver). set_solver.
Qed.
End compare.
End Match.

(** ** Generators *)
Module Generate.
Section generate.
Context {CL : CidLib} {BL : BlockLib}.

(** *** src/blocksutil: [rawCid] is [cid.NewCidV1(cid.Raw, u.Hash(data))]. *)
Section blocksutil.
Context (rawCid : bytes → Cid).

(** [fmt.Sprint] of an integer, as bytes. *)
Definition sprint (n : Z) : bytes := String.list_byte_of_string (pretty n).

(** The error of [NewBlockWithCid] is dropped; the block is [nil] then. *)
Definition NewBlock (data : bytes) : option Block :=
  match NewBlockWithCid data (rawCid data) with Ok b => Some b | Err _ => None end.

Record BlockGenerator := mkGenerator { seq : Z }.
Definition NewBlockGenerator : BlockGenerator := mkGenerator 0.
Definition Next (bg : BlockGenerator) : option Block * BlockGenerator :=
  let n := int64 (seq bg + 1) in (NewBlock (sprint n), mkGenerator n).
Fixpoint Blocks (n : nat) (bg : BlockGenerator) : list (option Block) * BlockGenerator :=
  match n with
  | O => ([], bg)
  | S n => let '(b, bg) := Next bg in let '(bs, bg) := Blocks n bg in (b :: bs, bg)
  end.

Lemma sprint_inj m n : sprint m = sprint n → m = n.
Proof.
  unfold sprint. intros E. apply (inj pretty).
  by rewrite <- (String.string_of_list_byte_of_string (pretty m)), E, String.string_of_list_byte_of_string.
Qed.

Lemma Blocks_data n bg :
  0 ≤ seq bg → seq bg + Z.of_nat n < 2 ^ 63 →
  (Blocks n bg).1 = (λ i, NewBlock (sprint (seq bg + 1 + Z.of_nat i))) <$> List.seq 0 n ∧
  seq (Blocks n bg).2 = seq bg + Z.of_nat n.
Proof.
  revert bg. induction n as [|n IH]; intros bg H0 Hn; [cbn; split; [done|lia]|]. cbn [Blocks Next].
  rewrite int64_id by lia. specialize (IH (mkGenerator (seq bg + 1)) ltac:(cbn; lia) ltac:(cbn; lia)).
  destruct (Blocks n _) as [bs bg']. cbn [fst snd seq] in *. destruct IH as [-> ->]. split; [|lia].
  rewrite <- cons_seq, fmap_cons, <- fmap_S_seq, <- list_fmap_compose. f_equal; [do 2 f_equal; lia|].
  apply list_fmap_ext. intros i j _. cbn. do 2 f_equal. lia.
Qed.

(** Each block is different from the others, as long as the hash tells their data apart. *)
Theorem generated_blocks_distinct `{!BlockLibLaws} n :
  (∀ d d', rawCid d = rawCid d' → d = d') → (∀ d, Prefix_Sum (Cid_Prefix (rawCid d)) d = Ok (rawCid d)) →
  Z.of_nat n < 2 ^ 63 →
  let bs := (Blocks n NewBlockGenerator).1 in NoDup bs ∧ length bs = n ∧ Forall is_Some bs.
Proof.
  intros Hinj Hsum Hn. cbn zeta. destruct (Blocks_data n NewBlockGenerator) as [-> _]; [cbn; lia..|]. cbn [seq NewBlockGenerator].
  assert (∀ d, NewBlock d = Some (mkBlock _ (rawCid d) d)) as Hb by (intros d; unfold NewBlock; by rewrite NewBlockWithCid_ok).
  split_and!.
  - apply NoDup_fmap_2; [|apply NoDup_seq]. intros i j. rewrite !Hb. intros [= _ E%sprint_inj]. lia.
  - by rewrite length_fmap, length_seq.
  - apply Forall_fmap, Forall_true. intros i. cbn. rewrite Hb. eauto.
Qed.
End blocksutil.

(** *** src/internal/testutil: the package variables; [G] is the block generator of
    go-ipfs-blocksutil. *)
Section testutil.
Context {G : Type} (generate : G → Block * G).

Record state := mkState {
  blockGenerator : G;
  prioritySeq : Z;
  peerSeq : Z;
  nextSession : Z;
}.
Implicit Types (s : state).

Definition next_block s : Block * state :=
  let '(b, g) := generate (blockGenerator s) in (b, mkState g (prioritySeq s) (peerSeq s) (nextSession s)).

(** [n] results of a generator. *)
Fixpoint repeatM {A} (f : state → A * state) (n : nat) s : list A * state :=
  match n with
  | O => ([], s)
  | S n => let '(x, s) := f s in let '(xs, s) := repeatM f n s in (x :: xs, s)
  end.

(** [bufs]: what [rand.Read] fills the buffers with. *)
Definition GenerateBlocksOfSize (bufs : list bytes) : list AuthBlock := (λ buf, Auth.NewBlock (blocks_NewBlock buf) "auth") <$> bufs.
Definition GenerateCids : nat → state → list Cid * state :=
  repeatM (λ s, let '(b, s) := next_block s in (Block_Cid b, s)).
Definition GenerateWants : nat → state → list Want * state :=
  repeatM (λ s, let '(b, s) := next_block s in (NewWant (Block_Cid b) "auth", s)).
Definition GenerateMessageEntries (n : nat) (isCancel : bool) : state → list Message.MEntry * state :=
  repeatM (λ s,
    let s := mkState (blockGenerator s) (int32 (prioritySeq s + 1)) (peerSeq s) (nextSession s) in
    let '(b, s) := next_block s in
    (Message.mkMEntry (WL.NewRefEntry (mkWant _ (Block_Cid b) "authme") (prioritySeq s)) isCancel false, s)) n.

(** The counter is advanced, but the ids are the indices. *)
Definition GeneratePeers (n : nat) s : list PeerID * state :=
  ((λ i, pretty (Z.of_nat i)) <$> List.seq 0 n,
   mkState (blockGenerator s) (prioritySeq s) (int64 (peerSeq s + Z.of_nat n)) (nextSession s)).
Definition GenerateSessionID s : Z * state :=
  let next := uint64 (nextSession s + 1) in (next, mkState (blockGenerator s) (prioritySeq s) (peerSeq s) next).

Lemma generated_peers n s : NoDup (GeneratePeers n s).1 ∧ length (GeneratePeers n s).1 = n.
Proof.
  cbn. split; [|by rewrite length_fmap, length_seq]. apply NoDup_fmap_2; [|apply NoDup_seq].
  intros i j E%(inj pretty). lia.
Qed.

(** Two calls give the same peers. *)
Lemma peers_repeat m n s : (m ≤ n)%nat → let '(ps, s') := GeneratePeers m s in ps `prefix_of` (GeneratePeers n s').1.
Proof.
  intros Hmn. cbn. exists ((λ i, pretty (Z.of_nat i)) <$> List.seq m (n - m)). rewrite <- fmap_app. f_equal.
  replace n with (m + (n - m))%nat at 1 by lia. by rewrite seq_app.
Qed.
End testutil.
End generate.

(** *** src/testnet: delays and rates; [norm] and [uniform] are what [NormFloat64] and
    [Float64] return. *)
Record internetLatencyDelayGenerator := mkDelays {
  mediumDelay : Duration;
  largeDelay : Duration;
  percentLarge : spec_float;
  percentMedium : spec_float;
  std : Duration;
}.
Definition InternetLatencyDelayGenerator (medium large : Duration) (pMedium pLarge : spec_float) (std : Duration) :=
  mkDelays medium large pLarge pMedium std.
Definition NextWaitTime (uniform norm : spec_float) (t : Duration) (d : internetLatencyDelayGenerator) : Duration :=
  let baseDelay := int64 (F64.to_int (F64.mul norm (F64.of_Z (std d))) + t) in
  if F64.gtb (percentLarge d) uniform then int64 (baseDelay + largeDelay d)
  else if F64.gtb (F64.add (percentMedium d) (percentLarge d)) uniform then int64 (baseDelay + mediumDelay d)
  else baseDelay.

Record fixedRateLimitGenerator := mkFixed { fixedRate : spec_float }.
Definition FixedRateLimitGenerator (rate : spec_float) := mkFixed rate.
Definition fixed_NextRateLimit (g : fixedRateLimitGenerator) : spec_float := fixedRate g.
Record variableRateLimitGenerator := mkVariable { variableRate : spec_float; rateStd : spec_float }.
Definition VariableRateLimitGenerator (rate std : spec_float) := mkVariable rate std.
Definition variable_NextRateLimit (norm : spec_float) (g : variableRateLimitGenerator) : spec_float :=
  F64.add (F64.mul norm (rateStd g)) (variableRate g).
End Generate.

(** ** Instances of nodes on a virtual network *)
Module Nodes.
Section instances.
Context {CL : CidLib} {GO : GoRuntime} {BL : BlockLib} {RL : RateLimiterLib}.
Context {B : Type} {BS : Blockstore B} {Q : Type} {PTQ : PeerTaskQueue Q} {SL : Type} {SLI : ScoreLedger SL}.

(** What the libraries make: an empty store with its cache, a score ledger, a
    request queue. *)
Context (newStore : B) (newLedger : SL) (newQueue : Z → Q).
(** go-ipfs-delay: a delay that can be set. *)
Context {D : Type} (delay_Fixed : Duration → D) (delay_Set : Duration → D → Duration * D).

Abbreviation allow_func := (Cid → bytes → PeerID → string → bool).
Abbreviation option_func := (Startup.Option (SL := SL)).

Record Instance_ := mkInstance {
  Peer : PeerID;
  Exchange : Startup.started (B := B) (Q := Q) (SL := SL);
  blockstore : AuthedBlockstore.AuthedBlockstore B;
  Adapter : nat;
  blockstoreDelay : D;
}.

Record InstanceGenerator := mkGen {
  seq : Z;
  net : VNet.network;
  cancelled : bool;
  bsOptions : list option_func;
  netOptions : list Net.NetOpt;
  allowGen : Z → allow_func;
}.
Implicit Types (g : InstanceGenerator) (n : VNet.network) (i : Instance_).

Definition NewTestInstanceGenerator n (nopts : list Net.NetOpt) (bopts : list option_func) (allow : Z → allow_func) : InstanceGenerator :=
  mkGen 0 n false bopts nopts allow.
Definition Close g : InstanceGenerator := mkGen (seq g) (net g) true (bsOptions g) (netOptions g) (allowGen g).
Definition Blockstore_ i : AuthedBlockstore.AuthedBlockstore B := blockstore i.
Definition SetBlockstoreLatency (t : Duration) i : Duration * Instance_ :=
  let '(r, d) := delay_Set t (blockstoreDelay i) in (r, mkInstance (Peer i) (Exchange i) (blockstore i) (Adapter i) d).

(** [bitswap.New] makes itself the delegate of the adapter. *)
Definition NewInstance n (p : PeerID) (nopts : list Net.NetOpt) (bopts : list option_func) (allow : allow_func) : Instance_ * VNet.network :=
  let '(a, n) := VNet.Adapter p nopts n in
  let authbstore := AuthedBlockstore.NewAuthBlockstore newStore allow in
  let bs := Startup.New p authbstore newLedger newQueue bopts in
  (mkInstance p bs authbstore a (delay_Fixed 0), VNet.SetDelegate a n).

(** [p] is the random identity. *)
Definition Next (p : PeerID) g : Instance_ * InstanceGenerator :=
  let '(i, n) := NewInstance (net g) p (netOptions g) (bsOptions g) (allowGen g (seq g)) in
  (i, mkGen (int64 (seq g + 1)) n (cancelled g) (bsOptions g) (netOptions g) (allowGen g)).

(** [None]: a call panics. *)
Definition connect1 (a : nat) (o : option VNet.network) (p : PeerID) : option VNet.network :=
  n ← o; match VNet.ConnectTo a p n with Some (n, None) => Some n | _ => None end.
Fixpoint ConnectInstances (instances : list Instance_) n : option VNet.network :=
  match instances with
  | [] => Some n
  | inst :: rest =>
      n ← foldl (connect1 (Adapter inst)) (Some n) (Peer <$> rest);
      ConnectInstances rest n
  end.

(** [ps]: the identities of the instances. *)
Fixpoint generate (ps : list PeerID) g : list Instance_ * InstanceGenerator :=
  match ps with
  | [] => ([], g)
  | p :: ps => let '(i, g) := Next p g in let '(insts, g) := generate ps g in (i :: insts, g)
  end.
Definition set_net n g := mkGen (seq g) n (cancelled g) (bsOptions g) (netOptions g) (allowGen g).
Definition instances (ps : list PeerID) (connect : bool) g : option (list Instance_ * InstanceGenerator) :=
  let '(insts, g) := generate ps g in
  if connect then n ← ConnectInstances insts (net g); Some (insts, set_net n g) else Some (insts, g).
Definition Instances (ps : list PeerID) g := instances ps true g.
Definition UnconnectedInstances (ps : list PeerID) g := instances ps false g.

(** *** The instances are connected *)

(** The instance is on the network and has a receiver. *)
Definition ready n i : Prop :=
  VNet.clients n !! Peer i = Some (Adapter i) ∧
  ∃ x, VNet.adapters n !! Adapter i = Some x ∧ VNet.local x = Peer i ∧ VNet.delegate x = true.

Definition tag i j : string := VNet.tagForPeers (Peer i) (Peer j).

Lemma ConnectTo_ready n i j :
  ready n i → ready n j →
  ∃ n', VNet.ConnectTo (Adapter i) (Peer j) n = Some (n', None) ∧ VNet.clients n' = VNet.clients n ∧
    VNet.adapters n' = VNet.adapters n ∧ VNet.conns n' = {[tag i j]} ∪ VNet.conns n.
Proof.
  intros (Hi & x & Hx & Hl & Hd) (Hj & y & Hy & _ & Hd'). unfold VNet.ConnectTo, VNet.connect_lock.
  rewrite Hx, Hj. cbn. rewrite Hl. fold (tag i j). case_bool_decide as Ht.
  - exists n. split_and!; try done. set_solver.
  - unfold VNet.call. cbn. rewrite Hy. cbn. rewrite Hd'. cbn. rewrite Hx. cbn. rewrite Hd. cbn. by eexists.
Qed.

Lemma ready_same n n' i : VNet.clients n' = VNet.clients n → VNet.adapters n' = VNet.adapters n → ready n i → ready n' i.
Proof. intros E1 E2. unfold ready. by rewrite E1, E2. Qed.

Lemma connect_row n i js :
  ready n i → Forall (ready n) js →
  ∃ n', foldl (connect1 (Adapter i)) (Some n) (Peer <$> js) = Some n' ∧ VNet.clients n' = VNet.clients n ∧
    VNet.adapters n' = VNet.adapters n ∧ VNet.conns n ⊆ VNet.conns n' ∧ ∀ j, j ∈ js → tag i j ∈ VNet.conns n'.
Proof.
  revert n. induction js as [|j js IH]; intros n Hi Hjs; [exists n; split_and!; try done; by intros j ?%elem_of_nil|].
  apply Forall_cons in Hjs as [Hj Hjs]. destruct (ConnectTo_ready n i j Hi Hj) as (n1 & E & C1 & A1 & T1).
  cbn [fmap list_fmap foldl]. unfold connect1 at 2. cbn [mbind option_bind]. rewrite E.
  destruct (IH n1) as (n2 & E2 & C2 & A2 & S2 & T2); [by eapply ready_same|eapply Forall_impl; [exact Hjs|]; intros k; by apply ready_same|].
  exists n2. split; [done|]. split_and!; [congruence|congruence|set_solver|].
  intros k [->|Hk]%elem_of_cons; [|by apply T2]. apply S2. set_solver.
Qed.

Lemma ConnectInstances_ready insts n :
  Forall (ready n) insts →
  ∃ n', ConnectInstances insts n = Some n' ∧ VNet.clients n' = VNet.clients n ∧ VNet.adapters n' = VNet.adapters n ∧
    VNet.conns n ⊆ VNet.conns n' ∧
    ∀ k l i j, (k < l)%nat → insts !! k = Some i → insts !! l = Some j → tag i j ∈ VNet.conns n'.
Proof.
  revert n. induction insts as [|i insts IH]; intros n Hr; [by exists n|].
  apply Forall_cons in Hr as [Hi Hr]. destruct (connect_row n i insts Hi Hr) as (n1 & E1 & C1 & A1 & S1 & T1).
  cbn [ConnectInstances]. rewrite E1. cbn [mbind option_bind].
  destruct (IH n1) as (n2 & E2 & C2 & A2 & S2 & T2); [eapply Forall_impl; [exact Hr|]; intros j; by apply ready_same|].
  exists n2. split; [done|]. split_and!; [congruence|congruence|set_solver|].
  intros [|k] [|l] i' j Hkl Hk Hl; [lia| |lia|by apply (T2 k l); [lia|..]]. cbn in Hk. injection Hk as <-.
  apply S2, T1. cbn in Hl. by eapply list_elem_of_lookup_2.
Qed.

(** A new instance is ready, and those with other identities stay so. *)
Lemma NewInstance_ready n p nopts bopts allow :
  let '(i, n') := NewInstance n p nopts bopts allow in
  Peer i = p ∧ ready n' i ∧ (∀ j, Peer j ≠ p → ready n j → ready n' j).
Proof.
  unfold NewInstance, VNet.Adapter. set (x := VNet.mkAdapter p _ 0 0 false [] false []).
  set (n1 := VNet.mkNetwork _ _ _ _ _ _ _). split; [done|].
  assert (VNet.adapters n1 !! length (VNet.adapters n) = Some x) as Hx.
  { cbn. rewrite lookup_app_r by lia. by rewrite Nat.sub_diag. }
  unfold VNet.SetDelegate. rewrite Hx. split.
  - split; cbn; [by rewrite lookup_insert_eq|]. eexists. split; [apply list_lookup_insert_eq|done].
    rewrite length_app. cbn. lia.
  - intros j Hne (Hc & y & Hy & Hl & Hd). split; cbn; [by rewrite lookup_insert_ne|].
    exists y. split; [|done]. apply lookup_lt_Some in Hy as Hlt. rewrite list_lookup_insert_ne by lia.
    by apply lookup_app_l_Some.
Qed.

Lemma generate_ready ps g old :
  NoDup ps → (∀ j, j ∈ old → Peer j ∉ ps) → Forall (ready (net g)) old →
  let '(insts, g') := generate ps g in Forall (ready (net g')) (old ++ insts) ∧ Peer <$> insts = ps.
Proof.
  revert g old. induction ps as [|p ps IH]; intros g old Hn Hold Hr; cbn [generate].
  { by rewrite app_nil_r. }
  apply NoDup_cons in Hn as [Hp Hn]. unfold Next.
  pose proof (NewInstance_ready (net g) p (netOptions g) (bsOptions g) (allowGen g (seq g))) as HN.
  destruct (NewInstance _ _ _ _ _) as [i n]. destruct HN as (Ep & Hi & Hk).
  specialize (IH (mkGen (int64 (seq g + 1)) n (cancelled g) (bsOptions g) (netOptions g) (allowGen g)) (old ++ [i]) Hn).
  destruct (generate ps _) as [insts g']. destruct IH as [IH1 IH2].
  - intros j [Hj|Hj]%elem_of_app; [apply Hold in Hj; set_solver|]. apply list_elem_of_singleton in Hj as ->. by rewrite Ep.
  - apply Forall_app. split; [|by apply Forall_singleton]. apply Forall_forall. intros j Hj. cbn. apply Hk.
    + intros E. apply (Hold j Hj). rewrite E. by left.
    + by apply (proj1 (Forall_forall _ _) Hr).
  - rewrite <- app_assoc in IH1. cbn in IH1. split; [done|]. cbn. by rewrite Ep, IH2.
Qed.

(** Instances with different identities: nothing panics, each has its identity and
    its own adapter with a receiver, and every two of them are connected. *)
Theorem instances_connected ps g :
  NoDup ps →
  ∃ insts g', Instances ps g = Some (insts, g') ∧ Peer <$> insts = ps ∧ Forall (ready (net g')) insts ∧
    ∀ k l i j, (k < l)%nat → insts !! k = Some i → insts !! l = Some j → tag i j ∈ VNet.conns (net g').
Proof.
  intros Hn. pose proof (generate_ready ps g [] Hn) as Hg. unfold Instances, instances.
  destruct (generate ps g) as [insts g1]. destruct Hg as [Hr Hp]; [by intros j ?%elem_of_nil|done|].
  destruct (ConnectInstances_ready insts (net g1) Hr) as (n & -> & C & A & _ & T). cbn.
  exists insts, (set_net n g1). split; [done|]. split; [done|]. split; [|done].
  eapply Forall_impl; [exact Hr|]. intros j. by apply ready_same.
Qed.
End instances.
End Nodes.

(** ** Nodes on libp2p's mock network (src/testnet/peernet.go) *)
Class MockLib (M H R : Type) := {
  mock_AddPeer : PeerID → M → M * result error H;
  mock_Peers : M → list PeerID;
  mock_Routing : PeerID → R → R;             (* [ClientWithDatastore] *)
}.

Module Peernet.
Section peernet.
Context {CL : CidLib} {BL : BlockLib} {M H R : Type} {ML : MockLib M H R}.

Record peernet := mkPeernet { Mocknet : M; routingserver : R }.
Definition StreamNet (net : M) (rs : R) : peernet := mkPeernet net rs.

(** [None]: the mock network refuses the peer, and the call panics. *)
Definition Adapter (p : PeerID) (opts : list Net.NetOpt) (pn : peernet) : option (Net.world H * peernet) :=
  let '(m, r) := mock_AddPeer p (Mocknet pn) in
  match r with
  | Err _ => None
  | Ok client => Some (Net.NewFromIpfsHost opts client, mkPeernet m (mock_Routing p (routingserver pn)))
  end.
Definition HasPeer (p : PeerID) (pn : peernet) : bool := existsb (λ member, bool_decide (p = member)) (mock_Peers (Mocknet pn)).

Lemma HasPeer_spec p pn : HasPeer p pn = true ↔ p ∈ mock_Peers (Mocknet pn).
Proof. apply Match.existsb_decide. Qed.
End peernet.
End Peernet.
