(* ===== verification/Transfer.v ===== *)
(** * A block on its way from one node to another

    Lemmas that connect the serving engine, the wire and the asking node: the
    messages of the engine can be sent, and the node keeps what it waits for. *)
From S2P Require Import Prelude Auth Wantlist Hex Proto Message Ledger ScoreLedger TaskMerger.
From S2P Require Import BlockstoreManager Engine EngineFacts EngineIndex EngineRun.
From S2P Require Import SessionInterest SessionManager Bitswap BitswapFacts Wire WireFacts Framing Network NetworkFacts.
Set Default Goal Selector "1".
Open Scope Z_scope.

Module Transfer.
Import Message Engine.

Section serving.
Context {CL : CidLib} {GO : GoRuntime} {BL : BlockLib}.
Context {B : Type} {BS : Blockstore B} {Q : Type} {PTQ : PeerTaskQueue Q} {SL : Type} {SLI : ScoreLedger SL}.
Implicit Types (e : Engine B Q SL).

Lemma wf_split_tasks tasks acc : wf acc.1.1 → wf (foldl split_task acc tasks).1.1.
Proof.
  intros Hm. apply (foldl_inv_simple (λ acc, wf acc.1.1)); [done|]. intros [[m ws] ts] t _ Hw.
  unfold split_task. cbn in Hw. repeat case_match; cbn; by try apply wf_AddBlockPresence.
Qed.

Lemma wf_buildMessage f p tasks pending e msg : buildMessage f p tasks pending e = Ok msg → wf msg.
Proof.
  unfold buildMessage. pose proof (wf_split_tasks tasks (SetPendingBytes (int32 pending) (newMsg false), [], ∅)) as Hs.
  destruct (foldl split_task _ tasks) as [[m ws] ts]. cbn in Hs.
  destruct (BSM.getBlocks f (bsm e) ws p) as [blks [err|]]; [done|]. intros [= <-].
  apply (foldl_inv_simple wf); [apply Hs, wf_SetPendingBytes, wf_newMsg|]. intros m' [c t] _ Hm.
  unfold add_fetched. case_match; [by apply wf_AddBlock|]. case_match; [by apply wf_AddBlockPresence|done].
Qed.

Lemma wf_nextEnvelope fuel faults ws e env : (nextEnvelope fuel faults ws e).2 = Some (Ok env) → wf (env_Message env).
Proof.
  revert faults ws e. induction fuel as [|fuel IH]; intros faults ws e; simpl; [done|].
  destruct (pop e) as [batch e1]. destruct (waitForTasks ws batch e1) as [[e2 ws'] r].
  destruct r as [[[[p tasks] pending]|err]|]; [|done..].
  destruct (buildMessage _ p tasks pending e2) as [msg|] eqn:Hb; [|done].
  destruct (Empty msg); simpl; [apply IH|]. intros [= <-]. by eapply wf_buildMessage.
Qed.

(** A store of content-addressed blocks: the cid of a block is the hash of its bytes. *)
Definition hashed (s : B) : Prop :=
  ∀ c b, bs_Get s c = Ok b → Prefix_Sum (Cid_Prefix c) (Block_RawData b) = Ok c.

(** The message of an envelope can be carried by the wire. *)
Lemma envelope_sendable `{!BlockstoreLaws B} `{MR : MsgReader} fuel faults ws e p (tasks : list Task) env :
  (nextEnvelope fuel faults ws e).2 = Some (Ok env) → env_Peer env = p →
  hashed (AuthedBlockstore.source (bsm e)) → (∀ t, t ∈ tasks → want_ok (Task_Topic t)) →
  (∀ t, t ∈ tasks → msg_reply (env_Message env) (Task_Topic t) = task_reply e p t) →
  (∀ w, w ∉ Task_Topic <$> tasks → msg_reply (env_Message env) w = RNothing) →
  wantlist (env_Message env) = ∅ → (∃ n, pendingBytes (env_Message env) = int32 n) →
  pb_Message_Size (ToProtoV1 (env_Message env)) ≤ MessageSizeMax →
  Framing.net_ok (env_Message env).
Proof.
  intros He Hp Hh Hok Hin Hout Hwl [n Hn] Hsize. set (m := env_Message env) in *.
  assert (∀ w, msg_reply m w ≠ RNothing → w ∈ Task_Topic <$> tasks) as Htop.
  { intros w Hw. destruct (decide (w ∈ Task_Topic <$> tasks)); [done|]. by destruct Hw, (Hout w). }
  assert (∀ w, w ∈ Task_Topic <$> tasks → want_ok w) as Hok'.
  { intros w (t & -> & Ht)%list_elem_of_fmap. by apply Hok. }
  assert (∀ w t, blockPresences m !! w = Some t → want_ok w ∧ (t = Presence_Have ∨ t = Presence_DontHave)) as Hpres.
  { intros w t Hw.
    destruct (blocks m !! w) as [b|] eqn:Eb; [by rewrite (wf_disjoint m (wf_nextEnvelope _ _ _ _ _ He) w b Eb) in Hw|].
    assert (msg_reply m w = RPresence t) as Er by (unfold msg_reply; by rewrite Eb, Hw).
    assert (w ∈ Task_Topic <$> tasks) as Hw' by (apply Htop; by rewrite Er). split; [by apply Hok'|].
    apply list_elem_of_fmap in Hw' as (t' & -> & Ht). rewrite (Hin t' Ht) in Er. unfold task_reply in Er.
    repeat case_match; simplify_eq; auto. }
  split.
  - by eapply wf_nextEnvelope.
  - split; rewrite ?Hwl; [by intros w x|intros w b Hb|intros w t Ht; by apply (Hpres w t)].
    assert (w ∈ Task_Topic <$> tasks) as Hw by (apply Htop; unfold msg_reply; by rewrite Hb).
    split; [by apply Hok'|]. pose proof (nextEnvelope_released _ _ _ _ _ _ _ He Hb) as Hg.
    apply AuthedBlockstore.Get_Ok_iff in Hg as (_ & Hg & _). pose proof (bs_Get_Cid _ _ _ Hg) as Ec.
    unfold AuthBlock_Cid. rewrite Ec. by apply Hh.
  - rewrite Hwl. by intros w x.
  - intros w t Ht. destruct (Hpres w t Ht) as [_ [-> | ->]]; by vm_compute.
  - rewrite Hn. apply int32_range.
  - done.
Qed.

(** The blocks of a message for wants with distinct cids have distinct cids. *)
Lemma NoDup_Blocks_Cid (m : impl) (L : list Want) :
  wf m → (∀ w b, blocks m !! w = Some b → w ∈ L) → NoDup (Want_Cid <$> L) → NoDup (AuthBlock_Cid <$> Blocks m).
Proof.
  intros Hm HL Hn. unfold Blocks. rewrite <- list_fmap_compose. apply NoDup_fmap_2_strong.
  - intros [w1 b1] [w2 b2] H1%elem_of_range H2%elem_of_range E. cbn in E.
    destruct (wf_blocks m Hm _ _ H1) as (E1 & F1 & _), (wf_blocks m Hm _ _ H2) as (E2 & F2 & _).
    unfold AuthBlock_wf in F1, F2. unfold AuthBlock_Want in E1, E2. rewrite E1 in F1. rewrite E2 in F2.
    assert (w1 = w2) as ->; [|congruence].
    apply HL, list_elem_of_lookup in H1 as [i Hi]. apply HL, list_elem_of_lookup in H2 as [j Hj].
    assert (i = j) as ->; [|congruence].
    eapply (NoDup_lookup _ i j (Want_Cid w1) Hn); rewrite list_lookup_fmap; [by rewrite Hi|rewrite Hj; cbn; congruence].
  - eapply NoDup_fmap_1, NoDup_range_keys.
Qed.

(** A block that is owed for a task is one for its want. *)
Lemma task_reply_block `{!BlockstoreLaws B} e p t b : task_reply e p t = RBlock b → AuthBlock_Want b = Task_Topic t ∧ AuthBlock_wf b.
Proof.
  unfold task_reply. destruct (td_HaveBlock _); [|done]. destruct (td_IsWantBlock _); [|done].
  destruct (AuthedBlockstore.Get _ _ _ _) as [blk|err] eqn:E; [|by destruct (td_SendDontHave _)]. intros [= <-].
  apply AuthedBlockstore.Get_Ok_iff in E as (_ & E & _). split; [|apply NewBlock_wf]. unfold AuthBlock_Want, NewBlock. cbn.
  rewrite (bs_Get_Cid _ _ _ E). by destruct (Task_Topic t).
Qed.
End serving.

Section carrying.
Context {CL : CidLib} {GO : GoRuntime} {BL : BlockLib} {CC : CidCast} {BP : BufferPool} {MR : MsgReader}.
Context {H : Type} {HO : Host H} {BLL : BlockLibLaws} {MRL : MsgReaderLaws}.
Import Framing Net NetFacts.

(** One message on a stream. *)
Lemma handle_one s p (m : Message.impl) (w : world H) :
  net_ok m → stats_ok w → receiver (bsnet w) = true →
  ∃ bytes w' m', ToNetV1 m = Some bytes ∧ handleNewStream s p bytes w = Some w' ∧ heard p [m'] None w w' ∧ msg_eq m' m.
Proof.
  intros Hm Hw Hr. destruct (handle_frames s p [m] w (List.Forall_cons _ _ _ Hm (List.Forall_nil _)) Hw) as (bs & Eb & Hrun).
  destruct (Hrun (S (length bs)) ltac:(lia)) as (w' & ms' & Eh & HH & H2).
  apply Forall2_cons_inv_r in H2 as (m' & ms0 & Hm' & H2 & ->). apply Forall2_nil_inv_r in H2 as ->.
  exists bs, (on_host (stream_Close s) w').1, m'. split.
  { cbn [frames] in Eb. destruct (ToNetV1 m); [|done]. cbn [mbind option_bind] in Eb. by rewrite app_nil_r in Eb. }
  unfold handleNewStream. rewrite Hr, Eh. split; [done|]. split; [|done].
  unfold on_host. by destruct (stream_Close s (host w')).
Qed.
End carrying.

Section asking.
Context {CL : CidLib} {GO : GoRuntime} {BL : BlockLib}.
Context {B : Type} {BS : Blockstore B} {BSL : BlockstoreLaws B}.
Context {Q : Type} {PTQ : PeerTaskQueue Q} {SL : Type} {SLI : ScoreLedger SL}.
Implicit Types (bs : Bitswap.Bitswap B Q SL).
Import Bitswap BitswapFacts.

(** A blockstore that accepts blocks. *)
Definition writable : Prop := ∀ bl (s : B), (bs_PutMany bl s).2 = None.

Lemma PutMany_writable W (x : AuthedBlockstore.AuthedBlockstore B) :
  writable → (AuthedBlockstore.PutMany W x).2 = None.
Proof.
  intros Hw. unfold AuthedBlockstore.PutMany, AuthedBlockstore.with_source.
  pose proof (Hw (AuthBlock_block <$> W) (AuthedBlockstore.source x)) as E. by destruct (bs_PutMany _ _).
Qed.

(** Blocks that a session waits for are published and stored. *)
Lemma ReceiveMessage_keeps f dr ds drop cerr p m bs bs' es b :
  closing bs = false → p ≠ "" → writable → NoDup (AuthBlock_Cid <$> Blocks m) → b ∈ Blocks m →
  SIM.wanted (SM.sessionInterestManager (sm bs)) (AuthBlock_Want b) →
  ReceiveMessage f dr ds drop cerr p m bs = Some (bs', es) →
  b ∈ published es ∧
  bs_Has (AuthedBlockstore.source (blockstore bs')) (AuthBlock_Cid b) = Ok true ∧
  bs_Get (AuthedBlockstore.source (blockstore bs')) (AuthBlock_Cid b) = Ok (AuthBlock_block b).
Proof.
  intros Hcl Hp Hw Hn Hb Hwant. unfold ReceiveMessage. set (bs0 := set_engine _ _).
  assert (0 <? len (Blocks m) = true) as El by (destruct (Blocks m); [by apply not_elem_of_nil in Hb|done]).
  rewrite El. set (bs1 := updateReceiveCounters _ bs0). cbn [orb].
  destruct (receiveBlocksFrom _ _ _ _ _ _ _ _ bs1) as [[[bs2 es2] err]|] eqn:E; [|done]. intros [= <- <-].
  pose proof (receiveBlocksFrom_spec _ _ _ _ _ _ _ _ bs1 _ _ _ Hcl E) as Hs. cbn zeta in Hs.
  set (W := kept p (Blocks m) bs1) in *.
  assert (W = filter (λ b, SIM.wanted (SM.sessionInterestManager (sm bs)) (AuthBlock_Want b)) (Blocks m)) as EW.
  { unfold W, kept. by rewrite bool_decide_true. }
  destruct (if 0 <? len W then _ else _) as [x perr] eqn:Ep.
  assert (perr = None) as ->.
  { destruct (0 <? len W); [|by simplify_eq]. pose proof (PutMany_writable W (blockstore bs1) Hw) as Hnone. by rewrite Ep in Hnone. }
  destruct Hs as (H1 & H2 & _). assert (b ∈ W) as HbW by (rewrite EW; by apply list_elem_of_filter).
  split; [by rewrite H1|]. assert (blockstore bs2 = x) as ->.
  { unfold blockstore. rewrite H2, EngineRun.ReceiveFrom_bsm. done. }
  apply (proj2 (kept_stored W (blockstore bs1) x Ep)); [|done]. rewrite EW.
  eapply sublist_NoDup; [apply Hn|]. apply fmap_sublist, sublist_filter.
Qed.
End asking.
End Transfer.
