(* ===== verification/Instances.v ===== *)
(** * A concrete environment

    Small executable instances of the third-party interfaces (go-cid,
    go-block-format, go-ipfs-blockstore, go-peertaskqueue) that satisfy the laws
    assumed of them, so that theorems about the engine and the client can be
    evaluated on concrete inputs. *)
From S2P Require Import Prelude Auth Message ScoreLedger TaskMerger Delivery.
Open Scope Z_scope.

(** An equation between closed terms, by conversion in the kernel.  The terms
    compared should be small values (booleans, numbers, short lists): comparing
    finite maps compares the proofs inside them. *)
Ltac evaluate :=
  cbv zeta;
  match goal with
  | |- ?a = ?b => exact_no_check (@eq_refl _ b)
  end.

(** A decidable proposition, by evaluation of its decision. *)
Ltac decide_by_eval := apply (bool_decide_eq_true_1 _); exact_no_check (@eq_refl _ true).

(** A computation that returns something returns its own result. *)
Lemma default_is_some {A} (d : A) (o : option A) :
  match o with Some _ => true | None => false end = true → o = Some (default d o).
Proof. by destruct o. Qed.

Ltac evaluate_some := apply default_is_some; evaluate.

(** A sequence of calls, each of which may block. *)
Definition exec {S : Type} (calls : list (S → option S)) (s : S) : option S :=
  foldl (λ o f, o ≫= f) (Some s) calls.

Lemma exec_rtc {S : Type} (R : relation S) (calls : list (S → option S)) s s' :
  Forall (λ f, ∀ x y, f x = Some y → R x y) calls → exec calls s = Some s' → rtc R s s'.
Proof.
  unfold exec. intros HF. revert s. induction HF as [|f calls Hf _ IH]; intros s; cbn.
  { by intros [= ->]. }
  destruct (f s) as [y|] eqn:E; cbn; [intros H; eapply rtc_l; [by apply Hf|by apply IH]|].
  assert (∀ l, foldl (λ o g, o ≫= g) (None : option S) l = None) as -> by (intros l; by induction l).
  done.
Qed.

Module Env.

(** Cids are numbers, [0] is undefined; odd ones are raw, even ones dag-cbor. *)
#[export] Instance cids : CidLib := {|
  Cid := N;
  Cid_Undef := 0%N;
  Cid_Defined c := negb (N.eqb c 0);
  Cid_Defined_spec := ltac:(intros c; rewrite negb_true_iff, N.eqb_neq; done);
  Cid_KeyString c := repeat Byte.x01 (N.to_nat c);
  Cid_Type c := if N.odd c then 85 else 113;
  cid_Raw := 85;
  cid_DagCBOR := 113;
|}.

#[export] Instance runtime : GoRuntime := go_det.

(** The hash of some bytes is their number plus one. *)
Definition hash (d : bytes) : N := N.of_nat (S (length d)).

#[export] Instance block_lib : BlockLib := {|
  Prefix := unit;
  Cid_Prefix _ := tt;
  Prefix_Bytes _ := [];
  PrefixFromBytes _ := Ok tt;
  Prefix_Sum _ d := Ok (hash d);
  blocks_NewBlock d := mkBlock cids (hash d) d;
  NewBlockWithCid d c := if N.eqb (hash d) c then Ok (mkBlock cids c d) else Err (ErrOther "hash");
|}.

#[export] Instance block_lib_laws : BlockLibLaws.
Proof.
  split; [by intros []|]. intros d c [= <-]. unfold NewBlockWithCid, block_lib. by rewrite N.eqb_refl.
Qed.

(** A blockstore in memory. *)
Definition store : Type := gmap Cid bytes.

Definition put (b : Block) (s : store) : store := <[Block_Cid b := Block_RawData b]> s.

#[export] Instance blockstore : Blockstore store := {|
  bs_Has s c := Ok (bool_decide (is_Some (s !! c)));
  bs_Get s c := match s !! c with Some d => Ok (mkBlock cids c d) | None => Err ErrNotFound end;
  bs_GetSize s c := match s !! c with Some d => Ok (len d) | None => Err ErrNotFound end;
  bs_Put b s := (put b s, None);
  bs_PutMany bl s := (foldl (λ s b, put b s) s bl, None);
  bs_DeleteBlock c s := (delete c s, None);
  bs_BloomAdd c s := (s, None);
  bs_AllKeysChan s := Ok (map_to_list s).*1;
  bs_HashOnRead _ s := s;
|}.

Lemma put_many_lookup (bl : list Block) (s : store) c :
  foldl (λ s b, put b s) s bl !! c =
    match last (filter (λ b, Block_Cid b = c) bl) with
    | Some b => Some (Block_RawData b)
    | None => s !! c
    end.
Proof. apply (lookup_foldl_insert Block_Cid Block_RawData). Qed.

#[export] Instance blockstore_laws : BlockstoreLaws store.
Proof.
  split; simpl.
  - intros s c b. destruct (s !! c); naive_solver.
  - intros bl s s' b [= <-] Hb Hn. rewrite put_many_lookup.
    destruct (last _) as [b'|] eqn:E.
    + apply last_Some_elem_of, list_elem_of_filter in E as [E Hb'].
      assert (b' = b) as ->; [|by destruct b].
      apply list_elem_of_lookup in Hb as [i Hi], Hb' as [j Hj].
      assert (i = j) as ->; [|congruence].
      eapply (NoDup_lookup _ i j (Block_Cid b)); [done|..]; rewrite list_lookup_fmap.
      * by rewrite Hi.
      * rewrite Hj. simpl. by rewrite E.
    + apply last_None, filter_nil_iff with (x := b) in E; done.
  - intros bl s s' r c [= <- _] Hc. rewrite put_many_lookup.
    destruct (last _) as [b'|] eqn:E; [|done].
    apply last_Some_elem_of, list_elem_of_filter in E as [E Hb'].
    destruct Hc. rewrite <- E. by apply list_elem_of_fmap_2.
Qed.

(** A first-in first-out request queue of batches. *)
Definition queue : Type := list (PeerID * list Task).

#[export] Instance task_queue : PeerTaskQueue queue := {|
  PushTasks p ts q := q ++ [(p, ts)];
  PopTasks _ q := match q with [] => (("", [], 0), []) | (p, ts) :: q' => ((p, ts, 0), q') end;
  Queue_Remove w p q :=
    (λ x, if String.eqb x.1 p then (x.1, filter (λ t, Task_Topic t ≠ w) x.2) else x) <$> q;
  TasksDone _ _ q := q;
  ThawRound q := q;
|}.

Definition scores : Type := Score.DefaultScoreLedger.
Definition no_scores : scores := Score.NewDefaultScoreLedger 1.

Definition want (c : N) (a : string) : Want := mkWant cids c a.
Definition block (d : bytes) : Block := mkBlock cids (hash d) d.

(** A pub/sub in memory: the pairs of a channel and a topic it waits for. *)
#[export] Instance byte_eq_dec : EqDecision Byte.byte := Byte.byte_eq_dec.

#[export] Instance key_inj : Inj (=) (=) (@Cid_KeyString cids).
Proof. intros x y E. apply (f_equal length) in E. cbn in E. rewrite !repeat_length in E. lia. Qed.

Definition pubsub : Type := list (nat * bytes).
Definition chans (p : pubsub) : list nat := remove_dups p.*1.
Definition deliver_on (b : AuthBlock) (t : bytes) (p : pubsub) (ch : nat) : list chan_effect :=
  Send ch b :: if bool_decide (Exists (λ x, x.1 = ch ∧ x.2 ≠ t) p) then [] else [Close ch].

#[export] Instance pubsub_lib : PubSubLib pubsub := {|
  ps_New := [];
  ps_Pub b t p := (filter (λ x, x.2 ≠ t) p, chans (filter (λ x, x.2 = t) p) ≫= deliver_on b t p);
  ps_AddSubOnceEach ch ts p := p ++ ((λ t, (ch, t)) <$> ts);
  ps_Unsub ch p := (filter (λ x, x.1 ≠ ch) p, if bool_decide (ch ∈ chans p) then [Close ch] else []);
  ps_Shutdown p := ([], chans p ≫= λ ch, [Close ch]);
|}.

Lemma on_app ch (es es' : list chan_effect) : on ch (es ++ es') = on ch es ++ on ch es'.
Proof. apply filter_app. Qed.

Lemma on_own ch (es : list chan_effect) : (∀ e, e ∈ es → target e = ch) → on ch es = es.
Proof.
  intros H. unfold on. induction es as [|e es IH]; [done|].
  rewrite filter_cons_True by (apply H; left). f_equal. apply IH. intros. apply H. by right.
Qed.
Lemma on_foreign ch (es : list chan_effect) : (∀ e, e ∈ es → target e ≠ ch) → on ch es = [].
Proof. intros H. unfold on. induction es as [|e es IH]; [done|].
  rewrite filter_cons_False by (apply H; left). apply IH. intros. apply H. by right.
Qed.

Lemma on_bind (f : nat → list chan_effect) (chs : list nat) ch :
  NoDup chs → (∀ c e, e ∈ f c → target e = c) →
  on ch (chs ≫= f) = if decide (ch ∈ chs) then f ch else [].
Proof.
  intros Hnd Hf. induction Hnd as [|c chs Hc Hnd IH]; [done|]. rewrite bind_cons, on_app, IH.
  destruct (decide (ch = c)) as [->|Hne].
  - rewrite (decide_False (P := c ∈ chs)) by done. rewrite decide_True by left.
    rewrite app_nil_r. apply on_own. by apply Hf.
  - rewrite (on_foreign ch (f c)) by (intros e He; rewrite (Hf c e He); congruence). cbn.
    destruct (decide (ch ∈ chs)); [by rewrite decide_True by by right|].
    rewrite decide_False; [done|]. intros [?|?]%elem_of_cons; done.
Qed.

Lemma elem_of_chans ch (p : pubsub) : ch ∈ chans p ↔ ∃ t, (ch, t) ∈ p.
Proof.
  unfold chans. rewrite elem_of_remove_dups, list_elem_of_fmap. split.
  - intros ([c t] & -> & ?). eauto.
  - intros [t ?]. by exists (ch, t).
Qed.

Lemma deliver_target b t p c e : e ∈ deliver_on b t p c → target e = c.
Proof. unfold deliver_on. destruct (bool_decide _); set_solver. Qed.

Lemma pub_on b t (p : pubsub) ch :
  on ch (ps_Pub b t p).2 = if decide ((ch, t) ∈ p) then deliver_on b t p ch else [].
Proof.
  change (ps_Pub b t p).2 with (chans (filter (λ x, x.2 = t) p) ≫= deliver_on b t p).
  rewrite on_bind; [|apply NoDup_remove_dups|intros; by eapply deliver_target].
  assert (ch ∈ chans (filter (λ x, x.2 = t) p) ↔ (ch, t) ∈ p) as Hiff.
  { rewrite elem_of_chans. setoid_rewrite list_elem_of_filter. cbn. naive_solver. }
  destruct (decide ((ch, t) ∈ p)); [by rewrite decide_True by by apply Hiff|].
  rewrite decide_False; [done|]. by rewrite Hiff.
Qed.

#[export] Program Instance pubsub_laws : PubSubLaws pubsub := {| subscribed p ch t := (ch, t) ∈ p |}.
Next Obligation. intros p ch t. cbn. apply _. Defined.
Next Obligation. intros ch t. apply not_elem_of_nil. Qed.
Next Obligation. intros ch ts p ch' t. cbn. rewrite elem_of_app, list_elem_of_fmap. naive_solver. Qed.
Next Obligation. intros b t p ch t'. cbn. rewrite list_elem_of_filter. cbn. tauto. Qed.
Next Obligation. intros b t p ch H. rewrite pub_on. by rewrite decide_False. Qed.
Next Obligation.
  intros b t p ch H Hall. rewrite pub_on, decide_True by done. unfold deliver_on. rewrite bool_decide_false; [done|].
  intros ([c t'] & Hin & Ec & Ht)%Exists_exists. cbn in Ec, Ht. subst c. by destruct Ht, (Hall t' Hin).
Qed.
Next Obligation.
  intros b t p ch t' H H' Hne. rewrite pub_on, decide_True by done. unfold deliver_on. rewrite bool_decide_true; [done|].
  apply Exists_exists. by exists (ch, t').
Qed.
Next Obligation. intros ch p ch' t. cbn. by rewrite list_elem_of_filter. Qed.
Next Obligation.
  intros ch p ch' Hne. cbn [ps_Unsub pubsub_lib snd]. destruct (bool_decide _); [|done]. apply on_foreign.
  intros e ->%list_elem_of_singleton. cbn. congruence.
Qed.
Next Obligation.
  intros ch p H. cbn [ps_Unsub pubsub_lib snd]. rewrite bool_decide_false; [done|]. rewrite elem_of_chans. intros [t Ht]. by destruct (H t).
Qed.
Next Obligation.
  intros ch p t H. cbn [ps_Unsub pubsub_lib snd]. rewrite bool_decide_true by (apply elem_of_chans; by exists t).
  apply on_own. by intros e ->%list_elem_of_singleton.
Qed.
Next Obligation. intros p ch t. apply not_elem_of_nil. Qed.
Next Obligation.
  intros p ch H. change (ps_Shutdown p).2 with (chans p ≫= λ ch, [Close ch]). rewrite on_bind; [|apply NoDup_remove_dups|set_solver].
  rewrite decide_False; [done|]. rewrite elem_of_chans. intros [t Ht]. by destruct (H t).
Qed.
Next Obligation.
  intros p ch t H. change (ps_Shutdown p).2 with (chans p ≫= λ ch, [Close ch]). rewrite on_bind; [|apply NoDup_remove_dups|set_solver].
  rewrite decide_True; [done|]. apply elem_of_chans. by exists t.
Qed.
End Env.
