(* ===== verification/ServerTheorems.v ===== *)
(** * Theorems about serving peers

    Access control, content and bookkeeping of the decision engine, the
    authenticating blockstore, the task merger and the score ledger.  Every
    theorem is about all instances of the third-party interfaces; the witnesses
    evaluate the engine in the environment of Instances.v. *)
From S2P Require Import Prelude Auth Wantlist Hex Proto Message Ledger ScoreLedger TaskMerger.
From S2P Require Import BlockstoreManager Engine EngineFacts EngineIndex EngineRun ScoreWorker Instances.
Import Message Ledger Engine EngineRun.
Open Scope Z_scope.

Section server.
Context {CL : CidLib} {GO : GoRuntime} {BL : BlockLib}.
Context {B : Type} {BS : Blockstore B}.
Context {Q : Type} {PTQ : PeerTaskQueue Q}.
Context {SL : Type} {SLI : ScoreLedger SL}.
Implicit Types (e : Engine B Q SL) (p : PeerID) (w : Want).

(** C1: access control.  Every block in an envelope is one the blockstore holds
    under the wanted cid, and the [allow] callback accepted the recipient of the
    envelope with the capability of the want for exactly these bytes.  This holds
    for any queue, fault and schedule of wake-ups. *)
Theorem served_blocks_allowed `{!BlockstoreLaws B} fuel faults ws e env w b :
  (nextEnvelope fuel faults ws e).2 = Some (Ok env) →
  blocks (env_Message env) !! w = Some b →
  AuthedBlockstore.allow (bsm e) (Want_Cid w) (AuthBlock_GetAuthedData b)
    (env_Peer env) (Want_Auth w) = true ∧
  bs_Get (AuthedBlockstore.source (bsm e)) (Want_Cid w) = Ok (AuthBlock_block b) ∧
  AuthBlock_Cid b = Want_Cid w.
Proof.
  intros He Hb. pose proof (nextEnvelope_released _ _ _ _ _ _ _ He Hb) as Hg.
  apply AuthedBlockstore.Get_Ok_iff in Hg as (_ & Hg & Ha).
  split_and!; [done..|]. by eapply bs_Get_Cid.
Qed.

(** C5: content of an envelope.  When the queue hands a batch of tasks for
    distinct wants and one of them is owed an answer, [nextEnvelope] returns an
    envelope for that peer and those tasks, and the message says about each
    task's want exactly what is owed: the block if the blockstore releases it, a
    DONT_HAVE if it does not and one was asked for, HAVE for a want-have, and
    nothing about any other want. *)
Theorem envelope_answers_tasks `{!BlockstoreLaws B} fuel faults ws e p tasks pending :
  (pop e).1 = (p, tasks, pending) → NoDup (Task_Topic <$> tasks) →
  (∃ t, t ∈ tasks ∧ task_reply e p t ≠ RNothing) →
  ∃ env e', nextEnvelope (S fuel) (None :: faults) ws e = (e', Some (Ok env)) ∧
    env_Peer env = p ∧ env_Tasks env = tasks ∧
    (∀ t, t ∈ tasks → msg_reply (env_Message env) (Task_Topic t) = task_reply e p t) ∧
    (∀ w, w ∉ Task_Topic <$> tasks → msg_reply (env_Message env) w = RNothing) ∧
    wantlist (env_Message env) = ∅ ∧ pendingBytes (env_Message env) = int32 pending.
Proof. apply nextEnvelope_replies. Qed.

(** C12: the reverse index is complete.  After any sequence of engine operations
    from a new engine, every want in a peer's wantlist is in the index under that
    peer, every wantlist entry sits under its own want in the ledger of its
    partner, and the index holds no empty set of peers. *)
Theorem reachable_index_complete bs sl q n k e :
  rtc step (newEngine bs sl q n k) e →
  (∀ p w, peer_wants e p w → PeerLedger.waits (peerLedger e) p w) ∧
  (∀ p l, ledgerMap e !! p = Some l → Partner l = p ∧ WL.wf (wantList l)) ∧
  PeerLedger.wf (peerLedger e).
Proof.
  intros Hr. assert (Inv e) as HI by (eapply Inv_reachable; [done|apply Inv_newEngine]).
  split; [|split; [apply (inv_ledger _ _ HI)|apply (inv_wf _ _ HI)]].
  intros p w. by apply Inv_waits.
Qed.


(** C7: effect of a message.  When the block sizes can be read, the wantlist of
    the sender becomes the wants of the message plus, unless the message replaces
    the wantlist, the old wants that it does not cancel; no other peer's wantlist
    changes; queued tasks are removed for the cancelled wants the ledger held;
    and the tasks of the message are pushed in one call, with a work signal. *)
Theorem message_received_effect bs sl q n k f p (m : impl) e sizes :
  rtc step (newEngine bs sl q n k) e → wf m →
  BSM.getBlockSizes f (bsm e) (et_Want <$> msg_wants m) p = (sizes, None) →
  let e' := MessageReceived f p m e in
  let tasks := omap (want_task e sizes) (msg_wants m) in
  let q1 := foldl (λ q et, Queue_Remove (et_Want et) p q) (peerRequestQueue e) (live_cancels m e p) in
  (∀ w, peer_wants e' p w ↔
     w ∈ et_Want <$> msg_wants m ∨
     (Full m = false ∧ peer_wants e p w ∧ w ∉ et_Want <$> msg_cancels m)) ∧
  (∀ q w, q ≠ p → peer_wants e' q w ↔ peer_wants e q w) ∧
  peerRequestQueue e' = (if 0 <? len tasks then PushTasks p tasks q1 else q1) ∧
  workSignal e' = (workSignal e || (0 <? len tasks)).
Proof.
  intros Hr Hm. apply MessageReceived_effect; [done|].
  eapply Inv_reachable; [done|apply Inv_newEngine].
Qed.

(** Effect of a sent message.  A block that was sent settles any want of the
    peer for it, a HAVE settles a want-have but not a want-block, and every other
    entry of every peer is unchanged. *)
Theorem message_sent_effect p (m : impl) e q w :
  wf m →
  wanted_entry (MessageSent p m e) q w =
    if decide (q = p) then settled m w (wanted_entry e p w) else wanted_entry e q w.
Proof. apply MessageSent_effect. Qed.

(** The authenticating blockstore releases a block exactly when the source
    has it and [allow] accepts the requester, its capability and the bytes. *)
Theorem authed_get_iff (bs : AuthedBlockstore.AuthedBlockstore B) c remote a blk :
  AuthedBlockstore.Get bs c remote a = Ok blk ↔
  bs_Has (AuthedBlockstore.source bs) c = Ok true ∧
  bs_Get (AuthedBlockstore.source bs) c = Ok blk ∧
  AuthedBlockstore.allow bs c (Block_RawData blk) remote a = true.
Proof. apply AuthedBlockstore.Get_Ok_iff. Qed.

(** Merging tasks for one want.  If [HasNewInfo] says a new task adds nothing
    to the queued ones, then every kind of answer it asks for is already queued;
    merging it into a queued task gives the join of what the two ask for, keeps
    the topic, and a merged task that sends a block counts the block's size as
    its work. *)
Theorem task_merge_joins (task : Task) (queued : list Task) existing :
  (HasNewInfo task queued = false ↔
     (td_IsWantBlock (Task_Data task) = true → ∃ t, t ∈ queued ∧ td_IsWantBlock (Task_Data t) = true) ∧
     (td_HaveBlock (Task_Data task) = true → ∃ t, t ∈ queued ∧ td_HaveBlock (Task_Data t) = true)) ∧
  td_HaveBlock (Task_Data (Merge task existing)) =
    td_HaveBlock (Task_Data existing) || td_HaveBlock (Task_Data task) ∧
  td_IsWantBlock (Task_Data (Merge task existing)) =
    td_IsWantBlock (Task_Data existing) || td_IsWantBlock (Task_Data task) ∧
  Task_Topic (Merge task existing) = Task_Topic existing ∧
  task_wf (Merge task existing).
Proof.
  destruct (Merge_flags task existing) as (H1 & H2 & _ & _ & H3 & H4).
  split; [|by split_and!]. rewrite HasNewInfo_spec, orb_false_iff, !andb_false_iff, !negb_false_iff.
  rewrite !existsb_exists. setoid_rewrite list_elem_of_In.
  destruct (td_IsWantBlock (Task_Data task)), (td_HaveBlock (Task_Data task)); naive_solver.
Qed.

(** One round of the score worker.  Every ledger is sampled exactly once,
    the loop variables advance, and the connection manager is told of exactly
    the peers whose score changed, with the new score. *)
Theorem score_round_updates now s (d : Score.DefaultScoreLedger) :
  Score.wf d →
  let r := Score.scoreWorker_tick now s d in
  Score.ledgerMap r.1.1 = Score.sampled s <$> Score.ledgerMap d ∧
  Score.lastShortUpdate r.1.2 = now ∧
  Score.sw_i r.1.2 = (Score.sw_i s + 1) `mod` Score.longTermRatio ∧
  ∀ p n, (p, n) ∈ r.2 ↔
    ∃ l, Score.ledgerMap d !! p = Some l ∧ n = Score.score (Score.sampled s l) ∧ n ≠ Score.score l.
Proof.
  intros Hd r. split; [apply Score.tick_ledgers|].
  split_and!; [unfold r, Score.scoreWorker_tick; by destruct (foldl _ _ _)..|].
  intros p n. by apply Score.tick_updates.
Qed.

End server.

(** ** A concrete engine

    One block of one byte is stored; [allow] releases it to alice only, and only
    with the capability ["00"]. *)
Module ServerExample.
Import Env.

Definition data : bytes := [Byte.x2a].
Definition w0 : Want := want 2 "00".
Definition allow0 (c : N) (d : bytes) (p : PeerID) (a : string) : bool :=
  String.eqb p "alice" && String.eqb a "00".
Definition bs0 : AuthedBlockstore.AuthedBlockstore store :=
  AuthedBlockstore.NewAuthBlockstore (<[hash data := data]> ∅) allow0.
Definition e0 : Engine store queue scores := NewEngine bs0 no_scores [] 1.

(** Alice asks for the block and, with a bad capability, once more. *)
Definition w1 : Want := want 2 "01".
Definition m0 : impl := (AddEntry w1 1 WantType_Block true (AddEntry w0 2 WantType_Block true (newMsg false)).2).2.
Definition e1 : Engine store queue scores := MessageReceived None "alice" m0 e0.

Definition envelope_of (r : option (result error Envelope)) : Envelope :=
  match r with Some (Ok env) => env | _ => mkEnvelope "" (newMsg false) [] end.
Definition env1 : Envelope := envelope_of (nextEnvelope 1 [] [] e1).2.

(** A want for a block that is not there, and the block. *)
Definition w2 : Want := want 3 "00".
Definition data2 : bytes := [Byte.x01; Byte.x02].
Definition m2 : impl := (AddEntry w2 5 WantType_Block false (newMsg false)).2.
Definition b2 : AuthBlock := NewBlock (block data2) "00".
Definition e2 : Engine store queue scores := MessageReceived None "alice" m2 e0.

Definition t0 : Task := mkTask w0 2 1 (mkTaskData true true 1 true).
Definition t1 : Task := mkTask w1 1 1 (mkTaskData true true 1 true).

(** The message that answers the first want, and some accounting for alice. *)
Definition sent1 : impl := AddBlock (block data) "00" (newMsg false).
Definition d0 : Score.DefaultScoreLedger :=
  Score.mkDSL {["alice" := Score.AddToReceivedBytes 50 10 (Score.newScoreLedger "alice")]} 50 false.



Lemma wf_sent1 : wf sent1.
Proof. unfold sent1. auto with go. Qed.
Lemma wf_received0 : wf m0.
Proof. unfold m0, AddEntry. auto with go. Qed.
Lemma wf_m2 : wf m2.
Proof. unfold m2, AddEntry. auto with go. Qed.

Lemma e1_reachable : rtc step e0 e1.
Proof. apply rtc_once. constructor. apply wf_received0. Qed.
Lemma e2_reachable : rtc step e0 e2.
Proof. apply rtc_once. constructor. apply wf_m2. Qed.
End ServerExample.

Import Env ServerExample.

Lemma served_blocks_allowed_witness :
  let b := NewBlock (block data) "00" in
  blocks (env_Message env1) !! w0 = Some b ∧ env_Peer env1 = "alice" ∧
  AuthedBlockstore.allow (bsm e1) (Want_Cid w0) (AuthBlock_GetAuthedData b)
    (env_Peer env1) (Want_Auth w0) = true.
Proof.
  intros b.
  assert ((nextEnvelope 1 [] [] e1).2 = Some (Ok env1)) as H1 by evaluate.
  assert (blocks (env_Message env1) !! w0 = Some b) as H2 by evaluate.
  split; [exact H2|]. split; [evaluate|].
  exact (proj1 (served_blocks_allowed 1 [] [] _ _ _ _ H1 H2)).
Defined.

Lemma envelope_answers_tasks_witness :
  ∃ env e', nextEnvelope 1 [None] [] e1 = (e', Some (Ok env)) ∧ env_Peer env = "alice" ∧
    msg_reply (env_Message env) w0 = RBlock (NewBlock (block data) "00") ∧
    msg_reply (env_Message env) w1 = RPresence Presence_DontHave.
Proof.
  destruct (envelope_answers_tasks 0 [] [] e1 "alice" [t1; t0] 0)
    as (env & e' & H1 & H2 & _ & H4 & _).
  - evaluate.
  - decide_by_eval.
  - exists t0. split; [right; left|]. vm_compute. discriminate.
  - exists env, e'. split; [exact H1|]. split; [exact H2|]. split.
    + etransitivity; [exact (H4 t0 ltac:(right; left))|evaluate].
    + etransitivity; [exact (H4 t1 ltac:(left))|evaluate].
Defined.

Lemma reachable_index_complete_witness :
  rtc step e0 e2 ∧ PeerLedger.waits (peerLedger e2) "alice" w2.
Proof.
  split; [exact e2_reachable|].
  apply (proj1 (reachable_index_complete bs0 no_scores [] 1 1024 e2 e2_reachable)).
  apply wanted_entry_wants. exists (mkEntry _ w2 5 WantType_Block). evaluate.
Defined.


Lemma message_received_effect_witness :
  peer_wants (MessageReceived None "alice" m2 e1) "alice" w2 ∧
  peer_wants (MessageReceived None "alice" m2 e1) "alice" w0.
Proof.
  destruct (message_received_effect bs0 no_scores [] 1 1024 None "alice" m2 e1
    (BSM.getBlockSizes None (bsm e1) (et_Want <$> msg_wants m2) "alice").1 e1_reachable wf_m2)
    as (H & _); [evaluate|].
  split; apply H.
  - left. decide_by_eval.
  - right. split; [evaluate|]. split; [|decide_by_eval].
    apply wanted_entry_wants. exists (mkEntry _ w0 2 WantType_Block). evaluate.
Defined.

Lemma message_sent_effect_witness :
  wanted_entry e1 "alice" w0 = Some (mkEntry _ w0 2 WantType_Block) ∧
  wanted_entry (MessageSent "alice" sent1 e1) "alice" w0 = None.
Proof.
  split; [evaluate|]. rewrite (message_sent_effect "alice" sent1 e1 "alice" w0 wf_sent1). evaluate.
Defined.


Lemma score_round_updates_witness :
  Score.wf d0 ∧
  ("alice", 6) ∈ (Score.scoreWorker_tick 100 Score.sampler_init d0).2.
Proof.
  assert (Score.wf d0) as Hd.
  { intros p l. unfold d0. simpl. intros [<- <-]%lookup_singleton_Some. done. }
  split; [exact Hd|].
  destruct (score_round_updates 100 Score.sampler_init d0 Hd) as (_ & _ & _ & H).
  apply H. exists (Score.AddToReceivedBytes 50 10 (Score.newScoreLedger "alice")).
  split; [evaluate|]. split; [evaluate|]. vm_compute. discriminate.
Defined.

(** The two critical sections of [MessageReceived] can lose a want.  Alice's
    want is entered in the index; before it reaches her ledger the wanted block
    arrives, and [ReceiveFrom] drops the index entry because the ledger does not
    have the want; then the ledger is updated.  The want now sits in the ledger
    without an index entry, no task was queued for it, and when the block arrives
    again nothing is queued either. *)
Theorem interleaved_message_loses_want :
  let wants := msg_wants m2 in
  let e := mr_ledger "alice" false wants [] (BSM.getBlockSizes None (bsm e0) [w2] "alice").1
             (ReceiveFrom "bob" [b2] (mr_index "alice" wants [] e0)) in
  peer_wants e "alice" w2 ∧ ¬ PeerLedger.waits (peerLedger e) "alice" w2 ∧
  peerRequestQueue e = [] ∧ peerRequestQueue (ReceiveFrom "bob" [b2] e) = [].
Proof.
  split; [apply wanted_entry_wants; exists (mkEntry _ w2 5 WantType_Block); evaluate|].
  split; [|split; evaluate].
  rewrite <- PeerLedger.elem_of_Peers. decide_by_eval.
Qed.
