(* ===== verification/ClientTheorems.v ===== *)
(** * Theorems about asking peers

    From the calls on the peer manager to the wantlist the remote peer holds:
    what the manager records, what the message queues are told, what goes out on
    the wire, and the timeouts for peers that do not answer. *)
From S2P Require Import Prelude Auth Wantlist Hex Proto Message Ledger PeerWantManager.
From S2P Require Import PeerWantFacts PeerManager MessageQueue MessageQueueFacts.
From S2P Require Import MessageQueueRun MessageQueueWire DontHaveTimeout DontHaveTimeoutFacts.
From S2P Require Import ScoreLedger TaskMerger BlockstoreManager Engine EngineIndex Mirror Instances.
Import MQ.
Open Scope Z_scope.

Section both.
Context {CL : CidLib} {GO : GoRuntime} {BL : BlockLib} (sizeCid : Cid).
Context {B : Type} {BS : Blockstore B} {Q : Type} {PTQ : PeerTaskQueue Q} {SL : Type} {SLI : ScoreLedger SL}.
Implicit Types (e : Engine.Engine B Q SL) (w : Want) (served : gset Want).

End both.

Section client.
Context {CL : CidLib} {GO : GoRuntime} {BL : BlockLib} (sizeCid : Cid).
Implicit Types (pm : PM.PeerManager) (p : PeerID) (w : Want).


(** The queues are told exactly what the manager records.  In every
    reachable state of the peer manager, replaying the calls made on a connected
    peer's queue gives the want-blocks and want-haves recorded for the peer and
    the broadcast wants. *)
Theorem queues_told_what_is_recorded self pm tr p pws :
  rtc PMFacts.step (PM.New self, []) (pm, tr) →
  PWM.peerWants (PM.pwm pm) !! p = Some pws →
  PWMFacts.replay (PWM.peerQueue pws) (PMFacts.calls tr) =
    PWM.wantBlocks pws ∪ PWM.wantHaves pws ∪ PWM.broadcastWants (PM.pwm pm).
Proof.
  intros Hpm Hp. destruct (PMFacts.pool_reachable_good _ _ Hpm (PMFacts.Good_new self)) as (_ & _ & [_ HD]).
  by eapply HD.
Qed.


(** Life cycle of the queues.  In every reachable state the queues of
    connected peers are distinct objects, each was started, none was shut down,
    and the want manager uses the same queue for the same peer. *)
Theorem queue_lifecycle self pm tr :
  rtc PMFacts.step (PM.New self, []) (pm, tr) →
  (∀ p q, PM.peerQueues pm !! p = Some q → EvStartup q ∈ tr ∧ EvShutdown q ∉ tr) ∧
  (∀ p1 p2 q, PM.peerQueues pm !! p1 = Some q → PM.peerQueues pm !! p2 = Some q → p1 = p2) ∧
  (∀ p, PM.peerQueues pm !! p = PWM.peerQueue <$> PWM.peerWants (PM.pwm pm) !! p).
Proof.
  intros Hpm. destruct (PMFacts.pool_reachable_good _ _ Hpm (PMFacts.Good_new self)) as ([? ? ? ? ? ?] & _).
  by split_and!.
Qed.

(** Sending wants to a peer.  Of the requested want-blocks only those not
    yet sent as want-blocks go out, and of the requested want-haves only those
    that are neither broadcast nor already with the peer nor asked for as blocks;
    each goes out once, the record is updated accordingly and no other peer's
    record changes. *)
Theorem send_wants_filters self pm tr p pws blks haves :
  rtc PMFacts.step (PM.New self, []) (pm, tr) →
  PWM.peerWants (PM.pwm pm) !! p = Some pws →
  ∃ s' fb fh,
    PWM.sendWants p blks haves (PM.pwm pm) = (s', [QWants (PWM.peerQueue pws) fb fh]) ∧
    PWM.peerWants s' = <[p := PWM.mkPeerWant (PWM.wantBlocks pws ∪ list_to_set blks)
        ((PWM.wantHaves pws ∖ list_to_set blks) ∪ list_to_set fh) (PWM.peerQueue pws)]>
      (PWM.peerWants (PM.pwm pm)) ∧
    NoDup fb ∧ NoDup fh ∧
    (∀ w, w ∈ fb ↔ w ∈ blks ∧ w ∉ PWM.wantBlocks pws) ∧
    (∀ w, w ∈ fh ↔ w ∈ haves ∧ w ∉ PWM.broadcastWants (PM.pwm pm) ∧ w ∉ PWM.wantBlocks pws ∧
       w ∉ PWM.wantHaves pws ∧ w ∉ blks).
Proof.
  intros Hpm Hp. destruct (PMFacts.pool_reachable_good _ _ Hpm (PMFacts.Good_new self)) as (_ & HI & _).
  destruct (PWMFacts.sendWants_spec p blks haves _ _ HI Hp)
    as (s' & fb & fh & H1 & _ & _ & H2 & H3 & H4 & H5 & H6).
  exists s', fb, fh. by split_and!.
Qed.

(** Cancelling.  After [sendCancels] no peer has a cancelled want recorded
    and none is broadcast; a cancel is sent to exactly the peers that had one of
    the wants, once per peer, and names exactly the cancelled wants that were
    broadcast or sent to that peer. *)
Theorem send_cancels_targets self pm tr ks :
  rtc PMFacts.step (PM.New self, []) (pm, tr) → NoDup ks →
  let s := PM.pwm pm in
  ∃ s' ps,
    PWM.sendCancels ks s = (s', omap (PWMFacts.call_for s ks) ps) ∧ NoDup ps ∧
    (∀ p, p ∉ ps → PWMFacts.call_for s ks p = None) ∧
    (∀ p, PWM.peerWants s' !! p = PWMFacts.strip ks <$> PWM.peerWants s !! p) ∧
    PWM.broadcastWants s' = PWM.broadcastWants s ∖ list_to_set ks ∧
    (∀ p pws, PWM.peerWants s !! p = Some pws → ∀ w,
       w ∈ PWMFacts.cancels_for (PWM.broadcastWants s) ks pws ↔
       w ∈ ks ∧ (w ∈ PWM.broadcastWants s ∨ w ∈ PWM.wantBlocks pws ∨ w ∈ PWM.wantHaves pws)).
Proof.
  intros Hpm Hn. destruct (PMFacts.pool_reachable_good _ _ Hpm (PMFacts.Good_new self)) as (_ & HI & _).
  destruct (PWMFacts.sendCancels_spec ks _ HI Hn) as (s' & ps & H1 & _ & H2 & H3 & H4 & H5).
  exists s', ps. split_and!; try done. intros p pws _ w. apply PWMFacts.elem_of_cancels_for.
Qed.


(** C16: draining terminates.  From every reachable state of an open queue, with
    a working connection, sending as many messages as there are pending items
    (or more) leaves no pending work, however small the maximum message size. *)
Theorem draining_empties_queue id n d q R tr net now k :
  rtc (MQWire.step sizeCid id) (newMessageQueue n d, ∅, []) (q, R, tr) → closed q = false →
  net_open net = true → net_sent net = true → pendingWorkCount q ≤ Z.of_nat k →
  pendingWorkCount (MQWire.drain sizeCid net k now q) = 0.
Proof.
  intros Hr Hc Ho Hs Hk. destruct (MQWire.Known_reachable _ _ _ _ Hr (MQWire.Known_new _ _)) as [Hq _].
  by apply MQWire.drain_empties.
Qed.

(** C17: the run loop is never stuck on its timer.  Under any schedule in which
    the clock has left the zero time, whenever there is outgoing work the case of
    the select loop completes: the receive that drains a stopped timer finds a
    value.  The loop's variables stay consistent afterwards. *)
Theorem run_loop_never_stuck n d acts q R tr net now :
  Forall MQWire.act_time acts →
  MQWire.run_acts sizeCid acts (newMessageQueue n d, ∅, []) = Some (q, R, tr) →
  is_Some (outgoingWork q) →
  ∃ r, MQWire.run_act sizeCid (MQWire.AOutgoing net now) q = Some r ∧ MQWire.sched_ok r.1.
Proof.
  intros Ha Hr [when Hw].
  destruct (MQWire.Ready_run_acts _ _ (newMessageQueue n d, ∅, []) _ Ha (MQWire.Ready_new n d) Hr) as [Hs Ho]. cbn [fst snd] in *.
  cbn. rewrite Hw. apply MQWire.onOutgoingWork_total; [done|]. by apply Ho.
Qed.

(** C18: a timeout check is exact.  In every reachable state of the DONT_HAVE
    timeout manager, a check at a later time reports exactly the active wants
    that have been pending for the timeout or longer, each once; exactly these
    stop being active, and the invariants of the queue still hold. *)
Theorem timeout_check_exact clk0 a b m1 m2 c clk d now :
  rtc DHTMFacts.step (clk0, DHTM.newDontHaveTimeoutMgrWithParams a b m1 m2 c) (clk, d) → clk ≤ now →
  let r := DHTM.checkForTimeouts now d in
  (∀ w, w ∈ default [] r.2 ↔ DHTMFacts.overdue now d w) ∧ NoDup (default [] r.2) ∧
  (∀ w, DHTM.activeWants r.1 !! w =
     if decide (w ∈ default [] r.2) then None else DHTM.activeWants d !! w) ∧
  DHTMFacts.Inv now r.1.
Proof.
  intros Hr Hc. destruct (DHTMFacts.new_good clk0 a b m1 m2 c) as [H0 H1].
  destruct (DHTMFacts.timeouts_reachable_good _ _ Hr H0 H1) as [HI _]. cbn [fst snd] in *.
  destruct (DHTMFacts.checkForTimeouts_spec clk now d Hc HI) as (C1 & _ & [K1 K2 K3 _ _ _]).
  by split_and!.
Qed.

(** C19: no want waits for ever.  In every reachable state with an active want, a
    check is due or the timer is running with a deadline no later than the moment
    the oldest active want times out (or now, if that has passed). *)
Theorem timeout_always_scheduled clk0 a b m1 m2 c clk d w i :
  rtc DHTMFacts.step (clk0, DHTM.newDontHaveTimeoutMgrWithParams a b m1 m2 c) (clk, d) →
  DHTM.closed d = false → DHTM.activeWants d !! w = Some i →
  DHTM.due d = true ∨
  ∃ t, DHTM.timer d = Some t ∧ t ≤ Z.max clk (DHTMFacts.sentOf (DHTM.heap d) i + DHTM.timeout d).
Proof.
  intros Hr Hc Hw. destruct (DHTMFacts.new_good clk0 a b m1 m2 c) as [H0 H1].
  destruct (DHTMFacts.timeouts_reachable_good _ _ Hr H0 H1) as [_ Hs]. cbn [fst snd] in *.
  destruct Hs as [?|(t & Ht & Hb)]; [done| |by left|right; eauto].
  intros E. rewrite E in Hw. by rewrite lookup_empty in Hw.
Qed.
End client.

(** ** A concrete client

    One connected peer; a broadcast want, a want-block and a want-have are sent,
    and the broadcast is cancelled. *)
Module ClientExample.
Import Env MQWire.

Definition sizeCid : Cid := 34%N.
Definition net : netres := mkNet true true true.
Definition ms (n : Z) : Time := n * 10 ^ 6.
Definition w0 : Want := want 2 "00".
Definition w1 : Want := want 3 "01".
Definition w2 : Want := want 4 "".

Definition ops : list PMFacts.op :=
  [PMFacts.OConnected "bob"; PMFacts.OBroadcast [w0]; PMFacts.OSendWants "bob" [w1] [w2; w0];
   PMFacts.OSendCancels [w0]].
Definition pmtr : PM.PeerManager * list pm_event := PMFacts.run_ops ops (PM.New "self", []).
Definition bob : PWM.peerWant :=
  default (PWM.mkPeerWant ∅ ∅ 0%nat) (PWM.peerWants (PM.pwm pmtr.1) !! "bob").

Definition new : MessageQueue * gset Want * list qcall := (newMessageQueue 1024 (ms 1000), ∅, []).
Definition acts : list act :=
  [ACall (ms 1) (QBroadcast 0 [w0]); AOutgoing net (ms 30);
   ACall (ms 40) (QWants 0 [w1] [w2]); AOutgoing net (ms 70);
   ACall (ms 80) (QCancels 0 [w0]); AOutgoing net (ms 110)].
Definition acts_begin : list act := take 5 acts.
Definition after (acts : list act) : MessageQueue * gset Want * list qcall :=
  default new (run_acts sizeCid acts new).

Definition dhtm0 : DHTM.dontHaveTimeoutMgr := DHTM.newDontHaveTimeoutMgr.
Definition dhtm1 : DHTM.dontHaveTimeoutMgr := (DHTM.Start (ms 10) dhtm0).1.
Definition dhtm2 : DHTM.dontHaveTimeoutMgr := (DHTM.AddPending (ms 20) (ms 20) [w1] dhtm1).1.

Lemma pmtr_reachable : rtc PMFacts.step (PM.New "self", []) (pmtr.1, pmtr.2).
Proof.
  rewrite <- surjective_pairing. apply PMFacts.run_ops_steps.
  repeat constructor; set_solver.
Qed.

Lemma begin_reachable :
  rtc (step sizeCid 0) new ((after acts_begin).1.1, (after acts_begin).1.2, (after acts_begin).2).
Proof.
  apply (run_acts_steps sizeCid 0 acts_begin); [evaluate|].
  rewrite <- !surjective_pairing. evaluate_some.
Qed.

Lemma dhtm2_reachable : rtc DHTMFacts.step (0, dhtm0) (ms 20, dhtm2).
Proof.
  eapply rtc_l; [apply (DHTMFacts.st_Start 0 (ms 10))|]. fold dhtm1.
  apply rtc_once. by apply (DHTMFacts.st_AddPending 0 (ms 20) (ms 20) [w1] dhtm1).
Qed.

Abbreviation both := (MessageQueue * list qcall * (Engine.Engine store queue scores * gset Want))%type.

End ClientExample.

Import Env ClientExample.



Lemma queues_told_what_is_recorded_witness :
  PWMFacts.replay (PWM.peerQueue bob) (PMFacts.calls pmtr.2) =
    PWM.wantBlocks bob ∪ PWM.wantHaves bob ∪ PWM.broadcastWants (PM.pwm pmtr.1).
Proof.
  assert (PWM.peerWants (PM.pwm pmtr.1) !! "bob" = Some bob) as Hp by evaluate_some.
  exact (queues_told_what_is_recorded "self" _ _ _ _ pmtr_reachable Hp).
Defined.


Lemma queue_lifecycle_witness : EvStartup 0 ∈ pmtr.2 ∧ EvShutdown 0 ∉ pmtr.2.
Proof.
  apply (proj1 (queue_lifecycle "self" _ _ pmtr_reachable) "bob"). evaluate.
Defined.

Lemma send_wants_filters_witness :
  ∃ s' fb fh, PWM.sendWants "bob" [w1; w0] [w2] (PM.pwm pmtr.1) = (s', [QWants 0 fb fh]) ∧
    w0 ∈ fb ∧ w1 ∉ fb ∧ w2 ∉ fh.
Proof.
  assert (PWM.peerWants (PM.pwm pmtr.1) !! "bob" = Some bob) as Hp by evaluate_some.
  destruct (send_wants_filters "self" _ _ "bob" bob [w1; w0] [w2] pmtr_reachable Hp)
    as (s' & fb & fh & H1 & _ & _ & _ & H2 & H3).
  exists s', fb, fh. split; [etransitivity; [exact H1|]; f_equal; f_equal; f_equal; evaluate|].
  rewrite !H2, H3. split; [split; decide_by_eval|].
  split; intros H; [destruct H as [_ H]; revert H|destruct H as (_ & _ & _ & H & _); revert H];
    apply (dec_stable (P := ¬ _)); intros Hn; apply Hn; intros H; apply H; decide_by_eval.
Defined.

Lemma send_cancels_targets_witness :
  ∃ s' ps, PWM.sendCancels [w1] (PM.pwm pmtr.1) = (s', omap (PWMFacts.call_for (PM.pwm pmtr.1) [w1]) ps) ∧
    "bob" ∈ ps.
Proof.
  destruct (send_cancels_targets "self" _ _ [w1] pmtr_reachable) as (s' & ps & H1 & _ & H2 & _);
    [apply NoDup_singleton|].
  exists s', ps. split; [exact H1|]. destruct (decide ("bob" ∈ ps)) as [H|H]; [exact H|].
  specialize (H2 _ H). vm_compute in H2. discriminate H2.
Defined.


Lemma draining_empties_queue_witness :
  pendingWorkCount (after acts_begin).1.1 = 1 ∧
  pendingWorkCount (MQWire.drain sizeCid net 1 (ms 200) (after acts_begin).1.1) = 0.
Proof.
  split; [evaluate|].
  refine (draining_empties_queue sizeCid 0 1024 (ms 1000) _ _ _ net (ms 200) 1 begin_reachable _ _ _ _);
    [evaluate|reflexivity|reflexivity|].
  decide_by_eval.
Defined.

Lemma run_loop_never_stuck_witness :
  ∃ r, MQWire.run_act sizeCid (MQWire.AOutgoing net (ms 110)) (after acts_begin).1.1 = Some r ∧
    MQWire.sched_ok r.1.
Proof.
  refine (run_loop_never_stuck sizeCid 1024 (ms 1000) acts_begin (after acts_begin).1.1
    (after acts_begin).1.2 (after acts_begin).2 net (ms 110) _ _ _).
  - repeat constructor; discriminate.
  - rewrite <- !surjective_pairing. evaluate_some.
  - exists (ms 80). evaluate.
Defined.

Lemma timeout_check_exact_witness :
  DHTMFacts.overdue (ms 10000) dhtm2 w1 ∧ w1 ∈ default [] (DHTM.checkForTimeouts (ms 10000) dhtm2).2.
Proof.
  assert (DHTMFacts.overdue (ms 10000) dhtm2 w1) as H.
  { exists 0%nat, (ms 20). split; [evaluate|]. split; [evaluate|]. decide_by_eval. }
  split; [exact H|].
  apply (proj1 (timeout_check_exact 0 _ _ _ _ _ (ms 20) dhtm2 (ms 10000) dhtm2_reachable ltac:(decide_by_eval)) w1).
  exact H.
Defined.

Lemma timeout_always_scheduled_witness :
  DHTM.due dhtm2 = true ∨
  ∃ t, DHTM.timer dhtm2 = Some t ∧
    t ≤ Z.max (ms 20) (DHTMFacts.sentOf (DHTM.heap dhtm2) 0 + DHTM.timeout dhtm2).
Proof.
  refine (timeout_always_scheduled 0 _ _ _ _ _ (ms 20) dhtm2 w1 0%nat dhtm2_reachable _ _); evaluate.
Defined.

(** Asking again for a want whose cancel is still queued.  A want is sent; it is cancelled,
    asked for again and cancelled again before anything goes out.  The queue
    drops the queued cancel when the want comes back, and no longer knows that
    the want was sent when it is cancelled for the second time: it ends with no
    pending work and no cancel to send, while the remote peer still holds a want
    that the manager has cancelled. *)
Theorem cancelled_want_stays_on_remote :
  let acts := [MQWire.ACall (ms 1) (QWants 0 [w1] []); MQWire.AOutgoing net (ms 30);
               MQWire.ACall (ms 40) (QCancels 0 [w1]); MQWire.ACall (ms 41) (QWants 0 [w1] []);
               MQWire.ACall (ms 42) (QCancels 0 [w1]); MQWire.AOutgoing net (ms 70)] in
  ∃ q R tr, MQWire.run_acts sizeCid acts new = Some (q, R, tr) ∧
    closed q = false ∧ pendingWorkCount q = 0 ∧ outgoingWork q = None ∧
    w1 ∈ R ∧ PWMFacts.replay 0 tr = ∅.
Proof.
  intros acts. exists (after acts).1.1, (after acts).1.2, (after acts).2.
  split; [rewrite <- !surjective_pairing; evaluate_some|].
  split; [evaluate|]. split; [evaluate|]. split; [evaluate|]. split; [decide_by_eval|evaluate].
Qed.

(** The two locks of [extractOutgoingMessage] leave a gap.  A want is
    pending both for the peer and as a broadcast when the message is built; before
    the second lock it is cancelled and broadcast again.  The peer entry can no
    longer be marked, so the want is taken out of the message, but the broadcast
    entry can, so the queue records the want as sent although the message does
    not contain it, and has no pending work left. *)
Theorem extraction_race_marks_unsent_want :
  let q0 := AddWants (ms 2) [w1] [] (AddBroadcastWantHaves (ms 1) [w1] (newMessageQueue 1024 (ms 1000))) in
  let b := extract_begin true q0 in
  let x := extract_build sizeCid true b.1 (maxMessageSize b.2) (msg b.2) in
  let q1 := AddBroadcastWantHaves (ms 4) [w1] (AddCancels (ms 3) [w1] b.2).1 in
  let r := extract_finish x.1 x.2 q1 in
  Entry_Want <$> r.1.2 = [w1] ∧ is_Some (RWL.sent (bcstWants r.2) !! w1) ∧
  Message.wantlist (msg r.2) !! w1 = None ∧ pendingWorkCount r.2 = 0.
Proof.
  cbv zeta. split; [evaluate|]. split; [decide_by_eval|]. split; evaluate.
Qed.
