(* ===== verification/SessionTheorems.v ===== *)
(** * Theorems about messages and sessions

    The wire format of messages, the merge of wantlists, and the books that
    sessions keep: block presences, interest, wants, peers and connections. *)
From S2P Require Import Prelude Auth Wantlist Hex Proto Message BlockPresence SessionInterest.
From S2P Require Import SessionWants SessionPeers ConnectEvents Instances.
Open Scope Z_scope.

Section wire.
Context {CL : CidLib} {GO : GoRuntime} {BL : BlockLib}.
Import Message.

(** Wire round trip.  A well-formed message whose cids are defined, whose
    capabilities are in the form the decoder produces, whose priorities are
    32-bit and whose blocks hash to their cids, is read back from its version 1
    wire struct as a message with the same wantlist, blocks, presences, pending
    bytes and full flag. *)
Theorem wire_roundtrip `{!BlockLibLaws} (m : impl) :
  wf m → wire_ok m → ∃ m', newMessageFromProto (ToProtoV1 m) = Ok m' ∧ msg_eq m' m.
Proof. apply roundtrip_V1. Qed.

(** C25: messages read from the wire are well formed: entries and blocks sit
    under their own want, no want has both a block and a presence, the bytes of
    every block are recorded; and a message with an undefined cid in its wantlist
    or its presences is rejected. *)
Theorem received_message_wf (pbm : pb_Message) (m : impl) :
  newMessageFromProto pbm = Ok m →
  wf m ∧
  (∀ e, e ∈ pbw_Entries (pbm_Wantlist pbm) → Cid_Defined (pbe_Block e) = true) ∧
  (∀ bi, bi ∈ pbm_BlockPresences pbm → Cid_Defined (pbp_Cid bi) = true).
Proof.
  intros H. split; [by eapply wf_newMessageFromProto|]. by eapply newMessageFromProto_undef.
Qed.

(** Merging wantlists.  Whatever order the entries are visited in, [Absorb]
    gives for each want the entry of either list when only one has it; when both
    have it, an existing want-block or an incoming want-have leaves the existing
    entry, and otherwise the incoming want-block replaces the want-have. *)
Theorem absorb_merges (w other : Wantlist) k :
  WL.wf other →
  WL.Absorb w other !! k =
    match w !! k, other !! k with
    | old, None => old
    | None, Some e => Some e
    | Some e0, Some e =>
        Some (if bool_decide (Entry_WantType e0 = WantType_Block)
                 || bool_decide (Entry_WantType e = WantType_Have) then e0 else e)
    end.
Proof.
  intros Ho. rewrite WL.Absorb_lookup by done. unfold WL.absorb_spec, WL.add_result.
  by destruct (w !! k), (other !! k).
Qed.
End wire.

Section session.
Context {CL : CidLib} {GO : GoRuntime}.

(** Block presences.  After any history of messages and clean-ups, the
    manager says a peer has a block exactly when the peer sent a HAVE for it since
    the last clean-up of the cid, says it does not have it exactly when it sent a
    DONT_HAVE and no HAVE since then, and says all peers of a list lack a want
    exactly when each of them is in the second case (and someone answered). *)
Theorem presence_reflects_history h p c (ps : list PeerID) (ws : list Want) w :
  (BPM.PeerHasBlock p c (BPM.replay h) = true ↔ BPM.said_have h p c) ∧
  (BPM.PeerDoesNotHaveBlock p c (BPM.replay h) = true ↔
     BPM.said_dont h p c ∧ ¬ BPM.said_have h p c) ∧
  (w ∈ BPM.AllPeersDoNotHaveBlock ps ws (BPM.replay h) ↔
     w ∈ ws ∧ is_Some (BPM.replay h !! Want_Cid w) ∧
     ∀ q, q ∈ ps → BPM.said_dont h q (Want_Cid w) ∧ ¬ BPM.said_have h q (Want_Cid w)).
Proof.
  destruct (BPM.replay_answer h p c) as [H1 H2]. unfold BPM.PeerHasBlock, BPM.PeerDoesNotHaveBlock.
  fold (BPM.answer (BPM.replay h) p c). split_and!.
  - rewrite <- H1. by destruct (BPM.answer _ p c) as [[]|].
  - rewrite <- H2. by destruct (BPM.answer _ p c) as [[]|].
  - rewrite BPM.AllPeersDoNotHaveBlock_eq, list_elem_of_filter, Is_true_true, BPM.allDontHave_spec.
    setoid_rewrite (λ q, proj2 (BPM.replay_answer h q (Want_Cid w))). tauto.
Qed.

(** Removing a session's interest.  After any history of the interest
    manager, [RemoveSessionInterested] makes the session uninterested in the
    given wants and changes nothing else, and reports, once each, exactly those
    of the wants that no other session was interested in. *)
Theorem remove_interest_reports_orphans os ses (ws : list Want) :
  let m := SIM.run os in
  let r := SIM.RemoveSessionInterested ses ws m in
  (∀ s w, SIM.interest r.2 s w = if decide (s = ses ∧ w ∈ ws) then None else SIM.interest m s w) ∧
  NoDup r.1 ∧
  (∀ w, w ∈ r.1 ↔ w ∈ ws ∧ is_Some (m !! w) ∧ ∀ s, is_Some (SIM.interest m s w) → s = ses).
Proof.
  intros m r. destruct (SIM.removeFrom_loop ses m ws (SIM.wf_run os)) as [_ H1 H2 H3].
  unfold r, SIM.RemoveSessionInterested. by destruct (foldl (SIM.removeFrom ses) (m, []) ws).
Qed.

(** Received blocks.  In every reachable state of a session's wants,
    [BlocksReceived] makes the given wants neither live nor pending and leaves
    every other want as it was; it reports each wanted key once: all keys that
    were live, nothing that was not wanted, and for each cid that was pending one
    key with that cid. *)
Theorem blocks_received_clears_wants n s now (ks : list Want) :
  0 ≤ n → rtc SW.step (SW.newSessionWants n) s →
  let r := SW.BlocksReceived now ks s in
  SW.wf r.2 ∧
  (∀ w, SW.liveWants r.2 !! w = if decide (w ∈ ks) then None else SW.liveWants s !! w) ∧
  CidQueue.eset (SW.toFetch r.2) = CidQueue.eset (SW.toFetch s) ∖ list_to_set (Want_Cid <$> ks) ∧
  NoDup r.1.1 ∧
  (∀ w, w ∈ r.1.1 → w ∈ ks ∧ SW.isWanted w s = true) ∧
  (∀ w, w ∈ ks → is_Some (SW.liveWants s !! w) → w ∈ r.1.1) ∧
  (∀ w, w ∈ ks → Want_Cid w ∈ CidQueue.eset (SW.toFetch s) → Want_Cid w ∈ Want_Cid <$> r.1.1).
Proof.
  intros Hn Hr. pose proof (SW.wf_reachable _ _ Hr Hn (SW.wf_newSessionWants n)) as Hs.
  destruct (SW.BlocksReceived_spec now ks s Hs) as [? ? ? ? ? ? ? ?]. by split_and!.
Qed.

(** C38: the next wants.  In every reachable state [GetNextWants] moves wants from
    pending to live without exceeding the broadcast limit (unless it was already
    exceeded), takes each cid once, and stops early only when nothing is pending. *)
Theorem next_wants_respect_limit n s now :
  0 ≤ n → rtc SW.step (SW.newSessionWants n) s →
  let r := SW.GetNextWants now s in
  Z.of_nat (size (SW.liveWants r.2)) ≤ Z.max n (Z.of_nat (size (SW.liveWants s))) ∧
  NoDup (Want_Cid <$> r.1) ∧
  CidQueue.eset (SW.toFetch r.2) = CidQueue.eset (SW.toFetch s) ∖ list_to_set (Want_Cid <$> r.1) ∧
  (∀ w, w ∈ r.1 → Want_Cid w ∈ CidQueue.eset (SW.toFetch s) ∧ is_Some (SW.liveWants r.2 !! w)) ∧
  (CidQueue.eset (SW.toFetch r.2) = ∅ ∨
   len r.1 = Z.max 0 (n - Z.of_nat (size (SW.liveWants s)))).
Proof.
  intros Hn Hr. pose proof (SW.wf_reachable _ _ Hr Hn (SW.wf_newSessionWants n)) as Hs. cbv zeta.
  pose proof (SW.limit_reachable _ _ Hr Hn (SW.wf_newSessionWants n)) as Hl. cbn in Hl.
  unfold SW.GetNextWants.
  set (k := Z.to_nat (SW.broadcastLimit s - Z.of_nat (size (SW.liveWants s)))).
  destruct (SW.getNext_spec k now [] s Hs) as (new & s' & -> & [H1 H2 H3 H4 H5 H6 H7 H8 H9]).
  cbn [app fst snd]. split_and!; [lia|done|done|done|].
  destruct (decide (length new < k)%nat) as [Hlt|Hge]; [left; by apply H9|right]. unfold len. lia.
Qed.

(** Re-broadcasting.  In every reachable state [PrepareBroadcast] returns
    live wants only, at most the broadcast limit of them, either that many or all
    of them, and records the new time for exactly the returned ones. *)
Theorem prepare_broadcast_live n s now :
  0 < n → rtc SW.step (SW.newSessionWants n) s →
  let r := SW.PrepareBroadcast now s in
  (∀ w, w ∈ r.1 → is_Some (SW.liveWants s !! w)) ∧
  len r.1 ≤ n ∧
  (len r.1 = n ∨ ∀ w, is_Some (SW.liveWants s !! w) → w ∈ r.1) ∧
  (∀ w, SW.liveWants r.2 !! w = if decide (w ∈ r.1) then Some now else SW.liveWants s !! w).
Proof.
  intros Hn Hr. assert (0 ≤ n) as Hn' by lia.
  pose proof (SW.limit_reachable _ _ Hr Hn' (SW.wf_newSessionWants n)) as Hl.
  pose proof (SW.wf_reachable _ _ Hr Hn' (SW.wf_newSessionWants n)) as [_ Ho]. cbv zeta. unfold SW.PrepareBroadcast.
  destruct (SW.prepare_spec (SW.liveWantsOrder s) (SW.broadcastLimit s) now [] (SW.liveWants s))
    as (new & m' & -> & H1 & H2 & H3 & H4); [done|].
  rewrite Hl in *. cbn [app fst snd SW.broadcastLimit SW.newSessionWants] in *.
  split_and!; [intros w Hw; by apply H1|by apply H3| |done].
  destruct H4 as [?|H4]; [by left|right]. intros w Hw. apply H4; [by apply Ho|done].
Qed.

(** Tags of a session's peers.  In every reachable state the connection
    manager has tagged exactly the session's peers with the session's tag and
    protected only such peers, and running the calls of [Shutdown] leaves none
    tagged or protected. *)
Theorem session_peers_tagged id s tr :
  rtc SPM.step (SPM.New id, []) (s, tr) →
  foldl (SPM.tagged (SPM.tag s)) ∅ tr = SPM.peers s ∧
  foldl (SPM.protected (SPM.tag s)) ∅ tr ⊆ SPM.peers s ∧
  foldl (SPM.tagged (SPM.tag s)) ∅ (tr ++ SPM.Shutdown s) = ∅ ∧
  foldl (SPM.protected (SPM.tag s)) ∅ (tr ++ SPM.Shutdown s) = ∅.
Proof.
  intros Hr. destruct (SPM.tags_reachable _ _ Hr (SPM.tags_new id)) as [H1 H2 _]. cbn [fst snd] in *.
  rewrite !foldl_app. destruct (SPM.Shutdown_untags s (foldl (SPM.tagged (SPM.tag s)) ∅ tr)) as [-> _].
  destruct (SPM.Shutdown_untags s (foldl (SPM.protected (SPM.tag s)) ∅ tr)) as [_ ->].
  split_and!; set_solver.
Qed.
End session.

(** C39: connection events alternate.  Under any interleaving of connections,
    disconnections, unresponsiveness and messages (with the re-check of
    [OnMessage] happening at any later time), the listener never hears of a
    connection or disconnection it already knew of, and it considers connected
    exactly the peers that are connected and responsive. *)
Theorem connection_events_alternate c tr :
  rtc CEM.step (CEM.newConnectEventManager, []) (c, tr) →
  ∃ seen, CEM.view tr = Some seen ∧ ∀ p, p ∈ seen ↔ CEM.responsive_peer c p.
Proof. intros Hr. apply (CEM.conns_reachable _ _ Hr CEM.conns_new). Qed.

(** ** Concrete messages and sessions *)
Module SessionExample.
Import Env Message.

Definition data : bytes := [Byte.x2a].
Definition w0 : Want := want 2 "0a".
Definition w1 : Want := want 3 "0b".

(** A message with a want, a block and a presence. *)
Definition m0 : impl :=
  AddHave (want 5 "") (AddBlock (block data) "0a"
    (AddEntry (want 4 "ff") 7 WantType_Have true (newMsg true)).2).

Definition wl1 : Wantlist := (WL.Add w0 1 WantType_Have WL.New).2.
Definition wl2 : Wantlist := (WL.Add w0 5 WantType_Block WL.New).2.

Definition s1 : SW.sessionWants := SW.BlocksRequested [w0; w1] (SW.newSessionWants 1).
Definition s2 : SW.sessionWants := (SW.GetNextWants 10 s1).2.

Definition spm0 : SPM.SessionPeerManager := SPM.New 7.
Definition spm1 : SPM.SessionPeerManager * list tcall := ((SPM.AddPeer "bob" spm0).1.2, (SPM.AddPeer "bob" spm0).2).

Definition cem1 : CEM.connectEventManager * list CEM.lcall := CEM.Connected "bob" CEM.newConnectEventManager.
Definition cem2 : CEM.connectEventManager * list CEM.lcall :=
  ((CEM.MarkUnresponsive "bob" cem1.1).1, cem1.2 ++ (CEM.MarkUnresponsive "bob" cem1.1).2).

Lemma wf_m0 : wf m0.
Proof. unfold m0, AddEntry, AddHave. auto 10 with go. Qed.

Lemma wire_ok_m0 : wire_ok m0.
Proof.
  assert (wantlist m0 = {[want 4 "ff" := new_entry (want 4 "ff") 7 false WantType_Have true]}) as E1
    by evaluate.
  assert (blocks m0 = {[w0 := NewBlock (block data) "0a"]}) as E2 by evaluate.
  assert (blockPresences m0 = {[want 5 "" := Presence_Have]}) as E3 by evaluate.
  split; rewrite ?E1, ?E2, ?E3; intros w x [<- <-]%lookup_singleton_Some.
  - split; [split; reflexivity|]. unfold MinInt32, MaxInt32. cbn. lia.
  - split; reflexivity.
  - split; reflexivity.
Qed.

Lemma s1_reachable : rtc SW.step (SW.newSessionWants 1) s1.
Proof. apply rtc_once. constructor. Qed.
Lemma s2_reachable : rtc SW.step (SW.newSessionWants 1) s2.
Proof. eapply rtc_r; [apply s1_reachable|]. constructor. Qed.

Lemma spm1_reachable : rtc SPM.step (spm0, []) (spm1.1, spm1.2).
Proof. apply rtc_once. apply (SPM.st_AddPeer "bob" spm0 []). Qed.

Lemma cem2_reachable : rtc CEM.step (CEM.newConnectEventManager, []) (cem2.1, cem2.2).
Proof.
  eapply rtc_l; [apply (CEM.st_Connected "bob" CEM.newConnectEventManager [])|].
  apply rtc_once. apply (CEM.st_MarkUnresponsive "bob" cem1.1 cem1.2).
Qed.
End SessionExample.

Import Env SessionExample.

Lemma wire_roundtrip_witness :
  ∃ m', Message.newMessageFromProto (Message.ToProtoV1 m0) = Ok m' ∧ Message.msg_eq m' m0.
Proof. exact (wire_roundtrip m0 wf_m0 wire_ok_m0). Defined.

Lemma received_message_wf_witness :
  ∃ m', Message.newMessageFromProto (Message.ToProtoV1 m0) = Ok m' ∧ Message.wf m'.
Proof.
  set (r := Message.newMessageFromProto (Message.ToProtoV1 m0)).
  set (m' := match r with Ok m' => m' | Err _ => m0 end).
  assert (r = Ok m') as H by evaluate.
  exists m'. split; [exact H|]. exact (proj1 (received_message_wf _ _ H)).
Defined.

Lemma absorb_merges_witness :
  WL.Absorb wl1 wl2 !! w0 = Some (mkEntry _ w0 5 WantType_Block).
Proof.
  assert (WL.wf wl2) as H by (apply WL.wf_Add, WL.wf_New).
  rewrite (absorb_merges wl1 wl2 w0 H). evaluate.
Defined.

Lemma blocks_received_clears_wants_witness :
  SW.liveWants s2 !! w0 = Some 10 ∧ w0 ∈ (SW.BlocksReceived 20 [w0] s2).1.1.
Proof.
  split; [evaluate|].
  destruct (blocks_received_clears_wants 1 s2 20 [w0] ltac:(decide_by_eval) s2_reachable)
    as (_ & _ & _ & _ & _ & H & _).
  apply H; [left|]. exists 10. evaluate.
Defined.

Lemma next_wants_respect_limit_witness :
  Z.of_nat (size (SW.liveWants (SW.GetNextWants 10 s1).2)) ≤ 1.
Proof.
  etransitivity; [exact (proj1 (next_wants_respect_limit 1 s1 10 ltac:(decide_by_eval) s1_reachable))|].
  decide_by_eval.
Defined.

Lemma prepare_broadcast_live_witness :
  SW.liveWants (SW.PrepareBroadcast 99 s2).2 !! w0 = Some 99.
Proof.
  destruct (prepare_broadcast_live 1 s2 99 ltac:(decide_by_eval) s2_reachable) as (_ & _ & _ & H).
  rewrite H. evaluate.
Defined.

Lemma session_peers_tagged_witness :
  foldl (SPM.tagged (SPM.tag spm1.1)) ∅ spm1.2 = SPM.peers spm1.1 ∧ "bob" ∈ SPM.peers spm1.1.
Proof.
  split; [exact (proj1 (session_peers_tagged 7 _ _ spm1_reachable))|decide_by_eval].
Defined.

Lemma connection_events_alternate_witness :
  cem2.2 = [CEM.PeerConnected "bob"; CEM.PeerDisconnected "bob"] ∧
  ∃ seen, CEM.view cem2.2 = Some seen ∧ ∀ p, p ∈ seen ↔ CEM.responsive_peer cem2.1 p.
Proof. split; [evaluate|]. exact (connection_events_alternate _ _ cem2_reachable). Defined.

(** [Clone] does not copy the raw bytes of the blocks, from which the wire
    structs are built: a clone has the block, but its version 1 payload carries
    no data where the original carries the block's bytes. *)
Theorem clone_loses_payload :
  Message.blocks (Message.Clone m0) = Message.blocks m0 ∧
  pbb_Data <$> pbm_Payload (Message.ToProtoV1 m0) = [data] ∧
  pbb_Data <$> pbm_Payload (Message.ToProtoV1 (Message.Clone m0)) = [[]].
Proof. split; [reflexivity|]. split; evaluate. Qed.

(** The queue of pending wants is keyed by cid only.  A want whose cid was
    removed and requested again with another capability is popped with the old
    capability, and the slice of pending wants lists both. *)
Theorem cid_queue_returns_stale_auth :
  let q := CidQueue.Push (want 2 "0b")
             (CidQueue.Remove 2%N (CidQueue.Push (want 2 "0a") CidQueue.newCidQueue)) in
  (CidQueue.Pop q).1 = want 2 "0a" ∧ (CidQueue.Cids q).1 = [want 2 "0a"; want 2 "0b"] ∧
  CidQueue.Len q = 1.
Proof. split; [evaluate|]. split; evaluate. Qed.
