(* ===== verification/FetchTheorems.v ===== *)
(** * Theorems about fetching

    The want sender, sessions, the session manager and the node that puts them
    together. *)
From S2P Require Import Prelude Auth Wantlist Hex Proto Message Float64 Ledger ScoreLedger TaskMerger.
From S2P Require Import BlockstoreManager Engine EngineFacts EngineIndex EngineRun.
From S2P Require Import PeerWantManager PeerWantFacts PeerManager.
From S2P Require Import BlockPresence SessionInterest SessionWants SessionPeers.
From S2P Require Import SessionWantSender SessionWantSenderFacts SessionWantSenderRun.
From S2P Require Import SessionWantSenderBatch SessionWantSenderLoop Session SessionFacts.
From S2P Require Import SessionManager SessionManagerFacts Bitswap BitswapFacts Instances.
From Stdlib Require Import SpecFloat.
Open Scope Z_scope.
Set Default Goal Selector "1".

Section sender.
Context {CL : CidLib} {GO : GoRuntime} (rand : nat → spec_float).
Import SWS.
Abbreviation tracked s := (dom (wants s)).
Abbreviation peers s := (SPM.peers (spm s)).

(** C8: whom a session asks.  In every reachable state of a session's want sender
    (any calls, any block presences, any random choices) each tracked want has as
    best peer one with the highest block presence, or none when every known peer
    said DONT_HAVE; it knows a presence of every peer of the session; the peer it
    is waiting for was really sent a want-block for it; and as soon as the session
    has a peer the want is waiting for some peer unless all said DONT_HAVE.  The
    count of consecutive DONT_HAVEs of a peer stays within the limit. *)
Theorem sender_asks_best_peer sid n s :
  rtc (SWSLoop.step rand) (newSessionWantSender sid (SPM.New n)) s →
  (∀ w wi, wants s !! w = Some wi →
     SWSFacts.best_of (blockPresence wi) (bestPeer wi) ∧
     peers s ⊆ dom (blockPresence wi) ∧
     (sentTo wi ≠ "" → ∃ wb wh, EvSendWants (sentTo wi) wb wh ∈ evs s ∧ w ∈ wb) ∧
     (peers s ≠ ∅ → sentTo wi ≠ "" ∨ ∀ p bp, blockPresence wi !! p = Some bp → bp = BPDontHave)) ∧
  (∀ p, 0 ≤ SWSRun.count s p ≤ peerDontHaveLimit).
Proof.
  intros Hr. destruct (SWSLoop.sender_reachable rand _ _ Hr (SWSLoop.sender_new sid n)) as [HC HP HS].
  split; [|intros p; by apply SWSRun.count_bounds]. intros w wi E.
  destruct (SWSFacts.core_wants _ HC _ _ E) as [_ Hb]. split_and!; [done| | |].
  - by eapply (SWSFacts.core_covered _ HC).
  - intros Hne. apply HS. by apply (SWSFacts.core_sent _ HC).
  - intros Hne. destruct (HP Hne _ _ E) as [?|Eb]; [by left|right]. destruct Hb as [[_ ?]|[? _]]; done.
Qed.

(** C9: one batch of the run loop.  In every reachable state an iteration takes
    between one and 128 waiting changes; afterwards the sender tracks what the
    changes add, less what they cancel and what arrived; the session has the peers
    that the last news about each peer leaves; wants are reported as exhausted only
    if they are still tracked and either no peer is left or every peer said
    DONT_HAVE; and a peer is dropped for useless answers only after more than 16
    DONT_HAVEs in a row, with no HAVE in the batch or on record for a tracked
    want. *)
Theorem sender_batch_effect sid n s bpm s' :
  rtc (SWSLoop.step rand) (newSessionWantSender sid (SPM.New n)) s →
  run_change rand bpm s = Some s' →
  ∃ chs ws prune,
    changes s = chs ++ changes s' ∧ 1 ≤ len chs ≤ changesBufferSize ∧
    tracked s' = foldl SWSLoop.track_step (tracked s) chs
                   ∖ list_to_set (SWSBatch.received (SWSLoop.updates_of chs)) ∧
    (∀ p, p ∈ peers s' ↔
       default (bool_decide (p ∈ peers s)) (SWSLoop.availability_of chs !! p) = true) ∧
    (∀ l, EvPeersExhausted l ∈ evs s' → EvPeersExhausted l ∈ evs s ∨ l = ws) ∧
    (∀ w, w ∈ ws → w ∈ tracked s' ∧
       ∀ p, p ∈ peers s' → BPM.answer bpm p (Want_Cid w) = Some false) ∧
    spawned s' = spawned s ++ ((λ p, availability_change p false) <$> prune) ∧
    (∀ p, p ∈ prune →
       peerDontHaveLimit < SWSRun.count s p + SWSRun.times p (SWSRun.pairs dontHaves (SWSLoop.updates_of chs)) ∧
       (∀ w, (p, w) ∉ SWSRun.pairs haves (SWSLoop.updates_of chs)) ∧
       (∀ w, w ∈ tracked s' → BPM.PeerHasBlock p (Want_Cid w) bpm = false)).
Proof.
  intros Hr Hc. pose proof (SWSLoop.sender_reachable rand _ _ Hr (SWSLoop.sender_new sid n)) as HI.
  destruct (SWSLoop.run_change_spec rand bpm s s' HI Hc) as (chs & Hne & Hch & Hlen & HB & _).
  destruct HB as [B1 B2 (tcs & ws & l & B3 & _ & B4 & _) (prune & B5 & B6) _ _ _ _].
  exists chs, ws, prune. split_and!; [done| |done|done|done| | |done|done].
  - destruct chs; [done|]. unfold len. cbn. lia.
  - intros l' Hl'. rewrite B3 in Hl'. by apply SWSLoop.exhausted_reports in Hl'.
  - intros w [Hw Hor]%B4. split; [done|]. destruct Hor as [->|?]; [set_solver|done].
Qed.

(** C14: what is sent.  [sendNextWants] sends at most one message per peer; the
    want-blocks for a peer are exactly the wants without an outstanding request
    whose best peer it is; its want-haves are exactly the tracked wants that it
    newly could serve (it just became available, or another peer was asked, or no
    want-block for it was ever sent to the peer); the asked wants then wait for
    their best peer, and nothing else changes but the record of want-blocks. *)
Theorem send_next_wants_exact na s :
  let s' := sendNextWants na s in
  ∃ l, evs s' = evs s ++ SWSBatch.sends l ∧ NoDup l.*1 ∧
    (∀ p, p ∈ l.*1 ↔
       ∃ w, w ∈ tracked s ∧ (p ∈ na ∨ ∃ b, SWSBatch.to_ask s b w ∧ (b = p ∨ p ∈ peers s))) ∧
    (∀ p wb wh, (p, (wb, wh)) ∈ l → NoDup wb ∧ NoDup wh ∧
       (∀ w, w ∈ wb ↔ SWSBatch.to_ask s p w) ∧ (∀ w, w ∈ wh ↔ SWSBatch.to_probe na s p w)) ∧
    wants s' = SWSBatch.asked <$> wants s ∧
    (∀ p w, SentWants.haveSentWantBlockTo p w (swbt s') = true ↔
       SentWants.haveSentWantBlockTo p w (swbt s) = true ∨ SWSBatch.to_ask s p w).
Proof.
  destruct (SWSBatch.sendNextWants_spec na s) as (l & E & H1 & H2 & H3 & H4). cbn zeta in *.
  exists l. split_and!; [by rewrite E|done|done|done|by rewrite E|done].
Qed.
End sender.

Section sessions.
Context {CL : CidLib} {GO : GoRuntime} (rand : nat → spec_float).

(** C11: answers reach the sessions that wait for them.  In every reachable state
    of the session manager and its sessions, when a message mentions a want (as a
    block, a HAVE or a DONT_HAVE) that the sender of a live session tracks, the
    manager hands that session's sender an update from the peer that mentions it
    in the same way. *)
Theorem answers_reach_sessions m rm dr ds p blks haves dontHaves m' es tbl id ref s w :
  rtc (SMFacts.step rand) (SM.New, ∅) (m, rm) →
  SM.sessions m = Some tbl → tbl !! id = Some ref → SM.objects m !! ref = Some s → id ∉ rm →
  SWS.ctxDone (Session.sws s) = false →
  w ∈ dom (SWS.wants (Session.sws s)) → w ∈ blks ++ haves ++ dontHaves →
  SM.ReceiveFrom dr ds p blks haves dontHaves m = Some (m', es) →
  ∃ s' u, SM.objects m' !! ref = Some s' ∧
    last (SWS.changes (Session.sws s')) = Some (SWS.mkChange [] [] u SWS.no_availability) ∧
    SWS.from u = p ∧ (w ∈ blks → w ∈ SWS.ks u) ∧ (w ∈ haves → w ∈ SWS.haves u) ∧
    (w ∈ dontHaves → w ∈ SWS.dontHaves u).
Proof.
  intros Hr. apply (SMFacts.ReceiveFrom_reaches rand) with (rm := rm).
  exact (SMFacts.manager_reachable rand _ _ Hr SMFacts.manager_new).
Qed.


(** A cancelled request goes on.  In every reachable state of a session, the
    operation queued when a client cancels takes the keys out of the pending
    wants and does nothing else: the sender keeps pursuing them, the session stays
    interested, and no run of the session ever asks the session manager to cancel
    a want. *)
Theorem client_cancel_stops_nothing sim0 sid d wait sim s :
  rtc (SessionFacts.step rand) (sim0, Session.New sid (SPM.New sid) d wait) (sim, s) →
  (∀ j ws, SWS.EvCancelSessionWants j ws ∉ SWS.evs (Session.sws s)) ∧
  (∀ dr now o rest, Session.incoming s = o :: rest → Session.op_op o = Session.opCancel →
     Session.run_op dr now sim s =
       Some (sim, Session.set_sw (SW.CancelPending (Session.op_keys o) (Session.sw s))
                    (Session.set_incoming rest s), [])).
Proof.
  intros Hr. pose proof (SessionFacts.session_reachable rand _ _ Hr (SessionFacts.session_new sim0 sid d wait)) as HI.
  cbn in HI. split; [apply HI|]. intros dr now o rest E Eo. unfold Session.run_op. rewrite E, Eo.
  rewrite (SessionFacts.si_ops _ _ HI o) by (done || (rewrite E; set_solver)). cbn. done.
Qed.

(** The periodic search ends for ever.  When its timer fires while the chosen
    live want is undefined (there is none), nothing is searched and the timer
    does not run again in any later state of the session, whatever is wanted
    later. *)
Theorem periodic_search_never_resumes i wait s s1 es sim sim' s' :
  Cid_Defined (Want_Cid (SW.RandomLiveWant i (Session.sw s))) = false →
  Session.run_periodic i wait s = Some (s1, es) →
  rtc (SessionFacts.step rand) (sim, s1) (sim', s') →
  es = [] ∧ ∀ j t, Session.run_periodic j t s' = None.
Proof.
  intros Hd. unfold Session.run_periodic. destruct (Session.periodicSearchTimer s); [|done].
  unfold Session.handlePeriodicSearch. cbn. rewrite Hd. intros [= <- <-] Hr. split; [done|]. intros j t.
  pose proof (SessionFacts.periodic_stopped rand _ _ Hr eq_refl) as E. cbn in E. by rewrite E.
Qed.
End sessions.

Section node.
Context {CL : CidLib} {GO : GoRuntime} {BL : BlockLib}.
Context {B : Type} {BS : Blockstore B} {BSL : BlockstoreLaws B}.
Context {Q : Type} {PTQ : PeerTaskQueue Q} {SL : Type} {SLI : ScoreLedger SL}.
Context (rand : nat → spec_float).
Import Bitswap BitswapFacts.

(** C10: blocks nobody asked for are ignored.  In every reachable state of an open
    node, when the blocks of a peer's message have been taken in without error,
    the blocks given to subscribers are exactly those that some session still
    wants, the blockstore is unchanged outside their cids and holds them, and the
    engine pushes one task per such block and peer whose wantlist holds it, and no
    other. *)
Theorem only_wanted_blocks_kept self bstore (sl : SL) (q : Q) n dh pv si (bs : Bitswap B Q SL) rm
    dr ds drop cerr p blks haves dontHaves bs' es :
  rtc (step rand) (New self bstore sl q n dh pv si, ∅) (bs, rm) → closing bs = false → p ≠ "" →
  receiveBlocksFrom dr ds drop cerr p blks haves dontHaves bs = Some (bs', es, None) →
  let store x := AuthedBlockstore.source (blockstore x) in
  let W := filter (λ b, SIM.wanted (SM.sessionInterestManager (sm bs)) (AuthBlock_Want b)) blks in
  published es = W ∧
  (∀ c, c ∉ AuthBlock_Cid <$> W → bs_Has (store bs') c = bs_Has (store bs) c ∧
     bs_Get (store bs') c = bs_Get (store bs) c) ∧
  (NoDup (AuthBlock_Cid <$> W) → ∀ b, b ∈ W →
     bs_Has (store bs') (AuthBlock_Cid b) = Ok true ∧
     bs_Get (store bs') (AuthBlock_Cid b) = Ok (AuthBlock_block b)) ∧
  (NoDup (AuthBlock_Want <$> W) → ∃ pushes,
     Engine.peerRequestQueue (engine bs') =
       foldl EngineIndex.push_one (Engine.peerRequestQueue (engine bs)) pushes ∧
     ∀ r t, (r, t) ∈ pushes ↔ ∃ b entry, b ∈ W ∧
       EngineRun.wanted_entry (engine bs) r (AuthBlock_Want b) = Some entry ∧
       t = Engine.receive_task (engine bs) (AuthBlock_Want b) entry (AuthBlock_Size b)).
Proof.
  intros Hr Hcl Hp H. cbn zeta.
  destruct (node_reachable rand _ _ Hr (node_new self bstore sl q n dh pv si)) as [HE _]. cbn in HE.
  pose proof (receiveBlocksFrom_spec _ _ _ _ _ _ _ _ _ _ _ _ Hcl H) as Hs. cbn zeta in Hs.
  unfold kept in Hs. rewrite bool_decide_true in Hs by done.
  set (W := filter _ blks) in *.
  destruct (if 0 <? len W then _ else _) as [x perr] eqn:Ep. destruct perr as [e|]; [by destruct Hs as [? _]|].
  destruct Hs as (H1 & H2 & _). split; [done|].
  assert (blockstore bs' = x) as Ex.
  { unfold blockstore. rewrite H2, EngineRun.ReceiveFrom_bsm. done. }
  rewrite Ex. destruct (kept_stored W (blockstore bs) x) as [G1 G2]; [done|].
  split; [done|]. split; [done|]. intros Hnd. rewrite H2.
  apply (EngineRun.ReceiveFrom_pushes p W (engine (set_blockstore x bs))); [by apply engine_store|done].
Qed.

End node.

(** ** Concrete senders, sessions and nodes *)
Module FetchExample.
Import Env.

Definition rand0 : nat → spec_float := λ _, S754_zero false.

Definition w0 : Want := want 2 "0a".
Abbreviation sender_call := (SWS.sessionWantSender → option SWS.sessionWantSender).
Definition signal (p : PeerID) (b : bool) : sender_call := λ s, Some (SWS.SignalAvailability p b s).

Definition bob_no : BPM.BlockPresenceManager := BPM.ReceiveFrom "bob" [] [w0] BPM.New.
Definition eve_has : BPM.BlockPresenceManager := BPM.ReceiveFrom "eve" [w0] [] bob_no.
Definition bob_has : BPM.BlockPresenceManager := BPM.ReceiveFrom "bob" [w0] [] eve_has.

Definition sender0 : SWS.sessionWantSender := SWS.newSessionWantSender 1 (SPM.New 1).

(** Bob is asked for the want and says DONT_HAVE. *)
Definition ask_bob : list sender_call :=
  [SWS.Add false [w0]; SWS.run_change rand0 BPM.New; signal "bob" true; SWS.run_change rand0 BPM.New;
   SWS.Update false "bob" [] [] [w0]; SWS.run_change rand0 bob_no].
(** Eve says HAVE and leaves before the batch is processed. *)
Definition eve_passes : list sender_call :=
  [SWS.Update false "eve" [] [w0] []; signal "eve" false; SWS.run_change rand0 eve_has].
(** Bob gets the block after all, and Eve is reported as gone once more. *)
Definition bob_returns : list sender_call :=
  [SWS.Update false "bob" [] [w0] []; signal "eve" false; SWS.run_change rand0 bob_has].

Definition sender1 : SWS.sessionWantSender := default sender0 (exec ask_bob sender0).
Definition sender2 : SWS.sessionWantSender := default sender0 (exec eve_passes sender1).
Definition sender3 : SWS.sessionWantSender := default sender0 (exec bob_returns sender2).

Lemma asked_steps : Forall (λ f : sender_call, ∀ x y, f x = Some y → SWSLoop.step rand0 x y) ask_bob.
Proof.
  unfold ask_bob. rewrite !Forall_cons. split_and!; [intros x y H..|by apply Forall_nil].
  - by eapply SWSLoop.st_Add.
  - by eapply SWSLoop.st_change.
  - unfold signal in H. simplify_eq. apply SWSLoop.st_Signal.
  - by eapply SWSLoop.st_change.
  - by eapply SWSLoop.st_Update.
  - by eapply SWSLoop.st_change.
Qed.

Lemma sender1_reachable : rtc (SWSLoop.step rand0) sender0 sender1.
Proof. eapply exec_rtc; [apply asked_steps|]. evaluate_some. Qed.

(** A session manager with one session that wants a block. *)
Abbreviation managed := (SM.SessionManager * gset Z)%type.
Definition new_session : managed → option managed := λ x,
  if SM.sessID x.1 + 1 <? 2 ^ 64 then Some ((SM.NewSession 1000 5000 x.1).2, x.2) else None.
Definition on_session (f : SIM.SessionInterestManager → Session.Session →
    option (SIM.SessionInterestManager * Session.Session)) : managed → option managed := λ x,
  s ← SM.objects x.1 !! 0%nat;
  r ← f (SM.sessionInterestManager x.1) s;
  Some (SM.set_sim r.1 (SM.set_objects (<[0%nat := r.2]> (SM.objects x.1)) x.1), x.2).

Definition client_wants : SIM.SessionInterestManager → Session.Session →
    option (SIM.SessionInterestManager * Session.Session) :=
  λ sim s, s' ← Session.want_wants false false [w0] s; Some (sim, s').
Definition client_cancels : SIM.SessionInterestManager → Session.Session →
    option (SIM.SessionInterestManager * Session.Session) :=
  λ sim s, s' ← Session.cancel_keys false [2%N] s; Some (sim, s').
Definition session_runs : SIM.SessionInterestManager → Session.Session →
    option (SIM.SessionInterestManager * Session.Session) :=
  λ sim s, r ← Session.run_op false 7 sim s; Some r.1.
Definition sender_runs : SIM.SessionInterestManager → Session.Session →
    option (SIM.SessionInterestManager * Session.Session) :=
  λ sim s, s' ← Session.run_sender rand0 BPM.New s; Some (sim, s').

Lemma on_session_step f x y :
  (∀ sim s r, f sim s = Some r → SessionFacts.local_step rand0 (sim, s) r) →
  on_session f x = Some y → SMFacts.step rand0 x y.
Proof.
  intros Hf. unfold on_session. destruct x as [m rm]. cbn.
  destruct (SM.objects m !! 0%nat) as [s|] eqn:E; [cbn|done].
  destruct (f _ s) as [[sim' s']|] eqn:Ef; [cbn|done]. intros [= <-].
  eapply SMFacts.st_local; [exact E|by apply Hf].
Qed.

Lemma session_calls_step sim s r :
  (client_wants sim s = Some r ∨ client_cancels sim s = Some r ∨ session_runs sim s = Some r ∨
   sender_runs sim s = Some r) →
  SessionFacts.local_step rand0 (sim, s) r.
Proof.
  unfold client_wants, client_cancels, session_runs, sender_runs.
  intros [H|[H|[H|H]]].
  - destruct (Session.want_wants _ _ _ _) as [s'|] eqn:E; [|done]. injection H as <-. by eapply SessionFacts.st_want.
  - destruct (Session.cancel_keys _ _ _) as [s'|] eqn:E; [|done]. injection H as <-. by eapply SessionFacts.st_cancel.
  - destruct (Session.run_op _ _ _ _) as [[[sim' s'] es]|] eqn:E; [|done]. injection H as <-. by eapply SessionFacts.st_op.
  - destruct (Session.run_sender _ _ _) as [s'|] eqn:E; [|done]. injection H as <-. by eapply SessionFacts.st_sender.
Qed.

Definition wanting : list (managed → option managed) :=
  [new_session; on_session client_wants; on_session session_runs; on_session sender_runs].
Definition manager1 : managed := default (SM.New, ∅) (exec wanting (SM.New, ∅)).

Lemma wanting_steps : Forall (λ f : managed → option managed, ∀ x y, f x = Some y → SMFacts.step rand0 x y) wanting.
Proof.
  unfold wanting. rewrite !Forall_cons.
  split_and!; [|intros x y; apply on_session_step; intros; apply session_calls_step; tauto..|by apply Forall_nil].
  intros [m rm] y. unfold new_session. cbn [fst snd]. destruct (Z.ltb_spec (SM.sessID m + 1) (2 ^ 64)); [|done].
  intros [= <-]. by apply SMFacts.st_New.
Qed.

Lemma manager1_reachable : rtc (SMFacts.step rand0) (SM.New, ∅) manager1.
Proof. eapply exec_rtc; [apply wanting_steps|]. evaluate_some. Qed.

Definition table1 : gmap Z nat := default ∅ (SM.sessions manager1.1).
Definition session0 : Session.Session := Session.New 1 (SPM.New 1) 1000 5000.
Definition session1 : Session.Session := default session0 (SM.objects manager1.1 !! 0%nat).
Definition no_choice : Z → bool := λ _, false.
Definition answered : SM.SessionManager * list SM.sm_event :=
  default (manager1.1, []) (SM.ReceiveFrom no_choice no_choice "bob" [] [w0] [] manager1.1).

(** The client of a lone session wants a block and cancels it. *)
Abbreviation lone := (SIM.SessionInterestManager * Session.Session)%type.
Definition lone_call (f : SIM.SessionInterestManager → Session.Session → option lone) : lone → option lone :=
  λ x, f x.1 x.2.
Definition cancelling : list (lone → option lone) :=
  [lone_call client_wants; lone_call session_runs; lone_call sender_runs; lone_call client_cancels].
Definition lone1 : lone := default (SIM.New, session0) (exec cancelling (SIM.New, session0)).

Lemma cancelling_steps :
  Forall (λ f : lone → option lone, ∀ x y, f x = Some y → SessionFacts.step rand0 x y) cancelling.
Proof.
  unfold cancelling, lone_call. rewrite !Forall_cons.
  split_and!; [intros [sim s] y H; apply SessionFacts.st_local, session_calls_step; tauto..|by apply Forall_nil].
Qed.

Lemma lone1_reachable : rtc (SessionFacts.step rand0) (SIM.New, session0) (lone1.1, lone1.2).
Proof. rewrite <- surjective_pairing. eapply exec_rtc; [apply cancelling_steps|]. evaluate_some. Qed.

(** A node with the same session. *)
Definition data : bytes := [Byte.x2a].
Definition junk : bytes := [Byte.x2a; Byte.x2a].
Definition store0 : AuthedBlockstore.AuthedBlockstore store :=
  AuthedBlockstore.NewAuthBlockstore ∅ (λ _ _ _ _, true).
Definition node0 : Bitswap.Bitswap store queue scores :=
  Bitswap.New "me" store0 no_scores [] 1 true true true.
Definition node1 : Bitswap.Bitswap store queue scores := Bitswap.set_sm manager1.1 node0.

Lemma sessions_steps (bs : Bitswap.Bitswap store queue scores) x y :
  rtc (SMFacts.step rand0) x y → Bitswap.sm bs = x.1 →
  rtc (BitswapFacts.step rand0) (bs, x.2) (Bitswap.set_sm y.1 bs, y.2).
Proof.
  intros Hr. revert bs. induction Hr as [x|x y z Hs _ IH]; intros bs E.
  - rewrite <- E. by destruct bs.
  - destruct x as [m rm], y as [m' rm']. cbn in E. subst m. eapply rtc_l; [by apply BitswapFacts.st_sessions|].
    apply (IH (Bitswap.set_sm m' bs)). done.
Qed.

Lemma node1_reachable : rtc (BitswapFacts.step rand0) (node0, ∅) (node1, manager1.2).
Proof. apply (sessions_steps node0 (SM.New, ∅) manager1 manager1_reachable). done. Qed.

Lemma no_error_eta {A E X : Type} (x : A * E * option X) : x.2 = None → x = (x.1.1, x.1.2, None).
Proof. destruct x as [[? ?] ?]. cbn. by intros ->. Qed.

Definition wanted_block : AuthBlock := NewBlock (block data) "0a".
Definition junk_block : AuthBlock := NewBlock (block junk) "0a".
Definition received : Bitswap.Bitswap store queue scores * list Bitswap.bs_event * option error :=
  default (node1, [], None)
    (Bitswap.receiveBlocksFrom no_choice no_choice false None "bob" [junk_block; wanted_block] [] [] node1).


Definition key2 : Cid := 2%N.


(** The want-blocks for a peer among some events. *)
Definition asks_of (p : PeerID) (es : list SWS.sws_event) : list Want :=
  es ≫= λ e, match e with SWS.EvSendWants q wb _ => if String.eqb q p then wb else [] | _ => [] end.
End FetchExample.

(** A departed peer can block a want.  A peer whose HAVE and departure are
    in the same batch is not in the session afterwards, but it is asked for the
    block and waited for; when a peer of the session then says HAVE it is not
    asked, and repeated news that the other peer is gone does not help. *)
Theorem departed_peer_blocks_want :
  let peers s := SPM.peers (SWS.spm s) in
  let waits s := SWS.sentTo <$> SWS.wants s !! FetchExample.w0 in
  exec FetchExample.eve_passes FetchExample.sender1 = Some FetchExample.sender2 ∧
  exec FetchExample.bob_returns FetchExample.sender2 = Some FetchExample.sender3 ∧
  waits FetchExample.sender1 = Some "" ∧
  "eve" ∉ peers FetchExample.sender2 ∧ waits FetchExample.sender2 = Some "eve" ∧
  FetchExample.asks_of "eve" (SWS.evs FetchExample.sender2) = [FetchExample.w0] ∧
  "bob" ∈ peers FetchExample.sender3 ∧ "eve" ∉ peers FetchExample.sender3 ∧
  waits FetchExample.sender3 = Some "eve" ∧
  FetchExample.asks_of "bob" (SWS.evs FetchExample.sender3) =
    FetchExample.asks_of "bob" (SWS.evs FetchExample.sender1).
Proof.
  cbv zeta. split; [evaluate_some|]. split; [evaluate_some|]. split; [evaluate|]. split; [decide_by_eval|].
  split; [evaluate|]. split; [evaluate|]. split; [decide_by_eval|]. split; [decide_by_eval|]. split; evaluate.
Qed.

Import Env FetchExample.

Lemma sender_asks_best_peer_witness :
  is_Some (SWS.wants sender1 !! w0) ∧ SWSRun.count sender1 "bob" = 1 ∧
  0 ≤ SWSRun.count sender1 "bob" ≤ SWS.peerDontHaveLimit.
Proof.
  split; [decide_by_eval|]. split; [evaluate|].
  exact (proj2 (sender_asks_best_peer rand0 1 1 sender1 sender1_reachable) "bob").
Defined.

Definition queued_sender : SWS.sessionWantSender := default sender0 (SWS.Update false "eve" [] [w0] [] sender1).
Definition joined_sender : SWS.sessionWantSender := default sender0 (SWS.run_change rand0 eve_has queued_sender).

Lemma sender_batch_effect_witness :
  ∃ chs, SWS.changes queued_sender = chs ++ SWS.changes joined_sender ∧
    1 ≤ len chs ≤ SWS.changesBufferSize ∧ "eve" ∈ SPM.peers (SWS.spm joined_sender).
Proof.
  assert (rtc (SWSLoop.step rand0) sender0 queued_sender) as Hr.
  { eapply rtc_r; [apply sender1_reachable|]. apply (SWSLoop.st_Update rand0 false "eve" [] [w0] []). evaluate_some. }
  assert (SWS.run_change rand0 eve_has queued_sender = Some joined_sender) as Hc by evaluate_some.
  destruct (sender_batch_effect rand0 1 1 queued_sender eve_has joined_sender Hr Hc) as (chs & ws & prune & H1 & H2 & _).
  exists chs. split; [exact H1|]. split; [exact H2|decide_by_eval].
Defined.

Lemma answers_reach_sessions_witness :
  ∃ s' u, SM.objects answered.1 !! 0%nat = Some s' ∧
    last (SWS.changes (Session.sws s')) = Some (SWS.mkChange [] [] u SWS.no_availability) ∧
    SWS.from u = "bob" ∧ w0 ∈ SWS.haves u.
Proof.
  assert (SM.ReceiveFrom no_choice no_choice "bob" [] [w0] [] manager1.1 = Some (answered.1, answered.2)) as H.
  { rewrite <- surjective_pairing. evaluate_some. }
  assert (rtc (SMFacts.step rand0) (SM.New, ∅) (manager1.1, manager1.2)) as Hr.
  { rewrite <- surjective_pairing. apply manager1_reachable. }
  destruct (answers_reach_sessions rand0 manager1.1 manager1.2 no_choice no_choice "bob" [] [w0] [] answered.1
    answered.2 table1 1 0%nat session1 w0 Hr ltac:(evaluate_some) ltac:(evaluate) ltac:(evaluate_some)
    ltac:(decide_by_eval) ltac:(evaluate) ltac:(decide_by_eval) ltac:(decide_by_eval) H)
    as (s' & u & H1 & H2 & H3 & _ & H4 & _).
  exists s', u. split; [exact H1|]. split; [exact H2|]. split; [exact H3|]. apply H4. left.
Defined.


Lemma client_cancel_stops_nothing_witness :
  is_Some (SWS.wants (Session.sws lone1.2) !! w0) ∧
  ∃ s', Session.run_op false 9 lone1.1 lone1.2 = Some (lone1.1, s', []) ∧ Session.sws s' = Session.sws lone1.2.
Proof.
  split; [decide_by_eval|].
  destruct (client_cancel_stops_nothing rand0 SIM.New 1 1000 5000 lone1.1 lone1.2 lone1_reachable) as [_ H].
  assert (Session.incoming lone1.2 = [Session.mkOp Session.opCancel [key2] []]) as E by evaluate.
  eexists. split; [exact (H false 9 _ [] E eq_refl)|]. reflexivity.
Defined.

Definition searched : Session.Session * list Session.ses_event :=
  default (session0, []) (Session.run_periodic 0 5000 session0).

Lemma periodic_search_never_resumes_witness :
  searched.2 = [] ∧ ∀ j t, Session.run_periodic j t (Session.SetBaseTickDelay 1 searched.1) = None.
Proof.
  apply (periodic_search_never_resumes rand0 0 5000 session0 searched.1 searched.2 SIM.New SIM.New).
  - evaluate.
  - rewrite <- surjective_pairing. evaluate_some.
  - apply rtc_once. apply SessionFacts.st_local, SessionFacts.st_tickDelay.
Defined.

Lemma only_wanted_blocks_kept_witness :
  BitswapFacts.published received.1.2 = [wanted_block] ∧
  bs_Has (AuthedBlockstore.source (Bitswap.blockstore received.1.1)) (AuthBlock_Cid junk_block) = Ok false.
Proof.
  assert (Bitswap.receiveBlocksFrom no_choice no_choice false None "bob" [junk_block; wanted_block] [] [] node1
    = Some (received.1.1, received.1.2, None)) as H.
  { rewrite <- (no_error_eta received) by evaluate. evaluate_some. }
  destruct (only_wanted_blocks_kept rand0 "me" store0 no_scores [] 1 true true true node1 manager1.2 no_choice no_choice
    false None "bob" [junk_block; wanted_block] [] [] received.1.1 received.1.2 node1_reachable
    ltac:(evaluate) ltac:(done) H) as (H1 & H2 & _).
  split; [rewrite H1; evaluate|].
  etransitivity; [exact (proj1 (H2 (AuthBlock_Cid junk_block) ltac:(decide_by_eval)))|evaluate].
Defined.

