(* ===== verification/SearchTheorems.v ===== *)
(** * Theorems about finding providers and delivering blocks

    The provider query manager, and the way of a block from its publication to
    the client that asked for it. *)
From S2P Require Import Prelude Auth ProviderQuery ProviderQueryFacts Delivery DeliveryFacts Instances.
Set Default Goal Selector "1".

Section search.
Context {CL : CidLib} {GO : GoRuntime}.
Import PQM PQMFacts.

(** C31: the search for providers never gets stuck.  In every reachable state of the
    provider query manager the next message is handled without a panic (no channel
    is closed twice, nothing is sent on a closed channel) and without a send that
    no goroutine will take, shutting down closes every open listener exactly once,
    and there are six workers. *)
Theorem provider_messages_handled s h :
  rtc step (New, []) (s, h) →
  (providerQueryMessages s ≠ [] → is_Some (run_message s)) ∧
  is_Some (cleanupInProcessRequests s) ∧ length (workers s) = maxInProcessRequests.
Proof.
  intros Hr. pose proof (pqm_reachable _ _ Hr Inv_pqm_new) as HI. cbn in HI. split_and!.
  - intros Hne. destruct (run_message_ok s h HI Hne) as (s' & -> & _). by eexists.
  - by eapply cleanup_ok.
  - by apply (inv_workers _ _ HI).
Qed.

(** C30: callers are told everything.  In every reachable state each caller that
    listens to a request (and whose session is not cancelled) has been told, in
    order and once each, exactly the providers found for the request so far,
    whenever it joined; every provider it was told was found for its cid and could
    be connected; and a caller that still waits either has its channel closed
    already or listens to a request whose search is queued, running or about to be
    reported. *)
Theorem callers_told_all_providers s h l r :
  rtc step (New, []) (s, h) → receivers s !! l = Some r →
  (∀ st, statuses s !! rc_k r = Some st → l ∈ listeners st → mode r = Running →
     returned r ++ receivedProviders r = providersSoFar st) ∧
  (∀ p, p ∈ returned r ++ receivedProviders r → (rc_k r, p) ∈ h) ∧
  (mode r ≠ Returned → incomingOpen r = true →
     l ∈ closedChans s ∨
     (∃ st, statuses s !! rc_k r = Some st ∧ l ∈ listeners st) ∧ outstanding s (rc_k r)).
Proof.
  intros Hr Er. pose proof (pqm_reachable _ _ Hr Inv_pqm_new) as HI. cbn in HI. split_and!.
  - intros st Es Hl Hm. destruct (inv_listeners _ _ HI _ _ _ Es Hl) as (_ & r1 & E1 & Ha). simplify_eq. by apply Ha.
  - intros p. by apply (inv_receiver _ _ HI l).
  - intros Hm Ho. destruct (inv_waiting _ _ HI l r Er (conj Hm Ho)) as [?|(st & Es & Hl)]; [by left|right].
    split; [eauto|]. apply (inv_request _ _ HI). eauto.
Qed.
End search.

Section delivery.
Context {CL : CidLib} {GO : GoRuntime} {P : Type} {PS : PubSubLib P} {PL : PubSubLaws P}.
Context {KI : Inj (=) (=) Cid_KeyString}.
Import Delivery DeliveryFacts.

(** C28: what a client receives.  In every reachable state publishing a block and
    shutting down neither block nor panic; a client has received only blocks with
    a requested cid that were published, each cid at most once; when its request
    ends although neither its context nor the session's is done and the pub/sub is
    open, it has received every cid it asked for; and whenever its request ends,
    the cids that are cancelled are exactly the requested ones of which no block
    was taken in. *)
Theorem client_receives_requested_blocks (d : delivery P) h i r :
  rtc step (New, []) (d, h) → requests d !! i = Some r →
  (∀ b, is_Some (Publish b d)) ∧ is_Some (Shutdown d) ∧
  NoDup (AuthBlock_Cid <$> out r) ∧
  (∀ b, b ∈ out r → AuthBlock_Cid b ∈ rq_cids r ∧ b ∈ h) ∧
  (handling r = false → ctxDone r = false → sessDone r = false → closed d = false →
     ∀ c, c ∈ rq_cids r → c ∈ AuthBlock_Cid <$> out r) ∧
  (∀ d' es, handle_end i d = Some (d', es) → ∃ cs, es = [EvCancel i cs] ∧ NoDup cs ∧
     ∀ c, c ∈ cs ↔ c ∈ rq_cids r ∧ c ∉ AuthBlock_Cid <$> (out r ++ option_list (held r))).
Proof.
  intros Hr Er. pose proof (delivery_reachable _ _ Hr Inv_delivery_new) as HI. cbn in HI.
  pose proof (inv_requests _ _ HI i r Er) as HR. split_and!.
  - intros b. destruct (Publish_ok b d h HI) as (d' & -> & _). by eexists.
  - destruct (Shutdown_ok d h HI) as (d' & -> & _). by eexists.
  - pose proof (ri_once _ _ _ _ HR) as Hn. unfold seen in Hn. rewrite fmap_app in Hn. by apply NoDup_app in Hn as [? _].
  - intros b Hb. apply (ri_asked _ _ _ _ HR). unfold seen. by apply elem_of_app; left.
  - intros Hh Hc Hs HC c Hin. destruct (ri_handled _ _ _ _ HR Hh Hc Hs) as (Hf & Eh & Eb).
    destruct (ri_forwarded _ _ _ _ HR HC Hf Hc) as [Ev Hall]. specialize (Hall c Hin).
    unfold seen in Hall. by rewrite Eh, Eb, Ev, !app_nil_r in Hall.
  - intros d' es H. unfold handle_end in H. rewrite Er in H. cbn in H. case_match; [|done]. injection H as _ <-.
    eexists. split; [done|]. split; [apply NoDup_keys|]. intros c. rewrite elem_of_keys, (ri_remaining _ _ _ _ HR).
    rewrite elem_of_difference, !elem_of_list_to_set. done.
Qed.

End delivery.

(** ** Concrete searches and requests *)
Module SearchExample.
Import Env.
Definition key2 : Cid := 2%N.
Definition key3 : Cid := 3%N.

Abbreviation managed := (PQM.ProviderQueryManager * list (Cid * PeerID))%type.
Definition call (f : PQM.ProviderQueryManager → option PQM.ProviderQueryManager) : managed → option managed :=
  λ x, s ← f x.1; Some (s, x.2).
(** The first provider that worker [i] tries is connected. *)
Definition connected (i : nat) : managed → option managed := λ x,
  match PQM.workers x.1 !! i with
  | Some (Some w) =>
      p ← PQM.connecting w !! 0%nat; s ← PQM.connect_done i 0 true x.1;
      Some (s, x.2 ++ [(PQM.fpr_k (PQM.sr_req w), p)])
  | _ => None
  end.

(** Two callers search for the same cid; a provider is found after the first one
    joined and before the second. *)
Definition joined : list (managed → option managed) :=
  [call (PQM.FindProvidersAsync key2); call PQM.run_message; call (PQM.dispatch 0);
   call (PQM.provider_found 0 "bob"); connected 0; call PQM.run_message;
   call (PQM.FindProvidersAsync key2); call PQM.run_message].
Definition joined1 : managed := default (PQM.New, []) (exec joined (PQM.New, [])).

(** A search is cancelled by its only caller and started again by another one. *)
Definition restarted : list (managed → option managed) :=
  [call (PQM.FindProvidersAsync key2); call PQM.run_message; call (PQM.dispatch 0);
   call (PQM.session_done 1); call (PQM.cancelProviderRequest 1); call PQM.run_message;
   call (PQM.FindProvidersAsync key2); call PQM.run_message; call (PQM.dispatch 1)].
Definition restarted1 : managed := default (PQM.New, []) (exec restarted (PQM.New, [])).
(** The first search ends; the second one finds a provider. *)
Definition ended : list (managed → option managed) :=
  [call (PQM.search_ended 0); call (PQM.search_finished 0); call PQM.run_message;
   call (PQM.provider_found 1 "bob"); connected 1; call PQM.run_message; call (PQM.see_closed 3)].
Definition ended1 : managed := default (PQM.New, []) (exec ended restarted1).

Lemma call_step f (x y : managed) :
  (∀ s s' h, f s = Some s' → PQMFacts.step (s, h) (s', h)) → call f x = Some y → PQMFacts.step x y.
Proof.
  intros Hf. destruct x as [s h]. unfold call. cbn. destruct (f s) as [s'|] eqn:E; [cbn|done].
  intros [= <-]. by apply Hf.
Qed.

Lemma connected_step i (x y : managed) : connected i x = Some y → PQMFacts.step x y.
Proof.
  destruct x as [s h]. unfold connected. cbn [fst snd]. destruct (PQM.workers s !! i) as [[w|]|] eqn:Ew; [|done|done].
  destruct (PQM.connecting w !! 0%nat) as [p|] eqn:Ep; [cbn|done].
  destruct (PQM.connect_done i 0 true s) as [s'|] eqn:Es; [cbn|done]. intros [= <-].
  exact (PQMFacts.st_connected i 0 w p s s' h Ew Ep Es).
Qed.

Lemma joined_reachable : rtc PQMFacts.step (PQM.New, []) (joined1.1, joined1.2).
Proof.
  rewrite <- surjective_pairing. eapply (exec_rtc _ joined); [|evaluate_some].
  unfold joined. rewrite !Forall_cons. split_and!; [intros x y..|by apply Forall_nil].
  - apply call_step. exact (PQMFacts.st_find key2).
  - apply call_step. exact PQMFacts.st_message.
  - apply call_step. exact (PQMFacts.st_dispatch 0).
  - apply call_step. exact (PQMFacts.st_found 0 "bob").
  - exact (connected_step 0 x y).
  - apply call_step. exact PQMFacts.st_message.
  - apply call_step. exact (PQMFacts.st_find key2).
  - apply call_step. exact PQMFacts.st_message.
Qed.

(** A client asks for two blocks and gets one. *)
Definition b2 : AuthBlock := NewBlock (block [Byte.x2a]) "0a".
Definition asking : Delivery.delivery pubsub :=
  (Delivery.AsyncGetBlocks [want 2 "0a"; want 3 "0a"] Delivery.New).1.
Definition published : Delivery.delivery pubsub := default asking (Delivery.Publish b2 asking).
Definition forwarded : Delivery.delivery pubsub := default asking (Delivery.forward 0 published).
Definition taken : Delivery.delivery pubsub := default asking (Delivery.incoming 0 forwarded).
Definition read : Delivery.delivery pubsub := default asking (Delivery.client_reads 0 taken).
Definition gone : Delivery.delivery pubsub := default asking (Delivery.cancel_ctx 0 read).
Definition no_request : Delivery.request := Delivery.mkReq [] [] false [] false false ∅ None [] false false false.

Lemma asking_reachable : rtc DeliveryFacts.step (Delivery.New, []) (asking, []).
Proof. apply rtc_once, DeliveryFacts.st_get. Qed.

Lemma gone_reachable : rtc DeliveryFacts.step (Delivery.New, []) (gone, [b2]).
Proof.
  etrans; [apply asking_reachable|].
  eapply rtc_l; [apply (DeliveryFacts.st_publish b2 asking published []); evaluate_some|].
  eapply rtc_l; [apply (DeliveryFacts.st_forward 0 published forwarded); evaluate_some|].
  eapply rtc_l; [apply (DeliveryFacts.st_incoming 0 forwarded taken); evaluate_some|].
  eapply rtc_l; [apply (DeliveryFacts.st_reads 0 taken read); evaluate_some|].
  apply rtc_once, (DeliveryFacts.st_ctx 0 read gone). evaluate_some.
Qed.
End SearchExample.

Import Env SearchExample.

Definition second_caller : PQM.receiver :=
  default (PQM.mkReceiver key2 [] false PQM.Returned []) (PQM.receivers joined1.1 !! 2%nat).

Lemma provider_messages_handled_witness :
  is_Some (PQM.cleanupInProcessRequests joined1.1) ∧ length (PQM.workers joined1.1) = 6%nat.
Proof. exact (proj2 (provider_messages_handled joined1.1 joined1.2 joined_reachable)). Defined.

Lemma callers_told_all_providers_witness :
  PQM.receivedProviders second_caller = ["bob"] ∧ (key2, "bob") ∈ joined1.2.
Proof.
  split; [evaluate|].
  destruct (callers_told_all_providers joined1.1 joined1.2 2%nat second_caller joined_reachable
    ltac:(evaluate_some)) as (_ & H & _).
  apply (H "bob"). decide_by_eval.
Defined.

Definition client0 : Delivery.request := default no_request (Delivery.requests gone !! 0%nat).

Lemma client_receives_requested_blocks_witness :
  Delivery.out client0 = [b2] ∧
  ∃ d' cs, Delivery.handle_end 0 gone = Some (d', [Delivery.EvCancel 0 cs]) ∧ key3 ∈ cs ∧ key2 ∉ cs.
Proof.
  split; [evaluate|].
  destruct (client_receives_requested_blocks gone [b2] 0%nat client0 gone_reachable ltac:(evaluate_some))
    as (_ & _ & _ & _ & _ & H).
  set (x := default (gone, []) (Delivery.handle_end 0 gone)).
  assert (Delivery.handle_end 0 gone = Some (x.1, x.2)) as E by (rewrite <- surjective_pairing; evaluate_some).
  destruct (H x.1 x.2 E) as (cs & Ecs & _ & Hcs).
  exists x.1, cs. rewrite E, Ecs. split; [done|]. split; [apply Hcs; split; decide_by_eval|].
  intros [_ Hn]%Hcs. apply Hn. decide_by_eval.
Defined.



(** The report of a cancelled search ends a new one.  When a search is
    cancelled and the same cid is searched for again before the old worker has
    reported, two workers search for the cid at the same time; the report of the
    old one closes the channel of the new caller, who is told of no provider
    although the new search then finds one. *)
Theorem stale_report_ends_new_search :
  exec restarted (PQM.New, []) = Some restarted1 ∧ exec ended restarted1 = Some ended1 ∧
  map (option_map (λ w, PQM.fpr_k (PQM.sr_req w))) (take 2 (PQM.workers restarted1.1)) = [Some key2; Some key2] ∧
  ended1.2 = [(key2, "bob")] ∧
  option_map (λ r, (PQM.mode r, PQM.returned r, PQM.receivedProviders r)) (PQM.receivers ended1.1 !! 3%nat)
    = Some (PQM.Returned, [], []).
Proof.
  split; [evaluate_some|]. split; [evaluate_some|]. split; [evaluate|]. split; evaluate.
Qed.
