(* ===== verification/WireTheorems.v ===== *)
(** * Theorems about messages on the wire

    The bytes of a message, the frames of a stream, and the network that sends and
    receives them. *)
From S2P Require Import Prelude Auth Wantlist Proto Message Wire WireFacts Framing ConnectEvents Network NetworkFacts Instances SessionTheorems.
Set Default Goal Selector "1".
Open Scope Z_scope.

Section wire.
Context {CL : CidLib} {CC : CidCast}.
Import Wire WireFacts.

(** C21: the byte format.  A protobuf message whose [int32] fields are in range and
    whose cids are defined is marshalled into exactly [Size] bytes; [MarshalTo]
    writes these bytes into any buffer that is long enough, leaves the rest of the
    buffer alone and returns their number; and [Unmarshal] reads the message back
    from them. *)
Theorem marshal_roundtrip (m : pb_Message) :
  Message_ok m → pb_Message_Size m < 2 ^ 62 →
  ∃ bs, Message_Marshal m = Some bs ∧ len bs = pb_Message_Size m ∧
    (∀ dAtA, len bs ≤ len dAtA → Message_MarshalTo m dAtA = Some (bs ++ drop (length bs) dAtA, len bs)) ∧
    Message_Unmarshal bs Message_zero = ret m.
Proof.
  intros Hm Hs. rewrite Message_size in Hs |- *. exists (enc_Message m).
  pose proof (len_nonneg (enc_Message m)). split_and!; [|done|apply Message_Marshals|by apply Message_roundtrip].
  unfold Message_Marshal. rewrite Message_Marshals by (rewrite Message_size; unfold len; rewrite length_replicate; lia).
  cbn [mbind option_bind]. f_equal. apply take_app_length'. unfold len. lia.
Qed.

(** C22: no input crashes the decoder.  Whatever bytes a peer sends, [Unmarshal]
    returns a message or an error: no index is out of range, no panic is reached
    (also in nested groups of unknown fields) and every loop ends. *)
Theorem any_bytes_unmarshalled (dAtA : bytes) (m : pb_Message) :
  len dAtA < 2 ^ 62 → is_Some (Message_Unmarshal dAtA m).
Proof.
  intros Hs. apply (Returns_is_Some (λ _, True)). apply Unmarshal_returns; [apply Message_field_ok|done].
Qed.
End wire.

Section network.
Context {CL : CidLib} {GO : GoRuntime} {BL : BlockLib} {CC : CidCast} {BP : BufferPool} {MR : MsgReader}.
Context {H : Type} {HO : Host H}.
Import Framing Net NetFacts.
Implicit Types (w : world H).

(** C20: messages arrive.  When a peer writes any sequence of messages that the wire
    can carry to a stream, one [ToNetV1] after the other, then reading the stream
    hands exactly these messages, in this order, to the receiver as messages of
    that peer, without an error, and counts them. *)
Theorem stream_delivers_messages `{!BlockLibLaws} `{!MsgReaderLaws} s p ms w :
  Forall net_ok ms → stats_ok w → receiver (bsnet w) = true →
  ∃ bs w' ms', frames ms = Some bs ∧ handleNewStream s p bs w = Some w' ∧
    heard p ms' None w w' ∧ Forall2 Message.msg_eq ms' ms.
Proof.
  intros Hms Hw Hr. destruct (handle_frames s p ms w Hms Hw) as (bs & Eb & Hrun).
  destruct (Hrun (S (length bs)) ltac:(lia)) as (w' & ms' & Eh & HH & H2).
  exists bs, (on_host (stream_Close s) w').1, ms'. split; [done|]. unfold handleNewStream. rewrite Hr, Eh. split; [done|].
  split; [|done]. unfold on_host. by destruct (stream_Close s (host w')).
Qed.

(** C23: no stream harms the node.  Whatever bytes are on a stream, reading it
    returns; the receiver gets well-formed messages of that peer only, then at most
    one error, which is the last thing it hears of the stream; the messages are
    counted. *)
Theorem any_stream_handled `{!MsgReaderLaws} s p data w :
  stats_ok w → receiver (bsnet w) = true →
  ∃ w' ms e, handleNewStream s p data w = Some w' ∧ heard p ms e w w' ∧ Forall Message.wf ms.
Proof.
  intros Hw Hr. destruct (handle_messages_heard (S (length data)) s p data w ltac:(lia) Hw) as (w' & ms & e & Eh & HH & HF).
  exists (on_host (stream_Close s) w').1, ms, e. unfold handleNewStream. rewrite Hr, Eh. split; [done|].
  split; [|done]. unfold on_host. by destruct (stream_Close s (host w')).
Qed.


(** The time allowed for sending a message lies between ten seconds and two minutes
    and is, in between, two seconds plus 80 microseconds per byte (100 kbit/s). *)
Theorem send_timeout_exact size :
  minSendTimeout ≤ sendTimeout size ≤ maxSendTimeout ∧
  (0 ≤ size ≤ 2 ^ 34 →
   sendTimeout size = Z.min maxSendTimeout (Z.max minSendTimeout (sendLatency + size * 80000))).
Proof. split; [apply sendTimeout_range|apply sendTimeout_exact]. Qed.
End network.

(** ** A concrete network *)
Module WireExample.
Import Env SessionExample.

Definition cast (bs : bytes) : result error N :=
  match bs with [] => Err (ErrOther "cid too short") | _ => Ok (N.of_nat (length bs)) end.
Lemma cast_KeyString (c : Cid) : Cid_Defined c = true → cast (Cid_KeyString c) = Ok c.
Proof.
  cbn. intros Hc. destruct (N.eqb_spec c 0) as [|Hne]; [done|].
  destruct (repeat Byte.x01 (N.to_nat c)) as [|b bs] eqn:E; apply (f_equal length) in E; rewrite repeat_length in E.
  - cbn in E. lia.
  - cbn [cast]. f_equal. rewrite <- E. lia.
Qed.
#[export] Instance cid_cast : CidCast := {| Cid_Cast := cast; Cid_Cast_KeyString := cast_KeyString |}.

(** Buffers with the bytes of earlier messages in them. *)
#[export] Program Instance pool : BufferPool := {| pool_Get n := replicate (Z.to_nat n) Byte.x2a |}.
Next Obligation. intros n Hn. unfold len. rewrite length_replicate. lia. Qed.

(** Frames of at most 4 MiB. *)
#[export] Instance frame_reader : MsgReader := {|
  MessageSizeMax := 2 ^ 22;
  ReadMsg data :=
    match Wire.readVarint uint64 data 0 with
    | Some (Ok (n, i)) =>
        if 2 ^ 22 <? n then Err (ErrOther "message too large")
        else if len data <? i + n then Err (ErrOther "unexpected EOF")
        else Ok (Wire.slice data i (i + n), drop (Z.to_nat (i + n)) data)
    | _ => Err io_EOF
    end;
|}.

#[export] Instance frame_reader_laws : MsgReaderLaws.
Proof.
  split; cbn [MessageSizeMax ReadMsg frame_reader]; [done| | |done].
  - intros msg rest Hl. pose proof (len_nonneg msg). set (data := _ ++ msg ++ rest).
    pose proof (WireFacts.At_nil data) as HA. unfold data in HA at 2.
    rewrite (WireFacts.readVarint_enc uint64 data 0 (len msg) (msg ++ rest)) by (done || lia).
    rewrite uint64_id by lia. unfold Wire.ret. rewrite (proj2 (Z.ltb_ge _ _)) by done.
    apply WireFacts.At_app in HA. pose proof (WireFacts.At_app _ _ _ _ HA) as (_ & Hl2 & Hd2).
    destruct HA as (_ & Hl1 & Hd1). pose proof (len_nonneg rest). rewrite (proj2 (Z.ltb_ge (len data) _)) by lia.
    rewrite Hd2. unfold Wire.slice. rewrite Hd1. do 2 f_equal. apply take_app_length'. unfold len. lia.
  - intros data msg rest. pose proof (WireFacts.readVarint_returns uint64 data 0 ltac:(lia)) as HR.
    destruct (Wire.readVarint uint64 data 0) as [[[n i]|e]|]; [|done|done]. destruct HR as [Hi [V ->]].
    pose proof (uint64_range V). destruct (Z.ltb_spec (2 ^ 22) (uint64 V)); [done|].
    destruct (Z.ltb_spec (len data) (i + uint64 V)); [done|]. intros [= <- <-]. unfold Wire.slice, len in *.
    rewrite length_take, !length_drop. lia.
Qed.

(** A host that opens stream 1 to everybody; stream 2, to the peer "mute", cannot
    be written to.  Its state is what was written. *)
Definition hosted : Type := list (nat * bytes).
#[export] Instance in_memory : Host hosted := {|
  host_ID := "me";
  host_Connect _ h := (h, None);
  host_NewStream p _ h := (h, Ok (if String.eqb p "mute" then 2 else 1)%nat);
  stream_Protocol _ _ := Net.ProtocolBitswap;
  stream_SetWriteDeadline _ _ h := (h, None);
  stream_Write s bs h := if Nat.eqb s 2 then (h, Some (ErrOther "write")) else (h ++ [(s, bs)], None);
  stream_Reset _ h := (h, None);
  stream_Close _ h := (h, None);
  Is_ErrNotSupported _ := false;
|}.

Definition pb0 : pb_Message := Message.ToProtoV1 m0.
Definition node : Net.world hosted := Net.Connected false "mute" (Net.SetDelegate (Net.NewFromIpfsHost [] [])).

Lemma m0_ok : Framing.net_ok m0.
Proof.
  assert (Message.wantlist m0 = {[want 4 "ff" := Message.new_entry (want 4 "ff") 7 false WantType_Have true]}) as E1
    by evaluate.
  assert (Message.blockPresences m0 = {[want 5 "" := Presence_Have]}) as E3 by evaluate.
  split; [apply wf_m0|apply wire_ok_m0| | | |].
  - rewrite E1. by intros w x [<- <-]%lookup_singleton_Some.
  - rewrite E3. by intros w x [<- <-]%lookup_singleton_Some.
  - split; apply (bool_decide_unpack _); exact I.
  - apply Z.leb_le. evaluate.
Qed.

End WireExample.

Import Env SessionExample WireExample.

Lemma marshal_roundtrip_witness :
  ∃ bs, Wire.Message_Marshal pb0 = Some bs ∧ Wire.Message_Unmarshal bs Wire.Message_zero = Wire.ret pb0.
Proof.
  destruct (marshal_roundtrip pb0 (Framing.ToProtoV1_ok m0 m0_ok) ltac:(apply Z.ltb_lt; evaluate))
    as (bs & E1 & _ & _ & E2).
  exists bs. split; [exact E1|exact E2].
Defined.

(** An unknown group with an unknown field in it. *)
Lemma any_bytes_unmarshalled_witness :
  is_Some (Wire.Message_Unmarshal [Byte.x4b; Byte.x08; Byte.x01; Byte.x4c] Wire.Message_zero).
Proof. exact (any_bytes_unmarshalled [Byte.x4b; Byte.x08; Byte.x01; Byte.x4c] Wire.Message_zero ltac:(vm_compute; reflexivity)). Defined.

Lemma node_stats : NetFacts.stats_ok node.
Proof. by vm_compute. Qed.

Lemma stream_delivers_messages_witness :
  ∃ bs w' ms', NetFacts.frames [m0; m0] = Some bs ∧ Net.handleNewStream 1 "bob" bs node = Some w' ∧
    NetFacts.heard "bob" ms' None node w' ∧ Forall2 Message.msg_eq ms' [m0; m0].
Proof.
  exact (stream_delivers_messages 1 "bob" [m0; m0] node
    (List.Forall_cons _ _ _ m0_ok (List.Forall_cons _ _ _ m0_ok (List.Forall_nil _))) node_stats eq_refl).
Defined.

(** A frame that announces more than there is. *)
Lemma any_stream_handled_witness :
  ∃ w' ms e, Net.handleNewStream 1 "bob" [Byte.x05; Byte.x0a] node = Some w' ∧
    NetFacts.heard "bob" ms e node w' ∧ Forall Message.wf ms.
Proof. exact (any_stream_handled 1 "bob" [Byte.x05; Byte.x0a] node node_stats eq_refl). Defined.

