(* ===== verification/TransferTheorems.v ===== *)
(** * Theorems about serving and fetching together

    The workers that read the blockstore, and the way of a block from the engine
    of one node through the wire to the sessions and the blockstore of another. *)
From S2P Require Import Prelude Auth Wantlist Hex Proto Message Ledger ScoreLedger TaskMerger.
From S2P Require Import BlockstoreManager BlockstorePool BlockstorePoolFacts Engine EngineFacts EngineIndex EngineRun.
From S2P Require Import SessionInterest SessionManager Bitswap BitswapFacts Wire WireFacts Framing Network NetworkFacts VirtualNet VirtualNetFacts Outbox OutboxFacts Startup Transfer.
From S2P Require Import PeerManager Session Delivery DeliveryFacts Closing.
From S2P Require Import Instances SessionTheorems FetchTheorems WireTheorems.
Set Default Goal Selector "1".
Open Scope Z_scope.

Section workers.
Context {CL : CidLib} {B : Type} {BS : Blockstore B}.
Import Pool PoolFacts.


(** C35: calls of the pool return.  With at least one worker, whatever was called,
    cancelled or closed before: the goroutines can take only finitely many steps
    by themselves, and when they can take none, every call has returned. *)
Theorem pool_calls_return n s :
  (0 < n)%nat → rtc step (start n) s →
  0 ≤ cost s ∧ (∀ s', istep s s' → cost s' < cost s) ∧
  ((∀ s', ¬ istep s s') → ∀ c x, calls s !! c = Some x → returned x = true).
Proof.
  intros Hn Hr. pose proof (pool_reachable _ _ Hr (pool_Inv_start n)) as HI. split; [apply cost_nonneg|].
  split; [apply istep_cost|]. intros Hno c x Hx. destruct (returned x) eqn:E; [done|]. exfalso.
  destruct (call_moves s c x HI) as [s' Hs]; [|done|done|by apply (Hno s')].
  rewrite (workers_reachable _ _ Hr). cbn. by rewrite length_replicate.
Qed.
End workers.

Section outbox.
Context {CL : CidLib} {GO : GoRuntime} {BL : BlockLib}.
Context {B : Type} {BS : Blockstore B} {Q : Type} {PTQ : PeerTaskQueue Q} {SL : Type} {SLI : ScoreLedger SL}.
Import Outbox OutboxFacts.

(** C32: every batch of tasks is given back once.  The task workers of the engine
    and of the node, the handlers of the engine and all other parts of the node run
    in any interleaving, contexts end and reads fail at any moment.  Then no
    channel is used after it was closed or closed twice; the batches that
    [PopTasks] handed out are exactly those given back by [TasksDone], those that a
    worker or a channel holds, and those lost with a worker whose reads failed, at
    most one for each such worker; until the context ends, no more messages are
    prepared or being sent than there are workers to send them; and the outbox is
    closed exactly when all workers of the engine have returned. *)
Theorem batches_given_back m (n : Bitswap.Bitswap B Q SL) s :
  0 < Engine.taskWorkerCount (Bitswap.engine n) → Engine.outboxClosed (Bitswap.engine n) = false →
  rtc step (StartWorkers m n) s →
  panicked s = false ∧
  popped s ≡ₚ released s ++ held s ++ dropped s ∧
  len (dropped s) ≤ Zsum_with (λ k, b2z (ended k)) (eworkers s) ∧
  (ctx_done s = false → len (in_flight s) ≤ Z.of_nat m) ∧
  (Engine.outboxClosed (engine s) = true ↔ alive (eworkers s) = 0 ∧ eworkers s ≠ []).
Proof.
  intros Hn Ho Hr. pose proof (pipe_reachable _ _ Hr (outbox_Inv_start m n Hn Ho)) as HI.
  pose proof (nworkers_reachable _ _ Hr) as Hl. cbn in Hl. rewrite length_replicate in Hl.
  split_and!; [apply (inv_panic _ HI)|apply Books_perm, (inv_books _ HI)|apply (inv_dropped _ HI)| |apply (inv_outbox _ HI)].
  intros Hd. rewrite <- Hl. by apply in_flight_bound.
Qed.

End outbox.

Section start.
Context {CL : CidLib} {GO : GoRuntime} {BL : BlockLib}.
Context {B : Type} {BS : Blockstore B} {Q : Type} {PTQ : PeerTaskQueue Q} {SL : Type} {SLI : ScoreLedger SL}.

(** C33: a node that is started serves.  With any options that a caller can make, in
    any order: the components of the new node satisfy their invariants; after any
    run of its task workers in which the context has not ended, when no worker can
    go on no batch is held, and if an engine worker is left one waits for work and
    no signal of work is pending, so that what is prepared is sent and what is
    signalled is picked up; and after any run of its blockstore workers, when none
    can go on every call has returned. *)
Theorem started_node_serves self (bstore : AuthedBlockstore.AuthedBlockstore B) (sl : SL) (nq : Z → Q)
    (options : list Startup.Option) :
  Forall Startup.is_option options →
  let st := Startup.New self bstore sl nq options in
  BitswapFacts.Inv (Outbox.node (Startup.st_pipe st)) ∅ ∧
  (∀ s, rtc OutboxFacts.step (Startup.st_pipe st) s → Outbox.ctx_done s = false → (∀ s', ¬ OutboxFacts.istep s s') →
     OutboxFacts.held s = [] ∧
     (0 < OutboxFacts.alive (Outbox.eworkers s) →
      Engine.workSignal (Outbox.engine s) = false ∧ ∃ i ch, Outbox.eworkers s !! i = Some (Outbox.EWait ch))) ∧
  (∀ s, rtc PoolFacts.step (Startup.st_pool st) s → (∀ s', ¬ PoolFacts.istep s s') →
     ∀ c x, Pool.calls s !! c = Some x → Pool.returned x = true).
Proof.
  intros Ho st. destruct (Startup.New_counts self bstore sl nq options Ho) as (C1 & C2 & C3 & _). split; [|split].
  - apply BitswapFacts.node_new.
  - intros s Hr Hd Hrest. assert (OutboxFacts.Inv s) as HI by (apply (OutboxFacts.pipe_reachable _ _ Hr), OutboxFacts.outbox_Inv_start; done).
    split; [by apply OutboxFacts.rest_held|]. intros Ha. destruct (OutboxFacts.alive_worker _ Ha) as (i & k & Hi & Hk).
    destruct (OutboxFacts.rest_waits s HI Hd Hrest i k Hi Hk) as (i' & ch & Hw); [|by split; [eapply OutboxFacts.rest_signal|eauto]]. pose proof (OutboxFacts.nworkers_reachable _ _ Hr) as Hl.
    cbn [st Startup.New Startup.st_pipe Outbox.StartWorkers Outbox.nworkers] in Hl. rewrite length_replicate in Hl. intros E. rewrite E in Hl.
    cbn [length] in Hl. cbn in C3. lia.
  - intros s Hr Hno c x Hx. pose proof (PoolFacts.pool_reachable _ _ Hr (PoolFacts.pool_Inv_start _)) as HI.
    destruct (Pool.returned x) eqn:E; [done|]. exfalso.
    destruct (PoolFacts.call_moves s c x HI) as [s' Hs]; [|done|done|by apply (Hno s')].
    rewrite (PoolFacts.workers_reachable _ _ Hr). cbn [st Startup.New Startup.st_pool Pool.start Pool.workers].
    rewrite length_replicate. cbn in C1. lia.
Qed.
End start.

Section closing.
Context {CL : CidLib} {GO : GoRuntime} {BL : BlockLib} (rand : nat → SpecFloat.spec_float).
Context {B : Type} {BS : Blockstore B} {Q : Type} {PTQ : PeerTaskQueue Q} {SL : Type} {SLI : ScoreLedger SL}.
Context {P : Type} {PS : PubSubLib P} {PL : PubSubLaws P} {KI : Inj (=) (=) Cid_KeyString}.
Import Life.

(** C36: a node that is closed settles.  A new node receives messages, its sessions and
    engine work, clients call [GetBlocks] and read, [Close] is called and the parent
    context ends at any moment.  Once the process is closing, no block is received
    any more; the goroutine that ends the node can always take its next step, of at
    most four, and nothing sets it back.  It ends the sessions before it cancels
    the context, and the context before it shuts down the notifications.  When it
    has ended, every session that was open then has ended and stays so, every
    request that is still being served can be ended by its own goroutine without
    waiting for anyone, and a new request gets a closed channel. *)
Theorem closed_node_settles self bstore (sl : SL) (q : Q) n dh provide simulate delay
    (x : life (B := B) (Q := Q) (SL := SL) P) rm h T :
  rtc (step rand) (start (Bitswap.New self bstore sl q n dh provide simulate) delay, ∅, [], []) (x, rm, h, T) →
  (Bitswap.closing (node x) = true →
     (∀ dr ds drop cerr from blks haves dontHaves,
        Bitswap.receiveBlocksFrom dr ds drop cerr from blks haves dontHaves (node x) =
          Some (node x, [], Some Bitswap.errClosed)) ∧
     (closer x ≠ CEnded → ∃ x', closer_step x = Some x' ∧ rank (closer x) = S (rank (closer x')))) ∧
  (∀ y, step rand (x, rm, h, T) y → (rank (closer y.1.1.1) ≤ rank (closer x) ≤ 4)%nat) ∧
  (SM.sessions (manager x) = None ↔ (rank (closer x) ≤ 2)%nat) ∧
  ((rank (closer x) ≤ 1)%nat → ctx_done x = true) ∧
  (Delivery.closed (notif x) = true ↔ closer x = CEnded) ∧
  (∀ ref, ref ∈ T → ended (manager x) ref) ∧
  (closer x = CEnded →
     (∀ i r, Delivery.requests (notif x) !! i = Some r → Delivery.forwarding r = true →
        is_Some (Delivery.forward_drop i (notif x)) ∨ is_Some (Delivery.forward_end i (notif x))) ∧
     (∀ clientDone drop wait keys ref i x', GetBlocks clientDone drop wait keys x = Some (ref, Some i, x') →
        ∃ r, Delivery.requests (notif x') !! i = Some r ∧ Delivery.blocksCh r = [] ∧ Delivery.blocksClosed r = true)).
Proof.
  intros Hr. pose proof (life_reachable rand _ _ Hr (Inv_life_start self bstore sl q n dh provide simulate delay)) as HI.
  cbn [fst snd] in HI. split_and!.
  - intros Hc. split; [|by eapply closer_goes_on]. intros. unfold Bitswap.receiveBlocksFrom. by rewrite Hc.
  - intros y Hs. split; [by apply (rank_step _ _ _ Hs)|]. destruct (closer x); cbn; lia.
  - apply (l_sessions _ _ _ _ HI).
  - apply (l_ctx _ _ _ _ HI).
  - apply (l_closed _ _ _ _ HI).
  - apply (l_told _ _ _ _ HI).
  - intros He. assert (Delivery.closed (notif x) = true) as Hc by by apply (l_closed _ _ _ _ HI). split.
    + intros i r. apply sealed_moves; [apply (l_sealed _ _ _ _ HI)|done].
    + intros *. by apply GetBlocks_after.
Qed.
End closing.

Section virtual.
Context {CL : CidLib} {GO : GoRuntime} {BL : BlockLib} {RL : RateLimiterLib}.
Import VNet VNetFacts.

(** C40: the virtual network delivers.  After any run of a new network, rate-limited
    or not, at every adapter: the messages that were accepted for it are exactly
    those handed over to it and those waiting there, once each, and the former are
    counted; a message that the goroutine takes is due no later than any other that
    waits; and while something waits for a node that has a receiver, its goroutine
    can go on as soon as it is late enough. *)
Theorem virtual_network_delivers (limited : bool) n h a x :
  rtc step (if limited then RateLimitedVirtualNetwork else VirtualNetwork, []) (n, h) → adapters n !! a = Some x →
  sent_to a h ≡ₚ heard_by a (events n) ++ waiting x ∧
  MessagesRecvd x = uint64 (len (heard_by a (events n))) ∧
  (∀ now i x' m, loop_turn now i x = Some x' → procs x' !! i = Some (PDeliver m) →
     (∀ m', m' ∈ queue x → time_ok (shouldSend m')) →
     queue x ≡ₚ m :: queue x' ∧ ∀ m', m' ∈ queue x' → shouldSend m ≤ shouldSend m') ∧
  (delegate x = true → waiting x ≠ [] →
   ∃ i t, ∀ now, t ≤ now →
     is_Some (process_turn now a i n) ∨ is_Some (process_wake a i n) ∨ is_Some (process_deliver now a i n)).
Proof.
  intros Hr Ha. assert (Inv n h) as HI.
  { apply (vnet_reachable _ _ Hr). destruct limited; apply Inv_empty. }
  destruct (v_adapters _ _ HI a x Ha) as [H1 _ H3].
  split_and!; [done|done|intros now i x' m; apply turn_first|by eapply waiting_moves].
Qed.
End virtual.

Section transfer.
Context {CL : CidLib} {GO : GoRuntime} {BL : BlockLib} {CC : CidCast} {BP : BufferPool} {MR : MsgReader}.
Context {H : Type} {HO : Host H}.
Context {B : Type} {BS : Blockstore B} {Q : Type} {PTQ : PeerTaskQueue Q} {SL : Type} {SLI : ScoreLedger SL}.
Context {BSL : BlockstoreLaws B} {BLL : BlockLibLaws} {MRL : MsgReaderLaws}.
Import Message Engine EngineRun Bitswap BitswapFacts Net NetFacts Framing Transfer.

(** C4: a block that is asked for arrives.  A node [self] holds content-addressed
    blocks, and its request queue hands the engine a batch of tasks of the peer
    [p], with distinct cids; the block [b] is owed for one of them, [t].  Then the
    next envelope is for [p]; if its message is not too long for the wire, the
    bytes of [ToNetV1] read by a stream of [p]'s node hand over one message, of
    [self] and with that content; and when [p]'s node is open, a session of it
    waits for the want of [t] and its blockstore takes blocks, then receiving the
    message publishes [b] to the subscribers and leaves it in the blockstore. *)
Theorem served_block_arrives fuel faults ws (e : Engine B Q SL) p tasks pending t b self s (w : world H) :
  (pop e).1 = (p, tasks, pending) → NoDup (Want_Cid <$> (Task_Topic <$> tasks)) →
  (∀ t, t ∈ tasks → want_ok (Task_Topic t)) → hashed (AuthedBlockstore.source (bsm e)) →
  t ∈ tasks → task_reply e p t = RBlock b →
  stats_ok w → receiver (bsnet w) = true → self ≠ "" → writable (B := B) →
  ∃ env e', nextEnvelope (S fuel) (None :: faults) ws e = (e', Some (Ok env)) ∧ env_Peer env = p ∧
    (pb_Message_Size (ToProtoV1 (env_Message env)) ≤ MessageSizeMax →
     ∃ bytes w' m, ToNetV1 (env_Message env) = Some bytes ∧ handleNewStream s self bytes w = Some w' ∧
       heard self [m] None w w' ∧ msg_eq m (env_Message env) ∧
       ∀ f dr ds drop cerr (node node' : Bitswap B Q SL) es,
         Bitswap.closing node = false →
         SIM.wanted (SM.sessionInterestManager (sm node)) (Task_Topic t) →
         ReceiveMessage f dr ds drop cerr self m node = Some (node', es) →
         b ∈ published es ∧
         bs_Get (AuthedBlockstore.source (blockstore node')) (Want_Cid (Task_Topic t)) = Ok (AuthBlock_block b)).
Proof.
  intros Hpop Hn Hok Hh Ht Hb Hw Hr Hself Hwr.
  destruct (nextEnvelope_replies fuel faults ws e p tasks pending Hpop (NoDup_fmap_1 _ _ Hn))
    as (env & e' & He & Hp & _ & Hin & Hout & Hwl & Hpend).
  { exists t. split; [done|]. by rewrite Hb. }
  exists env, e'. split; [done|]. split; [done|]. intros Hsize.
  assert ((nextEnvelope (S fuel) (None :: faults) ws e).2 = Some (Ok env)) as He2 by by rewrite He.
  assert (net_ok (env_Message env)) as Hnet
    by (eapply envelope_sendable; [exact He2|exact Hp|exact Hh|exact Hok|exact Hin|exact Hout|exact Hwl|by eexists|done]).
  destruct (handle_one s self (env_Message env) w Hnet Hw) as (bytes & w' & m & E1 & E2 & E3 & E4); [done|].
  exists bytes, w', m. do 4 (split; [done|]). intros f dr ds drop cerr node node' es Hcl Hwant Hrec.
  pose proof (task_reply_block _ _ _ _ Hb) as [Eb Ewf].
  assert (blocks m !! Task_Topic t = Some b) as Hbm.
  { destruct E4 as (_ & _ & -> & _). specialize (Hin t Ht). rewrite Hb in Hin. unfold msg_reply in Hin.
    repeat case_match; by simplify_eq. }
  assert (Blocks m = Blocks (env_Message env)) as EB by (unfold Blocks; by destruct E4 as (_ & _ & -> & _)).
  destruct (ReceiveMessage_keeps f dr ds drop cerr self m node node' es b Hcl Hself Hwr) as (H1 & _ & H2);
    [|by apply (list_elem_of_fmap_2 snd _ (Task_Topic t, b)), elem_of_range|by rewrite Eb|done|].
  - rewrite EB. eapply (NoDup_Blocks_Cid _ (Task_Topic <$> tasks)); [apply Hnet| |done]. intros w0 b0 Hb0.
    destruct (decide (w0 ∈ Task_Topic <$> tasks)); [done|]. exfalso. specialize (Hout w0 ltac:(done)).
    unfold msg_reply in Hout. by rewrite Hb0 in Hout.
  - split; [done|]. rewrite <- H2. f_equal. by rewrite <- Eb.
Qed.
End transfer.

(** ** Two nodes *)
Module TransferExample.
Import Env FetchExample WireExample.

(** One worker; a call for two keys, the second of which is refused. *)
Definition keys : list Want := [w0; want 3 "0a"].
Definition working : list (Pool.pool → option Pool.pool) :=
  [λ s, Some (Pool.jobPerKey keys s); Pool.offer 0; Pool.hand 0 0; Pool.begin_job 0; Pool.count 0; Pool.offer 0;
   λ s, Some (Pool.close s); Pool.run_job 0; Pool.refuse_closing 0; Pool.end_job 0; Pool.worker_exit 0; Pool.wait_returns 0].
Definition pool1 : Pool.pool := default (Pool.start 1) (exec working (Pool.start 1)).

Lemma working_steps : Forall (λ f : Pool.pool → option Pool.pool, ∀ x y, f x = Some y → PoolFacts.step x y) working.
Proof.
  unfold working. rewrite !Forall_cons. split_and!; [intros x y Hs..|by apply Forall_nil].
  - injection Hs as <-. apply PoolFacts.st_call.
  - apply PoolFacts.st_internal. by eapply PoolFacts.i_offer.
  - apply PoolFacts.st_internal. by eapply PoolFacts.i_hand.
  - apply PoolFacts.st_internal. by eapply PoolFacts.i_begin.
  - apply PoolFacts.st_internal. by eapply PoolFacts.i_count.
  - apply PoolFacts.st_internal. by eapply PoolFacts.i_offer.
  - injection Hs as <-. apply PoolFacts.st_close.
  - apply PoolFacts.st_internal. by eapply PoolFacts.i_run.
  - apply PoolFacts.st_internal. by eapply PoolFacts.i_closing.
  - apply PoolFacts.st_internal. by eapply PoolFacts.i_end.
  - apply PoolFacts.st_internal. by eapply PoolFacts.i_exit.
  - apply PoolFacts.st_internal. by eapply PoolFacts.i_wait.
Qed.

Lemma pool1_reachable : rtc PoolFacts.step (Pool.start 1) pool1.
Proof. eapply exec_rtc; [apply working_steps|]. evaluate_some. Qed.

(** The store of the serving node, and its engine once "me" has asked for the block. *)
Definition bstore : AuthedBlockstore.AuthedBlockstore store :=
  AuthedBlockstore.NewAuthBlockstore (<[hash data := data]> ∅) (λ _ _ _ _, true).
Definition asked : Message.impl := (Message.AddEntry w0 2 WantType_Block true (Message.newMsg false)).2.
Definition serving : Engine.Engine store queue scores :=
  Engine.MessageReceived None "me" asked (Engine.NewEngine bstore no_scores [] 1).
Definition task0 : Task := mkTask w0 2 1 (mkTaskData true true 1 true).

(** What the asking node hears on a stream with the bytes of the answer, and what it does. *)
Definition answer : Message.impl :=
  match (Engine.nextEnvelope 1 [None] [] serving).2 with
  | Some (Ok env) => Engine.env_Message env | _ => Message.newMsg false end.
Definition answer_bytes : bytes := default [] (Framing.ToNetV1 answer).
Definition heard_answer : Net.world hosted := default node (Net.handleNewStream 1 "bob" answer_bytes node).
Definition arrived : Message.impl :=
  match NetFacts.received (Net.events heard_answer) with [(_, m)] => m | _ => Message.newMsg false end.
Definition fetched : Bitswap.Bitswap store queue scores * list Bitswap.bs_event :=
  default (node1, []) (Bitswap.ReceiveMessage None no_choice no_choice false None "bob" arrived node1).

Lemma bstore_hashed : Transfer.hashed (AuthedBlockstore.source (Engine.bsm serving)).
Proof.
  assert (Engine.bsm serving = bstore) as -> by reflexivity. unfold Transfer.hashed. cbn [bstore AuthedBlockstore.NewAuthBlockstore AuthedBlockstore.source].
  intros c b. cbn [bs_Get Env.blockstore]. destruct (_ !! c) as [d|] eqn:E; [|done]. intros [= <-].
  apply lookup_insert_Some in E as [[<- <-]|[_ E]]; [done|discriminate (eq_trans (eq_sym E) (lookup_empty c))].
Qed.

(** The serving node: "me" asks for the block; a worker prepares it, another one
    sends it, and then both wait. *)
Definition bob : Bitswap.Bitswap store queue scores := Bitswap.New "bob" bstore no_scores [] 1 true true true.
Abbreviation served := (Outbox.pipe store queue scores).
Definition serve : list (served → option served) :=
  [λ s, Some (Outbox.set_engine (Engine.MessageReceived None "me" asked (Outbox.engine s)) s);
   Outbox.hand 0 0; Outbox.pop_step 0; Outbox.build_step None 0; Outbox.receive 0; Outbox.message_sent 0;
   Outbox.send_step true 0; Outbox.hand 0 0; Outbox.pop_step 0; Outbox.wake_signal 0].
Definition bob0 : served := Outbox.StartWorkers 1 bob.
Definition bob1 : served := default bob0 (exec serve bob0).

Lemma serve_steps : Forall (λ f : served → option served, ∀ x y, f x = Some y → OutboxFacts.step x y) serve.
Proof.
  unfold serve. rewrite !Forall_cons. split_and!; [intros x y Hs..|by apply Forall_nil].
  - injection Hs as <-. apply OutboxFacts.st_handler. constructor.
  - apply OutboxFacts.st_worker. by eapply OutboxFacts.i_hand.
  - apply OutboxFacts.st_worker. by eapply OutboxFacts.i_pop.
  - apply OutboxFacts.st_worker. by eapply OutboxFacts.i_build.
  - apply OutboxFacts.st_worker. by eapply OutboxFacts.i_receive.
  - apply OutboxFacts.st_worker. by eapply OutboxFacts.i_sent.
  - apply OutboxFacts.st_worker. by eapply OutboxFacts.i_send.
  - apply OutboxFacts.st_worker. by eapply OutboxFacts.i_hand.
  - apply OutboxFacts.st_worker. by eapply OutboxFacts.i_pop.
  - apply OutboxFacts.st_worker. by eapply OutboxFacts.i_signal.
Qed.

Lemma bob1_reachable : rtc OutboxFacts.step bob0 bob1.
Proof. eapply exec_rtc; [apply serve_steps|]. evaluate_some. Qed.

Lemma bob1_rests s : ¬ OutboxFacts.istep bob1 s.
Proof.
  assert (Outbox.eworkers bob1 = [Outbox.EWait 1]) as E1 by evaluate.
  assert (Outbox.nworkers bob1 = [Outbox.NAwait (Some 1%nat)]) as E2 by evaluate.
  assert (Outbox.chans bob1 = [Outbox.mkChan None true; Outbox.mkChan None false]) as E3 by evaluate.
  assert (Outbox.ctx_done bob1 = false) as E4 by evaluate.
  assert (Engine.workSignal (Outbox.engine bob1) = false) as E5 by evaluate.
  generalize dependent bob1. intros x E1 E2 E3 E4 E5 Hs.
  destruct Hs as [i j|i|i|i|i|i|f i|i|j|j|j|ok j|j]; unfold Outbox.hand, Outbox.offer_closed, Outbox.offer_quit,
    Outbox.pop_step, Outbox.wake_signal, Outbox.wake_done, Outbox.build_step, Outbox.exit_step, Outbox.outbox_ended, Outbox.receive,
    Outbox.message_sent, Outbox.send_step, Outbox.quit in *; rewrite ?E1, ?E2, ?E3, ?E4, ?E5 in *;
    try (destruct i as [|i]; cbn in *); try (destruct j as [|j]; cbn in * ); try done; rewrite ?E3 in *; done.
Qed.

(** Two nodes of a rate-limited virtual network; "bob" sends "me" a message. *)
#[export] Instance rate_limiter : RateLimiterLib := {|
  RateLimit := Z; RateLimiter := Z; NewRateLimiter r := r; Limit _ size r := (size * r, r) |}.
Definition sending (n : VNet.network) : option (VNet.network * option error) :=
  VNet.client_SendMessage (RL := rate_limiter) 100 20 3 0 "me" asked n.
Definition call_send (n : VNet.network) : option VNet.network :=
  match sending n with Some (n', None) => Some n' | _ => None end.
Definition vnet_calls : list (VNet.network → option VNet.network) :=
  [λ n, Some (VNet.Adapter "bob" [] n).2; λ n, Some (VNet.Adapter "me" [] n).2; λ n, Some (VNet.SetDelegate 1 n)].
Definition vnet1 : VNet.network := default VNet.RateLimitedVirtualNetwork (exec vnet_calls VNet.RateLimitedVirtualNetwork).
Definition vnet2 : VNet.network := default vnet1 (call_send vnet1).
Definition adapter2 : VNet.adapter := default (VNet.mkAdapter "" [] 0 0 false [] false []) (VNet.adapters vnet2 !! 1%nat).

Lemma vnet2_reachable :
  rtc VNetFacts.step (VNet.RateLimitedVirtualNetwork, []) (vnet2, [(1%nat, ("bob", Message.Clone asked))]).
Proof.
  eapply rtc_l; [apply (VNetFacts.st_adapter "bob" [])|]. eapply rtc_l; [apply (VNetFacts.st_adapter "me" [])|].
  eapply rtc_l; [apply (VNetFacts.st_delegate 1)|]. apply rtc_once.
  assert (sending vnet1 = Some (vnet2, None)) as Hs.
  { assert (match sending vnet1 with Some (_, None) => true | _ => false end = true) as E by evaluate.
    unfold vnet2, call_send. destruct (sending vnet1) as [[n' [e|]]|]; done. }
  eapply (VNetFacts.st_send (RL := rate_limiter) 100 20 3 0 (VNet.mkAdapter "bob" _ 0 0 false [] false []) "me" 1 asked); [reflexivity|evaluate|exact Hs].
Qed.

(** "me" asks for a block and is closed while it waits. *)
Abbreviation living := (Life.life (B := store) (Q := queue) (SL := scores) pubsub).
Definition me0 : living := Life.start (Bitswap.New "me" bstore no_scores [] 1 true true true) 0.
Definition asking : option (nat * option nat * living) := Life.GetBlocks false false 0 [w0] me0.
Definition me1 : living := match asking with Some (_, _, x) => x | None => me0 end.
Definition me2 : living := Life.Close me1.
Definition me3 : living := default me2 (Life.closer_step me2).
Definition me4 : living := default me3 (Life.closer_step me3).
Definition me5 : living := default me4 (Life.closer_step me4).
Definition me6 : living := default me5 (Life.closer_step me5).

Lemma me6_reachable : rtc (Life.step rand0) (me0, ∅, [], []) (me6, ∅, [], [0%nat]).
Proof.
  assert (asking = Some (0%nat, Some 0%nat, me1)) as Ha.
  { assert (match asking with Some (0%nat, Some 0%nat, _) => true | _ => false end = true) as E by evaluate.
    unfold me1. destruct asking as [[[[|] [[|]|]] x]|]; done. }
  eapply rtc_l; [apply (Life.l_get rand0 false false 0 [w0] 0 (Some 0%nat) me0 me1); [apply Z.ltb_lt; evaluate|exact Ha]|].
  eapply rtc_l; [apply Life.l_Close|]. fold me2.
  eapply rtc_l; [apply (Life.l_closer rand0 me2 me3); evaluate_some|]. assert (Life.closer me2 = Life.CAwait) as -> by evaluate.
  eapply rtc_l; [apply (Life.l_closer rand0 me3 me4); evaluate_some|]. assert (Life.closer me3 = Life.CSessions) as -> by evaluate.
  assert (Life.registered (Life.manager me3) = [0%nat]) as -> by evaluate.
  eapply rtc_l; [apply (Life.l_closer rand0 me4 me5); evaluate_some|]. assert (Life.closer me4 = Life.CCancel) as -> by evaluate.
  assert (Life.closer me5 = Life.CNotif) as E5 by evaluate.
  pose proof (Life.l_closer rand0 me5 me6 ∅ [] [0%nat] ltac:(evaluate_some)) as Hs. rewrite E5 in Hs. by apply rtc_once.
Qed.
End TransferExample.

Import Env FetchExample WireExample TransferExample.


Lemma pool_calls_return_witness :
  rtc PoolFacts.step (Pool.start 1) pool1 ∧ 0 ≤ PoolFacts.cost pool1.
Proof. split; [exact pool1_reachable|]. exact (proj1 (pool_calls_return 1 pool1 ltac:(lia) pool1_reachable)). Defined.

Lemma batches_given_back_witness :
  Outbox.panicked bob1 = false ∧ Outbox.popped bob1 ≡ₚ Outbox.released bob1 ++ OutboxFacts.held bob1 ++ Outbox.dropped bob1 ∧
  Outbox.released bob1 = [("me", [task0])].
Proof.
  destruct (batches_given_back 1 bob bob1 ltac:(apply Z.ltb_lt; evaluate) ltac:(evaluate) bob1_reachable) as (H1 & H2 & _).
  split; [exact H1|]. split; [exact H2|evaluate].
Defined.

(** The node "me", a session of which wants the block, gets it from "bob". *)
Lemma served_block_arrives_witness :
  wanted_block ∈ BitswapFacts.published fetched.2 ∧
  bs_Get (AuthedBlockstore.source (Bitswap.blockstore fetched.1)) (Want_Cid w0) = Ok (block data).
Proof.
  destruct (served_block_arrives 0 [] [] serving "me" [task0] 0 task0 wanted_block "bob" 1 node)
    as (env & e' & He & _ & Harr).
  - evaluate.
  - decide_by_eval.
  - intros t ->%list_elem_of_singleton. split; evaluate.
  - exact bstore_hashed.
  - by left.
  - evaluate.
  - exact node_stats.
  - reflexivity.
  - discriminate.
  - intros bl st. reflexivity.
  - assert (answer = Engine.env_Message env) as Ea by (unfold answer; by rewrite He).
    rewrite <- Ea in Harr. destruct Harr as (bytes & w' & m & E1 & E2 & E3 & _ & Hrec); [apply Z.leb_le; evaluate|].
    assert (heard_answer = w') as Ew by (unfold heard_answer, answer_bytes; rewrite E1; change (default [] (Some bytes)) with bytes; by rewrite E2).
    assert (arrived = m) as Em.
    { unfold arrived. rewrite Ew. destruct E3 as [(evs & -> & Hl & _) _]. by rewrite NetFacts.received_app, Hl. }
    apply (Hrec None no_choice no_choice false None node1 fetched.1 fetched.2); [evaluate|decide_by_eval|].
    rewrite <- Em, <- surjective_pairing. evaluate_some.
Defined.

Lemma virtual_network_delivers_witness :
  [("bob", Message.Clone asked)] ≡ₚ VNetFacts.heard_by 1 (VNet.events vnet2) ++ VNetFacts.waiting adapter2 ∧
  ∃ i t, ∀ now, t ≤ now → is_Some (VNet.process_turn now 1 i vnet2) ∨ is_Some (VNet.process_wake 1 i vnet2) ∨
    is_Some (VNet.process_deliver now 1 i vnet2).
Proof.
  destruct (virtual_network_delivers true vnet2 [(1%nat, ("bob", Message.Clone asked))] 1 adapter2 vnet2_reachable
    ltac:(evaluate_some)) as (H1 & _ & _ & H4).
  split; [exact H1|]. apply H4; [evaluate|].
  assert (length (VNetFacts.waiting adapter2) = 1%nat) as El by evaluate. intros E. by rewrite E in El.
Defined.

(** One worker of each kind. *)
Lemma started_node_serves_witness :
  OutboxFacts.held bob1 = [] ∧ Engine.workSignal (Outbox.engine bob1) = false.
Proof.
  destruct (started_node_serves "bob" bstore no_scores (λ _, [] : queue)
    [default id (Startup.EngineTaskWorkerCount 1); default id (Startup.TaskWorkerCount 1)]) as (_ & Hs & _).
  - apply List.Forall_cons; [by apply (Startup.o_EngineTaskWorkerCount 1)|].
    apply List.Forall_cons; [by apply (Startup.o_TaskWorkerCount 1)|apply List.Forall_nil].
  - destruct (Hs bob1 bob1_reachable ltac:(evaluate) bob1_rests) as [H1 H2].
    split; [exact H1|]. apply H2. apply Z.ltb_lt. evaluate.
Defined.

(** The session of the client has ended, and its request can be ended. *)
Lemma closed_node_settles_witness :
  Life.ended (Life.manager me6) 0 ∧
  (is_Some (Delivery.forward_drop 0 (Life.notif me6)) ∨ is_Some (Delivery.forward_end 0 (Life.notif me6))).
Proof.
  destruct (closed_node_settles rand0 "me" bstore no_scores [] 1 true true true 0 me6 ∅ [] [0%nat] me6_reachable)
    as (_ & _ & _ & _ & _ & H1 & H2).
  split; [apply H1; by left|]. destruct (H2 ltac:(evaluate)) as [H3 _].
  destruct (Delivery.requests (Life.notif me6) !! 0%nat) as [r|] eqn:E; [|exfalso; by vm_compute in E].
  apply (H3 0%nat r E).
  assert ((Delivery.forwarding <$> Delivery.requests (Life.notif me6) !! 0%nat) = Some true) as Ef by evaluate.
  rewrite E in Ef. by injection Ef.
Defined.
